(* ===== verification/_CoqProject ===== *)
-Q . S2P
Prelude.v
Sql.v
GoFloat.v
GoText.v
Outbox.v
OutboxSafety.v
OutboxRun.v
Rbac.v
RbacSafety.v
PolicyStore.v
PolicyFacts.v
AclCompiler.v
AclSound.v
SnapshotCache.v
CacheSafety.v
Posture.v
PostureFacts.v
PostureStore.v
ResourcePolicy.v
PostureSafety.v
PostureRun.v
Authorization.v
AuthorizationFacts.v
ControlStream.v
ControlFacts.v
StreamSafety.v
Lease.v
NetTarget.v
DataPlane.v
DataPlaneFacts.v
DataPlaneSafety.v
ResourceHost.v
ResourceStore.v
ResourceFacts.v
ResourceSafety.v
ResourceRoutes.v
SnapshotText.v
ShieldAgent.v
ShieldFacts.v
ShieldSafety.v
ShieldRun.v
ResourceApi.v
Reconcile.v
NameMap.v
Dns.v
Conc.v
Rely.v
Sessions.v
SessionFacts.v
SessionSafety.v
Coalescer.v
Provider.v
ProviderFacts.v
ProviderSafety.v
ProviderRun.v
GoNet.v
RelayPool.v
Relay.v
RelaySafety.v
RelayRun.v
