(* ===== verification/Prelude.v ===== *)
(** * Zecurity: a verification library

    Zecurity gives devices access to private resources.  A controller (Go,
    PostgreSQL) keeps the policy; connectors (Rust) in the private networks
    admit the devices' tunnels; shields protect single hosts; relays forward
    bytes.  This library models the parts in which a mistake gives access that
    nobody granted or loses work that was promised, and proves them correct.

    ** Parts and files

    - [Prelude], [Sql], [GoFloat], [GoText]: what all parts share.  Time is a
      number of nanoseconds; a table is a finite map from its key; a handler is
      a program of [sqlM], which threads the tables through its statements and
      lets any statement fail before or after it takes effect (a refused or a
      lost reply); transactions work on a copy until they commit.  [wp] states
      what holds after a program whatever statements fail.  [GoFloat] has the
      IEEE doubles of the backoff, [GoText] the Go string functions used.
    - [Outbox], [OutboxSafety], [OutboxRun] (internal/outbox): the transactional
      outbox, its store, processor and recovery.
    - [Rbac], [RbacSafety] (internal/rbac, internal/middleware/capability.go,
      graph/resolvers/directives.go and member_role.go, internal/permission,
      part of internal/idp): roles, their cache, and who may call what.
    - [PolicyStore], [PolicyFacts], [AclCompiler], [AclSound] (internal/policy
      store.go, compiler.go, preview.go): groups and rules, and the compiler of
      the access list.
    - [SnapshotCache], [CacheSafety] (internal/policy cache.go, notifier.go,
      invalidation.go): the cache of compiled lists.
    - [Posture], [PostureFacts], [PostureStore], [ResourcePolicy],
      [PostureSafety], [PostureRun] (internal/posture): device reports, profiles,
      their evaluation, and the policies that require them.
    - [Authorization], [AuthorizationFacts] (connector/src/authorization.rs):
      the connector's permission to serve, renewed by acknowledgements.
    - [ControlStream], [ControlFacts], [StreamSafety] (internal/connector
      authorization.go, control_stream.go, enrollment.go and others,
      connector.resolvers.go, migration 041): the controller's side of it:
      health reports, revocation, the streams, enrollment.
    - [Lease]: both sides together.
    - [NetTarget], [DataPlane], [DataPlaneFacts], [DataPlaneSafety]
      (connector/src name_target.rs, policy/mod.rs, session_registry.rs,
      device_tunnel.rs, fail_closed.rs): admission of tunnels and their end.
    - [ResourceHost], [ResourceStore], [ResourceFacts], [ResourceSafety]
      (internal/resource/store.go, internal/shield/heartbeat.go): protected
      resources, their life cycle and the desired set of a shield.
      [ResourceRoutes] joins the table to the compiler's reading of it;
      [SnapshotText] is the text whose hash tells two desired sets apart.
    - [ResourceApi] (graph/resolvers/resource.resolvers.go): the mutations over
      that store.  [Reconcile] (internal/connector/reconcile.go): what the
      controller does with a shield's report.
    - [ShieldAgent], [ShieldFacts], [ShieldSafety], [ShieldRun] (shield/src
      resources.rs, peer_list.rs, control_stream.rs): the agent that enforces the
      desired set, alone and together with the controller's table.
    - [NameMap] (client/src name_map.rs, dns_link.rs): the fake addresses that
      stand for DNS-name resources on a client.  [Dns] (client/src/dns.rs, part of
      net_stack.rs): the answers to DNS queries for them.
    - [Conc]: programs whose calls interleave.  [Sessions], [SessionFacts],
      [SessionSafety] (internal/auth refresh.go, session.go, valkey.go,
      logout.go, internal/identity lifecycle.go, revocation.go): login sessions.
    - [Coalescer] (internal/connector push_coalescer.go, acl_push.go): background
      work of which at most one run per key is under way.
    - [Provider], [ProviderFacts], [ProviderSafety], [ProviderRun]
      (internal/provider, internal/middleware/provider.go): the operators of the
      service, their sign-in by password and TOTP, and their management.
    - [Rely]: rely and guarantee for the programs of [Conc], thread by thread.
      [GoNet] (Go's net.ParseIP and the classes of addresses).  [RelayPool],
      [Relay], [RelaySafety], [RelayRun] (internal/relay, pki/relay.go,
      internal/connector relay_revocation.go and spiffe.go): the relays, their
      capacity labels and published list, registration, certificates, heartbeats,
      eviction and drains.

    ** How the code is modelled

    A struct is a [Record] and an enum an [Inductive] with the code's names; a
    function of the code is a definition of the same name, statements of SQL
    are functions on the tables with the columns that matter.  Where goroutines
    or tasks interleave, a step relation cuts each at the points where it takes
    a lock or runs a statement ([ostep], [cstep] of the role cache, [sstep],
    [estep], [cstep] of the streams, [lstep], [dstep], the machines of
    [ResourceSafety], [ShieldRun], [Reconcile], [NameMap] and [Coalescer]); the
    steps call the definitions of the sequential model.  Requests that make
    several calls to Valkey and the database are programs of [Conc], and a pool
    of them takes one call at a time.  Ghost fields in these states only record
    what happened.  Orders that the database or a Go map leaves open are
    chosen by a class [RowOrder].  Signing, hashing, UUID parsing, random bytes,
    kernel transactions and name lookup are arguments; so is Valkey, except in
    [Sessions], [Provider] and [Relay], which have its keys with their expiry.

    ** What is proved

    - Outbox: in every interleaving, under every fault, no event with budget is
      lost and none is tried more often than the budget allows; leases are
      exclusive; [Run] refines the transition system; the backoff is exact.
    - Access: a cached role is the current one; an operation runs only with the
      live capability; role changes keep an administrator.
    - Policy: a compiled list grants exactly what the tables grant, and the
      compiler answers; the cache never serves what an invalidation before the
      request made stale, to a call that leads its compile.
    - Posture: an evaluation that is honoured was made from the profile as it
      is; every operation keeps the tables well formed; clean-up terminates and
      removes the expired reports only.
    - Connector: it serves only on a fresh acknowledgement, and does serve when
      one arrives in time; a revocation is permanent, reaches every stream, and
      closes the connector within one freshness period of its commit whatever
      the network does; a token enrolls once.
    - Tunnels: from the tables to the tunnel, admission is exact; running
      tunnels follow the list in force and end when the connector stops serving.
    - Resources and shields: protection ends only by an administrator; names do
      not collide between networks; a generation names one desired set; the
      shield never falls back behind a set it has saved, and the current set, once
      delivered, makes its firewall drop exactly what the table protects; a
      deleted resource is reaped only when its shield has stopped enforcing it;
      every mutation tells those who depend on it.
    - Names on the client: a fake address stays its name's for good, is found
      whenever one exists, and the client accepts the names the controller stores.
      A DNS reply is decoded back to what the query and the map say, and a stored
      name leads from its query to a connection for that name.
    - Sessions, in every interleaving: revoked and spent tokens never refresh
      again, and no refresh prolongs a session.
    - Coalesced work: both implementations refine one specification, so the last
      trigger is followed by a whole run; the workers finish.
    - Operators, in every interleaving: only a super-admin who spent a TOTP step
      for the session manages operators; a step is spent once; a change of an
      operator ends that operator's sessions; a super-admin remains.
    - Relays, in every interleaving: a revoked relay has no unrevoked certificate,
      whatever provisionings and renewals overlapped; a relay is provisioned once;
      renewals of one certificate leave at most one live; certificates stay within
      the lists of the relay's row; drains leave a relay that takes connections.  A
      provisioning that is refused keeps its token.  The float comparisons of the
      capacity label are exact and its hold-down is kept.

    Theorems whose names say so ([.._is_inert], [.._may_be_stale],
    [late_resend_..], [stale_tuple_session], [same_address_crosses_networks],
    [snapshot_outlives_..], [truncateError_..], [activation_error_..],
    [any_protocol_..], [failed_apply_..], [resync_cannot_repair],
    [literal_shadowed], [refresh_races], [dotted_label],
    [confirm_enables_another_secret], [own_id_in_upper_case],
    [old_refresh_unrevokes], [failed_read_evicts]) exhibit behaviour that the
    code's comments or designs exclude.

    ** Bounds and fuel

    Loops over data are structural.  The outbox reaper and the posture clean-up
    run with as many rounds as they can need ([cleanup_complete] and
    [ReapAbandoned_spec] show that this suffices); a compile retries at most
    [maxCompileRetries] times as in the code.  The probe for a free fake address
    visits each address of the pool once, as the code's loop does.  A program of
    [Conc] is a finite tree, since no handler modelled with it loops.  The
    labels of a DNS question are read with the length of the packet as fuel, of
    which each takes a byte at least.  Counters of 64 bits wrap in the
    definitions; the theorems on the serving state assume fewer than 2^64
    requests and closures.  The freshness period is a variable of the theorems;
    the code's is [AUTHORIZATION_FRESHNESS].

    ** Not modelled

    Sockets, TLS, certificates, JSON and protobuf encoding, logging, metrics and
    the copying of bytes.  Of the controller: the placement of connectors on
    relays, the services for device clients, transport snapshots, discovery,
    sign-in with its providers, SCIM, invitations and the provider's listings;
    what a relay's change announces is a log of its id.  Of the agents: the relay, the
    connector's choice of a relay, its streams to shields, the enrollment of
    shields, and the client's packet loop.  Where a model needs one of them it is
    an argument. *)

From Stdlib Require Import ZArith Lia.
From stdpp Require Export base option list strings gmap sets fin_maps sorting.

#[export] Set Default Goal Selector "!".

(** ** Notation *)

Declare Scope zec_scope.
Delimit Scope zec_scope with zec.
Open Scope zec_scope.

(** Decidable equality as a boolean, for the code's [==] tests. *)
Notation "x ≟ y" := (bool_decide (x = y)) (at level 70, no associativity) : zec_scope.

(** ** Time

    A Go [time.Time] is the number of nanoseconds since the zero time
    (January 1, year 1, UTC), so the zero value [time.Time{}] is [0]; a
    [time.Duration] is a signed 64-bit number of nanoseconds. *)

Abbreviation time := Z (only parsing).
Abbreviation duration := Z (only parsing).

Definition Second : duration := 1000000000%Z.
Definition Minute : duration := (60 * Second)%Z.
Definition Hour : duration := (60 * Minute)%Z.

Definition minDuration : duration := (- 2 ^ 63)%Z.
Definition maxDuration : duration := (2 ^ 63 - 1)%Z.

Definition zero_time : time := 0%Z.
Definition time_IsZero (t : time) : bool := (t =? 0)%Z.
Definition time_After (t u : time) : bool := (u <? t)%Z.
Definition time_Before (t u : time) : bool := (t <? u)%Z.
Definition time_Add (t : time) (d : duration) : time := (t + d)%Z.

(** [t.Sub(u)] saturates at the bounds of [time.Duration]. *)
Definition time_Sub (t u : time) : duration :=
  Z.max minDuration (Z.min maxDuration (t - u)).

(** Seconds since the Unix epoch, [t.Unix()]. *)
Definition unixToInternal : Z := 62135596800%Z.
Definition time_Unix (t : time) : Z := (t / Second - unixToInternal)%Z.

(** ** Results *)

Inductive result (E A : Type) : Type :=
| Ok (a : A)
| Err (e : E).
Arguments Ok {E A} a.
Arguments Err {E A} e.

Definition result_bind {E A B} (m : result E A) (k : A → result E B) : result E B :=
  match m with Ok a => k a | Err e => Err e end.

Definition is_ok {E A} (m : result E A) : bool :=
  match m with Ok _ => true | Err _ => false end.

Notation "'let?' x ':=' m 'in' k" := (result_bind m (λ x, k))
  (at level 100, x pattern, m at level 99, k at level 200, right associativity) : zec_scope.

Lemma result_bind_Ok {E A B} (m : result E A) (k : A → result E B) b :
  result_bind m k = Ok b ↔ ∃ a, m = Ok a ∧ k a = Ok b.
Proof. destruct m; simpl; naive_solver. Qed.

Lemma result_bind_Err {E A B} (m : result E A) (k : A → result E B) e :
  result_bind m k = Err e ↔ m = Err e ∨ ∃ a, m = Ok a ∧ k a = Err e.
Proof. destruct m; simpl; naive_solver. Qed.

(** ** Identifiers

    A [uuid.UUID] is its canonical text ([String()], lower case with hyphens);
    identifiers that reach the code as text are parsed by [google/uuid], which
    is a parameter of the definitions that call it. *)
Abbreviation uuid := string (only parsing).

(** ** Boolean tests *)

Lemma bool_decide_refl `{EqDecision A} (x : A) : (x ≟ x) = true.
Proof. by apply bool_decide_eq_true_2. Qed.

(** Turn the boolean conditions of the code into propositions. *)
Ltac bool_simpl :=
  repeat match goal with
  | H : (_ && _) = true |- _ => apply andb_true_iff in H as [? ?]
  | H : (_ || _) = true |- _ => apply orb_true_iff in H
  | H : (_ || _) = false |- _ => apply orb_false_iff in H as [? ?]
  | H : (_ && _) = false |- _ => apply andb_false_iff in H
  | H : negb _ = true |- _ => apply negb_true_iff in H
  | H : negb _ = false |- _ => apply negb_false_iff in H
  | H : bool_decide _ = true |- _ => apply bool_decide_eq_true_1 in H
  | H : bool_decide _ = false |- _ => apply bool_decide_eq_false_1 in H
  | H : (_ <=? _)%Z = true |- _ => apply Z.leb_le in H
  | H : (_ <=? _)%Z = false |- _ => apply Z.leb_gt in H
  | H : (_ <? _)%Z = true |- _ => apply Z.ltb_lt in H
  | H : (_ <? _)%Z = false |- _ => apply Z.ltb_ge in H
  | H : (_ =? _)%Z = true |- _ => apply Z.eqb_eq in H
  | H : (_ =? _)%Z = false |- _ => apply Z.eqb_neq in H
  end.

(** Split a record-and-if definition into its branches. *)
Ltac cases :=
  repeat (case_match; simplify_eq/=); bool_simpl.

(** ** Lists *)

Lemma exists_elem_cons {A} (P : A → Prop) x (l : list A) :
  (∃ y, y ∈ x :: l ∧ P y) ↔ P x ∨ ∃ y, y ∈ l ∧ P y.
Proof. setoid_rewrite elem_of_cons. naive_solver. Qed.

(** ** Sorting keys *)

(** Rows compared by a column. *)
Definition rel_on {A B} (R : relation B) (f : A → B) : relation A := λ x y, R (f x) (f y).
#[export] Instance rel_on_dec {A B} (R : relation B) (f : A → B) `{!RelDecision R} : RelDecision (rel_on R f).
Proof. intros x y. unfold rel_on. apply _. Defined.
#[export] Instance rel_on_total {A B} (R : relation B) (f : A → B) `{!Total R} : Total (rel_on R f).
Proof. intros x y. apply (total R). Qed.
#[export] Instance rel_on_trans {A B} (R : relation B) (f : A → B) `{!Transitive R} : Transitive (rel_on R f).
Proof. intros x y z. unfold rel_on. apply (transitivity (R:=R)). Qed.

(** ** Tables

    A table is a finite map from its primary key to its rows. *)

Section tables.
Context {V : Type}.
Implicit Types (m : gmap uuid V) (c : V → bool) (f : V → V).

(** [UPDATE ... SET f WHERE id = k AND c], with the number of rows affected. *)
Definition update_where (k : uuid) c f m : Z * gmap uuid V :=
  match m !! k with
  | Some v => if c v then (1%Z, <[k := f v]> m) else (0%Z, m)
  | None => (0%Z, m)
  end.

(** [DELETE ... WHERE id = k AND c]. *)
Definition delete_where (k : uuid) c m : Z * gmap uuid V :=
  match m !! k with
  | Some v => if c v then (1%Z, delete k m) else (0%Z, m)
  | None => (0%Z, m)
  end.

(** [UPDATE ... SET f WHERE c]. *)
Definition update_all c f m : Z * gmap uuid V :=
  (Z.of_nat (size (filter (λ kv, c kv.2 = true) m)), (λ v, if c v then f v else v) <$> m).

Lemma update_where_hit k c f m v :
  m !! k = Some v → c v = true → update_where k c f m = (1%Z, <[k := f v]> m).
Proof. unfold update_where. by intros -> ->. Qed.

Lemma update_where_miss k c f m :
  (∀ v, m !! k = Some v → c v = false) → update_where k c f m = (0%Z, m).
Proof.
  unfold update_where. intros H. destruct (m !! k) as [v|]; [|done].
  by rewrite (H v).
Qed.

Lemma update_where_inv k c f m n m' :
  update_where k c f m = (n, m') →
  (n = 1%Z ∧ ∃ v, m !! k = Some v ∧ c v = true ∧ m' = <[k := f v]> m) ∨
  (n = 0%Z ∧ m' = m ∧ ∀ v, m !! k = Some v → c v = false).
Proof.
  unfold update_where. destruct (m !! k) as [v|] eqn:Hk.
  - destruct (c v) eqn:Hc; intros [= <- <-]; [left|right]; naive_solver.
  - intros [= <- <-]. right. naive_solver.
Qed.

Lemma delete_where_inv k c m n m' :
  delete_where k c m = (n, m') →
  (n = 1%Z ∧ ∃ v, m !! k = Some v ∧ c v = true ∧ m' = delete k m) ∨
  (n = 0%Z ∧ m' = m ∧ ∀ v, m !! k = Some v → c v = false).
Proof.
  unfold delete_where. destruct (m !! k) as [v|] eqn:Hk.
  - destruct (c v) eqn:Hc; intros [= <- <-]; [left|right]; naive_solver.
  - intros [= <- <-]. right. naive_solver.
Qed.

(** An invariant of the rows survives an update that establishes it. *)
Lemma map_Forall_update_where (P : uuid → V → Prop) k c f m :
  map_Forall P m → (∀ v, m !! k = Some v → c v = true → P k v → P k (f v)) →
  map_Forall P (update_where k c f m).2.
Proof.
  intros HP Hf. destruct (update_where k c f m) as [n m'] eqn:Hu.
  destruct (update_where_inv _ _ _ _ _ _ Hu) as [(_ & v & Hv & Hc & ->)|(_ & -> & _)]; [|done].
  apply map_Forall_insert_2; eauto.
Qed.
End tables.

(** A row of the updated table, by whether it is the updated one. *)
Lemma lookup_update_where {V} k c f (m : gmap uuid V) i v' :
  (update_where k c f m).2 !! i = Some v' →
  (m !! i = Some v' ∧ (i = k → c v' = false)) ∨
  (i = k ∧ ∃ v, m !! k = Some v ∧ c v = true ∧ v' = f v).
Proof.
  destruct (update_where k c f m) as [n m'] eqn:Hu.
  destruct (update_where_inv _ _ _ _ _ _ Hu) as [(_ & v & Hv & Hc & ->)|(_ & -> & Hm)]; simpl.
  - rewrite lookup_insert. case_decide; [|naive_solver]. intros [= <-]. right. naive_solver.
  - intros Hi. left. split; [done|]. intros ->. eauto.
Qed.

(** ** Counters *)

Section counters.
#[local] Open Scope Z_scope.

(** A [uint64] counter of a map, zero when absent; [++] wraps. *)
Definition count `{Countable K} (m : gmap K Z) (k : K) : Z := default 0 (m !! k).
Definition incr `{Countable K} (k : K) (m : gmap K Z) : gmap K Z :=
  <[k := (count m k + 1) mod 2 ^ 64]> m.

(** Ghost functions updated at one point. *)
Definition upd {A} `{EqDecision A} (x : A) (v : Z) (f : A → Z) : A → Z :=
  λ y, if y ≟ x then v else f y.

Lemma upd_eq {A} `{EqDecision A} (x : A) v f : upd x v f x = v.
Proof. unfold upd. by rewrite bool_decide_refl. Qed.
Lemma upd_ne {A} `{EqDecision A} (x y : A) v f : y ≠ x → upd x v f y = f y.
Proof. unfold upd. intros. by rewrite bool_decide_false. Qed.

Lemma count_incr `{Countable K} (m : gmap K Z) (n : K → Z) k :
  (∀ j, count m j = n j mod 2 ^ 64) → ∀ j, count (incr k m) j = upd k (n k + 1) n j mod 2 ^ 64.
Proof.
  intros Hm j. unfold count, incr. destruct (decide (j = k)) as [->|Hj].
  - rewrite lookup_insert_eq, upd_eq. simpl. rewrite Hm. by rewrite Zplus_mod_idemp_l.
  - rewrite lookup_insert_ne, upd_ne by done. apply Hm.
Qed.

Lemma upd_bound {A} `{EqDecision A} (x : A) (f : A → Z) b :
  (∀ y, 0 <= f y <= b) → ∀ y, 0 <= upd x (f x + 1) f y <= b + 1.
Proof. intros Hf y. unfold upd. pose proof (Hf x). pose proof (Hf y). case_bool_decide; lia. Qed.

Lemma upd_lt {A} `{EqDecision A} (x : A) (f : A → Z) c :
  (∀ y, f y < c) → ∀ y, upd x c f y < c + 1.
Proof. intros Hf y. unfold upd. case_bool_decide; [lia|]. specialize (Hf y). lia. Qed.
End counters.
