(* ===== verification/Sql.v ===== *)
(** * Database access

    The stores of the controller talk to Postgres through [pgx]: single
    statements on the pool, or a transaction ([Begin], statements, [Commit],
    with [defer tx.Rollback]).  A store's tables are a state [S]; a program of
    type [sqlM S E A] threads a [world] that holds the committed state, the
    working copy of an open transaction, and a schedule of the connection
    failures that the statements will meet, so the theorems about a store
    operation quantify over every statement that can fail.  A statement can
    fail before the server runs it, or after: then the caller sees an error
    although a pool statement, or a [Commit], has taken effect.

    Statements of different
    transactions interleave only at the points where the code takes no row
    lock; each component says which of its operations are single steps. *)

From S2P Require Import Prelude.

(** The driver errors the code tells apart ([pgconn.PgError] codes). *)
Inductive sql_error :=
| ConnError (* the server did not run the statement *)
| ReplyLost (* the server ran it, the connection broke before the reply *)
| UniqueViolation
| ForeignKeyViolation
| CheckViolation
| InvalidText. (* not valid UTF-8, refused for a text column *)

#[export] Instance sql_error_eq_dec : EqDecision sql_error.
Proof. solve_decision. Defined.

(** An error of an operation: a wrapped driver error, labelled with the
    message of its [fmt.Errorf], or one of the package's own errors. *)
Inductive err (E : Type) : Type :=
| Sql (label : string) (e : sql_error)
| App (e : E).
Arguments Sql {E} label e.
Arguments App {E} e.

(** What happens to the next statement's round trip. *)
Inductive fault := NoFault | Refused | Lost.
#[export] Instance fault_eq_dec : EqDecision fault.
Proof. solve_decision. Defined.

(** The errors after which the caller cannot know whether it took effect. *)
Definition reply_lost {E} (e : err E) : bool :=
  match e with Sql _ ReplyLost => true | _ => false end.

(** The constraint violations the stores tell apart. *)
Definition isUniqueViolation {E} (e : err E) : bool :=
  match e with Sql _ UniqueViolation => true | _ => false end.
Definition isForeignKeyViolation {E} (e : err E) : bool :=
  match e with Sql _ ForeignKeyViolation => true | _ => false end.

Record world (S : Type) : Type := World {
  committed : S;
  working : option S;
  faults : list fault
}.
Arguments World {S} committed working faults.
Arguments committed {S} w : rename.
Arguments working {S} w : rename.
Arguments faults {S} w : rename.

Definition sqlM (S E A : Type) : Type := world S → result (err E) A * world S.

(** A statement reads and writes the state it runs on, or is refused. *)
Definition stmt (S A : Type) : Type := S → result sql_error (A * S).

Definition query {S A} (f : S → A) : stmt S A := λ s, Ok (f s, s).
Definition exec {S A} (f : S → A * S) : stmt S A := λ s, Ok (f s).

Section monad.
Context {S E : Type}.

Definition ret {A} (a : A) : sqlM S E A := λ w, (Ok a, w).
Definition fail {A} (e : E) : sqlM S E A := λ w, (Err (App e), w).
Definition raise {A} (e : err E) : sqlM S E A := λ w, (Err e, w).

Definition bind {A B} (m : sqlM S E A) (k : A → sqlM S E B) : sqlM S E B := λ w,
  match m w with
  | (Ok a, w') => k a w'
  | (Err e, w') => (Err e, w')
  end.

(** Run [m] and hand its error to the continuation. *)
Definition attempt {A} (m : sqlM S E A) : sqlM S E (result (err E) A) := λ w,
  let '(r, w') := m w in (Ok r, w').

Definition next_fault (w : world S) : fault := default NoFault (head (faults w)).
Definition step_fault (w : world S) : world S :=
  World (committed w) (working w) (tail (faults w)).

(** A statement on the pool takes effect at once. *)
Definition pool_stmt {A} (label : string) (f : stmt S A) : sqlM S E A := λ w,
  match next_fault w with
  | Refused => (Err (Sql label ConnError), step_fault w)
  | nf =>
      match f (committed w) with
      | Ok (a, s) =>
          (if nf ≟ Lost then Err (Sql label ReplyLost) else Ok a,
           World s (working w) (tail (faults w)))
      | Err e => (Err (Sql label e), step_fault w)
      end
  end.

(** A statement of the open transaction works on its copy; a broken
    connection ends the transaction, whichever side of the reply it hits. *)
Definition tx_stmt {A} (label : string) (f : stmt S A) : sqlM S E A := λ w,
  match next_fault w, working w with
  | NoFault, Some s =>
      match f s with
      | Ok (a, s') => (Ok a, World (committed w) (Some s') (tail (faults w)))
      | Err e => (Err (Sql label e), step_fault w)
      end
  | _, _ => (Err (Sql label ConnError), step_fault w)
  end.

Definition begin_tx (label : string) : sqlM S E () := λ w,
  match next_fault w with
  | NoFault => (Ok tt, World (committed w) (Some (committed w)) (tail (faults w)))
  | _ => (Err (Sql label ConnError), step_fault w)
  end.

Definition commit_tx (label : string) : sqlM S E () := λ w,
  match next_fault w, working w with
  | NoFault, Some s => (Ok tt, World s None (tail (faults w)))
  | Lost, Some s => (Err (Sql label ReplyLost), World s None (tail (faults w)))
  | _, _ => (Err (Sql label ConnError), step_fault w)
  end.

(** [tx, err := pool.Begin(ctx); defer tx.Rollback(ctx)] around [body]. *)
Definition with_tx {A} (label : string) (body : sqlM S E A) : sqlM S E A := λ w,
  match begin_tx label w with
  | (Err e, w') => (Err e, w')
  | (Ok _, w') =>
      let '(r, w'') := body w' in (r, World (committed w'') None (faults w''))
  end.

(** The run of [m] on tables [s] when no statement fails. *)
Definition run {A} (m : sqlM S E A) (s : S) : result (err E) A * S :=
  let '(r, w) := m (World s None []) in (r, committed w).
End monad.

Notation "'let!' x ':=' m 'in' k" := (bind m (λ x, k))
  (at level 100, x pattern, m at level 99, k at level 200, right associativity) : zec_scope.
Notation "m ;;; k" := (bind m (λ _, k)) (at level 100, right associativity) : zec_scope.

(** ** Atomicity and invariants, compositionally *)

Create HintDb sql.

Section laws.
Context {S E : Type}.
Implicit Types w : world S.

(** [m] never touches the committed tables. *)
Definition keeps {A} (m : sqlM S E A) : Prop :=
  ∀ w, committed (m w).2 = committed w.

(** [m] leaves the committed tables alone whenever it returns an error,
    except when only the reply was lost. *)
Definition atomic {A} (m : sqlM S E A) : Prop :=
  ∀ w e, (m w).1 = Err e → reply_lost e = false → committed (m w).2 = committed w.

Lemma keeps_atomic {A} (m : sqlM S E A) : keeps m → atomic m.
Proof. intros Hm w e _ _. apply Hm. Qed.

Lemma keeps_ret {A} (a : A) : keeps (ret a).
Proof. done. Qed.
Lemma keeps_fail {A} (e : E) : keeps (fail (A:=A) e).
Proof. done. Qed.
Lemma keeps_raise {A} (e : err E) : keeps (raise (A:=A) e).
Proof. done. Qed.
Lemma keeps_tx_stmt {A} label (f : stmt S A) : keeps (tx_stmt label f).
Proof. intros w. unfold tx_stmt. by repeat case_match. Qed.
Lemma keeps_pool_query {A} label (f : S → A) : keeps (pool_stmt label (query f)).
Proof. intros w. unfold pool_stmt, query. by repeat case_match; simplify_eq/=. Qed.
Lemma keeps_bind {A B} (m : sqlM S E A) (k : A → sqlM S E B) :
  keeps m → (∀ a, keeps (k a)) → keeps (bind m k).
Proof.
  intros Hm Hk w. unfold bind. specialize (Hm w).
  destruct (m w) as [[a|e] w']; simpl in *; [by rewrite Hk|done].
Qed.
Lemma keeps_attempt {A} (m : sqlM S E A) : keeps m → keeps (attempt m).
Proof. intros Hm w. unfold attempt. specialize (Hm w). by destruct (m w). Qed.
Lemma keeps_begin label : keeps (begin_tx label).
Proof. intros w. unfold begin_tx. by case_match. Qed.
Lemma keeps_with_tx {A} label (body : sqlM S E A) : keeps body → keeps (with_tx label body).
Proof.
  intros Hb w. unfold with_tx. pose proof (keeps_begin label w) as Hbeg.
  destruct (begin_tx label w) as [[[]|e] w']; [|done].
  specialize (Hb w'). destruct (body w') as [r w'']; simpl in *. congruence.
Qed.

Lemma atomic_pool_stmt {A} label (f : stmt S A) : atomic (pool_stmt label f).
Proof. intros w e. unfold pool_stmt. by repeat case_match; intros; simplify_eq/=. Qed.
Lemma atomic_commit label : atomic (commit_tx label).
Proof. intros w e. unfold commit_tx. by repeat case_match; intros; simplify_eq/=. Qed.
Lemma atomic_bind {A B} (m : sqlM S E A) (k : A → sqlM S E B) :
  keeps m → (∀ a, atomic (k a)) → atomic (bind m k).
Proof.
  intros Hm Hk w e. unfold bind. specialize (Hm w).
  destruct (m w) as [[a|e'] w']; simpl in *; [|done].
  intros He Hr. by rewrite (Hk _ _ _ He Hr).
Qed.
(** After the last write only a value is returned. *)
Lemma atomic_bind_ret {A B} (m : sqlM S E A) (f : A → B) :
  atomic m → atomic (bind m (λ a, ret (f a))).
Proof.
  intros Hm w e. unfold bind. specialize (Hm w).
  destruct (m w) as [[a|e'] w']; simpl in *; [done|].
  intros [= ->] Hr. by apply (Hm e).
Qed.
Lemma atomic_with_tx {A} label (body : sqlM S E A) :
  atomic body → atomic (with_tx label body).
Proof.
  intros Hb w e. unfold with_tx. pose proof (keeps_begin label w) as Hbeg.
  destruct (begin_tx label w) as [[[]|e'] w']; [|done].
  specialize (Hb w'). destruct (body w') as [r w'']; simpl in *.
  intros -> Hr. rewrite <-Hbeg. by apply (Hb e).
Qed.

(** [m] preserves [I] on the committed tables and on the working copy. *)
Definition winv (I : S → Prop) w : Prop :=
  I (committed w) ∧ ∀ s, working w = Some s → I s.
Definition preserves {A} (I : S → Prop) (m : sqlM S E A) : Prop :=
  ∀ w, winv I w → winv I (m w).2.
Definition stmt_preserves {A} (I : S → Prop) (f : stmt S A) : Prop :=
  ∀ s a s', I s → f s = Ok (a, s') → I s'.

Lemma stmt_preserves_query {A} I (f : S → A) : stmt_preserves I (query f).
Proof. intros s a s' Hs [= <- <-]. done. Qed.
Lemma preserves_ret {A} I (a : A) : preserves I (ret a).
Proof. by intros w. Qed.
Lemma preserves_fail {A} I (e : E) : preserves I (fail (A:=A) e).
Proof. by intros w. Qed.
Lemma preserves_raise {A} I (e : err E) : preserves I (raise (A:=A) e).
Proof. by intros w. Qed.
Lemma preserves_bind {A B} I (m : sqlM S E A) (k : A → sqlM S E B) :
  preserves I m → (∀ a, preserves I (k a)) → preserves I (bind m k).
Proof.
  intros Hm Hk w Hw. unfold bind. specialize (Hm w Hw).
  destruct (m w) as [[a|e] w']; simpl in *; [by apply Hk|done].
Qed.
Lemma preserves_attempt {A} I (m : sqlM S E A) :
  preserves I m → preserves I (attempt m).
Proof. intros Hm w Hw. unfold attempt. specialize (Hm w Hw). by destruct (m w). Qed.
Lemma preserves_pool_stmt {A} I label (f : stmt S A) :
  stmt_preserves I f → preserves I (pool_stmt label f).
Proof.
  intros Hf w [Hc Hw]. unfold pool_stmt, winv.
  repeat case_match; simplify_eq/=; eauto.
Qed.
Lemma preserves_tx_stmt {A} I label (f : stmt S A) :
  stmt_preserves I f → preserves I (tx_stmt label f).
Proof.
  intros Hf w [Hc Hw]. unfold tx_stmt, winv.
  repeat case_match; simplify_eq/=; split; intros; simplify_eq/=; eauto.
Qed.
Lemma preserves_commit I label : preserves I (commit_tx label).
Proof.
  intros w [Hc Hw]. unfold commit_tx, winv.
  repeat case_match; simplify_eq/=; split; intros; simplify_eq/=; eauto.
Qed.
Lemma preserves_with_tx {A} I label (body : sqlM S E A) :
  preserves I body → preserves I (with_tx label body).
Proof.
  intros Hb w [Hc Hw]. unfold with_tx, begin_tx. destruct (next_fault w); [|by split..].
  specialize (Hb (World (committed w) (Some (committed w)) (tail (faults w)))).
  destruct (body _) as [r w'']; simpl in *.
  destruct Hb as [Hc' _]; [|by split]. split; simpl; [done|]. by intros s [= <-].
Qed.
End laws.

#[export] Hint Resolve keeps_atomic : sql.
#[export] Hint Resolve keeps_ret keeps_fail keeps_raise keeps_tx_stmt keeps_pool_query
  keeps_bind keeps_attempt keeps_with_tx : sql.
#[export] Hint Resolve atomic_pool_stmt atomic_commit atomic_bind_ret atomic_with_tx : sql.
#[export] Hint Resolve stmt_preserves_query preserves_ret preserves_fail preserves_raise
  preserves_bind preserves_attempt preserves_pool_stmt preserves_tx_stmt preserves_commit
  preserves_with_tx : sql.

(** Discharge [keeps]/[atomic]/[preserves] goals by following the program. *)
Ltac sql_solve :=
  repeat first
    [ progress intros
    | apply atomic_with_tx | apply keeps_with_tx | apply preserves_with_tx
    | apply preserves_bind | apply keeps_bind
    | apply atomic_bind_ret; [solve [eauto 2 with sql]]
    | apply atomic_bind
    | match goal with
      | |- context [match ?x with _ => _ end] => destruct x
      end
    | solve [eauto 3 with sql] ].

(** ** Outcomes under every schedule of failures

    [wp m c wk Q]: whatever statements fail, [m] run on committed tables [c]
    (and working copy [wk]) ends in a result, tables and a working copy that
    satisfy [Q]. *)

Section outcomes.
Context {S E : Type}.

Definition wp {A} (m : sqlM S E A) (c : S) (wk : option S)
    (Q : result (err E) A → S → option S → Prop) : Prop :=
  ∀ fs, let '(r, w) := m (World c wk fs) in Q r (committed w) (working w).

Lemma wp_mono {A} (m : sqlM S E A) c wk (Q Q' : result (err E) A → S → option S → Prop) :
  (∀ r c' wk', Q r c' wk' → Q' r c' wk') → wp m c wk Q → wp m c wk Q'.
Proof. intros HQ Hm fs. specialize (Hm fs). destruct (m _). by apply HQ. Qed.

Lemma wp_ret {A} (a : A) c wk (Q : result (err E) A → S → option S → Prop) :
  Q (Ok a) c wk → wp (ret a) c wk Q.
Proof. by intros HQ fs. Qed.
Lemma wp_fail {A} e c wk (Q : result (err E) A → S → option S → Prop) :
  Q (Err (App e)) c wk → wp (fail e) c wk Q.
Proof. by intros HQ fs. Qed.
Lemma wp_raise {A} e c wk (Q : result (err E) A → S → option S → Prop) :
  Q (Err e) c wk → wp (raise e) c wk Q.
Proof. by intros HQ fs. Qed.
Lemma wp_bind {A B} (m : sqlM S E A) (k : A → sqlM S E B) c wk Q :
  wp m c wk (λ r c' wk', match r with
                         | Ok a => wp (k a) c' wk' Q
                         | Err e => Q (Err e) c' wk'
                         end) →
  wp (bind m k) c wk Q.
Proof.
  intros Hm fs. specialize (Hm fs). unfold bind.
  destruct (m _) as [[a|e] [c' wk' fs']]; [by apply Hm|done].
Qed.
Lemma wp_attempt {A} (m : sqlM S E A) c wk Q :
  wp m c wk (λ r, Q (Ok r)) → wp (attempt m) c wk Q.
Proof. intros Hm fs. specialize (Hm fs). unfold attempt. by destruct (m _). Qed.

Lemma wp_pool_stmt {A} label (f : stmt S A) c wk (Q : result (err E) A → S → option S → Prop) :
  (∀ e, e = ConnError ∨ f c = Err e → Q (Err (Sql label e)) c wk) →
  (∀ a c', f c = Ok (a, c') → Q (Ok a) c' wk ∧ Q (Err (Sql label ReplyLost)) c' wk) →
  wp (pool_stmt label f) c wk Q.
Proof.
  intros He Ho fs. unfold pool_stmt. simpl.
  destruct (next_fault _), (f c) as [[a c']|e]; simpl; try (by apply He; auto); by apply (Ho a).
Qed.
(** A read on the pool never changes the tables. *)
Lemma wp_pool_query {A} label (f : S → A) c wk (Q : result (err E) A → S → option S → Prop) :
  (∀ e, Q (Err (Sql label e)) c wk) → Q (Ok (f c)) c wk → wp (pool_stmt label (query f)) c wk Q.
Proof. intros He Ho. apply wp_pool_stmt; [auto|]. intros a c' [= <- <-]. auto. Qed.
Lemma wp_tx_stmt {A} label (f : stmt S A) c s (Q : result (err E) A → S → option S → Prop) :
  (∀ e, e = ConnError ∨ f s = Err e → Q (Err (Sql label e)) c (Some s)) →
  (∀ a s', f s = Ok (a, s') → Q (Ok a) c (Some s')) →
  wp (tx_stmt label f) c (Some s) Q.
Proof.
  intros He Ho fs. unfold tx_stmt. simpl.
  destruct (next_fault _), (f s) as [[a s']|e]; simpl; auto.
Qed.
Lemma wp_tx_query {A} label (f : S → A) c s (Q : result (err E) A → S → option S → Prop) :
  (∀ e, Q (Err (Sql label e)) c (Some s)) → Q (Ok (f s)) c (Some s) →
  wp (tx_stmt label (query f)) c (Some s) Q.
Proof. intros He Ho. apply wp_tx_stmt; [auto|]. by intros a c' [= <- <-]. Qed.
Lemma wp_commit label c s (Q : result (err E) () → S → option S → Prop) :
  Q (Err (Sql label ConnError)) c (Some s) → Q (Ok tt) s None → Q (Err (Sql label ReplyLost)) s None →
  wp (commit_tx label) c (Some s) Q.
Proof. intros He Ho Hl fs. unfold commit_tx. by destruct (next_fault _). Qed.
Lemma wp_with_tx {A} label (body : sqlM S E A) c wk Q :
  Q (Err (Sql label ConnError)) c wk → wp body c (Some c) (λ r c' _, Q r c' None) →
  wp (with_tx label body) c wk Q.
Proof.
  intros He Hb fs. unfold with_tx, begin_tx. destruct (next_fault _); simpl; [|done..].
  specialize (Hb (tail fs)). destruct (body _) as [r w]. done.
Qed.
(** [m] leaves no transaction open. *)
Definition tx_closed {A} (m : sqlM S E A) : Prop := ∀ w, working w = None → working (m w).2 = None.
Lemma tx_closed_ret {A} (a : A) : tx_closed (ret a).
Proof. by intros w. Qed.
Lemma tx_closed_fail {A} e : tx_closed (fail (A := A) e).
Proof. by intros w. Qed.
Lemma tx_closed_raise {A} e : tx_closed (raise (A := A) e).
Proof. by intros w. Qed.
Lemma tx_closed_pool_stmt {A} label (f : stmt S A) : tx_closed (pool_stmt label f).
Proof. intros w Hw. unfold pool_stmt. by repeat case_match. Qed.
Lemma tx_closed_with_tx {A} label (body : sqlM S E A) : tx_closed (with_tx label body).
Proof. intros w Hw. unfold with_tx, begin_tx. destruct (next_fault w); simpl; [by destruct (body _)|done..]. Qed.
Lemma tx_closed_bind {A B} (m : sqlM S E A) (k : A → sqlM S E B) :
  tx_closed m → (∀ a, tx_closed (k a)) → tx_closed (bind m k).
Proof. intros Hm Hk w Hw. unfold bind. specialize (Hm w Hw). destruct (m w) as [[a|e] w']; [by apply Hk|done]. Qed.
Lemma tx_closed_attempt {A} (m : sqlM S E A) : tx_closed m → tx_closed (attempt m).
Proof. intros Hm w Hw. unfold attempt. specialize (Hm w Hw). by destruct (m w). Qed.
Lemma wp_tx_closed {A} (m : sqlM S E A) c (Q : result (err E) A → S → option S → Prop) :
  tx_closed m → wp m c None Q → wp m c None (λ r c' wk, wk = None ∧ Q r c' None).
Proof.
  intros Hc Hm fs. specialize (Hm fs). specialize (Hc (World c None fs) eq_refl).
  destruct (m _) as [r w]. simpl in *. by rewrite Hc in Hm.
Qed.

(** An answer that is not looked at. *)
Lemma wp_forget {A} (m : sqlM S E A) c wk (Q : S → Prop) :
  wp m c wk (λ _ c' _, Q c') → wp (bind m (λ _, ret tt)) c wk (λ _ c' _, Q c').
Proof. intros Hm. apply wp_bind. eapply wp_mono; [|exact Hm]. intros [a|e] c' wk' Hc; [by apply wp_ret|done]. Qed.
End outcomes.

#[export] Hint Resolve tx_closed_ret tx_closed_fail tx_closed_raise tx_closed_pool_stmt tx_closed_with_tx : sql.
(** Programs of pool statements and whole transactions. *)
Ltac closed_solve :=
  repeat (cbv beta zeta; lazymatch goal with
  | |- tx_closed (bind _ _) => apply tx_closed_bind; [|intros ?]
  | |- tx_closed (attempt _) => apply tx_closed_attempt
  | |- tx_closed (match ?x with _ => _ end) => destruct x
  | |- _ => solve [eauto 2 with sql]
  end).

(** A step of a [wp] proof along the program. *)
Ltac wp_step :=
  lazymatch goal with
  | |- wp (bind _ _) _ _ _ => apply wp_bind
  | |- wp (ret _) _ _ _ => apply wp_ret
  | |- wp (fail _) _ _ _ => apply wp_fail
  | |- wp (raise _) _ _ _ => apply wp_raise
  | |- wp (attempt _) _ _ _ => apply wp_attempt
  | |- wp (with_tx _ _) _ _ _ => apply wp_with_tx
  | |- wp (commit_tx _) _ _ _ => apply wp_commit
  | |- wp (pool_stmt _ (query _)) _ _ _ => apply wp_pool_query; [intros ?|]
  | |- wp (tx_stmt _ (query _)) _ _ _ => apply wp_tx_query; [intros ?|]
  | |- wp (pool_stmt _ _) _ _ _ => apply wp_pool_stmt; [intros ? ?|intros ? ? ?; split]
  | |- wp (tx_stmt _ _) _ _ _ => apply wp_tx_stmt; [intros ? ?|intros ? ? ?]
  | |- wp (match ?x with _ => _ end) _ _ _ => let H := fresh "Hif" in destruct x eqn:H
  end.

(** Follow the program; the leaves are left as goals on the postcondition. *)
Ltac wp_go := repeat (wp_step; cbn beta iota).

(** ** Runs without faults *)

Section runs.
Context {S E : Type}.

(** With no fault to come, [m] returns [a] and leaves [s']. *)
Definition runs {A} (m : sqlM S E A) (s : S) (a : A) (s' : S) : Prop :=
  m (World s None []) = (Ok a, World s' None []).

Lemma runs_run {A} (m : sqlM S E A) s a s' : runs m s a s' → run m s = (Ok a, s').
Proof. unfold runs, run. by intros ->. Qed.
Lemma runs_ret {A} (a : A) s : runs (ret a) s a s.
Proof. done. Qed.
Lemma runs_bind {A B} (m : sqlM S E A) (k : A → sqlM S E B) s a s1 b s2 :
  runs m s a s1 → runs (k a) s1 b s2 → runs (bind m k) s b s2.
Proof. unfold runs, bind. by intros -> ->. Qed.
Lemma runs_pool_query {A} label (q : S → A) s : runs (pool_stmt label (query q)) s (q s) s.
Proof. done. Qed.
End runs.

(** ** Row order *)

(** The database's choice of row order where a query names none. *)
Class RowOrder := {
  ord : ∀ {A : Type}, list A → list A;
  ord_perm : ∀ {A : Type} (l : list A), ord l ≡ₚ l
}.

(** The order of the table scan is one such choice. *)
Definition scan_order : RowOrder := {| ord := λ A l, l; ord_perm := λ A l, Permutation_refl l |}.

Lemma ord_elem `{RowOrder} {A} (l : list A) x : x ∈ ord l ↔ x ∈ l.
Proof. by rewrite ord_perm. Qed.
