(* ===== verification/GoFloat.v ===== *)
(** * Go's [float64] arithmetic, as far as the controller uses it

    Three packages compute with floats: the outbox backoff ([2^n * base]), the
    relay fill ratio ([count / max]) and the configuration checks.  A finite
    float is [m * 2^e]; division and integer conversion round to nearest, ties
    to even, on 53 bits.  The operands are at most 64-bit integers, so neither
    overflow of the exponent nor subnormals occur. *)

From Stdlib Require Import ZArith Lia.
From S2P Require Import Prelude.
Open Scope Z_scope.

Inductive float64 :=
| Finite (m e : Z)
| Infinite (negative : bool)
| NaN.

(** [x < n] and [x > n] against a small integer constant, as in the range
    checks of the configuration; comparisons with NaN are false. *)
Definition f64_lt_int (x : float64) (n : Z) : bool :=
  match x with
  | Finite m e => if 0 <=? e then m * 2 ^ e <? n else m <? n * 2 ^ (- e)
  | Infinite neg => neg
  | NaN => false
  end.
Definition f64_gt_int (x : float64) (n : Z) : bool :=
  match x with
  | Finite m e => if 0 <=? e then n <? m * 2 ^ e else n * 2 ^ (- e) <? m
  | Infinite neg => negb neg
  | NaN => false
  end.

(** ** Rounding *)

(** [n / d] rounded to the nearest integer, ties to even ([0 ≤ n], [0 < d]). *)
Definition rne (n d : Z) : Z :=
  let q := n / d in
  let r := n mod d in
  if 2 * r <? d then q
  else if d <? 2 * r then q + 1
  else if Z.even q then q else q + 1.

(** The quotient [n / d] as a float64: a 53-bit mantissa and the exponent [e]
    with [2^52 ≤ n / d / 2^e < 2^53]. *)
Definition scale (n d e : Z) : Z * Z :=
  if 0 <=? e then (n, d * 2 ^ e) else (n * 2 ^ (- e), d).
Definition fl_exp (n d : Z) : Z :=
  let e := Z.log2 n - Z.log2 d - 52 in
  let '(a, b) := scale n d e in
  if a / b <? 2 ^ 52 then e - 1 else e.
Definition fl_ratio (n d : Z) : Z * Z :=
  if n =? 0 then (0, 0)
  else let e := fl_exp n d in let '(a, b) := scale n d e in (rne a b, e).

(** [float64(z)] of an int64. *)
Definition fl_of_int (z : Z) : Z * Z :=
  let '(m, e) := fl_ratio (Z.abs z) 1 in (Z.sgn z * m, e).

(** Multiplication by [2^k] is exact. *)
Definition fl_mul_pow2 (x : Z * Z) (k : Z) : Z * Z := (x.1, x.2 + k).

(** [x >= y] and [x < y] on finite floats. *)
Definition fl_ge (x y : Z * Z) : bool :=
  let e := Z.min x.2 y.2 in y.1 * 2 ^ (y.2 - e) <=? x.1 * 2 ^ (x.2 - e).
Definition fl_lt (x y : Z * Z) : bool := negb (fl_ge x y).

(** [int64(x)]: truncation; Go leaves the result implementation-defined when it
    does not fit.  amd64 produces the smallest int64, arm64 saturates. *)
Inductive arch := amd64 | arm64.

Definition fl_trunc (x : Z * Z) : Z :=
  if 0 <=? x.2 then x.1 * 2 ^ x.2 else Z.quot x.1 (2 ^ (- x.2)).
Definition int64_of_fl (a : arch) (x : Z * Z) : Z :=
  let v := fl_trunc x in
  if (- 2 ^ 63 <=? v) && (v <=? 2 ^ 63 - 1) then v
  else match a with
       | amd64 => - 2 ^ 63
       | arm64 => if v <? 0 then - 2 ^ 63 else 2 ^ 63 - 1
       end.

(** ** Facts about rounding *)

Lemma rne_bound n d : 0 <= n → 0 < d → 2 * Z.abs (d * rne n d - n) <= d.
Proof.
  intros Hn Hd. unfold rne.
  pose proof (Z.div_mod n d ltac:(lia)). pose proof (Z.mod_pos_bound n d Hd).
  destruct (Z.ltb_spec (2 * (n mod d)) d); [lia|].
  destruct (Z.ltb_spec d (2 * (n mod d))); [lia|].
  destruct (Z.even _); lia.
Qed.

Lemma rne_exact n d : 0 < d → rne (n * d) d = n.
Proof.
  intros Hd. unfold rne. rewrite Z.mod_mul, Z.div_mul by lia.
  by destruct (Z.ltb_spec (2 * 0) d); [|lia].
Qed.

Lemma log2_ratio n d :
  0 < n → 0 < d →
  let g := Z.log2 n - Z.log2 d in
  (g <= 0 → d < 2 * (n * 2 ^ (- g)) ∧ n * 2 ^ (- g) < 2 * d) ∧
  (0 <= g → d * 2 ^ g < 2 * n ∧ n < 2 * (d * 2 ^ g)).
Proof.
  intros Hn Hd g.
  destruct (Z.log2_spec n Hn) as [Hn1 Hn2]. destruct (Z.log2_spec d Hd) as [Hd1 Hd2].
  rewrite Z.pow_succ_r in Hn2, Hd2 by apply Z.log2_nonneg.
  pose proof (Z.log2_nonneg n). pose proof (Z.log2_nonneg d).
  split; intros Hg.
  - assert (2 ^ Z.log2 d = 2 ^ Z.log2 n * 2 ^ (- g)) as E.
    { rewrite <-Z.pow_add_r by lia. f_equal. lia. }
    assert (0 < 2 ^ (- g)) by (apply Z.pow_pos_nonneg; lia). nia.
  - assert (2 ^ Z.log2 n = 2 ^ Z.log2 d * 2 ^ g) as E.
    { rewrite <-Z.pow_add_r by lia. f_equal. lia. }
    assert (0 < 2 ^ g) by (apply Z.pow_pos_nonneg; lia). nia.
Qed.

(** [scale n d e] is the fraction [n / (d * 2^e)]; one step of the exponent
    halves or doubles it. *)
Lemma scale_pred n d e :
  let '(a, b) := scale n d e in
  let '(a', b') := scale n d (e - 1) in
  a' * b = 2 * a * b'.
Proof.
  unfold scale.
  destruct (Z.leb_spec 0 e) as [He|He].
  - destruct (Z.leb_spec 0 (e - 1)) as [He'|He'].
    + replace (2 ^ e) with (2 * 2 ^ (e - 1)); [ring|].
      rewrite <-Z.pow_succ_r by lia. f_equal. lia.
    + assert (e = 0) as -> by lia. change (2 ^ (- (0 - 1))) with 2.
      rewrite Z.pow_0_r. ring.
  - destruct (Z.leb_spec 0 (e - 1)) as [He'|He']; [exfalso; lia|].
    replace (2 ^ (- (e - 1))) with (2 * 2 ^ (- e)); [ring|].
    rewrite <-Z.pow_succ_r by lia. f_equal. lia.
Qed.

Lemma scale_pos n d e : 0 < n → 0 < d → 0 < (scale n d e).1 ∧ 0 < (scale n d e).2.
Proof.
  intros. unfold scale. destruct (Z.leb_spec 0 e); simpl; split; lia.
Qed.

(** The first guess of [fl_exp] is off by at most one binade. *)
Lemma scale_guess n d :
  0 < n → 0 < d →
  let '(a, b) := scale n d (Z.log2 n - Z.log2 d - 52) in
  2 ^ 51 * b < a < 2 ^ 53 * b.
Proof.
  intros Hn Hd. destruct (log2_ratio n d Hn Hd) as [Hlo Hhi].
  set (g := Z.log2 n - Z.log2 d) in *. unfold scale.
  destruct (Z.leb_spec 0 (g - 52)).
  - destruct Hhi as [H1 H2]; [lia|].
    replace (2 ^ g) with (2 ^ (g - 52) * 2 ^ 52) in H1, H2
      by (rewrite <-Z.pow_add_r by lia; f_equal; lia). lia.
  - destruct (Z.le_gt_cases g 0) as [Hg|Hg].
    + destruct Hlo as [H1 H2]; [lia|].
      replace (2 ^ (- (g - 52))) with (2 ^ (- g) * 2 ^ 52)
        by (rewrite <-Z.pow_add_r by lia; f_equal; lia). lia.
    + destruct Hhi as [H1 H2]; [lia|].
      assert (2 ^ g * 2 ^ (- (g - 52)) = 2 ^ 52) as E
        by (rewrite <-Z.pow_add_r by lia; f_equal; lia).
      assert (0 < 2 ^ (- (g - 52))) by (apply Z.pow_pos_nonneg; lia). nia.
Qed.

(** The exponent of [fl_ratio] puts the quotient into [2^52, 2^53). *)
Lemma fl_exp_spec n d :
  0 < n → 0 < d →
  let '(a, b) := scale n d (fl_exp n d) in
  0 < b ∧ 2 ^ 52 * b <= a < 2 ^ 53 * b.
Proof.
  intros Hn Hd. unfold fl_exp. set (e := Z.log2 n - Z.log2 d - 52).
  pose proof (scale_guess n d Hn Hd) as Hg. fold e in Hg.
  pose proof (scale_pred n d e) as Hp.
  pose proof (scale_pos n d e Hn Hd) as [_ Hb].
  pose proof (scale_pos n d (e - 1) Hn Hd) as [_ Hb'].
  destruct (scale n d e) as [a b] eqn:Es. simpl in *.
  destruct (Z.ltb_spec (a / b) (2 ^ 52)) as [Hlt|Hge].
  - destruct (scale n d (e - 1)) as [a' b']. simpl in *.
    assert (a < 2 ^ 52 * b).
    { pose proof (Z.div_mod a b ltac:(lia)). pose proof (Z.mod_pos_bound a b Hb). nia. }
    split; [done|]. nia.
  - rewrite Es. split; [done|].
    pose proof (Z.div_mod a b ltac:(lia)). pose proof (Z.mod_pos_bound a b Hb). nia.
Qed.

(** Comparing a rounded quotient with a rounded constant decides the exact
    comparison, when the operands are 32-bit and the constant is a fraction
    [p / q] in (0, 1) with a small denominator: the rounding error is far below
    the gap between the two fractions. *)
Section threshold.
Context (p q Tm j : Z).
Hypothesis Hp : 0 < p.
Hypothesis Hq : 0 < q <= 20.
Hypothesis Hpq : p < q.
Hypothesis Hj : 53 <= j.
Hypothesis Hbin : 2 ^ 52 * q <= p * 2 ^ j < 2 ^ 53 * q.
Hypothesis HTm : 2 * Z.abs (q * Tm - p * 2 ^ j) < q.

Lemma threshold_mantissa : 2 ^ 52 <= Tm <= 2 ^ 53.
Proof using All.
  split; apply Z.nlt_ge; intros H.
  - assert (q * Tm <= q * (2 ^ 52 - 1)) by (apply Z.mul_le_mono_nonneg_l; lia). lia.
  - assert (q * (2 ^ 53 + 1) <= q * Tm) by (apply Z.mul_le_mono_nonneg_l; lia). lia.
Qed.

(** The rounding errors, scaled by [q * d], stay below [2^(j+k)]. *)
Lemma error_bound d K J :
  0 < d < 2 ^ 32 → 2 ^ 52 < K → 2 ^ 53 <= J →
  q * d * K + q * d * J < 2 * (J * K).
Proof using All.
  intros Hd HK HJ.
  assert (0 < q * d <= 2 ^ 37) as Hqd.
  { split; [lia|].
    transitivity (20 * 2 ^ 32); [apply Z.mul_le_mono_nonneg; lia|lia]. }
  assert (q * d * K <= 2 ^ 37 * K) by (apply Z.mul_le_mono_nonneg_r; lia).
  assert (q * d * J <= 2 ^ 37 * J) by (apply Z.mul_le_mono_nonneg_r; lia).
  assert (2 ^ 53 * K <= J * K) by (apply Z.mul_le_mono_nonneg_r; lia).
  assert (J * 2 ^ 52 <= J * K) by (apply Z.mul_le_mono_nonneg_l; lia).
  lia.
Qed.

(** [n/d] above [p/q]: the rounded mantissa is not below the constant's. *)
Lemma mantissa_above n d K J R :
  0 < d < 2 ^ 32 → 2 ^ 52 < K → 2 ^ 53 <= J → p * d < q * n →
  2 * (q * Tm) <= 2 * (p * J) + q → 2 * (n * K) - d <= 2 * (d * R) →
  Tm * K <= R * J.
Proof using All.
  intros Hd HK HJ Hlt E1 E2. pose proof (error_bound d K J Hd HK HJ).
  assert (2 * (q * Tm) * (d * K) <= (2 * (p * J) + q) * (d * K)) as F1
    by (apply Z.mul_le_mono_nonneg_r; lia).
  assert ((2 * (n * K) - d) * (q * J) <= 2 * (d * R) * (q * J)) as F2
    by (apply Z.mul_le_mono_nonneg_r; lia).
  assert ((p * d + 1) * (J * K) <= q * n * (J * K)) as F3
    by (apply Z.mul_le_mono_nonneg_r; lia).
  apply (Z.mul_le_mono_pos_l _ _ (q * d)); lia.
Qed.

Lemma mantissa_below n d K J R :
  0 < d < 2 ^ 32 → 2 ^ 52 < K → 2 ^ 53 <= J → q * n < p * d →
  2 * (p * J) - q <= 2 * (q * Tm) → 2 * (d * R) <= 2 * (n * K) + d →
  R * J < Tm * K.
Proof using All.
  intros Hd HK HJ Hlt E1 E2. pose proof (error_bound d K J Hd HK HJ).
  assert ((2 * (p * J) - q) * (d * K) <= 2 * (q * Tm) * (d * K)) as F1
    by (apply Z.mul_le_mono_nonneg_r; lia).
  assert (2 * (d * R) * (q * J) <= (2 * (n * K) + d) * (q * J)) as F2
    by (apply Z.mul_le_mono_nonneg_r; lia).
  assert ((q * n + 1) * (J * K) <= p * d * (J * K)) as F3
    by (apply Z.mul_le_mono_nonneg_r; lia).
  apply (Z.mul_lt_mono_pos_l (q * d)); lia.
Qed.

(** Equal fractions round to the same mantissa and exponent. *)
Lemma exponent_eq n d k :
  0 < n → 0 < d → 0 < k → p * d = q * n →
  2 ^ 52 * d <= n * 2 ^ k < 2 ^ 53 * d → k = j.
Proof using All.
  intros Hn Hd Hk Heq Hsc.
  assert (q * (2 ^ 52 * d) <= q * (n * 2 ^ k)) by (apply Z.mul_le_mono_nonneg_l; lia).
  assert (q * (n * 2 ^ k) < q * (2 ^ 53 * d)) by (apply Z.mul_lt_mono_pos_l; lia).
  assert (2 ^ 52 * q * d <= p * 2 ^ j * d) by (apply Z.mul_le_mono_nonneg_r; lia).
  assert (p * 2 ^ j * d < 2 ^ 53 * q * d) by (apply Z.mul_lt_mono_pos_r; lia).
  assert (q * (n * 2 ^ k) = p * d * 2 ^ k) as E by (rewrite Heq; ring).
  destruct (Z.lt_trichotomy k j) as [Hkj|[?|Hkj]]; [|done|]; exfalso.
  - assert (2 * 2 ^ k <= 2 ^ j).
    { rewrite <-Z.pow_succ_r by lia. apply Z.pow_le_mono_r; lia. }
    assert (p * d * (2 * 2 ^ k) <= p * d * 2 ^ j) by (apply Z.mul_le_mono_nonneg_l; lia). lia.
  - assert (2 * 2 ^ j <= 2 ^ k).
    { rewrite <-Z.pow_succ_r by lia. apply Z.pow_le_mono_r; lia. }
    assert (p * d * (2 * 2 ^ j) <= p * d * 2 ^ k) by (apply Z.mul_le_mono_nonneg_l; lia). lia.
Qed.

Lemma mantissa_eq n d R :
  0 < n → 0 < d → p * d = q * n → 2 * Z.abs (d * R - n * 2 ^ j) <= d → R = Tm.
Proof using All.
  intros Hn Hd Heq HR.
  assert (q * (d * R - n * 2 ^ j) = d * (q * R - p * 2 ^ j)) as E.
  { transitivity (q * d * R - q * n * 2 ^ j); [ring|]. rewrite <-Heq. ring. }
  assert (2 * Z.abs (q * R - p * 2 ^ j) <= q) as HR'.
  { apply (Z.mul_le_mono_pos_l _ _ d); [done|].
    assert (Z.abs (d * (q * R - p * 2 ^ j)) = d * Z.abs (q * R - p * 2 ^ j)) as E2
      by (rewrite Z.abs_mul; lia).
    assert (q * (2 * Z.abs (d * R - n * 2 ^ j)) <= q * d)
      by (apply Z.mul_le_mono_nonneg_l; lia).
    assert (Z.abs (q * (d * R - n * 2 ^ j)) = q * Z.abs (d * R - n * 2 ^ j)) as E3
      by (rewrite Z.abs_mul; lia).
    rewrite E, E2 in E3. lia. }
  assert (Z.abs (q * (R - Tm)) < q) as HF by lia.
  rewrite Z.abs_mul, (Z.abs_eq q) in HF by lia.
  destruct (Z.eq_dec R Tm) as [?|Hne]; [done|exfalso].
  assert (q * 1 <= q * Z.abs (R - Tm)) by (apply Z.mul_le_mono_nonneg_l; lia). lia.
Qed.

Lemma mantissa_ge n d k R :
  0 < n → 0 < d < 2 ^ 32 →
  0 < k → 2 ^ 52 * d <= n * 2 ^ k < 2 ^ 53 * d →
  2 * Z.abs (d * R - n * 2 ^ k) <= d →
  Tm * 2 ^ k <= R * 2 ^ j ↔ p * d <= q * n.
Proof using All.
  intros Hn Hd Hk Hsc HR. pose proof threshold_mantissa as HT.
  assert (2 ^ 53 <= 2 ^ j) as Hj2 by (apply Z.pow_le_mono_r; lia).
  destruct (Z.lt_trichotomy (p * d) (q * n)) as [Hlt|[Heq|Hgt]].
  - split; [lia|intros _]. destruct (Z.lt_ge_cases k j) as [Hkj|Hkj].
    + assert (2 * 2 ^ k <= 2 ^ j) as H2.
      { rewrite <-Z.pow_succ_r by lia. apply Z.pow_le_mono_r; lia. }
      assert (2 ^ 52 <= R) as HRlo.
      { apply Z.nlt_ge. intros HR'.
        assert (d * R <= d * (2 ^ 52 - 1)) by (apply Z.mul_le_mono_nonneg_l; lia). lia. }
      transitivity (2 ^ 53 * 2 ^ k); [apply Z.mul_le_mono_nonneg_r; lia|].
      transitivity (2 ^ 52 * 2 ^ j); [lia|]. apply Z.mul_le_mono_nonneg_r; lia.
    + assert (2 ^ 53 <= 2 ^ k) by (apply Z.pow_le_mono_r; lia).
      apply (mantissa_above n d); lia.
  - split; [lia|intros _]. rewrite (exponent_eq n d k) in * by lia.
    rewrite (mantissa_eq n d R) by lia. lia.
  - split; [intros Hge; exfalso|lia].
    assert (n < d) as Hnd.
    { apply (Z.mul_lt_mono_pos_l q); [lia|].
      assert (p * d < q * d) by (apply Z.mul_lt_mono_pos_r; lia). lia. }
    assert (2 ^ 52 < 2 ^ k) as Hk52.
    { apply (Z.mul_lt_mono_pos_l d); [lia|].
      assert (n * 2 ^ k < d * 2 ^ k) by (apply Z.mul_lt_mono_pos_r; lia). lia. }
    assert (R * 2 ^ j < Tm * 2 ^ k); [apply (mantissa_below n d); lia|lia].
Qed.

Lemma fl_ge_threshold n d :
  0 <= n < 2 ^ 32 → 0 < d < 2 ^ 32 →
  fl_ge (fl_ratio n d) (Tm, - j) = (p * d <=? q * n).
Proof using All.
  intros Hn Hd. pose proof threshold_mantissa as HT. unfold fl_ratio.
  destruct (Z.eqb_spec n 0) as [->|Hn0].
  { unfold fl_ge. simpl. replace (Z.min 0 (- j)) with (- j) by lia.
    rewrite Z.sub_diag. apply Bool.eq_iff_eq_true. rewrite !Z.leb_le. lia. }
  pose proof (fl_exp_spec n d ltac:(lia) ltac:(lia)) as He.
  assert (fl_exp n d < 0) as Hneg.
  { destruct (Z.lt_ge_cases (fl_exp n d) 0) as [?|Hge]; [done|exfalso].
    unfold scale in He. destruct (Z.leb_spec 0 (fl_exp n d)); [|lia].
    assert (0 < 2 ^ fl_exp n d) by (apply Z.pow_pos_nonneg; lia).
    assert (1 * 2 ^ fl_exp n d <= d * 2 ^ fl_exp n d) by (apply Z.mul_le_mono_nonneg_r; lia).
    lia. }
  unfold scale in *. destruct (Z.leb_spec 0 (fl_exp n d)) as [?|_]; [lia|].
  destruct He as [_ He]. set (k := - fl_exp n d) in *.
  pose proof (rne_bound (n * 2 ^ k) d ltac:(lia) ltac:(lia)) as HR.
  pose proof (mantissa_ge n d k _ ltac:(lia) Hd ltac:(lia) He HR) as Hcmp.
  unfold fl_ge. simpl. apply Bool.eq_iff_eq_true. rewrite !Z.leb_le, <-Hcmp.
  replace (fl_exp n d) with (- k) by lia.
  set (R := rne (n * 2 ^ k) d) in *. clearbody R.
  destruct (Z.le_ge_cases k j) as [Hkj|Hkj].
  - replace (Z.min (- k) (- j)) with (- j) by lia.
    replace (2 ^ j) with (2 ^ (- k - - j) * 2 ^ k)
      by (rewrite <-Z.pow_add_r by lia; f_equal; lia).
    rewrite Z.sub_diag, Z.pow_0_r, Z.mul_1_r, Z.mul_assoc.
    apply Z.mul_le_mono_pos_r. apply Z.pow_pos_nonneg; lia.
  - replace (Z.min (- k) (- j)) with (- k) by lia.
    replace (2 ^ k) with (2 ^ (- j - - k) * 2 ^ j)
      by (rewrite <-Z.pow_add_r by lia; f_equal; lia).
    rewrite Z.sub_diag, Z.pow_0_r, Z.mul_1_r, Z.mul_assoc.
    apply Z.mul_le_mono_pos_r. apply Z.pow_pos_nonneg; lia.
Qed.
End threshold.

(** Integers below [2^53] are represented exactly, and scaling by a power of
    two stays exact; above, the rounded value is at least [2^53]. *)
Lemma fl_of_int_pow2 z k :
  0 < z → 0 <= k →
  let v := fl_trunc (fl_mul_pow2 (fl_of_int z) k) in
  (z < 2 ^ 53 → v = z * 2 ^ k) ∧ (2 ^ 53 <= z → 2 ^ 53 <= v).
Proof.
  intros Hz Hk. unfold fl_of_int, fl_ratio.
  rewrite Z.abs_eq, Z.sgn_pos by lia. destruct (Z.eqb_spec z 0); [lia|].
  pose proof (fl_exp_spec z 1 ltac:(lia) ltac:(lia)) as He.
  set (e := fl_exp z 1) in *. clearbody e. unfold scale in *.
  assert (0 < 2 ^ k) by (apply Z.pow_pos_nonneg; lia).
  destruct (Z.leb_spec 0 e) as [Hpos|Hneg].
  - destruct He as [Hb He]. unfold fl_trunc, fl_mul_pow2. cbn [fst snd].
    rewrite !Z.mul_1_l in *.
    pose proof (rne_bound z (2 ^ e) ltac:(lia) Hb) as HR.
    set (R := rne z (2 ^ e)) in *. clearbody R.
    assert (2 ^ 52 <= R) as HR2.
    { apply Z.nlt_ge. intros HRlt.
      assert (2 ^ e * R <= 2 ^ e * (2 ^ 52 - 1)) by (apply Z.mul_le_mono_nonneg_l; lia). lia. }
    destruct (Z.leb_spec 0 (e + k)); [|lia].
    rewrite Z.pow_add_r by lia. split; intros Hs.
    + assert (e = 0) as He0.
      { destruct (Z.eq_dec e 0); [done|exfalso].
        assert (2 ^ 1 <= 2 ^ e) by (apply Z.pow_le_mono_r; lia). lia. }
      assert (R = z) as HRz by (rewrite He0 in *; lia).
      rewrite He0, HRz. lia.
    + assert (2 ^ 1 <= 2 ^ e).
      { apply Z.pow_le_mono_r; [lia|]. destruct (Z.eq_dec e 0) as [E0|]; [|lia].
        rewrite E0 in *. lia. }
      assert (2 * 1 <= 2 ^ e * 2 ^ k) by (apply Z.mul_le_mono_nonneg; lia).
      assert (2 ^ 52 * 2 <= R * (2 ^ e * 2 ^ k)) by (apply Z.mul_le_mono_nonneg; lia). lia.
  - destruct He as [_ He].
    assert (rne (z * 2 ^ (- e)) 1 = z * 2 ^ (- e)) as HR.
    { rewrite <-(Z.mul_1_r (z * 2 ^ (- e))) at 1. apply rne_exact. lia. }
    rewrite HR. assert (z < 2 ^ 53) as Hs.
    { assert (1 <= 2 ^ (- e)) by (assert (0 < 2 ^ (- e)) by (apply Z.pow_pos_nonneg; lia); lia).
      assert (z * 1 <= z * 2 ^ (- e)) by (apply Z.mul_le_mono_nonneg_l; lia). lia. }
    split; [intros _|lia]. unfold fl_trunc, fl_mul_pow2. cbn [fst snd]. rewrite Z.mul_1_l.
    destruct (Z.leb_spec 0 (e + k)).
    + rewrite <-Z.mul_assoc, <-Z.pow_add_r by lia. do 2 f_equal. lia.
    + replace (2 ^ (- e)) with (2 ^ k * 2 ^ (- (e + k)))
        by (rewrite <-Z.pow_add_r by lia; f_equal; lia).
      rewrite Z.mul_assoc. apply Z.quot_mul. apply Z.pow_nonzero; lia.
Qed.
