(* ===== verification/GoText.v ===== *)
(** * Go strings

    Go strings are byte strings.  This file models what the controller uses of
    [strings], [unicode/utf8] and [net]: white-space trimming, case mapping,
    splitting, UTF-8 validity, and [SplitHostPort]/[JoinHostPort]. *)

From Stdlib Require Import ZArith Ascii.
From S2P Require Import Prelude.

Definition bytes (s : string) : list ascii := String.list_ascii_of_string s.
Definition of_bytes (l : list ascii) : string := String.string_of_list_ascii l.
Definition code (c : ascii) : Z := Z.of_N (N_of_ascii c).
Definition blen (s : string) : Z := Z.of_nat (length (bytes s)).

Lemma of_bytes_bytes s : of_bytes (bytes s) = s.
Proof. apply String.string_of_list_ascii_of_string. Qed.
Lemma bytes_of_bytes l : bytes (of_bytes l) = l.
Proof. apply String.list_ascii_of_string_of_list_ascii. Qed.
Lemma bytes_cons c s : bytes (String c s) = c :: bytes s.
Proof. done. Qed.
Lemma bytes_app s1 s2 : bytes (s1 +:+ s2) = bytes s1 ++ bytes s2.
Proof.
  induction s1 as [|c s1 IH]; [done|].
  change (String c s1 +:+ s2) with (String c (s1 +:+ s2)). by rewrite !bytes_cons, IH.
Qed.
Lemma bytes_inj s1 s2 : bytes s1 = bytes s2 → s1 = s2.
Proof. intros H. by rewrite <-(of_bytes_bytes s1), H, of_bytes_bytes. Qed.

(** ** [utf8.ValidString] *)

Definition in_range (lo hi : Z) (c : ascii) : bool := (lo <=? code c)%Z && (code c <=? hi)%Z.
Definition cont : ascii → bool := in_range 128 191.

Fixpoint utf8_valid (l : list ascii) : bool :=
  match l with
  | [] => true
  | b0 :: l1 =>
      if (code b0 <? 128)%Z then utf8_valid l1
      else if in_range 194 223 b0 then
        match l1 with
        | b1 :: l2 => cont b1 && utf8_valid l2
        | _ => false
        end
      else if in_range 224 239 b0 then
        match l1 with
        | b1 :: b2 :: l3 =>
            (if (code b0 =? 224)%Z then in_range 160 191 b1
             else if (code b0 =? 237)%Z then in_range 128 159 b1 else cont b1)
            && cont b2 && utf8_valid l3
        | _ => false
        end
      else if in_range 240 244 b0 then
        match l1 with
        | b1 :: b2 :: b3 :: l4 =>
            (if (code b0 =? 240)%Z then in_range 144 191 b1
             else if (code b0 =? 244)%Z then in_range 128 143 b1 else cont b1)
            && cont b2 && cont b3 && utf8_valid l4
        | _ => false
        end
      else false
  end.
Definition ValidString (s : string) : bool := utf8_valid (bytes s).

(** [utf8.RuneCountInString]: a byte that starts no valid encoding counts as
    one rune. *)
Definition rune_width (l : list ascii) : nat :=
  default 1%nat (list_find (λ n, n <= length l ∧ utf8_valid (take n l) = true)%nat [1; 2; 3; 4]%nat ≫= λ p, Some p.2).
Fixpoint rune_count (fuel : nat) (l : list ascii) : nat :=
  match fuel, l with
  | S fuel, _ :: _ => S (rune_count fuel (drop (rune_width l) l))
  | _, _ => 0
  end.
Definition RuneCountInString (s : string) : Z := Z.of_nat (rune_count (length (bytes s)) (bytes s)).

(** ** [strings.TrimSpace]

    The encodings of the code points [unicode.IsSpace] accepts. *)
Definition chr (n : Z) : ascii := ascii_of_N (Z.to_N n).
Definition space_encodings : list (list ascii) :=
  ((λ n, [chr n]) <$> [9; 10; 11; 12; 13; 32])%Z ++
  [[chr 194; chr 133]; [chr 194; chr 160]; [chr 225; chr 154; chr 128];
   [chr 226; chr 128; chr 168]; [chr 226; chr 128; chr 169];
   [chr 226; chr 128; chr 175]; [chr 226; chr 129; chr 159];
   [chr 227; chr 128; chr 128]] ++
  ((λ n, [chr 226; chr 128; chr n]) <$> [128; 129; 130; 131; 132; 133; 134; 135; 136; 137; 138])%Z.

Fixpoint strip_prefix (p l : list ascii) : option (list ascii) :=
  match p, l with
  | [], _ => Some l
  | a :: p', b :: l' => if a ≟ b then strip_prefix p' l' else None
  | _ :: _, [] => None
  end.

(** Drop one white-space code point from the front, given the encodings. *)
Definition strip_one (encs : list (list ascii)) (l : list ascii) : option (list ascii) :=
  head (omap (λ e, strip_prefix e l) encs).
Fixpoint trim_left_fuel (encs : list (list ascii)) (n : nat) (l : list ascii) : list ascii :=
  match n with
  | 0 => l
  | S n' => match strip_one encs l with
            | Some l' => trim_left_fuel encs n' l'
            | None => l
            end
  end.
Definition trim_left (l : list ascii) : list ascii := trim_left_fuel space_encodings (length l) l.
Definition trim_right (l : list ascii) : list ascii :=
  reverse (trim_left_fuel (reverse <$> space_encodings) (length l) (reverse l)).
Definition TrimSpace (s : string) : string := of_bytes (trim_right (trim_left (bytes s))).

(** ** Case mapping

    ASCII letters, and the code points outside ASCII whose simple case mapping
    is an ASCII letter: U+0130 (to i) and U+212A (to k) in lower case, U+0131
    (to I) and U+017F (to S) in upper case.  The callers below reject every
    string that keeps a byte outside ASCII, so the mappings between the other
    code points are left out. *)
Definition lower_ascii (c : ascii) : ascii :=
  if in_range 65 90 c then chr (code c + 32) else c.
Definition upper_ascii (c : ascii) : ascii :=
  if in_range 97 122 c then chr (code c - 32) else c.

Fixpoint to_lower (l : list ascii) : list ascii :=
  match l with
  | [] => []
  | b0 :: l1 =>
      match l1 with
      | b1 :: l2 =>
          if (code b0 =? 196)%Z && (code b1 =? 176)%Z then chr 105 :: to_lower l2
          else match l2 with
               | b2 :: l3 =>
                   if (code b0 =? 226)%Z && (code b1 =? 132)%Z && (code b2 =? 170)%Z
                   then chr 107 :: to_lower l3
                   else lower_ascii b0 :: to_lower l1
               | [] => lower_ascii b0 :: to_lower l1
               end
      | [] => [lower_ascii b0]
      end
  end.
Definition ToLower (s : string) : string := of_bytes (to_lower (bytes s)).

Fixpoint to_upper (l : list ascii) : list ascii :=
  match l with
  | [] => []
  | b0 :: l1 =>
      match l1 with
      | b1 :: l2 =>
          if (code b0 =? 196)%Z && (code b1 =? 177)%Z then chr 73 :: to_upper l2
          else if (code b0 =? 197)%Z && (code b1 =? 191)%Z then chr 83 :: to_upper l2
          else upper_ascii b0 :: to_upper l1
      | [] => [upper_ascii b0]
      end
  end.
Definition ToUpper (s : string) : string := of_bytes (to_upper (bytes s)).

(** ** Searching and splitting *)

Definition contains_byte (c : ascii) (l : list ascii) : bool := bool_decide (c ∈ l).
Definition has_nul (s : string) : bool := contains_byte Ascii.zero (bytes s).

(** A text parameter that Postgres accepts. *)
Definition text_param_ok (v : string) : bool := ValidString v && negb (has_nul v).

(** [strings.Split(s, sep)] for a one-byte separator: always at least one part. *)
Fixpoint split_on (sep : ascii) (l : list ascii) : list (list ascii) :=
  match l with
  | [] => [[]]
  | c :: l' =>
      if c ≟ sep then [] :: split_on sep l'
      else match split_on sep l' with
           | part :: parts => (c :: part) :: parts
           | [] => [[c]]
           end
  end.

(** [strings.Cut(s, sep)] for a one-byte separator. *)
Fixpoint cut_on (sep : ascii) (l : list ascii) : option (list ascii * list ascii) :=
  match l with
  | [] => None
  | c :: l' =>
      if c ≟ sep then Some ([], l')
      else (λ '(a, b), (c :: a, b)) <$> cut_on sep l'
  end.

(** Cut at the last occurrence. *)
Definition cut_last (sep : ascii) (l : list ascii) : option (list ascii * list ascii) :=
  (λ '(a, b), (reverse b, reverse a)) <$> cut_on sep (reverse l).

(** ** [net.SplitHostPort] and [net.JoinHostPort] *)

Definition colon : ascii := ":"%char.
Definition lbracket : ascii := "["%char.
Definition rbracket : ascii := "]"%char.

Definition SplitHostPort (hostport : string) : option (string * string) :=
  let l := bytes hostport in
  match cut_last colon l with
  | None => None
  | Some (before, port) =>
      match l with
      | c :: rest =>
          if c ≟ lbracket then
            match cut_on rbracket rest with
            | None => None
            | Some (host, after) =>
                (* the last colon must directly follow the bracket *)
                if after ≟ colon :: port then
                  if contains_byte lbracket rest || contains_byte rbracket after then None
                  else Some (of_bytes host, of_bytes port)
                else None
            end
          else if contains_byte colon before then None
          else if contains_byte lbracket l || contains_byte rbracket l then None
          else Some (of_bytes before, of_bytes port)
      | [] => None
      end
  end.

Definition JoinHostPort (host port : string) : string :=
  if contains_byte colon (bytes host)
  then ("[" +:+ host +:+ "]:" +:+ port)%stdpp
  else (host +:+ ":" +:+ port)%stdpp.
