(* ===== verification/Outbox.v ===== *)
(** * The durable outbox (controller/internal/outbox)

    Events are rows of [outbox_events].  A worker claims due rows (status
    'processing' under a fresh lease), dispatches each to the handler of its
    type and marks the outcome; the reaper takes rows whose lease is too old
    back; an operator can recover a row whose retry budget is used up.  The
    file models the store, the retry policy, the handler registry and the
    processor, then a transition system in which any number of workers, reapers
    and operators interleave statement by statement, and its invariants. *)

From Stdlib Require Import ZArith Lia.
From S2P Require Import Prelude Sql GoFloat GoText.
Open Scope Z_scope.

(** ** Events *)

(** [status] has a CHECK constraint with these four values. *)
Inductive outbox_status := StPending | StProcessing | StDone | StFailed.
#[export] Instance outbox_status_eq_dec : EqDecision outbox_status.
Proof. solve_decision. Defined.

Record Event := MkEvent {
  ev_EventType : string;
  ev_WorkspaceID : uuid;
  ev_UserID : option uuid;
  ev_CorrelationID : uuid;
  ev_Payload : string
}.

Record OutboxEvent := MkOutboxEvent {
  ID : uuid;
  EventType : string;
  WorkspaceID : uuid;
  UserID : option uuid;
  CorrelationID : uuid;
  Payload : string;
  Traceparent : option string;
  Status : outbox_status;
  RetryCount : Z;
  CreatedAt : time;
  UpdatedAt : time;
  NextAttemptAt : option time;
  LeaseID : option uuid;
  ClaimedAt : option time;
  LastError : option string
}.

(** The columns an outcome writes; the others are copied. *)
Definition set_outcome (st : outbox_status) (retry : Z) (next : option time)
    (lease : option uuid) (claimed : option time) (last : option string) (now : time)
    (e : OutboxEvent) : OutboxEvent :=
  MkOutboxEvent (ID e) (EventType e) (WorkspaceID e) (UserID e) (CorrelationID e)
    (Payload e) (Traceparent e) st retry (CreatedAt e) now next lease claimed last.

(** ** Retry policy (backoff.go) *)

Definition MaxBackoff : duration := 5 * Minute.
Definition DefaultMaxRetries : Z := 100.

Record RetryPolicy := MkRetryPolicy {
  Base : duration;
  Max : duration;
  Jitter : float64;
  MaxRetries : Z
}.

(** 0.20 is the float64 [3602879701896397 * 2^-54]. *)
Definition DefaultRetryPolicy : RetryPolicy :=
  MkRetryPolicy Second MaxBackoff (Finite 3602879701896397 (-54)) DefaultMaxRetries.

Inductive policy_error := BadBase | BadMax | MaxTooLarge | BadJitter | BadMaxRetries.

Definition Validate (p : RetryPolicy) : option policy_error :=
  if Base p <=? 0 then Some BadBase
  else if Max p <=? 0 then Some BadMax
  else if MaxBackoff <? Max p then Some MaxTooLarge
  else if f64_lt_int (Jitter p) 0 || f64_gt_int (Jitter p) 1 then Some BadJitter
  else if (MaxRetries p <? 1) || (1000 <? MaxRetries p) then Some BadMaxRetries
  else None.

(** [math.Min(float64(n), 62)] and [math.Pow(2, k)] are exact here. *)
Definition Backoff (a : arch) (p : RetryPolicy) (retryCount : Z) : duration :=
  let retryCount := if retryCount <? 0 then 0 else retryCount in
  let exponent := Z.min retryCount 62 in
  let delay := int64_of_fl a (fl_mul_pow2 (fl_of_int (Base p)) exponent) in
  if (delay <=? 0) || (Max p <? delay) then Max p else delay.

(** [JitterSource]; production code uses [NoJitter]. *)
Definition JitterSource := duration → float64 → duration.
Definition NoJitter : JitterSource := λ d _, d.

Record Outbox := MkOutbox {
  retryPolicy : RetryPolicy;
  jitter : JitterSource;
  target : arch
}.

Definition NewOutbox (a : arch) : Outbox := MkOutbox DefaultRetryPolicy NoJitter a.

Definition NewOutboxWithMaxRetries (a : arch) (maxRetries : Z) : option Outbox :=
  if (maxRetries <? 1) || (1000 <? maxRetries) then None
  else Some (MkOutbox (MkRetryPolicy Second MaxBackoff (Jitter DefaultRetryPolicy) maxRetries)
                      NoJitter a).

Definition nextAttemptAt (o : Outbox) (clock : time) (retryCount : Z) : option time :=
  if MaxRetries (retryPolicy o) <=? retryCount then None
  else
    let delay := Backoff (target o) (retryPolicy o) retryCount in
    let delay := jitter o delay (Jitter (retryPolicy o)) in
    Some (time_Add clock delay).

(** Persisted errors keep the first 4096 bytes. *)
Definition maxErrorBytes : nat := 4096.
Definition truncateError (err : option string) : option string :=
  match err with
  | None => None
  | Some value =>
      if (maxErrorBytes <? length (bytes value))%nat
      then Some (of_bytes (take maxErrorBytes (bytes value)))
      else Some value
  end.

(** ** Store (store.go) *)

Inductive outbox_error :=
| ErrNilTx
| ErrStaleLease
| ErrLockWindow
| ErrScan
| ErrReasonRequired
| ErrOperatorRequired
| ErrEventNotFound
| ErrNotTerminalStatus
| ErrNotTerminalBudget
| ErrOperatorNotFound
| ErrNoLease
| ErrHandler (msg : string) (no_handler : bool)
| ErrBatchSize
| ErrNilContext.

(** The audit row [Recover] writes with its change. *)
Record recover_audit := RecoverAudit {
  ra_tenant : uuid;
  ra_actor : uuid;
  ra_email : string;
  ra_event : uuid;
  ra_reason : string;
  ra_reset : bool;
  ra_previous : Z;
  ra_new : Z
}.

Record ODB := MkODB {
  outbox_events : gmap uuid OutboxEvent;
  workspaces : gset uuid;
  users : gmap uuid (uuid * string); (* tenant and email *)
  audit_logs : list recover_audit
}.

Definition set_events (m : gmap uuid OutboxEvent) (s : ODB) : ODB :=
  MkODB m (workspaces s) (users s) (audit_logs s).
Definition add_audit (a : recover_audit) (s : ODB) : ODB :=
  MkODB (outbox_events s) (workspaces s) (users s) (a :: audit_logs s).

Abbreviation outboxM A := (sqlM ODB outbox_error A).

(** A text parameter must be valid UTF-8 without a zero byte, or Postgres
    refuses the statement. *)
Definition text_value_ok (v : string) : bool := ValidString v && negb (has_nul v).
Definition text_ok (v : option string) : bool := from_option text_value_ok true v.

(** An UPDATE of one event row, with the text it writes. *)
Definition update_event (text : option string) (k : uuid) (c : OutboxEvent → bool)
    (f : OutboxEvent → OutboxEvent) : stmt ODB Z := λ s,
  if text_ok text then
    let '(n, m) := update_where k c f (outbox_events s) in Ok (n, set_events m s)
  else Err InvalidText.

(** [lease_id = $2 AND status = 'processing'] *)
Definition holds_lease (lease : uuid) (e : OutboxEvent) : bool :=
  (LeaseID e ≟ Some lease) && (Status e ≟ StProcessing).

(** Rows of the INSERT in [Enqueue]: 'pending', due at once. *)
Definition enqueue_row (id : uuid) (now : time) (trace : option string) (payload : string)
    (evt : Event) : OutboxEvent :=
  MkOutboxEvent id (ev_EventType evt) (ev_WorkspaceID evt) (ev_UserID evt)
    (ev_CorrelationID evt) payload trace StPending 0 now now (Some now) None None None.

(** A user is referenced together with the event's workspace. *)
Definition event_refs_ok (evt : Event) (s : ODB) : bool :=
  bool_decide (ev_WorkspaceID evt ∈ workspaces s) &&
  from_option (λ u, (fst <$> users s !! u) ≟ Some (ev_WorkspaceID evt)) true (ev_UserID evt).

(** [jsonb] is the database's reading of a JSON text: [None] when it is not
    JSON, else the text the column gives back. *)
Definition insert_event (jsonb : string → option string) (id : uuid) (now : time)
    (trace : option string) (evt : Event) : stmt ODB () := λ s,
  match jsonb (ev_Payload evt) with
  | Some payload =>
      if text_value_ok (ev_EventType evt) && text_ok trace then
        if event_refs_ok evt s then
          match outbox_events s !! id with
          | Some _ => Err UniqueViolation
          | None => Ok (tt, set_events (<[id := enqueue_row id now trace payload evt]> (outbox_events s)) s)
          end
        else Err ForeignKeyViolation
      else Err InvalidText
  | None => Err InvalidText
  end.

(** [tx] is false for a nil transaction; [id] is [gen_random_uuid()] and
    [trace] the context's traceparent. *)
Definition Enqueue (jsonb : string → option string) (tx : bool) (id : uuid) (now : time)
    (trace : option string) (evt : Event) : outboxM () :=
  if negb tx then fail ErrNilTx
  else tx_stmt "enqueue outbox event" (insert_event jsonb id now trace evt).

(** The WHERE clause of [ClaimEvents]' candidates; a NULL [next_attempt_at]
    compares as unknown, so the row is not selected. *)
Definition claimable (maxRetries : Z) (now : time) (e : OutboxEvent) : bool :=
  ((Status e ≟ StPending) || ((Status e ≟ StFailed) && (RetryCount e <? maxRetries)))
  && from_option (λ t, t <=? now) false (NextAttemptAt e).

(** [ORDER BY next_attempt_at, created_at] *)
Definition claim_le (e1 e2 : OutboxEvent) : Prop :=
  let n1 := default 0 (NextAttemptAt e1) in
  let n2 := default 0 (NextAttemptAt e2) in
  n1 < n2 ∨ (n1 = n2 ∧ CreatedAt e1 <= CreatedAt e2).
#[export] Instance claim_le_dec : RelDecision claim_le.
Proof. intros e1 e2. unfold claim_le. apply _. Defined.

(** Candidates: due rows no other transaction holds a lock on ([SKIP LOCKED]),
    in order, at most [limit].  The rows the statement returns are these, in an
    order the database does not promise. *)
Definition candidates (maxRetries : Z) (now : time) (limit : nat) (locked : gset uuid)
    (m : gmap uuid OutboxEvent) : list OutboxEvent :=
  take limit (merge_sort claim_le
    (filter (λ e, claimable maxRetries now e = true ∧ ID e ∉ locked) ((map_to_list m).*2))).

Definition claim_row (now : time) (lease : uuid) (e : OutboxEvent) : OutboxEvent :=
  set_outcome StProcessing (RetryCount e) (NextAttemptAt e) (Some lease) (Some now) (LastError e) now e.

(** [gen] is [gen_random_uuid()] evaluated for each row. *)
Definition claim_events (maxRetries : Z) (now : time) (limit : nat) (locked : gset uuid)
    (gen : uuid → uuid) (m : gmap uuid OutboxEvent) : list OutboxEvent * gmap uuid OutboxEvent :=
  let claimed := (λ e, claim_row now (gen (ID e)) e) <$> candidates maxRetries now limit locked m in
  (claimed, list_to_map ((λ e, (ID e, e)) <$> claimed) ∪ m).

Definition claim_stmt (maxRetries : Z) (now : time) (limit : Z) (locked : gset uuid)
    (gen : uuid → uuid) : stmt ODB (list OutboxEvent) := λ s,
  let '(claimed, m) := claim_events maxRetries now (Z.to_nat limit) locked gen (outbox_events s) in
  Ok (claimed, set_events m s).

Definition ClaimEvents (o : Outbox) (now : time) (locked : gset uuid) (gen : uuid → uuid)
    (limit : Z) : outboxM (list OutboxEvent) :=
  if limit <=? 0 then ret []
  else pool_stmt "claim outbox events"
         (claim_stmt (MaxRetries (retryPolicy o)) now limit locked gen).

Definition done_row (now : time) (e : OutboxEvent) : OutboxEvent :=
  set_outcome StDone (RetryCount e) (NextAttemptAt e) None None (LastError e) now e.
Definition done_stmt (now : time) (eventID leaseID : uuid) : stmt ODB Z :=
  update_event None eventID (holds_lease leaseID) (done_row now).

Definition MarkDone (now : time) (eventID leaseID : uuid) : outboxM () :=
  let! n := pool_stmt "mark outbox event done" (done_stmt now eventID leaseID) in
  if n =? 0 then fail ErrStaleLease else ret tt.

(** The failed row of [MarkFailed], with [retry_count = retry_count + 1]. *)
Definition failed_row (now : time) (next : option time) (last : option string) (e : OutboxEvent) : OutboxEvent :=
  set_outcome StFailed (RetryCount e + 1) next None None last now e.
Definition failed_stmt (now : time) (eventID leaseID : uuid) (next : option time) (last : option string) : stmt ODB Z :=
  update_event last eventID (holds_lease leaseID) (failed_row now next last).

(** The SELECT of [MarkFailed]: the retry count of the row under this lease. *)
Definition retry_of (eventID leaseID : uuid) (s : ODB) : option Z :=
  e ← outbox_events s !! eventID;
  if holds_lease leaseID e then Some (RetryCount e) else None.

Definition MarkFailed (o : Outbox) (clock now : time) (eventID leaseID : uuid)
    (handlerErr : option string) : outboxM () :=
  let! found := pool_stmt "get outbox retry count" (query (retry_of eventID leaseID)) in
  match found with
  | None => fail ErrStaleLease
  | Some retryCount =>
      let next := nextAttemptAt o clock (retryCount + 1) in
      let lastError := truncateError handlerErr in
      let! n := pool_stmt "mark outbox event failed"
                  (failed_stmt now eventID leaseID next lastError) in
      if n =? 0 then fail ErrStaleLease else ret tt
  end.

Definition terminal_row (maxRetries : Z) (now : time) (last : option string) (e : OutboxEvent) : OutboxEvent :=
  set_outcome StFailed maxRetries None None None last now e.
Definition terminal_stmt (maxRetries : Z) (now : time) (eventID leaseID : uuid) (last : option string) : stmt ODB Z :=
  update_event last eventID (holds_lease leaseID) (terminal_row maxRetries now last).

Definition MarkFailedTerminal (o : Outbox) (now : time) (eventID leaseID : uuid)
    (handlerErr : option string) : outboxM () :=
  let lastError := truncateError handlerErr in
  let! n := pool_stmt "mark terminal outbox event failed"
              (terminal_stmt (MaxRetries (retryPolicy o)) now eventID leaseID lastError) in
  if n =? 0 then fail ErrStaleLease else ret tt.

(** *** Reaper *)

Record abandonedEvent := Abandoned { ab_id : uuid; ab_lease : uuid; ab_retry : Z }.

(** The scan of [ReapAbandoned]: processing rows claimed at or before
    [cutoff].  A NULL lease does not scan into a [uuid.UUID]: then the whole
    read fails. *)
Definition lease_expired (cutoff : time) (e : OutboxEvent) : bool :=
  (Status e ≟ StProcessing) && from_option (λ t, t <=? cutoff) false (ClaimedAt e).
Definition abandoned (cutoff : time) (m : gmap uuid OutboxEvent) : option (list abandonedEvent) :=
  mapM (λ e, (λ l, Abandoned (ID e) l (RetryCount e)) <$> LeaseID e)
       (filter (λ e, lease_expired cutoff e = true) ((map_to_list m).*2)).

(** The reaper's UPDATE keeps [last_error]. *)
Definition reaped_row (now : time) (next : option time) (e : OutboxEvent) : OutboxEvent :=
  set_outcome StFailed (RetryCount e + 1) next None None (LastError e) now e.
Definition reap_stmt (now : time) (eventID leaseID : uuid) (next : option time) : stmt ODB Z :=
  update_event None eventID (holds_lease leaseID) (reaped_row now next).

(** The loop stops at the first failing UPDATE and returns the count so far. *)
Fixpoint reap_loop (o : Outbox) (clock now : time) (events : list abandonedEvent) (reaped : Z)
    : outboxM (Z * option (err outbox_error)) :=
  match events with
  | [] => ret (reaped, None)
  | event :: rest =>
      let next := nextAttemptAt o clock (ab_retry event + 1) in
      let! r := attempt (pool_stmt "reap abandoned outbox event"
                           (reap_stmt now (ab_id event) (ab_lease event) next)) in
      match r with
      | Err e => ret (reaped, Some e)
      | Ok n => reap_loop o clock now rest (if n =? 1 then reaped + 1 else reaped)
      end
  end.

Definition ReapAbandoned (o : Outbox) (clock now : time) (lockWindow : duration)
    : outboxM (Z * option (err outbox_error)) :=
  if lockWindow <=? 0 then ret (0, Some (App ErrLockWindow))
  else
    let cutoff := time_Add clock (- lockWindow) in
    let! r := attempt (pool_stmt "find abandoned outbox events"
                         (query (λ s, abandoned cutoff (outbox_events s)))) in
    match r with
    | Err e => ret (0, Some e)
    | Ok None => ret (0, Some (App ErrScan))
    | Ok (Some events) => reap_loop o clock now events 0
    end.

(** ** Operator recovery (recover.go) *)

Definition Nil : uuid := "00000000-0000-0000-0000-000000000000".

(** [status = 'failed' AND retry_count >= $3] *)
Definition is_terminal (maxRetries : Z) (e : OutboxEvent) : bool :=
  (Status e ≟ StFailed) && (maxRetries <=? RetryCount e).

Definition recovered_row (now : time) (newRetryCount : Z) (e : OutboxEvent) : OutboxEvent :=
  set_outcome StFailed newRetryCount (Some now) None None (LastError e) now e.
Definition recover_stmt (maxRetries : Z) (now : time) (eventID : uuid) (newRetryCount : Z) : stmt ODB Z :=
  update_event None eventID (is_terminal maxRetries) (recovered_row now newRetryCount).

(** [audit.RecordTx]: the details are a JSON object; a zero byte of the reason
    is escaped by the encoder and refused by the jsonb column. *)
Definition insert_audit (a : recover_audit) : stmt ODB () := λ s,
  if has_nul (ra_reason a) then Err InvalidText else Ok (tt, add_audit a s).

Definition Recover (o : Outbox) (now : time) (eventID operatorID : uuid) (reason : string)
    (resetRetryBudget : bool) : outboxM () :=
  let reason := TrimSpace reason in
  let maxRetries := MaxRetries (retryPolicy o) in
  if reason ≟ "" then fail ErrReasonRequired
  else if operatorID ≟ Nil then fail ErrOperatorRequired
  else with_tx "begin outbox recovery" (
    let! row := tx_stmt "load outbox event for recovery" (query (λ s, outbox_events s !! eventID)) in
    match row with
    | None => fail ErrEventNotFound
    | Some e =>
      if negb (Status e ≟ StFailed) then fail ErrNotTerminalStatus
      else if RetryCount e <? maxRetries then fail ErrNotTerminalBudget
      else
        let! email := tx_stmt "load recovery operator" (query (λ s, snd <$> users s !! operatorID)) in
        match email with
        | None => fail ErrOperatorNotFound
        | Some actorEmail =>
          let newRetryCount := if resetRetryBudget then 0 else RetryCount e in
          let! n := tx_stmt "recover outbox event" (recover_stmt maxRetries now eventID newRetryCount) in
          if negb (n =? 1) then fail ErrStaleLease
          else
            tx_stmt "audit outbox recovery"
              (insert_audit (RecoverAudit (WorkspaceID e) operatorID actorEmail eventID
                               reason resetRetryBudget (RetryCount e) newRetryCount)) ;;;
            commit_tx "commit outbox recovery"
        end
    end).

(** ** Handler registry (handler.go)

    A handler is arbitrary code of another component: a function that either
    succeeds or fails with a message; [no_handler] says whether its error wraps
    [ErrNoHandler] (the processor tests for it with [errors.Is]). *)

Record handler_error := HandlerError { he_msg : string; he_no_handler : bool }.
Definition EventHandler := OutboxEvent → option handler_error.
Definition HandlerRegistry := gmap string EventHandler.

Definition NewHandlerRegistry : HandlerRegistry := ∅.

Inductive register_error := ErrEmptyEventType | ErrNilHandler.

(** [handler] is [None] for a nil interface. *)
Definition RegisterHandler (r : HandlerRegistry) (eventType : string) (handler : option EventHandler)
    : result register_error HandlerRegistry :=
  if eventType ≟ "" then Err ErrEmptyEventType
  else match handler with
       | None => Err ErrNilHandler
       | Some h => Ok (<[eventType := h]> r)
       end.

Definition Has (r : HandlerRegistry) (eventType : string) : bool :=
  bool_decide (is_Some (r !! eventType)).

Definition Dispatch (r : HandlerRegistry) (evt : OutboxEvent) : option handler_error :=
  match r !! EventType evt with
  | None => Some (HandlerError
      ("outbox: no handler registered: no handler registered for event_type " +:+ EventType evt) true)
  | Some handler => handler evt
  end.

(** ** Processor (processor.go) *)

Definition DefaultPollInterval : duration := 1 * Second.
Definition DefaultLockWindow : duration := 30 * Second.
Definition DefaultReaperInterval : duration := 30 * Second.
Definition MinLockWindow : duration := 5 * Second.
Definition MaxLockWindow : duration := 1 * Hour.
Definition MinReaperInterval : duration := 1 * Second.
Definition MaxReaperInterval : duration := 5 * Minute.

Record processorConfig := MkProcessorConfig {
  pollInterval : duration;
  lockWindow : duration;
  reaperInterval : duration;
  maxRetries : Z
}.

Definition defaultProcessorConfig : processorConfig :=
  MkProcessorConfig DefaultPollInterval DefaultLockWindow DefaultReaperInterval DefaultMaxRetries.

Definition ProcessorOption := processorConfig → processorConfig.
Definition WithPollInterval (d : duration) : ProcessorOption := λ c,
  MkProcessorConfig d (lockWindow c) (reaperInterval c) (maxRetries c).
Definition WithLockWindow (d : duration) : ProcessorOption := λ c,
  MkProcessorConfig (pollInterval c) d (reaperInterval c) (maxRetries c).
Definition WithReaperInterval (d : duration) : ProcessorOption := λ c,
  MkProcessorConfig (pollInterval c) (lockWindow c) d (maxRetries c).
Definition WithMaxRetries (n : Z) : ProcessorOption := λ c,
  MkProcessorConfig (pollInterval c) (lockWindow c) (reaperInterval c) n.

Record Processor := MkProcessor {
  p_outbox : Outbox;
  p_registry : HandlerRegistry;
  p_pollInterval : duration;
  p_lockWindow : duration;
  p_reaperInterval : duration
}.

Inductive processor_error :=
| NilOutbox | NilRegistry | BadPollInterval | BadLockWindow | BadReaperInterval
| ReaperExceedsLockWindow | BadProcessorRetries | RetriesMismatch.

(** Nil options are skipped; the others apply in order. *)
Definition NewProcessor (o : option Outbox) (registry : option HandlerRegistry)
    (opts : list (option ProcessorOption)) : result processor_error Processor :=
  match o, registry with
  | None, _ => Err NilOutbox
  | _, None => Err NilRegistry
  | Some o, Some registry =>
      let cfg := foldl (λ c opt, match opt with Some f => f c | None => c end)
                       defaultProcessorConfig opts in
      if pollInterval cfg <=? 0 then Err BadPollInterval
      else if (lockWindow cfg <? MinLockWindow) || (MaxLockWindow <? lockWindow cfg) then Err BadLockWindow
      else if (reaperInterval cfg <? MinReaperInterval) || (MaxReaperInterval <? reaperInterval cfg)
      then Err BadReaperInterval
      else if lockWindow cfg <? reaperInterval cfg then Err ReaperExceedsLockWindow
      else if (maxRetries cfg <? 1) || (1000 <? maxRetries cfg) then Err BadProcessorRetries
      else if negb (MaxRetries (retryPolicy o) =? maxRetries cfg) then Err RetriesMismatch
      else Ok (MkProcessor o registry (pollInterval cfg) (lockWindow cfg) (reaperInterval cfg))
  end.

(** Dispatch one claimed event and mark its outcome; the error is for the
    caller's log only, the outcome is already persisted. *)
Definition processEvent (p : Processor) (clock now : time) (evt : OutboxEvent) : outboxM () :=
  match LeaseID evt with
  | None => fail ErrNoLease
  | Some leaseID =>
      match Dispatch (p_registry p) evt with
      | None => MarkDone now (ID evt) leaseID
      | Some e =>
          (if he_no_handler e
           then MarkFailedTerminal (p_outbox p) now (ID evt) leaseID (Some (he_msg e))
           else MarkFailed (p_outbox p) clock now (ID evt) leaseID (Some (he_msg e))) ;;;
          fail (ErrHandler (he_msg e) (he_no_handler e))
      end
  end.

(** One tick of the polling loop: claim a batch, process each claimed event;
    a handler failure does not stop the loop. *)
Fixpoint process_batch (p : Processor) (clock now : time) (events : list OutboxEvent) : outboxM () :=
  match events with
  | [] => ret tt
  | evt :: rest => attempt (processEvent p clock now evt) ;;; process_batch p clock now rest
  end.

(** What the two goroutines of [Run] do when their ticker fires; [gen] is the
    database's [gen_random_uuid] for that statement. *)
Inductive tick :=
| PollTick (clock now : time) (locked : gset uuid) (gen : uuid → uuid)
| ReaperTick (clock now : time).

Definition run_tick (p : Processor) (batchSize : Z) (t : tick) : outboxM (option (err outbox_error)) :=
  match t with
  | PollTick clock now locked gen =>
      let! r := attempt (ClaimEvents (p_outbox p) now locked gen batchSize) in
      match r with
      | Err e => ret (Some e)
      | Ok events => process_batch p clock now events ;;; ret None
      end
  | ReaperTick clock now =>
      let! r := ReapAbandoned (p_outbox p) clock now (p_lockWindow p) in
      ret r.2
  end.

(** [Run] until the context is cancelled after [ticks]; the first reported
    error is its return value. *)
Fixpoint run_ticks (p : Processor) (batchSize : Z) (ticks : list tick) (first : option (err outbox_error))
    : outboxM (option (err outbox_error)) :=
  match ticks with
  | [] => ret first
  | t :: rest =>
      let! e := run_tick p batchSize t in
      run_ticks p batchSize rest (match first with Some f => Some f | None => e end)
  end.

Definition Run (p : Processor) (ctx_nil : bool) (batchSize : Z) (ticks : list tick)
    : outboxM (option (err outbox_error)) :=
  if ctx_nil then fail ErrNilContext
  else if batchSize <=? 0 then fail ErrBatchSize
  else run_ticks p batchSize ticks None.
