(* ===== verification/OutboxSafety.v ===== *)
(** * The outbox under concurrency

    A transition system whose steps are the single SQL statements of
    [Outbox.v], so any number of workers, reapers and operators interleave
    between the statements of their operations.  The ghost fields record the
    leases handed out, the retry counts read by a two-statement operation that
    has not yet updated, and how often each event was claimed within its
    current retry budget.  The invariant is proved by rule induction; the
    operations of [Outbox.v] are shown to be runs of this system. *)

From Stdlib Require Import ZArith Lia.
From S2P Require Import Prelude Sql GoFloat GoText Outbox.
Open Scope Z_scope.

(** ** What a claim takes *)

Lemma elem_of_take_sub {A} n (l : list A) x : x ∈ take n l → x ∈ l.
Proof. rewrite <-(take_drop n l) at 2. set_solver. Qed.

Section claim.
Context (maxRetries : Z) (now : time) (limit : nat) (locked : gset uuid) (gen : uuid → uuid).
Implicit Types m : gmap uuid OutboxEvent.

(** Rows are stored under their primary key. *)
Definition keyed m : Prop := map_Forall (λ i e, ID e = i) m.

#[export] Instance claim_le_total : Total claim_le.
Proof. intros e1 e2. unfold claim_le. lia. Qed.
#[export] Instance claim_le_trans : Transitive claim_le.
Proof. intros e1 e2 e3. unfold claim_le. lia. Qed.

Lemma eligible_rows_elem m e :
  keyed m →
  e ∈ filter (λ e, claimable maxRetries now e = true ∧ ID e ∉ locked) ((map_to_list m).*2) ↔
  m !! ID e = Some e ∧ claimable maxRetries now e = true ∧ ID e ∉ locked.
Proof.
  intros Hk. rewrite list_elem_of_filter, list_elem_of_fmap. split.
  - intros [Hc ([i e'] & -> & Hi)]. apply elem_of_map_to_list in Hi. simpl in *.
    pose proof (Hk i e' Hi) as Hid. simpl in Hid. by rewrite Hid in *.
  - intros [Hi Hc]. split; [done|]. exists (ID e, e). by rewrite elem_of_map_to_list.
Qed.

Lemma candidates_elem m e :
  keyed m → e ∈ candidates maxRetries now limit locked m →
  m !! ID e = Some e ∧ claimable maxRetries now e = true ∧ ID e ∉ locked.
Proof.
  intros Hk He. apply eligible_rows_elem; [done|].
  rewrite <-(merge_sort_Permutation claim_le).
  unfold candidates in He. by eapply elem_of_take_sub.
Qed.

Lemma claim_lookup m i e' :
  keyed m →
  (claim_events maxRetries now limit locked gen m).2 !! i = Some e' →
  (∃ e, m !! i = Some e ∧ e ∈ candidates maxRetries now limit locked m ∧
        e' = claim_row now (gen i) e) ∨
  (m !! i = Some e' ∧ e' ∉ candidates maxRetries now limit locked m).
Proof.
  intros Hk. simpl. rewrite lookup_union_Some_raw. intros [Hl|[Hn Hi]].
  - left. apply elem_of_list_to_map_2 in Hl.
    apply list_elem_of_fmap in Hl as (e1 & [= -> <-] & Hl).
    apply list_elem_of_fmap in Hl as (e & -> & He). simpl.
    exists e. split; [|done]. by apply candidates_elem.
  - right. split; [done|]. intros He. apply not_elem_of_list_to_map_2 in Hn. apply Hn.
    apply list_elem_of_fmap. exists (ID e', claim_row now (gen (ID e')) e'); simpl.
    split; [by rewrite (Hk i e' Hi)|].
    apply list_elem_of_fmap. exists (claim_row now (gen (ID e')) e'). split; [done|].
    apply list_elem_of_fmap. eauto.
Qed.

Lemma claim_lookup_claimed m e :
  keyed m → e ∈ candidates maxRetries now limit locked m →
  (claim_events maxRetries now limit locked gen m).2 !! ID e
    = Some (claim_row now (gen (ID e)) e).
Proof.
  intros Hk He. destruct (candidates_elem m e Hk He) as [Hi _].
  destruct ((claim_events maxRetries now limit locked gen m).2 !! ID e) as [e'|] eqn:Hl.
  - destruct (claim_lookup m (ID e) e' Hk Hl) as [(e0 & Hi0 & _ & ->)|[Hi0 Hn]]; naive_solver.
  - simpl in Hl. apply lookup_union_None in Hl as [_ Hl]. naive_solver.
Qed.

Lemma claim_lookup_other m i :
  keyed m → (∀ e, e ∈ candidates maxRetries now limit locked m → ID e ≠ i) →
  (claim_events maxRetries now limit locked gen m).2 !! i = m !! i.
Proof.
  intros Hk Hn. simpl. apply lookup_union_r. apply not_elem_of_list_to_map_1.
  rewrite !list_elem_of_fmap. intros ([j e] & -> & Hj).
  apply list_elem_of_fmap in Hj as (e1 & [= -> ->] & Hj).
  apply list_elem_of_fmap in Hj as (e2 & -> & Hj). by apply (Hn e2 Hj).
Qed.

Lemma claim_keyed m : keyed m → keyed (claim_events maxRetries now limit locked gen m).2.
Proof.
  intros Hk i e' Hl. destruct (claim_lookup m i e' Hk Hl) as [(e & Hi & _ & ->)|[Hi _]].
  - simpl. by apply Hk.
  - by apply Hk.
Qed.
End claim.

(** ** The transition system *)

Record sys := Sys {
  tbl : gmap uuid OutboxEvent;
  used : gset uuid;
  reads : list (uuid * uuid * Z);
  attempts : uuid → Z
}.

Section system.
Context (o : Outbox).
Abbreviation maxr := (MaxRetries (retryPolicy o)).

Definition reset_attempts (i : uuid) (reset : bool) (f : uuid → Z) : uuid → Z :=
  λ j, if reset && (j ≟ i) then 0 else f j.

Inductive ostep : sys → sys → Prop :=
| step_enqueue s id now trace payload evt :
    tbl s !! id = None →
    ostep s (Sys (<[id := enqueue_row id now trace payload evt]> (tbl s)) (used s) (reads s) (attempts s))
| step_claim s now limit locked gen :
    let cs := candidates maxr now limit locked (tbl s) in
    (∀ i, gen i ∉ used s) → Inj (=) (=) gen →
    ostep s (Sys (claim_events maxr now limit locked gen (tbl s)).2
                 (used s ∪ list_to_set ((λ e, gen (ID e)) <$> cs))
                 (reads s)
                 (λ i, if bool_decide (i ∈ ID <$> cs) then attempts s i + 1 else attempts s i))
| step_done s now id lease :
    ostep s (Sys (update_where id (holds_lease lease) (done_row now) (tbl s)).2
                 (used s) (reads s) (attempts s))
| step_terminal s now id lease last :
    ostep s (Sys (update_where id (holds_lease lease) (terminal_row maxr now last) (tbl s)).2
                 (used s) (reads s) (attempts s))
| step_read s id lease e :
    tbl s !! id = Some e → holds_lease lease e = true →
    ostep s (Sys (tbl s) (used s) ((id, lease, RetryCount e) :: reads s) (attempts s))
| step_failed s clock now id lease rc last :
    (id, lease, rc) ∈ reads s →
    ostep s (Sys (update_where id (holds_lease lease)
                    (failed_row now (nextAttemptAt o clock (rc + 1)) last) (tbl s)).2
                 (used s) (reads s) (attempts s))
| step_reaped s clock now id lease rc :
    (id, lease, rc) ∈ reads s →
    ostep s (Sys (update_where id (holds_lease lease)
                    (reaped_row now (nextAttemptAt o clock (rc + 1))) (tbl s)).2
                 (used s) (reads s) (attempts s))
| step_recover s now id (reset : bool) e :
    tbl s !! id = Some e → is_terminal maxr e = true →
    ostep s (Sys (update_where id (is_terminal maxr)
                    (recovered_row now (if reset then 0 else RetryCount e)) (tbl s)).2
                 (used s) (reads s) (reset_attempts id reset (attempts s))).

Definition init_sys : sys := Sys ∅ ∅ [] (λ _, 0).
Definition reachable (s : sys) : Prop := rtc ostep init_sys s.

(** *** The invariant *)

(** What a row's status says about its other columns and its attempts. *)
Definition row_ok (n : Z) (e : OutboxEvent) : Prop :=
  0 <= n <= maxr ∧
  match Status e with
  | StPending => LeaseID e = None ∧ ClaimedAt e = None ∧ RetryCount e = 0 ∧ n = 0 ∧
                 is_Some (NextAttemptAt e)
  | StProcessing => is_Some (LeaseID e) ∧ is_Some (ClaimedAt e) ∧ n = RetryCount e + 1 ∧
                    0 <= RetryCount e < maxr
  | StDone => LeaseID e = None ∧ ClaimedAt e = None ∧ 0 <= RetryCount e < maxr
  | StFailed => LeaseID e = None ∧ ClaimedAt e = None ∧ 0 <= RetryCount e <= maxr ∧
                (RetryCount e < maxr → n = RetryCount e ∧ is_Some (NextAttemptAt e))
  end.

Record outbox_inv (s : sys) : Prop := {
  inv_keyed : keyed (tbl s);
  inv_rows : map_Forall (λ i e, row_ok (attempts s i) e) (tbl s);
  inv_used : map_Forall (λ i e, ∀ l, LeaseID e = Some l → l ∈ used s) (tbl s);
  inv_lease : ∀ i j e1 e2 l, tbl s !! i = Some e1 → tbl s !! j = Some e2 →
                LeaseID e1 = Some l → LeaseID e2 = Some l → i = j;
  inv_reads : ∀ i l rc, (i, l, rc) ∈ reads s → l ∈ used s ∧
                ∀ e, tbl s !! i = Some e → holds_lease l e = true → RetryCount e = rc;
  inv_fresh : ∀ i, tbl s !! i = None → attempts s i = 0
}.

(** An outcome step: the row under [lease] is replaced by a row without a
    lease; every other row stays. *)
Lemma outcome_inv s id (c : OutboxEvent → bool) (f : OutboxEvent → OutboxEvent) (att : uuid → Z) :
  outbox_inv s →
  (∀ e, ID (f e) = ID e) →
  (∀ e, LeaseID (f e) = None ∧ Status (f e) ≠ StProcessing) →
  (∀ e, tbl s !! id = Some e → c e = true → row_ok (attempts s id) e → row_ok (att id) (f e)) →
  (∀ j, j ≠ id → att j = attempts s j) →
  ((∀ e, tbl s !! id = Some e → c e = true) ∨ att id = attempts s id) →
  (tbl s !! id = None → att id = 0) →
  outbox_inv (Sys (update_where id c f (tbl s)).2 (used s) (reads s) att).
Proof.
  intros [Hk Hr Hu Hl Hrd Hf] HID Hlease Hrow Hatt Hid Hnone.
  assert (∀ i e', (update_where id c f (tbl s)).2 !! i = Some e' →
            tbl s !! i = Some e' ∨ (i = id ∧ LeaseID e' = None ∧ Status e' ≠ StProcessing)) as Hcase.
  { intros i e' Hi. apply lookup_update_where in Hi as [[? _]|(-> & e & ? & ? & ->)]; [by left|].
    right. split; [done|]. apply Hlease. }
  split; simpl.
  - apply map_Forall_update_where; [done|]. intros e He _ ?. by rewrite HID.
  - intros i e' Hi. apply lookup_update_where in Hi as [[Hi Hc]|(-> & e & He & Hc & ->)].
    + destruct (decide (i = id)) as [->|Hne].
      * destruct Hid as [Hid| ->]; [|by apply Hr]. specialize (Hc eq_refl). by rewrite (Hid e' Hi) in Hc.
      * rewrite Hatt by done. by apply Hr.
    + by apply Hrow, Hr.
  - intros i e' Hi l Hlse. destruct (Hcase i e' Hi) as [?|(_ & ? & _)]; [|congruence].
    by eapply Hu.
  - intros i j e1 e2 l Hi Hj H1 H2.
    destruct (Hcase i e1 Hi) as [?|(_ & ? & _)]; [|congruence].
    destruct (Hcase j e2 Hj) as [?|(_ & ? & _)]; [|congruence]. by eapply Hl.
  - intros i l rc Hin. destruct (Hrd i l rc Hin) as [Hlu Hrc]. split; [done|].
    intros e He Hh. destruct (Hcase i e He) as [?|(_ & ? & Hst)]; [by apply Hrc|].
    unfold holds_lease in Hh. bool_simpl. done.
  - intros i Hi. destruct (decide (i = id)) as [->|Hne].
    + apply Hnone. destruct (update_where id c f (tbl s)) as [n m'] eqn:Hup. simpl in Hi.
      destruct (update_where_inv _ _ _ _ _ _ Hup) as [(_ & v & Hv & _ & ->)|(_ & -> & _)]; [|done].
      by rewrite lookup_insert_eq in Hi.
    + rewrite Hatt by done. apply Hf.
      destruct (update_where id c f (tbl s)) as [n m'] eqn:Hup. simpl in Hi.
      destruct (update_where_inv _ _ _ _ _ _ Hup) as [(_ & v & _ & _ & ->)|(_ & -> & _)]; [|done].
      by rewrite lookup_insert_ne in Hi.
Qed.

Lemma nextAttemptAt_some clock n : n < maxr → is_Some (nextAttemptAt o clock n).
Proof. unfold nextAttemptAt. intros Hn. cases; [lia|by eexists]. Qed.

(** The row a failed attempt leaves keeps the invariant: either a retry is
    scheduled or the budget is spent. *)
Lemma row_ok_retry n e rc clock now last :
  row_ok n e → Status e = StProcessing → RetryCount e = rc →
  row_ok n (set_outcome StFailed (RetryCount e + 1) (nextAttemptAt o clock (rc + 1))
              None None last now e).
Proof.
  intros [Hn He] Hst <-. rewrite Hst in He. destruct He as (_ & _ & -> & ?).
  split; [done|]. simpl. split_and!; try done; try lia.
  intros ?. split; [done|]. by apply nextAttemptAt_some.
Qed.

Lemma holds_lease_inv l e : holds_lease l e = true → LeaseID e = Some l ∧ Status e = StProcessing.
Proof. unfold holds_lease. intros. by bool_simpl. Qed.

Lemma row_ok_claim_row n e now l :
  0 < maxr → row_ok n e → claimable maxr now e = true → row_ok (n + 1) (claim_row now l e).
Proof.
  intros Hmax [Hn Hrow] Hcl. unfold claimable in Hcl. apply andb_true_iff in Hcl as [Hst _].
  apply orb_true_iff in Hst as [Hst|Hst]; bool_simpl.
  - rewrite Hst in Hrow. destruct Hrow as (_ & _ & Hrc & -> & _).
    unfold row_ok; simpl. rewrite Hrc. split_and!; eauto; lia.
  - destruct (Status e); try done. destruct Hrow as (_ & _ & ? & Hatt).
    destruct Hatt as [-> _]; [done|]. unfold row_ok; simpl. split_and!; eauto; lia.
Qed.

(** A claim keeps the invariant: new leases are fresh, a claimed row has an
    attempt left. *)
Lemma claim_inv s now limit locked gen :
  let cs := candidates maxr now limit locked (tbl s) in
  0 < maxr → outbox_inv s → (∀ i, gen i ∉ used s) → Inj (=) (=) gen →
  outbox_inv (Sys (claim_events maxr now limit locked gen (tbl s)).2
                  (used s ∪ list_to_set ((λ e, gen (ID e)) <$> cs)) (reads s)
                  (λ i, if bool_decide (i ∈ ID <$> cs) then attempts s i + 1 else attempts s i)).
Proof.
  intros cs Hmax [Hk Hr Hu Hl Hrd Hf] Hgen Hinj.
  pose proof (λ i e', claim_lookup maxr now limit locked gen (tbl s) i e' Hk) as Hcase.
  split; cbn [tbl used reads attempts].
  - by apply claim_keyed.
  - intros i e' Hi. destruct (Hcase i e' Hi) as [(e & He & Hc & ->)|[He Hc]].
    + rewrite bool_decide_true by (apply list_elem_of_fmap; exists e; by rewrite (Hk i e He)).
      destruct (candidates_elem maxr now limit locked (tbl s) e Hk Hc) as (_ & Hcl & _).
      apply (row_ok_claim_row _ _ now); [done|by apply Hr|done].
    + rewrite bool_decide_false; [by apply Hr|]. intros (e & Hid & Hin)%list_elem_of_fmap.
      destruct (candidates_elem maxr now limit locked (tbl s) e Hk Hin) as (Hi' & _). naive_solver.
  - intros i e' Hi l Hlse. destruct (Hcase i e' Hi) as [(e & He & Hc & ->)|[He Hc]].
    + injection Hlse as <-. apply elem_of_union_r, elem_of_list_to_set, list_elem_of_fmap.
      exists e. by rewrite (Hk i e He).
    + apply elem_of_union_l. by eapply Hu.
  - intros i j e1 e2 l Hi Hj H1 H2.
    destruct (Hcase i e1 Hi) as [(e & He & _ & ->)|[He _]], (Hcase j e2 Hj) as [(e' & He' & _ & ->)|[He' _]];
      simpl in *; simplify_eq; [done|..|by eapply Hl].
    + destruct (Hgen i). by apply (Hu j e2).
    + destruct (Hgen j). by apply (Hu i e1).
  - intros i l rc Hin. destruct (Hrd i l rc Hin) as [Hlu Hrc]. split; [by apply elem_of_union_l|].
    intros e' Hi Hh. destruct (Hcase i e' Hi) as [(e & He & _ & ->)|[He _]]; [|by apply Hrc].
    apply holds_lease_inv in Hh as [[= <-] _]. by destruct (Hgen i).
  - intros i Hi. simpl in Hi. apply lookup_union_None in Hi as [_ Hi].
    rewrite bool_decide_false; [by apply Hf|]. intros (e & -> & Hin)%list_elem_of_fmap.
    destruct (candidates_elem maxr now limit locked (tbl s) e Hk Hin) as (? & _). congruence.
Qed.

Lemma row_ok_terminal_row n e now last l :
  0 < maxr → row_ok n e → holds_lease l e = true → row_ok n (terminal_row maxr now last e).
Proof.
  intros Hmax [Hn He] [_ Hst]%holds_lease_inv. rewrite Hst in He. destruct_and!.
  split; [done|]. simpl. split_and!; try done; lia.
Qed.

Lemma row_ok_done_row n e now l :
  row_ok n e → holds_lease l e = true → row_ok n (done_row now e).
Proof.
  intros [Hn He] [_ Hst]%holds_lease_inv. rewrite Hst in He. destruct_and!.
  split; [done|]. simpl. split_and!; try done; lia.
Qed.

(** Marking the outcome of the event under [l], whatever the outcome. *)
Lemma lease_outcome_inv s id l (f : OutboxEvent → OutboxEvent) :
  outbox_inv s →
  (∀ e, ID (f e) = ID e ∧ LeaseID (f e) = None ∧ Status (f e) ≠ StProcessing) →
  (∀ e, tbl s !! id = Some e → holds_lease l e = true →
        row_ok (attempts s id) e → row_ok (attempts s id) (f e)) →
  outbox_inv (Sys (update_where id (holds_lease l) f (tbl s)).2 (used s) (reads s) (attempts s)).
Proof.
  intros Hinv Hf Hrow. apply outcome_inv; try done; [apply Hf..|by right|].
  by apply (inv_fresh s).
Qed.

Lemma ostep_inv s s' : 0 < maxr → outbox_inv s → ostep s s' → outbox_inv s'.
Proof.
  intros Hmax Hinv Hstep. pose proof Hinv as [Hk Hr Hu Hl Hrd Hf].
  destruct Hstep as [s id now trace payload evt Hnone|s now limit locked gen cs Hgen Hinj|s now id lease
    |s now id lease last|s id lease e He Hh|s clock now id lease rc last Hin
    |s clock now id lease rc Hin|s now id reset e He Ht].
  - split; simpl.
    + by apply map_Forall_insert_2.
    + apply map_Forall_insert_2; [|done]. rewrite (Hf id Hnone). split; [lia|]. simpl. eauto.
    + by apply map_Forall_insert_2.
    + intros i j e1 e2 l. rewrite !lookup_insert. repeat case_decide; naive_solver.
    + intros i l rc Hin. destruct (Hrd i l rc Hin) as [? Hrc]. split; [done|]. intros e.
      rewrite lookup_insert. case_decide; [by intros [= <-]|apply Hrc].
    + intros i [Hi _]%lookup_insert_None. by apply Hf.
  - by apply claim_inv.
  - apply lease_outcome_inv; [done..|]. intros. by eapply row_ok_done_row.
  - apply lease_outcome_inv; [done..|]. intros. by eapply row_ok_terminal_row.
  - split; simpl; try done. intros i l rc [[= -> -> ->]|Hin]%elem_of_cons; [|by apply Hrd].
    split; [|naive_solver]. apply holds_lease_inv in Hh as [Hh _]. by eapply Hu.
  - apply lease_outcome_inv; [done..|]. intros e He Hh Hrow.
    destruct (Hrd _ _ _ Hin) as [_ Hrc]. apply row_ok_retry; [done|by eapply holds_lease_inv|by apply Hrc].
  - apply lease_outcome_inv; [done..|]. intros e He Hh Hrow.
    destruct (Hrd _ _ _ Hin) as [_ Hrc]. apply row_ok_retry; [done|by eapply holds_lease_inv|by apply Hrc].
  - apply outcome_inv; [done..| | | |]; unfold reset_attempts.
    + intros e' He' _ [Hn Hrow]. simplify_eq. unfold is_terminal in Ht. bool_simpl.
      rewrite H in Hrow. destruct_and!. rewrite bool_decide_refl.
      destruct reset; simpl; (split; [lia|]); simpl; split_and!; try done; try lia; eauto.
    + intros j Hj. rewrite bool_decide_false by done. by rewrite andb_false_r.
    + left. by intros e' [= <-]%(eq_trans (eq_sym He)).
    + congruence.
Qed.

Lemma init_inv : outbox_inv init_sys.
Proof. split; simpl; try done; intros *; try by rewrite lookup_empty. by intros ?%not_elem_of_nil. Qed.

Lemma rtc_inv s s' : 0 < maxr → outbox_inv s → rtc ostep s s' → outbox_inv s'.
Proof. intros Hmax Hinv Hs. induction Hs; eauto using ostep_inv. Qed.

Lemma reachable_inv s : 0 < maxr → reachable s → outbox_inv s.
Proof. intros. by eapply rtc_inv; [|apply init_inv|]. Qed.

(** A lease that was handed out and that no row carries is gone for good. *)
Definition lease_dead (l : uuid) (s : sys) : Prop :=
  l ∈ used s ∧ map_Forall (λ _ e, LeaseID e ≠ Some l) (tbl s).

Lemma outcome_lease_dead l id c (f : OutboxEvent → OutboxEvent) (m : gmap uuid OutboxEvent) :
  (∀ e, LeaseID (f e) = None) →
  map_Forall (λ _ e, LeaseID e ≠ Some l) m →
  map_Forall (λ _ e, LeaseID e ≠ Some l) (update_where id c f m).2.
Proof. intros Hf Hm. apply map_Forall_update_where; [done|]. intros. by rewrite Hf. Qed.

Lemma ostep_lease_dead l s s' : keyed (tbl s) → ostep s s' → lease_dead l s → lease_dead l s'.
Proof.
  intros Hk Hstep [Hu Hd].
  destruct Hstep as [| s now limit locked gen cs Hgen Hinj | | | | | |];
    try (split; [done|]; by apply outcome_lease_dead).
  - split; [done|]. by apply map_Forall_insert_2.
  - split; [by apply elem_of_union_l|]. intros i e' Hi.
    destruct (claim_lookup maxr now limit locked gen (tbl s) i e' Hk Hi) as [(e & _ & _ & ->)|[He _]].
    + intros [= <-]. by apply (Hgen i).
    + by eapply Hd.
  - by split.
Qed.

(** A completed event is never touched again. *)
Lemma ostep_done s s' i e :
  keyed (tbl s) → ostep s s' → tbl s !! i = Some e → Status e = StDone → tbl s' !! i = Some e.
Proof.
  intros Hk Hstep Hi Hst.
  assert (∀ k c f, (∀ e, c e = true → Status e ≠ StDone) →
            (update_where k c f (tbl s)).2 !! i = Some e) as Hup.
  { intros k c f Hc. unfold update_where. destruct (tbl s !! k) as [e'|] eqn:Hk'; [|done].
    destruct (c e') eqn:He; simpl; [|done]. rewrite lookup_insert_ne; [done|].
    intros ->. simplify_eq. by apply (Hc e He). }
  destruct Hstep; simpl;
    try (apply Hup; unfold holds_lease, is_terminal; intros e' ?; bool_simpl; congruence).
  - rewrite lookup_insert_ne; [done|]. congruence.
  - rewrite lookup_union_r; [done|]. apply not_elem_of_list_to_map_1.
    rewrite !list_elem_of_fmap. intros ([j e2] & -> & Hj).
    apply list_elem_of_fmap in Hj as (e1 & [= -> ->] & Hj).
    apply list_elem_of_fmap in Hj as (e0 & -> & Hj). simpl in *.
    destruct (candidates_elem _ _ _ _ _ e0 Hk Hj) as (Hi' & Hcl & _). simplify_eq.
    unfold claimable in Hcl. rewrite Hst in Hcl. done.
  - done.
Qed.
End system.
