(* ===== verification/OutboxRun.v ===== *)
(** * The outbox operations and their guarantees

    The operations of [Outbox.v] are runs of the transition system of
    [OutboxSafety.v], under every fault schedule, so its invariant holds of the
    running processor; then the behaviour of each operation: what a claim
    takes, what the outcome of an event is, retry delays, the reaper and the
    operator's recovery. *)

From Stdlib Require Import ZArith Lia.
From S2P Require Import Prelude Sql GoFloat GoText Outbox OutboxSafety.
Open Scope Z_scope.

(** ** Operations as runs of the system *)

Section simulation.
Context (o : Outbox) (Hmax : 0 < MaxRetries (retryPolicy o)).

(** Assertions about a state: the invariant, the leases handed out are in
    [U], the reads in [L] have been made. *)
Definition ghost (U : uuid → Prop) (L : list (uuid * uuid * Z)) (s : sys) : Prop :=
  outbox_inv o s ∧ (∀ l, l ∈ used s → U l) ∧ ∀ x, x ∈ L → x ∈ reads s.

(** [m] is a run of the system, whatever fails: from a state with the
    committed table and [P], to one with the committed table after it and
    [Q]. *)
Definition sim {A} (P : sys → Prop) (m : outboxM A)
    (Q : result (err outbox_error) A → sys → Prop) : Prop :=
  ∀ w s, tbl s = outbox_events (committed w) → P s →
    ∃ s', rtc (ostep o) s s' ∧ tbl s' = outbox_events (committed (m w).2) ∧ Q (m w).1 s'.

Lemma sim_keeps {A} (P : sys → Prop) (m : outboxM A) : keeps m → sim P m (λ _, P).
Proof. intros Hm w s Ht HP. exists s. by rewrite Hm. Qed.
Lemma sim_bind {A B} P (m : outboxM A) Q (k : A → outboxM B) R :
  sim P m Q → (∀ a, sim (Q (Ok a)) (k a) R) → (∀ e s, Q (Err e) s → R (Err e) s) →
  sim P (bind m k) R.
Proof.
  intros Hm Hk He w s Ht HP. destruct (Hm w s Ht HP) as (s1 & Hr1 & Ht1 & HQ). unfold bind.
  destruct (m w) as [[a|e] w1]; simpl in *.
  - destruct (Hk a w1 s1 Ht1 HQ) as (s2 & Hr2 & Ht2 & HR). exists s2. split; [unfold reachable in *; by etrans|done].
  - exists s1. split_and!; [done..|]. by apply He.
Qed.
Lemma sim_seq {A B} (P P' R : sys → Prop) (m : outboxM A) (k : A → outboxM B) :
  sim P m (λ _, P') → (∀ a, sim P' (k a) (λ _, R)) → (∀ s, P' s → R s) →
  sim P (bind m k) (λ _, R).
Proof. intros Hm Hk HP. by eapply sim_bind. Qed.
Lemma sim_attempt {A} P (m : outboxM A) (Q : sys → Prop) :
  sim P m (λ _, Q) → sim P (attempt m) (λ _, Q).
Proof. intros Hm w s Ht HP. specialize (Hm w s Ht HP). unfold attempt. by destruct (m w). Qed.

Lemma sim_attempt_result {A} P (m : outboxM A) Q :
  sim P m Q → sim P (attempt m) (λ r s, ∃ r', r = Ok r' ∧ Q r' s).
Proof.
  intros Hm w s Ht HP. destruct (Hm w s Ht HP) as (s' & Hr & Ht' & HQ). exists s'.
  unfold attempt. destruct (m w). eauto.
Qed.

(** A guarded update of one row is a step when its effect on the table is. *)
Lemma sim_update U L label text k c f :
  (∀ s, (∀ x, x ∈ L → x ∈ reads s) →
     ostep o s (Sys (update_where k c f (tbl s)).2 (used s) (reads s) (attempts s))) →
  sim (ghost U L) (pool_stmt label (update_event text k c f)) (λ _, ghost U L).
Proof.
  intros Hstep w s Ht HP.
  assert (∀ s', s' = committed w ∨ text_ok text = true ∧
            outbox_events s' = (update_where k c f (tbl s)).2 →
          ∃ t, rtc (ostep o) s t ∧ tbl t = outbox_events s' ∧ ghost U L t) as Hres.
  { intros s' [->|[_ Hs']]; [by exists s|]. rewrite Hs'. eexists.
    destruct HP as (Hinv & HU & HL). specialize (Hstep s HL).
    split; [by apply rtc_once|]. split; [done|]. split; [by eapply ostep_inv|done]. }
  apply Hres. rewrite Ht. unfold pool_stmt, update_event.
  destruct (update_where k c f (outbox_events (committed w))), (text_ok text), (next_fault w);
    simpl; auto.
Qed.

(** A query of retry counts under their leases is a run of reads. *)
Lemma sim_read {A} U label (f : ODB → A) (L : A → list (uuid * uuid * Z)) :
  (∀ db, keyed (outbox_events db) →
     Forall (λ x, ∃ e, outbox_events db !! x.1.1 = Some e ∧ holds_lease x.1.2 e = true ∧
                       RetryCount e = x.2) (L (f db))) →
  sim (ghost U []) (pool_stmt label (query f))
      (λ r, ghost U (match r with Ok a => L a | Err _ => [] end)).
Proof.
  intros Hf w s Ht HP.
  assert (∃ s', rtc (ostep o) s s' ∧ tbl s' = tbl s ∧ ghost U (L (f (committed w))) s') as (s' & Hr & Ht' & HP').
  { specialize (Hf (committed w)). rewrite <-Ht in Hf. specialize (Hf (inv_keyed _ _ (proj1 HP))).
    induction Hf as [|[[i l] rc] es (e & Hi & Hh & Hrc) Hes (s' & Hs' & Ht' & Hinv & HU & HL)]; [by exists s|].
    simpl in *. eexists. split; [eapply rtc_r; [done|]|].
    - apply (step_read o s' i l e); [by rewrite Ht'|done].
    - split; [done|]. split; [by eapply ostep_inv, step_read; [..|rewrite Ht'|]|].
      simpl. rewrite Hrc. split; [done|]. set_solver. }
  unfold pool_stmt, query. destruct (next_fault w); simpl.
  - exists s'. by rewrite Ht'.
  - by exists s.
  - by exists s.
Qed.

Lemma MarkDone_sim U L now id lease : sim (ghost U L) (MarkDone now id lease) (λ _, ghost U L).
Proof.
  eapply sim_bind; [apply sim_update; intros; apply step_done| |done].
  intros n. apply sim_keeps. sql_solve.
Qed.

Lemma MarkFailedTerminal_sim U L now id lease e :
  sim (ghost U L) (MarkFailedTerminal o now id lease e) (λ _, ghost U L).
Proof.
  eapply sim_bind; [apply sim_update; intros; apply step_terminal| |done].
  intros n. apply sim_keeps. sql_solve.
Qed.

Lemma MarkFailed_sim U clock now id lease e :
  sim (ghost U []) (MarkFailed o clock now id lease e) (λ _, ghost U []).
Proof.
  eapply sim_bind; [apply (sim_read U _ _ (λ r, if r is Some rc then [(id, lease, rc)] else []))| |done].
  - intros db _. unfold retry_of. destruct (outbox_events db !! id) as [row|] eqn:Hrow; simpl; [|done].
    destruct (holds_lease lease row) eqn:Hh; [|done]. apply Forall_singleton. by exists row.
  - intros [rc|]; [|by apply sim_keeps; sql_solve].
    eapply sim_bind.
    + apply (sim_update U [(id, lease, rc)]). intros s Hs. apply step_failed, Hs. set_solver.
    + intros n w s Ht HP. exists s.
      assert (ghost U [] s) by (destruct HP as (? & ? & _); split_and!; set_solver).
      case_match; done.
    + intros e' s (? & ? & _). split_and!; set_solver.
Qed.

Lemma reap_loop_sim U clock now events reaped :
  sim (ghost U ((λ ev, (ab_id ev, ab_lease ev, ab_retry ev)) <$> events))
      (reap_loop o clock now events reaped) (λ _, ghost U []).
Proof.
  revert reaped. induction events as [|ev events IH]; intros reaped; [by apply sim_keeps|].
  simpl. eapply sim_bind; [apply sim_attempt, sim_update| |].
  - intros s Hs. apply step_reaped, Hs. set_solver.
  - intros [n|e] w s Ht (Hinv & HU & HL).
    + apply IH; [done|]. split_and!; set_solver.
    + exists s. split_and!; try done. split_and!; set_solver.
  - intros e s (? & ? & _). split_and!; set_solver.
Qed.

Lemma abandoned_elem cutoff m evs :
  abandoned cutoff m = Some evs → keyed m →
  ∀ ev, ev ∈ evs ↔ ∃ e, m !! ab_id ev = Some e ∧ lease_expired cutoff e = true ∧
                        LeaseID e = Some (ab_lease ev) ∧ RetryCount e = ab_retry ev.
Proof.
  unfold abandoned. intros Hm Hk ev. apply mapM_Some in Hm. split.
  - intros (i & Hi)%list_elem_of_lookup. destruct (Forall2_lookup_r _ _ _ _ _ Hm Hi) as (e & He & Hev).
    apply list_elem_of_lookup_2, list_elem_of_filter in He as [Hx He].
    apply list_elem_of_fmap in He as ([j e'] & -> & He). apply elem_of_map_to_list in He.
    apply fmap_Some in Hev as (l & Hl & ->). simpl in *. exists e'. by rewrite (Hk j e' He).
  - intros (e & He & Hx & Hl & Hrc).
    assert (e ∈ filter (λ e, lease_expired cutoff e = true) ((map_to_list m).*2)) as Hin.
    { apply list_elem_of_filter. split; [done|]. apply list_elem_of_fmap. exists (ab_id ev, e).
      by rewrite elem_of_map_to_list. }
    apply list_elem_of_lookup in Hin as (i & Hi).
    destruct (Forall2_lookup_l _ _ _ _ _ Hm Hi) as (ev' & Hev' & Hf). rewrite Hl in Hf. simpl in Hf.
    injection Hf as <-. apply list_elem_of_lookup_2 in Hev'. rewrite (Hk _ _ He), Hrc in Hev'. by destruct ev.
Qed.

Lemma ReapAbandoned_sim U clock now window :
  sim (ghost U []) (ReapAbandoned o clock now window) (λ _, ghost U []).
Proof.
  unfold ReapAbandoned. case_match; [by apply sim_keeps|].
  eapply sim_bind; [apply sim_attempt_result, (sim_read U _ _ (λ r, if r is Some evs then
    (λ ev, (ab_id ev, ab_lease ev, ab_retry ev)) <$> evs else []))|..].
  - intros db Hk. destruct (abandoned _ (outbox_events db)) as [evs|] eqn:Ha; [|done].
    apply Forall_fmap, Forall_forall. intros ev Hev. simpl.
    apply (abandoned_elem _ _ _ Ha Hk) in Hev as (e & He & Hx & Hl & Hrc).
    exists e. split_and!; [done| |done]. unfold lease_expired in Hx. unfold holds_lease.
    rewrite Hl. bool_simpl. by rewrite bool_decide_refl, bool_decide_true.
  - intros [[evs|]|e] w s Ht (r' & [= <-] & HP); [by apply reap_loop_sim|by exists s..].
  - by intros e s (r' & ? & _).
Qed.

(** What a committed recovery leaves. *)
Definition recovered (now : time) (id op : uuid) (reason : string) (reset : bool) (db db' : ODB) : Prop :=
  ∃ e email, outbox_events db !! id = Some e ∧
    is_terminal (MaxRetries (retryPolicy o)) e = true ∧ snd <$> users db !! op = Some email ∧
    let n := if reset then 0 else RetryCount e in
    db' = add_audit (RecoverAudit (WorkspaceID e) op email id (TrimSpace reason) reset (RetryCount e) n)
            (set_events (<[id := recovered_row now n e]> (outbox_events db)) db).

Lemma Recover_effect now id op reason reset db wk :
  wp (Recover o now id op reason reset) db wk (λ r db' _,
    (db' = db ∧ ∃ e, r = Err e) ∨
    (recovered now id op reason reset db db' ∧
     (r = Ok tt ∨ r = Err (Sql "commit outbox recovery" ReplyLost)))).
Proof.
  unfold Recover. wp_go; try (by left; eauto); right; (split; [|by auto]);
    repeat match goal with
    | H : insert_audit _ _ = Ok _ |- _ => unfold insert_audit in H; case_match; simplify_eq
    | H : recover_stmt _ _ _ _ _ = Ok _ |- _ => unfold recover_stmt, update_event in H
    end; simpl in *;
    (destruct (update_where id _ _ (outbox_events db)) as [n m] eqn:Hup; simplify_eq;
     destruct (update_where_inv _ _ _ _ _ _ Hup) as [(-> & e & He & Ht & ->)|(-> & _)]; [|done];
     simplify_eq; by do 2 eexists; eauto).
Qed.

Lemma Recover_sim U now id op reason reset :
  sim (ghost U []) (Recover o now id op reason reset) (λ _, ghost U []).
Proof.
  intros w s Ht HP. pose proof (Recover_effect now id op reason reset (committed w) (working w) (faults w)) as Hw.
  destruct w as [db wk fs]; simpl in *. destruct (Recover _ _ _ _ _ _ _) as [r w']; simpl.
  destruct Hw as [[-> _]|[(e & email & He & Hterm & _ & ->) _]]; [by exists s|].
  rewrite <-Ht in He. pose proof (step_recover o s now id reset e He Hterm) as Hstep.
  eexists. split; [by apply rtc_once|]. split.
  - simpl. rewrite (update_where_hit _ _ _ _ e) by done. simpl. by rewrite Ht.
  - destruct HP as (? & ? & ?). split; [by eapply ostep_inv|]. done.
Qed.

Lemma ClaimEvents_sim U now locked gen limit :
  Inj (=) (=) gen → (∀ i, ¬ U (gen i)) →
  sim (ghost U []) (ClaimEvents o now locked gen limit)
      (λ _, ghost (λ l, U l ∨ ∃ i, l = gen i) []).
Proof.
  intros Hinj Hfresh w s Ht (Hinv & HU & _). unfold ClaimEvents.
  assert (ghost (λ l, U l ∨ ∃ i, l = gen i) [] s) as Hs by (split; [done|]; split; [auto|set_solver]).
  destruct (limit <=? 0); [by exists s|].
  assert (∃ s', ostep o s s' ∧ tbl s' = (claim_events (MaxRetries (retryPolicy o)) now (Z.to_nat limit)
    locked gen (outbox_events (committed w))).2 ∧ ghost (λ l, U l ∨ ∃ i, l = gen i) [] s') as (s' & Hstep & Ht' & Hs').
  { eexists. split; [apply (step_claim o s now (Z.to_nat limit) locked gen); [|done]|].
    - intros i Hi. apply (Hfresh i). by apply HU.
    - split; [by rewrite <-Ht|]. split; [apply claim_inv; auto; intros i Hi; by apply (Hfresh i), HU|].
      split; [|set_solver]. simpl. intros l. rewrite elem_of_union, elem_of_list_to_set, list_elem_of_fmap.
      naive_solver. }
  unfold pool_stmt, claim_stmt. destruct (claim_events _ _ _ _ _ _) as [cs m]; simpl in *.
  destruct (next_fault w); simpl;
    [exists s'; split_and!; [by apply rtc_once|done..]|by exists s|exists s'; split_and!; [by apply rtc_once|done..]].
Qed.

Lemma processEvent_sim U p clock now evt :
  p_outbox p = o → sim (ghost U []) (processEvent p clock now evt) (λ _, ghost U []).
Proof.
  intros Hp. unfold processEvent. rewrite Hp. destruct (LeaseID evt) as [l|]; [|by apply sim_keeps].
  destruct (Dispatch _ _) as [he|]; [|apply MarkDone_sim].
  apply (sim_seq _ (ghost U [])); [|by intros; apply sim_keeps|done].
  case_match; [apply MarkFailedTerminal_sim|apply MarkFailed_sim].
Qed.

Lemma process_batch_sim U p clock now evs :
  p_outbox p = o → sim (ghost U []) (process_batch p clock now evs) (λ _, ghost U []).
Proof.
  intros Hp. induction evs as [|e evs IH]; [by apply sim_keeps|]. simpl.
  eapply sim_seq; [by apply sim_attempt, processEvent_sim|done|done].
Qed.

(** The leases of the ticks' claims are new and pairwise distinct. *)
Fixpoint fresh_ticks (U : uuid → Prop) (ts : list tick) : Prop :=
  match ts with
  | [] => True
  | PollTick _ _ _ gen :: ts =>
      Inj (=) (=) gen ∧ (∀ i, ¬ U (gen i)) ∧ fresh_ticks (λ l, U l ∨ ∃ i, l = gen i) ts
  | ReaperTick _ _ :: ts => fresh_ticks U ts
  end.

Lemma run_ticks_sim p batch ts first U :
  p_outbox p = o → fresh_ticks U ts →
  sim (ghost U []) (run_ticks p batch ts first) (λ _, outbox_inv o).
Proof.
  intros Hp. revert U first. induction ts as [|t ts IH]; intros U first Hf; simpl.
  { intros w s Ht [Hinv _]. by exists s. }
  destruct t as [clock now locked gen|clock now]; simpl in *.
  - destruct Hf as (Hinj & Hfr & Hf). eapply sim_seq; [|intros a; by apply IH|by intros s [? _]].
    eapply sim_seq; [rewrite Hp; by apply sim_attempt, ClaimEvents_sim| |done].
    intros [evs|e]; [|by apply sim_keeps].
    eapply sim_seq; [by apply process_batch_sim|by intros; apply sim_keeps|done].
  - eapply sim_seq; [|intros a; by apply IH|by intros s [? _]].
    rewrite Hp. eapply sim_seq; [apply ReapAbandoned_sim|by intros; apply sim_keeps|done].
Qed.
End simulation.

(** ** Retry delays *)

Lemma int64_clamp a (p : RetryPolicy) x :
  Validate p = None → 0 < fl_trunc x →
  (let delay := int64_of_fl a x in if (delay <=? 0) || (Max p <? delay) then Max p else delay)
  = Z.min (Max p) (fl_trunc x).
Proof.
  intros Hv Hx.
  assert (0 < Max p <= 300000000000).
  { unfold Validate, MaxBackoff, Minute, Second in *. cases. lia. }
  unfold int64_of_fl. set (v := fl_trunc x) in *. clearbody v.
  destruct a; repeat case_match; bool_simpl; try lia;
    repeat match goal with H : _ ∨ _ |- _ => destruct H; bool_simpl end; lia.
Qed.

(** C38: For a validated policy the delay before retry [n] is exactly
    [min (Max, Base * 2^n)], on both targets: neither the float64 product nor
    the conversion back to int64 can overflow into a wrong delay. *)
Theorem Backoff_exact a p n :
  Validate p = None → Backoff a p n = Z.min (Max p) (Base p * 2 ^ Z.max 0 n).
Proof.
  intros Hv. unfold Backoff.
  assert (0 < Base p ∧ 0 < Max p <= 300000000000) as [Hb Hm].
  { unfold Validate, MaxBackoff, Minute, Second in *. cases. lia. }
  set (k := Z.min (if n <? 0 then 0 else n) 62).
  assert (0 <= k ∧ (k = Z.max 0 n ∨ k = 62 ∧ 62 < n)) as [Hk Hkn].
  { unfold k. destruct (Z.ltb_spec n 0); lia. }
  clearbody k. destruct (fl_of_int_pow2 (Base p) k Hb Hk) as [Hsmall Hbig].
  assert (∀ j, 0 <= j → Base p <= Base p * 2 ^ j) as Hge.
  { intros j Hj. pose proof (Z.pow_pos_nonneg 2 j ltac:(lia) Hj).
    transitivity (Base p * 1); [lia|]. apply Z.mul_le_mono_nonneg_l; lia. }
  assert (∀ j, 62 <= j → 2 ^ 62 <= Base p * 2 ^ j) as Hge62.
  { intros j Hj. pose proof (Z.pow_le_mono_r 2 62 j ltac:(lia) Hj).
    transitivity (1 * 2 ^ j); [lia|]. apply Z.mul_le_mono_nonneg_r; lia. }
  pose proof (Hge k Hk). pose proof (Hge (Z.max 0 n) ltac:(lia)).
  destruct (Z.lt_ge_cases (Base p) (2 ^ 53)) as [Hlt|Hle].
  - specialize (Hsmall Hlt). cbv zeta in Hsmall. etransitivity; [apply int64_clamp; [done|lia]|].
    rewrite Hsmall. destruct Hkn as [->|[-> Hn]]; [done|].
    pose proof (Hge62 62 ltac:(lia)). pose proof (Hge62 (Z.max 0 n) ltac:(lia)). lia.
  - specialize (Hbig Hle). cbv zeta in Hbig. etransitivity; [apply int64_clamp; [done|lia]|]. lia.
Qed.

Lemma Backoff_exact_witness :
  Validate DefaultRetryPolicy = None ∧ Backoff amd64 DefaultRetryPolicy 7 = 128 * Second.
Proof.
  split; [vm_compute; reflexivity|].
  rewrite (Backoff_exact amd64 DefaultRetryPolicy 7); vm_compute; reflexivity.
Defined.

Lemma Validate_max p : Validate p = None → 0 < MaxRetries p <= 1000.
Proof. unfold Validate. intros Hv. cases. lia. Qed.

(** ** Safety of every interleaving *)

(** A processing row is exactly a leased one, an attempt is within the budget,
    and an event that is neither done nor out of retries is leased or due at
    some time, so it cannot be lost. *)
Definition event_safe (maxRetries : Z) (n : Z) (e : OutboxEvent) : Prop :=
  0 <= n <= maxRetries ∧ 0 <= RetryCount e <= maxRetries ∧
  (Status e = StProcessing ↔ is_Some (LeaseID e)) ∧
  (Status e ≠ StDone → RetryCount e < maxRetries → Status e ≠ StProcessing →
     ∃ t, ∀ now, t <= now → claimable maxRetries now e = true).

Lemma row_ok_safe o n e : row_ok o n e → event_safe (MaxRetries (retryPolicy o)) n e.
Proof.
  unfold row_ok, event_safe, claimable. intros [Hn Hrow].
  destruct (Status e) eqn:Hst; destruct_and?; split_and!; try lia;
    try (split; [done|]; match goal with H : LeaseID e = None |- _ => rewrite H end; by intros []);
    try done; simpl.
  - intros _ _ _. destruct (NextAttemptAt e) as [t|]; [|by destruct H4].
    exists t. intros now Hnow. simpl. by apply Z.leb_le.
  - intros _ Hlt _. match goal with H : _ → _ ∧ is_Some _ |- _ => destruct (H Hlt) as [_ [t Ht]] end.
    exists t. intros now Hnow. rewrite Ht. simpl.
    apply andb_true_iff. split; [by apply Z.ltb_lt|by apply Z.leb_le].
Qed.

(** C1: In every state that any number of producers, workers, reapers and
    operators can reach, interleaving their SQL statements freely: each event
    is claimed at most MaxRetries times per retry budget, only processing
    events carry a lease, no two events share one, and no event with budget
    left is ever lost. *)
Theorem outbox_safe o s :
  Validate (retryPolicy o) = None → reachable o s →
  map_Forall (λ i e, ID e = i ∧ event_safe (MaxRetries (retryPolicy o)) (attempts s i) e) (tbl s) ∧
  (∀ i j e1 e2 l, tbl s !! i = Some e1 → tbl s !! j = Some e2 →
     LeaseID e1 = Some l → LeaseID e2 = Some l → i = j).
Proof.
  intros Hv%Validate_max Hs. destruct (reachable_inv o s ltac:(lia) Hs) as [Hk Hr _ Hl _ _].
  split; [|done]. intros i e He. split; [by apply Hk|]. by apply row_ok_safe, Hr.
Qed.

Definition demo_event : Event := MkEvent "user.created" "w1" None "c1" "{}".
Definition demo_row : OutboxEvent := enqueue_row "e1" 5 None "{}" demo_event.

Lemma outbox_safe_witness :
  ∃ s, reachable (NewOutbox amd64) s ∧ tbl s !! "e1" = Some demo_row ∧
       map_Forall (λ i e, ID e = i ∧ event_safe 100 (attempts s i) e) (tbl s).
Proof.
  exists (Sys {["e1" := demo_row]} ∅ [] (λ _, 0)).
  assert (reachable (NewOutbox amd64) (Sys {["e1" := demo_row]} ∅ [] (λ _, 0))) as Hs.
  { apply rtc_once. apply (step_enqueue _ (init_sys)). reflexivity. }
  split; [done|]. split; [reflexivity|].
  apply (outbox_safe (NewOutbox amd64) _ ltac:(vm_compute; reflexivity) Hs).
Defined.

Lemma set_events_id db : set_events (outbox_events db) db = db.
Proof. by destruct db. Qed.

Lemma update_event_miss text k c f db n db' :
  update_where k c f (outbox_events db) = (0, outbox_events db) →
  update_event text k c f db = Ok (n, db') → n = 0 ∧ db' = db.
Proof. unfold update_event. intros ->. case_match; [|done]. intros [= <- <-]. by rewrite set_events_id. Qed.

Lemma rtc_lease_dead o l s s' :
  0 < MaxRetries (retryPolicy o) → outbox_inv o s → rtc (ostep o) s s' → lease_dead l s → lease_dead l s'.
Proof.
  intros Hmax Hinv Hs. induction Hs as [|s s1 s2 H1 H2 IH]; [done|]. intros Hd.
  apply IH; [by eapply ostep_inv|]. eapply ostep_lease_dead; [|done|done]. apply Hinv.
Qed.

Lemma dead_lease_miss l (m : gmap uuid OutboxEvent) id :
  map_Forall (λ _ e, LeaseID e ≠ Some l) m → ∀ e, m !! id = Some e → holds_lease l e = false.
Proof.
  intros Hd e He. unfold holds_lease. by rewrite bool_decide_false by (by eapply Hd).
Qed.

(** Once a lease is given up (its event completed, failed, reaped), it is
    refused forever: in every later state, completing or failing any event
    under it reports an error and changes nothing, whatever fails; without
    faults the error is ErrStaleLease. *)
Theorem stale_lease_refused o s s' l db id clock now e :
  Validate (retryPolicy o) = None → reachable o s → lease_dead l s → rtc (ostep o) s s' →
  outbox_events db = tbl s' →
  let refused r (db' : ODB) (_ : option ODB) := db' = db ∧ ∃ e : err outbox_error, r = Err (A:=()) e in
  wp (MarkDone now id l) db None refused ∧
  wp (MarkFailed o clock now id l e) db None refused ∧
  wp (MarkFailedTerminal o now id l e) db None refused ∧
  run (MarkDone now id l) db = (Err (App ErrStaleLease), db) ∧
  run (MarkFailed o clock now id l e) db = (Err (App ErrStaleLease), db).
Proof.
  intros Hv%Validate_max Hs Hd Hss' Hdb refused.
  destruct (rtc_lease_dead o l s s' ltac:(lia) (reachable_inv o s ltac:(lia) Hs) Hss' Hd) as [_ Hd'].
  rewrite <-Hdb in Hd'. pose proof (λ id, dead_lease_miss l _ id Hd') as Hmiss.
  assert (∀ id f, update_where id (holds_lease l) f (outbox_events db) = (0, outbox_events db)) as Hup.
  { intros id' f. by apply update_where_miss, Hmiss. }
  assert (retry_of id l db = None) as Hret.
  { unfold retry_of. destruct (outbox_events db !! id) as [row|] eqn:Hrow; [|done]. simpl.
    by rewrite (Hmiss id row Hrow). }
  split_and!.
  1-3: unfold MarkDone, MarkFailed, MarkFailedTerminal; wp_go; unfold refused; eauto;
    try congruence; unfold done_stmt, terminal_stmt in *;
    match goal with H : update_event _ _ _ _ _ = _ |- _ =>
      apply (update_event_miss _ _ _ _ _ _ _ (Hup _ _)) in H as [-> ->] end; eauto; done.
  - unfold run, MarkDone, bind, pool_stmt, done_stmt, update_event. simpl. rewrite Hup. simpl.
    by rewrite set_events_id.
  - unfold run, MarkFailed, bind, pool_stmt, query. simpl. by rewrite Hret.
Qed.

(** A run of the system for the witnesses: enqueue, claim, complete. *)
Definition demo_gen (i : uuid) : uuid := "lease-" +:+ i.
Definition demo_outbox : Outbox := NewOutbox amd64.
Definition demo_claimed : sys :=
  Sys (claim_events 100 10 1 ∅ demo_gen {["e1" := demo_row]}).2 {["lease-e1"]} []
      (λ i, if bool_decide (i ∈ ["e1"]) then 1 else 0).
Definition demo_done : sys :=
  Sys (update_where "e1" (holds_lease "lease-e1") (done_row 11) (tbl demo_claimed)).2
      (used demo_claimed) [] (attempts demo_claimed).

#[global] Instance demo_gen_inj : Inj (=) (=) demo_gen.
Proof. intros i j. apply (inj (String.app "lease-")). Qed.

Lemma demo_claimed_reachable : reachable demo_outbox demo_claimed.
Proof.
  eapply rtc_l; [apply (step_enqueue _ init_sys "e1" 5 None "{}" demo_event); reflexivity|].
  apply rtc_once. exact (step_claim demo_outbox (Sys {["e1" := demo_row]} ∅ [] (λ _, 0)) 10 1 ∅ demo_gen
    (λ i, not_elem_of_empty _) demo_gen_inj).
Qed.

Lemma demo_done_reachable : reachable demo_outbox demo_done.
Proof. eapply rtc_r; [apply demo_claimed_reachable|]. apply (step_done _ demo_claimed). Qed.

Lemma stale_lease_refused_witness :
  run (MarkDone 20 "e1" "lease-e1") (MkODB (tbl demo_done) ∅ ∅ [])
  = (Err (App ErrStaleLease), MkODB (tbl demo_done) ∅ ∅ []).
Proof.
  apply (stale_lease_refused demo_outbox demo_done demo_done "lease-e1"
           (MkODB (tbl demo_done) ∅ ∅ []) "e1" 20 20 None).
  - vm_compute. reflexivity.
  - apply demo_done_reachable.
  - split; apply (bool_decide_unpack _); vm_compute; exact I.
  - apply rtc_refl.
  - reflexivity.
Defined.

(** A completed event is final: no later statement of any worker, reaper or
    operator changes its row. *)
Theorem done_is_final o s s' i e :
  Validate (retryPolicy o) = None → reachable o s → rtc (ostep o) s s' →
  tbl s !! i = Some e → Status e = StDone → tbl s' !! i = Some e.
Proof.
  intros Hv%Validate_max Hs. pose proof (reachable_inv o s ltac:(lia) Hs) as Hinv. clear Hs.
  induction 1 as [|s s1 s2 H1 H2 IH]; [done|]. intros Hi Hst.
  apply IH; [by eapply ostep_inv; [lia|..]| |done].
  eapply ostep_done; eauto. apply Hinv.
Qed.

Lemma done_is_final_witness :
  ∃ e, Status e = StDone ∧ tbl demo_done !! "e1" = Some e.
Proof.
  exists (done_row 11 (claim_row 10 "lease-e1" demo_row)). split; [reflexivity|].
  apply (done_is_final demo_outbox demo_done demo_done "e1").
  - vm_compute. reflexivity.
  - apply demo_done_reachable.
  - apply rtc_refl.
  - vm_compute. reflexivity.
  - reflexivity.
Defined.


Definition demo_processor : Processor :=
  MkProcessor demo_outbox ∅ DefaultPollInterval DefaultLockWindow DefaultReaperInterval.
Definition demo_world : world ODB := World (MkODB {["e1" := demo_row]} ∅ ∅ []) None [NoFault; Lost].


(** ** What each operation does *)

(** The rows a claim may take. *)
Definition due_rows (maxRetries : Z) (now : time) (locked : gset uuid) (m : gmap uuid OutboxEvent)
    : list OutboxEvent :=
  filter (λ e, claimable maxRetries now e = true ∧ ID e ∉ locked) ((map_to_list m).*2).

Lemma sorted_take_drop {A} (R : relation A) `{!Transitive R} n (l : list A) x y :
  Sorted R l → x ∈ take n l → y ∈ drop n l → R x y.
Proof.
  intros Hs%(Sorted_StronglySorted _). rewrite <-(take_drop n l) in Hs.
  intros Hx Hy. by apply (StronglySorted_app_1_elem_of R _ _ _ _ Hs).
Qed.

(** A claim takes the due, unlocked events with the earliest next attempt,
    as many as there are up to the limit; it puts each under its own fresh
    lease, returns exactly the claimed rows and leaves every other row as it
    was.  No due event is passed over for a later one. *)
Theorem ClaimEvents_spec o now locked gen limit db :
  0 < limit → keyed (outbox_events db) →
  let maxRetries := MaxRetries (retryPolicy o) in
  let due := due_rows maxRetries now locked (outbox_events db) in
  ∃ taken db',
    run (ClaimEvents o now locked gen limit) db
      = (Ok ((λ e, claim_row now (gen (ID e)) e) <$> taken), db') ∧
    taken ⊆ due ∧ Z.of_nat (length taken) = Z.min limit (Z.of_nat (length due)) ∧
    (∀ e, e ∈ taken → outbox_events db' !! ID e = Some (claim_row now (gen (ID e)) e)) ∧
    (∀ i, i ∉ ID <$> taken → outbox_events db' !! i = outbox_events db !! i) ∧
    (∀ e d, e ∈ taken → d ∈ due → d ∉ taken → claim_le e d).
Proof.
  intros Hlim Hk maxRetries due.
  set (cs := candidates maxRetries now (Z.to_nat limit) locked (outbox_events db)).
  pose proof (merge_sort_Permutation claim_le due) as Hperm.
  exists cs, (set_events (claim_events maxRetries now (Z.to_nat limit) locked gen (outbox_events db)).2 db).
  split_and!.
  - unfold run, ClaimEvents. destruct (Z.leb_spec limit 0); [lia|]. done.
  - intros e He%elem_of_take_sub. rewrite <-Hperm. exact He.
  - rewrite <-Hperm. unfold cs, candidates. rewrite length_take.
    change (filter _ _) with due. lia.
  - intros e He. by apply claim_lookup_claimed.
  - intros i Hi. apply claim_lookup_other; [done|]. intros e He <-. apply Hi. by apply list_elem_of_fmap_2.
  - intros e d He Hd Hn. apply (sorted_take_drop claim_le (Z.to_nat limit) (merge_sort claim_le due)).
    + apply Sorted_merge_sort. apply _.
    + done.
    + rewrite <-Hperm in Hd. rewrite <-(take_drop (Z.to_nat limit)) in Hd.
      apply elem_of_app in Hd as [Hd|Hd]; [|done]. by destruct Hn.
Qed.

Lemma ClaimEvents_spec_witness :
  keyed {["e1" := demo_row]} ∧
  ∃ taken db', run (ClaimEvents demo_outbox 10 ∅ demo_gen 4) (MkODB {["e1" := demo_row]} ∅ ∅ [])
    = (Ok ((λ e, claim_row 10 (demo_gen (ID e)) e) <$> taken), db').
Proof.
  assert (keyed {["e1" := demo_row]}) as Hk by (by apply map_Forall_singleton).
  split; [done|].
  destruct (ClaimEvents_spec demo_outbox 10 ∅ demo_gen 4 (MkODB {["e1" := demo_row]} ∅ ∅ [])
              ltac:(reflexivity) Hk) as (taken & db' & Hrun & _).
  by exists taken, db'.
Defined.

(** The processor's classification of a handler's verdict. *)
Definition outcome_row (p : Processor) (clock now : time) (evt : OutboxEvent) : OutboxEvent :=
  match Dispatch (p_registry p) evt with
  | None => done_row now evt
  | Some he =>
      if he_no_handler he
      then terminal_row (MaxRetries (retryPolicy (p_outbox p))) now (truncateError (Some (he_msg he))) evt
      else failed_row now (nextAttemptAt (p_outbox p) clock (RetryCount evt + 1))
                      (truncateError (Some (he_msg he))) evt
  end.

(** Processing a claimed event persists its outcome under the lease: done
    when the handler succeeds, terminally failed when no handler is registered
    for its type, otherwise failed with one more retry counted and the next
    attempt scheduled (none when the budget is spent).  The handler's error is
    returned; when the truncated message is not a valid text, nothing is
    persisted and the database's error is returned. *)
Theorem processEvent_outcome p clock now evt lease db :
  LeaseID evt = Some lease → outbox_events db !! ID evt = Some evt → Status evt = StProcessing →
  run (processEvent p clock now evt) db =
  match Dispatch (p_registry p) evt with
  | None => (Ok tt, set_events (<[ID evt := outcome_row p clock now evt]> (outbox_events db)) db)
  | Some he =>
      if text_ok (truncateError (Some (he_msg he)))
      then (Err (App (ErrHandler (he_msg he) (he_no_handler he))),
            set_events (<[ID evt := outcome_row p clock now evt]> (outbox_events db)) db)
      else (Err (Sql (if he_no_handler he then "mark terminal outbox event failed"
                      else "mark outbox event failed") InvalidText), db)
  end.
Proof.
  intros Hl Hrow Hst. assert (holds_lease lease evt = true) as Hh.
  { unfold holds_lease. by rewrite Hl, Hst, !bool_decide_refl. }
  assert (∀ f, update_where (ID evt) (holds_lease lease) f (outbox_events db)
               = (1, <[ID evt := f evt]> (outbox_events db))) as Hup.
  { intros f. by apply update_where_hit. }
  unfold processEvent, outcome_row, run. rewrite Hl.
  destruct (Dispatch (p_registry p) evt) as [he|].
  - destruct (he_no_handler he).
    + unfold MarkFailedTerminal, bind, pool_stmt, terminal_stmt, update_event. simpl. rewrite Hup.
      by destruct (text_ok _).
    + unfold MarkFailed, bind, pool_stmt, failed_stmt, update_event, query, retry_of. simpl.
      rewrite Hrow. simpl. rewrite Hh, Hup. by destruct (text_ok _).
  - unfold MarkDone, bind, pool_stmt, done_stmt, update_event. simpl. by rewrite Hup.
Qed.

Lemma processEvent_outcome_witness :
  ∃ r, run (processEvent demo_processor 12 12 (claim_row 10 "lease-e1" demo_row))
           (MkODB (tbl demo_claimed) ∅ ∅ []) = r ∧ is_ok r.1 = false.
Proof.
  eexists. split.
  - apply (processEvent_outcome demo_processor 12 12 (claim_row 10 "lease-e1" demo_row) "lease-e1"
             (MkODB (tbl demo_claimed) ∅ ∅ [])); vm_compute; reflexivity.
  - vm_compute. reflexivity.
Defined.

(** ** The reaper *)

Lemma keyed_ids (m : gmap uuid OutboxEvent) : keyed m → NoDup (ID <$> (map_to_list m).*2).
Proof.
  intros Hk. rewrite <-list_fmap_compose.
  erewrite list_fmap_ext; [apply NoDup_fst_map_to_list|].
  intros i [j e] Hi. simpl. apply list_elem_of_lookup_2, elem_of_map_to_list in Hi. by apply Hk.
Qed.

Lemma filter_ids (P : OutboxEvent → Prop) `{!∀ e, Decision (P e)} l :
  NoDup (ID <$> l) → NoDup (ID <$> filter P l).
Proof.
  intros Hl. eapply sublist_NoDup; [exact Hl|]. apply fmap_sublist, sublist_filter.
Qed.

Section reaper.
Context (o : Outbox) (clock now : time).

Definition reap (e : OutboxEvent) : OutboxEvent :=
  reaped_row now (nextAttemptAt o clock (RetryCount e + 1)) e.

(** The scanned events still hold their leases. *)
Definition scanned (m : gmap uuid OutboxEvent) (ev : abandonedEvent) : Prop :=
  ∃ e, m !! ab_id ev = Some e ∧ holds_lease (ab_lease ev) e = true ∧ RetryCount e = ab_retry ev.

Lemma reap_loop_run evs n (w : world ODB) :
  faults w = [] → NoDup (ab_id <$> evs) → Forall (scanned (outbox_events (committed w))) evs →
  ∃ w', reap_loop o clock now evs n w = (Ok (n + Z.of_nat (length evs), None), w') ∧
    workspaces (committed w') = workspaces (committed w) ∧
    ∀ i, outbox_events (committed w') !! i =
         if bool_decide (i ∈ ab_id <$> evs) then reap <$> outbox_events (committed w) !! i
         else outbox_events (committed w) !! i.
Proof.
  revert n w. induction evs as [|ev evs IH]; intros n w Hf Hnd Hev.
  { exists w. simpl. by rewrite Z.add_0_r. }
  apply NoDup_cons in Hnd as [Hni Hnd]. apply Forall_cons in Hev as [(e & He & Hh & Hrc) Hev].
  simpl. unfold bind, attempt, pool_stmt, reap_stmt, update_event, next_fault. rewrite Hf. simpl.
  rewrite (update_where_hit _ _ _ _ e) by done. simpl. rewrite <-Hrc. fold (reap e).
  destruct (IH (n + 1) (World (set_events (<[ab_id ev := reap e]> (outbox_events (committed w))) (committed w))
                  (working w) [])) as (w' & -> & Hws & Hlook); [done|done| |].
  { rewrite Forall_forall in Hev |- *. intros ev' Hin. destruct (Hev ev' Hin) as (e' & He' & ? & ?).
    exists e'. simpl. rewrite lookup_insert_ne; [done|]. intros Heq. apply Hni. rewrite Heq.
    by apply list_elem_of_fmap_2. }
  exists w'. split; [do 2 f_equal; f_equal; simpl; lia|]. split; [done|]. intros i. rewrite Hlook. simpl.
  destruct (decide (i = ab_id ev)) as [->|Hne].
  - rewrite bool_decide_false, bool_decide_true by set_solver. by rewrite lookup_insert_eq, He.
  - rewrite lookup_insert_ne by done.
    by rewrite (bool_decide_ext (i ∈ ab_id <$> evs) (i ∈ ab_id ev :: (ab_id <$> evs))) by set_solver.
Qed.

Lemma abandoned_total cutoff (m : gmap uuid OutboxEvent) :
  map_Forall (λ _ e, Status e = StProcessing → is_Some (LeaseID e)) m →
  ∃ evs, abandoned cutoff m = Some evs ∧
    ab_id <$> evs = ID <$> filter (λ e, lease_expired cutoff e = true) ((map_to_list m).*2).
Proof.
  intros Hm. unfold abandoned.
  assert (Forall (λ e, is_Some (LeaseID e)) (filter (λ e, lease_expired cutoff e = true) ((map_to_list m).*2))) as Hl.
  { apply Forall_forall. intros e [Hx He]%list_elem_of_filter.
    apply list_elem_of_fmap in He as ([i e'] & -> & He). apply elem_of_map_to_list in He.
    apply (Hm i e' He). unfold lease_expired in Hx. by bool_simpl. }
  induction Hl as [|e l [lease He] _ (evs & Hevs & Hids)]; [by exists []|].
  exists (Abandoned (ID e) lease (RetryCount e) :: evs). split.
  - simpl. by rewrite He, Hevs.
  - by rewrite !fmap_cons, Hids.
Qed.
End reaper.

(** With no faults the reaper takes back every event claimed at or before
    [clock - lockWindow], and only those: each becomes failed with one more
    retry counted and its next attempt scheduled; the other rows are
    untouched and the number of reaped events is returned. *)
Theorem ReapAbandoned_spec o clock now s lockWindow db :
  0 < lockWindow → Validate (retryPolicy o) = None → reachable o s → outbox_events db = tbl s →
  let expired e := lease_expired (time_Add clock (- lockWindow)) e in
  ∃ db', run (ReapAbandoned o clock now lockWindow) db =
      (Ok (Z.of_nat (length (filter (λ e, expired e = true) ((map_to_list (outbox_events db)).*2))), None), db') ∧
    ∀ i, outbox_events db' !! i = (λ e, if expired e then reap o clock now e else e) <$> outbox_events db !! i.
Proof.
  intros Hw Hv%Validate_max Hs Hdb expired.
  destruct (reachable_inv o s ltac:(lia) Hs) as [Hk Hr _ _ _ _]. rewrite <-Hdb in Hk, Hr.
  destruct (abandoned_total (time_Add clock (- lockWindow)) (outbox_events db)) as (evs & Hevs & Hids).
  { intros i e He Hst. destruct (Hr i e He) as [_ Hrow]. rewrite Hst in Hrow. apply Hrow. }
  pose proof (abandoned_elem _ _ _ Hevs Hk) as Helem.
  destruct (reap_loop_run o clock now evs 0 (World db None [])) as (w' & Hrun & _ & Hlook); [done|..].
  - rewrite Hids. apply filter_ids. by apply keyed_ids.
  - apply Forall_forall. intros ev (e & He & Hx & Hl & Hrc)%Helem. exists e. split_and!; [done| |done].
    unfold lease_expired in Hx. unfold holds_lease. bool_simpl. by rewrite Hl, bool_decide_refl, bool_decide_true.
  - exists (committed w'). split.
    + unfold run, ReapAbandoned. destruct (Z.leb_spec lockWindow 0); [lia|].
      unfold bind, attempt, pool_stmt, query. simpl. rewrite Hevs, Hrun.
      rewrite <-(length_fmap ab_id evs), Hids, length_fmap. done.
    + intros i. rewrite Hlook. cbn [committed]. destruct (outbox_events db !! i) as [e|] eqn:Hi; [|by case_match].
      cbn [fmap option_fmap option_map]. destruct (expired e) eqn:Hx.
      * rewrite bool_decide_true; [done|]. rewrite Hids. apply list_elem_of_fmap. exists e. split; [by rewrite (Hk i e Hi)|].
        apply list_elem_of_filter. split; [done|]. apply list_elem_of_fmap. exists (i, e).
        by rewrite elem_of_map_to_list.
      * rewrite bool_decide_false; [done|]. rewrite Hids. intros (e' & -> & [Hx' He']%list_elem_of_filter)%list_elem_of_fmap.
        apply list_elem_of_fmap in He' as ([j e''] & -> & He'). apply elem_of_map_to_list in He'.
        simpl in *. rewrite (Hk j e'' He') in Hi. simplify_eq. unfold expired in Hx. congruence.
Qed.

Lemma ReapAbandoned_spec_witness :
  ∃ db', run (ReapAbandoned demo_outbox (60 * Second) (60 * Second) DefaultLockWindow)
             (MkODB (tbl demo_claimed) ∅ ∅ []) = (Ok (1, None), db').
Proof.
  destruct (ReapAbandoned_spec demo_outbox (60 * Second) (60 * Second) demo_claimed DefaultLockWindow
              (MkODB (tbl demo_claimed) ∅ ∅ [])) as (db' & Hrun & _).
  - vm_compute. reflexivity.
  - vm_compute. reflexivity.
  - apply demo_claimed_reachable.
  - reflexivity.
  - exists db'. exact Hrun.
Defined.

(** ** Operator recovery *)

(** Recovery is all or nothing under every failure: it either returns an
    error and leaves every table as it was, or, for a failed event whose budget
    is spent and a known operator, reschedules it at once and writes the audit
    record in the same commit; the only error after that is a lost reply to the
    commit. *)
Theorem Recover_all_or_nothing o now id op reason reset db :
  wp (Recover o now id op reason reset) db None (λ r db' _,
    (db' = db ∧ ∃ e, r = Err e) ∨
    (recovered o now id op reason reset db db' ∧
     (r = Ok tt ∨ r = Err (Sql "commit outbox recovery" ReplyLost)))).
Proof. apply Recover_effect. Qed.

(** Recovering an event without resetting its retry budget does not give
    it another attempt: the recovered row is due, but no claim at any time
    takes it, since its retry count still exhausts the budget. *)
Theorem Recover_without_reset_is_inert o now id op reason db db' :
  run (Recover o now id op reason false) db = (Ok tt, db') →
  ∃ e, outbox_events db' !! id = Some e ∧ NextAttemptAt e = Some now ∧
       ∀ later, claimable (MaxRetries (retryPolicy o)) later e = false.
Proof.
  unfold run. pose proof (Recover_effect o now id op reason false db None []) as Hw.
  destruct (Recover _ _ _ _ _ _ _) as [r w]. intros [= -> <-].
  destruct Hw as [[_ [e [=]]]|[(e & email & He & Ht & _ & ->) _]].
  exists (recovered_row now (RetryCount e) e). simpl. split; [apply lookup_insert_eq|]. split; [done|].
  intros later. unfold is_terminal in Ht. bool_simpl. unfold claimable. simpl.
  by rewrite (proj2 (Z.ltb_ge _ _)).
Qed.

Definition demo_terminal : OutboxEvent := terminal_row 100 20 (Some "no handler") demo_row.
Definition demo_terminal_db : ODB :=
  MkODB {["e1" := demo_terminal]} {["w1"]} {["u1" := ("w1", "ops@example.com")]} [].

Lemma Recover_without_reset_is_inert_witness :
  ∃ db' e, outbox_events db' !! "e1" = Some e ∧ NextAttemptAt e = Some 30 ∧
           ∀ later, claimable 100 later e = false.
Proof.
  eexists. apply (Recover_without_reset_is_inert demo_outbox 30 "e1" "u1" "retry it" demo_terminal_db).
  vm_compute. reflexivity.
Defined.

(** ** Persisted error texts *)

Lemma MarkFailed_invalid_text o clock now db id lease e msg :
  text_ok (truncateError (Some msg)) = false →
  outbox_events db !! id = Some e → holds_lease lease e = true →
  run (MarkFailed o clock now id lease (Some msg)) db
  = (Err (Sql "mark outbox event failed" InvalidText), db).
Proof.
  intros Ht He Hh. unfold run, MarkFailed, bind, pool_stmt, query, retry_of, failed_stmt, update_event.
  revert Ht. generalize (truncateError (Some msg)). intros t Ht. simpl. rewrite He. simpl. by rewrite Hh, Ht.
Qed.

(** Truncation keeps a prefix of at most 4096 bytes but can cut a UTF-8
    sequence: a valid message exists whose truncation the database refuses, so
    that marking the event failed under a current lease returns an error and
    leaves the event in processing. *)
Theorem truncateError_can_block_MarkFailed :
  (∀ msg t, truncateError (Some msg) = Some t → (length (bytes t) <= maxErrorBytes)%nat) ∧
  ∃ msg, text_value_ok msg = true ∧
    ∀ o clock now db id lease e,
      outbox_events db !! id = Some e → holds_lease lease e = true →
      run (MarkFailed o clock now id lease (Some msg)) db
      = (Err (Sql "mark outbox event failed" InvalidText), db).
Proof.
  split.
  - intros msg t. unfold truncateError. destruct (Nat.ltb_spec maxErrorBytes (length (bytes msg))); intros [= <-]; [|done].
    rewrite bytes_of_bytes, length_take. lia.
  - exists (of_bytes (replicate 4095 (chr 97) ++ [chr 195; chr 169])).
    split; [vm_compute; reflexivity|]. intros o clock now db id lease e.
    apply MarkFailed_invalid_text. vm_compute. reflexivity.
Qed.
