(* ===== verification/Rbac.v ===== *)
(** * Roles, capabilities and the role cache (controller/internal/rbac)

    The role table, the live-role checker with its invalidated cache, the
    middleware that enforces a capability, the guard that keeps an active admin
    in each workspace, the operations that pass through it
    (graph/resolvers/member_role.go, internal/idp/store.go) and the explicit
    permission grants (internal/permission).

    [uuid.Parse] of google/uuid is a parameter: it gives the canonical text of
    an identifier, or nothing. *)

From Stdlib Require Import ZArith Lia.
From S2P Require Import Prelude Sql GoText.
Open Scope Z_scope.

(** ** Capabilities (capability.go) *)

Definition RoleAdmin : string := "admin".
Definition RoleViewer : string := "viewer".
Definition RoleDevOps : string := "devops".
Definition RoleSecurity : string := "security".
Definition RoleHelpdesk : string := "helpdesk".
Definition RoleMember : string := "member".

Definition Roles : list string :=
  [RoleAdmin; RoleViewer; RoleDevOps; RoleSecurity; RoleHelpdesk; RoleMember].

Inductive Capability :=
| ConsoleRead | NetworkWrite | AccessWrite | PostureWrite
| DeviceWrite | DeviceAdmin | IdentityAdmin | MembersAdmin.
#[export] Instance Capability_eq_dec : EqDecision Capability.
Proof. solve_decision. Defined.

Definition AllCapabilities : list Capability :=
  [ConsoleRead; NetworkWrite; AccessWrite; PostureWrite;
   DeviceWrite; DeviceAdmin; IdentityAdmin; MembersAdmin].

Definition table : gmap string (list Capability) :=
  list_to_map [(RoleAdmin, AllCapabilities);
               (RoleViewer, [ConsoleRead]);
               (RoleDevOps, [ConsoleRead; NetworkWrite]);
               (RoleSecurity, [ConsoleRead; AccessWrite; PostureWrite]);
               (RoleHelpdesk, [ConsoleRead; DeviceWrite]);
               (RoleMember, [])].

Definition ValidRole (role : string) : bool := bool_decide (is_Some (table !! role)).

(** [None] is the nil slice. *)
Definition CapabilitiesFor (role : string) : option (list Capability) := table !! role.

Definition Allows (role : string) (c : Capability) : bool :=
  bool_decide (c ∈ default [] (table !! role)).

(** ** The checker (checker.go) *)

Definition DefaultTTL : duration := 30 * Second.

Definition cacheKey : Type := string * string. (* tenant, user *)
Record cacheEntry := CacheEntry { ce_role : string; ce_expires : time }.

Record Checker := MkChecker {
  cache : gmap cacheKey cacheEntry;
  gen : gmap cacheKey Z;
  tenantGen : gmap string Z;
  ttl : duration
}.
Definition NewChecker : Checker := MkChecker ∅ ∅ ∅ DefaultTTL.

Inductive role_error := ErrNoAccess | ErrLookup.

(** What the user query returns: role and status, no row, or a failure. *)
Inductive lookup_result := LRow (role status : string) | LNoRow | LError.

Definition drop_entry (k : cacheKey) (c : Checker) : Checker :=
  MkChecker (delete k (cache c)) (gen c) (tenantGen c) (ttl c).

Section identifiers.
Context (parse : string → option uuid).

Definition CanonicalID (id : string) : option uuid := parse id.

Definition canonicalKey (tenantID userID : string) : cacheKey :=
  (default tenantID (CanonicalID tenantID), default userID (CanonicalID userID)).

Definition Invalidate (tenantID userID : string) (c : Checker) : Checker :=
  let k := canonicalKey tenantID userID in
  MkChecker (delete k (cache c)) (incr k (gen c)) (tenantGen c) (ttl c).

Definition InvalidateTenant (tenantID : string) (c : Checker) : Checker :=
  let t := default tenantID (CanonicalID tenantID) in
  MkChecker (filter (λ kv, kv.1.1 ≠ t) (cache c)) (gen c) (incr t (tenantGen c)) (ttl c).

(** First critical section of [Role]: a hit, or the generations to remember. *)
Definition role_begin (c : Checker) (now : time) (k : cacheKey) : string + (Z * Z) :=
  match cache c !! k with
  | Some e => if time_Before now (ce_expires e) then inl (ce_role e)
              else inr (count (gen c) k, count (tenantGen c) k.1)
  | None => inr (count (gen c) k, count (tenantGen c) k.1)
  end.

(** Last critical section: store unless an invalidation happened meanwhile. *)
Definition role_store (c : Checker) (now : time) (k : cacheKey) (g tg : Z) (role : string) : Checker :=
  if (count (gen c) k =? g) && (count (tenantGen c) k.1 =? tg)
  then MkChecker (<[k := CacheEntry role (time_Add now (ttl c))]> (cache c)) (gen c) (tenantGen c) (ttl c)
  else c.

(** What to do with the row that was read. *)
Definition role_verdict (r : lookup_result) : result role_error string :=
  match r with
  | LNoRow => Err ErrNoAccess
  | LError => Err ErrLookup
  | LRow role status =>
      if negb (status ≟ "active") || negb (ValidRole role) then Err ErrNoAccess else Ok role
  end.

(** The whole of [Role]; [read] is the query's answer, [others] what other
    calls do to the checker between the read and the next critical section
    (the code's [afterRead] hook is such a point). *)
Definition Role (c : Checker) (now now' : time) (read : cacheKey → lookup_result)
    (others : Checker → Checker) (tenantID userID : string) : result role_error string * Checker :=
  match CanonicalID tenantID, CanonicalID userID with
  | Some t, Some u =>
      let k := (t, u) in
      match role_begin c now k with
      | inl role => (Ok role, c)
      | inr (g, tg) =>
          match role_verdict (read k) with
          | Ok role => (Ok role, role_store (others c) now' k g tg role)
          | Err ErrNoAccess => (Err ErrNoAccess, drop_entry k (others c))
          | Err ErrLookup => (Err ErrLookup, others c)
          end
      end
  | _, _ => (Err ErrNoAccess, c)
  end.
End identifiers.

(** ** Enforcement (middleware/capability.go, resolvers/directives.go) *)

Inductive http_decision := Unauthorized401 | Forbidden403 | Next (live_role : string).

Definition RequireCapability (authenticated : bool) (role : result role_error string)
    (c : Capability) : http_decision :=
  if negb authenticated then Unauthorized401
  else match role with
       | Err _ => Forbidden403
       | Ok r => if Allows r c then Next r else Forbidden403
       end.

Inductive gql_decision := Unauthenticated | ForbiddenCap | LookupFailed | Resolve (live_role : string).

Definition NewRequires (authenticated : bool) (role : result role_error string)
    (c : Capability) : gql_decision :=
  if negb authenticated then Unauthenticated
  else match role with
       | Err ErrNoAccess => ForbiddenCap
       | Err ErrLookup => LookupFailed
       | Ok r => if Allows r c then Resolve r else ForbiddenCap
       end.

(** ** Users and the last-admin guard (guard.go) *)

Record URow := MkURow {
  u_tenant : uuid;
  u_email : string;
  u_role : string;
  u_status : string;
  u_provisioning_owner : string
}.

Definition set_role (role : string) (u : URow) : URow :=
  MkURow (u_tenant u) (u_email u) role (u_status u) (u_provisioning_owner u).
Definition set_status (st : string) (u : URow) : URow :=
  MkURow (u_tenant u) (u_email u) (u_role u) st (u_provisioning_owner u).

Record role_audit := RoleAudit {
  rl_tenant : uuid; rl_actor : string; rl_email : string; rl_target : uuid;
  rl_from : string; rl_to : string; rl_reason : string
}.

Record UDB := MkUDB {
  r_users : gmap uuid URow;
  r_members : gmap (uuid * uuid) string; (* workspace_members.role *)
  r_identities : gset (uuid * uuid * uuid); (* external_identities: user, tenant, connection *)
  r_audit : list role_audit
}.
Definition set_users (m : gmap uuid URow) (s : UDB) : UDB :=
  MkUDB m (r_members s) (r_identities s) (r_audit s).
Definition set_members (m : gmap (uuid * uuid) string) (s : UDB) : UDB :=
  MkUDB (r_users s) m (r_identities s) (r_audit s).
Definition add_role_audit (a : role_audit) (s : UDB) : UDB :=
  MkUDB (r_users s) (r_members s) (r_identities s) (a :: r_audit s).

Inductive rbac_error :=
| ErrLastAdmin | ErrInvalidUserID | ErrInvalidRole | ErrReasonRequired | ErrReasonTooLong
| ErrUserNotFound | ErrOwnRole | ErrMemberNotFound.

Abbreviation rbacM A := (sqlM UDB rbac_error A).

Definition active_admin (tenant : uuid) (u : URow) : bool :=
  (u_tenant u ≟ tenant) && (u_role u ≟ RoleAdmin) && (u_status u ≟ "active").

(** The locked rows, in id order. *)
Definition active_admins (tenant : uuid) (s : UDB) : list uuid :=
  merge_sort String.le ((filter (λ kv, active_admin tenant kv.2 = true) (map_to_list (r_users s))).*1).

Definition LockActiveAdmins (tenant : uuid) : rbacM (list uuid) :=
  tx_stmt "rbac: lock admins" (query (active_admins tenant)).

Fixpoint count_removed (admins : list uuid) (removed : gset uuid) (hit : bool) (remaining : nat)
    : bool * nat :=
  match admins with
  | [] => (hit, remaining)
  | id :: rest =>
      if bool_decide (id ∈ removed) then count_removed rest removed true remaining
      else count_removed rest removed hit (S remaining)
  end.

(** [true] is [ErrLastAdmin]. *)
Definition lastAdminCheck (admins : list uuid) (removed : gset uuid) : bool :=
  let '(hit, remaining) := count_removed admins removed false 0 in
  hit && (remaining =? 0)%nat.

Section guard.
Context (parse : string → option uuid).

Definition GuardLastAdminTx (tenant : uuid) (userID : string) : rbacM () :=
  match CanonicalID parse userID with
  | None => fail ErrInvalidUserID
  | Some id =>
      let! admins := LockActiveAdmins tenant in
      if lastAdminCheck admins {[id]} then fail ErrLastAdmin else ret tt
  end.

Fixpoint canonical_set (ids : list string) (set : gset uuid) : option (gset uuid) :=
  match ids with
  | [] => Some set
  | raw :: rest =>
      match CanonicalID parse raw with
      | None => None
      | Some id => canonical_set rest ({[id]} ∪ set)
      end
  end.

Definition GuardLastAdminsTx (tenant : uuid) (userIDs : list string) : rbacM () :=
  let! admins := LockActiveAdmins tenant in
  match canonical_set userIDs ∅ with
  | None => fail ErrInvalidUserID
  | Some set => if lastAdminCheck admins set then fail ErrLastAdmin else ret tt
  end.

(** *** Changing a member's role (member_role.go) *)

Definition maxRoleReasonLen : Z := 500.

(** The GraphQL enum. *)
Definition gql_roles : list string := ["ADMIN"; "VIEWER"; "DEVOPS"; "SECURITY"; "HELPDESK"; "MEMBER"].

Record caller := Caller { tc_TenantID : uuid; tc_UserID : string; tc_Email : string }.

Definition update_user (id tenant : uuid) (f : URow → URow) : stmt UDB Z := exec (λ s,
  let '(n, m) := update_where id (λ u, u_tenant u ≟ tenant) f (r_users s) in (n, set_users m s)).

Definition update_membership (tenant id : uuid) (role : string) : stmt UDB () := exec (λ s,
  (tt, set_members (alter (λ _, role) (tenant, id) (r_members s)) s)).

(** A zero byte of the reason makes the JSON details unacceptable. *)
Definition insert_role_audit (a : role_audit) : stmt UDB () := λ s,
  if has_nul (rl_reason a) then Err InvalidText else Ok (tt, add_role_audit a s).

Definition find_user (id tenant : uuid) (s : UDB) : option URow :=
  u ← r_users s !! id; if u_tenant u ≟ tenant then Some u else None.

Definition loadMember (tenant id : uuid) : rbacM URow :=
  let! u := pool_stmt "load member" (query (find_user id tenant)) in
  match u with Some u => ret u | None => fail ErrMemberNotFound end.

(** The transaction of [setMemberRole]; the result says whether the role
    changed. *)
Definition setMemberRole_tx (tc : caller) (id : uuid) (newRole reason : string) : rbacM bool :=
  with_tx "set member role: begin" (
    let! admins := LockActiveAdmins (tc_TenantID tc) in
    let! target := tx_stmt "set member role: lock target" (query (find_user id (tc_TenantID tc))) in
    match target with
    | None => fail ErrUserNotFound
    | Some u =>
        if u_status u ≟ "deleted" then fail ErrUserNotFound
        else if u_role u ≟ newRole then
          commit_tx "set member role: commit" ;;; ret false
        else if (u_role u ≟ RoleAdmin) && negb (newRole ≟ RoleAdmin) && lastAdminCheck admins {[id]}
        then fail ErrLastAdmin
        else
          tx_stmt "set member role: update user"
            (update_user id (tc_TenantID tc) (set_role newRole)) ;;;
          tx_stmt "set member role: update membership"
            (update_membership (tc_TenantID tc) id newRole) ;;;
          tx_stmt "set member role: audit"
            (insert_role_audit (RoleAudit (tc_TenantID tc) (tc_UserID tc) (tc_Email tc) id
                                          (u_role u) newRole reason)) ;;;
          commit_tx "set member role: commit" ;;; ret true
    end).

(** The checks before the transaction: the target's canonical id, the stored
    role name and the reason. *)
Definition setMemberRole_args (tc : caller) (userID role reason : string)
    : result rbac_error (uuid * string * string) :=
  let newRole := ToLower role in
  let reason := TrimSpace reason in
  if negb (bool_decide (role ∈ gql_roles)) || negb (ValidRole newRole) then Err ErrInvalidRole
  else if reason ≟ "" then Err ErrReasonRequired
  else if maxRoleReasonLen <? RuneCountInString reason then Err ErrReasonTooLong
  else match CanonicalID parse userID with
       | None => Err ErrUserNotFound
       | Some id =>
           if id ≟ default "" (CanonicalID parse (tc_UserID tc)) then Err ErrOwnRole
           else Ok (id, newRole, reason)
       end.

(** The resolver: after the commit the target's cached role is dropped, then
    the result is read. *)
Definition setMemberRole (tc : caller) (userID role reason : string) (c : Checker) (w : world UDB)
    : result (err rbac_error) URow * world UDB * Checker :=
  match setMemberRole_args tc userID role reason with
  | Err e => (Err (App e), w, c)
  | Ok (id, newRole, reason) =>
      match setMemberRole_tx tc id newRole reason w with
      | (Err e, w') => (Err e, w', c)
      | (Ok changed, w') =>
          let c' := if changed then Invalidate parse (tc_TenantID tc) id c else c in
          let '(r, w'') := loadMember (tc_TenantID tc) id w' in (r, w'', c')
      end
  end.

(** *** Disabling a connection's users (idp/store.go) *)

(** The affected users: active, owned by SCIM, linked through the connection. *)
Definition scim_affected (tenant connection : uuid) (s : UDB) : list uuid :=
  (filter (λ kv, u_tenant kv.2 = tenant ∧ u_status kv.2 = "active" ∧ u_provisioning_owner kv.2 = "scim" ∧
                 (kv.1, tenant, connection) ∈ r_identities s) (map_to_list (r_users s))).*1.

Definition suspend_users (tenant : uuid) (ids : list uuid) : stmt UDB Z := exec (λ s,
  let hit kv := (u_tenant kv.2 ≟ tenant) && bool_decide (kv.1 ∈ ids) in
  (Z.of_nat (size (filter (λ kv, hit kv = true) (r_users s))),
   set_users (map_imap (λ i u, Some (if hit (i, u) then set_status "suspended" u else u)) (r_users s)) s)).

Definition suspendSCIMUsers (tenant connection : uuid) : rbacM Z :=
  let! affected := tx_stmt "list scim users" (query (scim_affected tenant connection)) in
  GuardLastAdminsTx tenant affected ;;;
  match affected with
  | [] => ret 0
  | _ => tx_stmt "suspend scim users" (suspend_users tenant affected)
  end.

Definition SuspendSCIMUsersForConnection (tenant connection : uuid) : rbacM Z :=
  with_tx "begin suspend transaction" (
    let! n := suspendSCIMUsers tenant connection in
    commit_tx "commit suspend" ;;; ret n).
End guard.

(** ** Explicit permissions (internal/permission) *)

Module Permission.
Record PDB := MkPDB {
  permissions : gset (uuid * uuid * string);
  p_users : gmap uuid uuid (* tenant of each user *)
}.

Inductive perm_error := ErrInvalidScope.
Abbreviation permM A := (sqlM PDB perm_error A).

Section store.
(** Postgres reads the text of a uuid parameter. *)
Context (pg_uuid : string → option uuid).

Definition invalid_scope (workspaceID userID permission : string) : bool :=
  (workspaceID ≟ "") || (userID ≟ "") || (permission ≟ "").

Definition HasPermission (workspaceID userID permission : string) : permM bool :=
  if invalid_scope workspaceID userID permission then fail ErrInvalidScope
  else pool_stmt "permission.HasPermission" (λ s,
    match pg_uuid workspaceID, pg_uuid userID with
    | Some w, Some u => Ok (bool_decide ((w, u, permission) ∈ permissions s), s)
    | _, _ => Err InvalidText
    end).

(** Both the user and the granter belong to the workspace. *)
Definition grant_stmt (workspaceID userID permission grantedBy : string) : stmt PDB () := λ s,
  match pg_uuid workspaceID, pg_uuid userID,
        (if grantedBy ≟ "" then Some None else Some <$> pg_uuid grantedBy) with
  | Some w, Some u, Some by_ =>
      if bool_decide ((w, u, permission) ∈ permissions s) then Ok (tt, s)
      else if (p_users s !! u ≟ Some w) && from_option (λ g, p_users s !! g ≟ Some w) true by_
      then Ok (tt, MkPDB ({[(w, u, permission)]} ∪ permissions s) (p_users s))
      else Err ForeignKeyViolation
  | _, _, _ => Err InvalidText
  end.

Definition Grant (workspaceID userID permission grantedBy : string) : permM () :=
  if invalid_scope workspaceID userID permission then fail ErrInvalidScope
  else pool_stmt "permission.Grant" (grant_stmt workspaceID userID permission grantedBy).

Definition Revoke (workspaceID userID permission : string) : permM () :=
  if invalid_scope workspaceID userID permission then fail ErrInvalidScope
  else pool_stmt "permission.Revoke" (λ s,
    match pg_uuid workspaceID, pg_uuid userID with
    | Some w, Some u => Ok (tt, MkPDB (permissions s ∖ {[(w, u, permission)]}) (p_users s))
    | _, _ => Err InvalidText
    end).
End store.
End Permission.
