(* ===== verification/RbacSafety.v ===== *)
(** * Guarantees of the role model

    The role cache under concurrency: a transition system in which lookups,
    invalidations and role changes interleave at the checker's critical
    sections, and its freshness invariant.  Then fail-closed enforcement, the
    last-admin guard and the operations behind it, and permission grants. *)

From Stdlib Require Import ZArith Lia.
From S2P Require Import Prelude Sql GoText Rbac.
Open Scope Z_scope.

(** ** The cache under concurrency *)

(** A lookup in flight.  The ghost values are the logical time at which it
    remembered the generations, how many invalidations had happened then, and
    the time of its database read. *)
Inductive phase :=
| Reading (k : cacheKey) (g tg : Z) (start ng nt : Z)
| Storing (k : cacheKey) (g tg : Z) (role : string) (start ng nt read_at : Z)
| Dropping (k : cacheKey).

(** The checker, the users table by (tenant, user), the lookups in flight, and
    ghost state: logical time, when each user was last written and each key
    last invalidated, when each cached entry was read, and unbounded counts of
    the invalidations. *)
Record csys := CSys {
  chk : Checker;
  udb : gmap cacheKey (string * string);
  threads : gmap nat phase;
  clk : Z;
  wr : cacheKey → Z;
  iv : cacheKey → Z;
  tiv : string → Z;
  rd : cacheKey → Z;
  ngen : cacheKey → Z;
  ntgen : string → Z;
  invs : Z
}.

(** The answer of the user query. *)
Definition read_user (db : gmap cacheKey (string * string)) (k : cacheKey) : lookup_result :=
  match db !! k with Some (role, status) => LRow role status | None => LNoRow end.

Section concurrency.
Context (parse : string → option uuid).

Inductive cstep : csys → csys → Prop :=
| c_write s k v :
    cstep s (CSys (chk s) (partial_alter (λ _, v) k (udb s)) (threads s) (clk s + 1)
               (upd k (clk s) (wr s)) (iv s) (tiv s) (rd s) (ngen s) (ntgen s) (invs s))
| c_invalidate s tenantID userID :
    let k := canonicalKey parse tenantID userID in
    cstep s (CSys (Invalidate parse tenantID userID (chk s)) (udb s) (threads s) (clk s + 1)
               (wr s) (upd k (clk s) (iv s)) (tiv s) (rd s)
               (upd k (ngen s k + 1) (ngen s)) (ntgen s) (invs s + 1))
| c_invalidate_tenant s tenantID :
    let t := default tenantID (CanonicalID parse tenantID) in
    cstep s (CSys (InvalidateTenant parse tenantID (chk s)) (udb s) (threads s) (clk s + 1)
               (wr s) (iv s) (upd t (clk s) (tiv s)) (rd s)
               (ngen s) (upd t (ntgen s t + 1) (ntgen s)) (invs s + 1))
| c_begin s tid now k g tg :
    threads s !! tid = None → role_begin (chk s) now k = inr (g, tg) →
    cstep s (CSys (chk s) (udb s)
               (<[tid := Reading k g tg (clk s) (ngen s k) (ntgen s k.1)]> (threads s)) (clk s + 1)
               (wr s) (iv s) (tiv s) (rd s) (ngen s) (ntgen s) (invs s))
| c_read_ok s tid k g tg start ng nt role :
    threads s !! tid = Some (Reading k g tg start ng nt) →
    role_verdict (read_user (udb s) k) = Ok role →
    cstep s (CSys (chk s) (udb s)
               (<[tid := Storing k g tg role start ng nt (clk s)]> (threads s)) (clk s + 1)
               (wr s) (iv s) (tiv s) (rd s) (ngen s) (ntgen s) (invs s))
| c_read_refused s tid k g tg start ng nt :
    threads s !! tid = Some (Reading k g tg start ng nt) →
    role_verdict (read_user (udb s) k) = Err ErrNoAccess →
    cstep s (CSys (chk s) (udb s) (<[tid := Dropping k]> (threads s)) (clk s + 1)
               (wr s) (iv s) (tiv s) (rd s) (ngen s) (ntgen s) (invs s))
| c_read_error s tid k g tg start ng nt :
    threads s !! tid = Some (Reading k g tg start ng nt) →
    cstep s (CSys (chk s) (udb s) (delete tid (threads s)) (clk s + 1)
               (wr s) (iv s) (tiv s) (rd s) (ngen s) (ntgen s) (invs s))
| c_drop s tid k :
    threads s !! tid = Some (Dropping k) →
    cstep s (CSys (drop_entry k (chk s)) (udb s) (delete tid (threads s)) (clk s + 1)
               (wr s) (iv s) (tiv s) (rd s) (ngen s) (ntgen s) (invs s))
| c_store s tid now k g tg role start ng nt read_at :
    threads s !! tid = Some (Storing k g tg role start ng nt read_at) →
    let chk' := role_store (chk s) now k g tg role in
    let stored := (count (gen (chk s)) k =? g) && (count (tenantGen (chk s)) k.1 =? tg) in
    cstep s (CSys chk' (udb s) (delete tid (threads s)) (clk s + 1)
               (wr s) (iv s) (tiv s) (if stored then upd k read_at (rd s) else rd s)
               (ngen s) (ntgen s) (invs s)).

Definition cinit (db : gmap cacheKey (string * string)) : csys :=
  CSys NewChecker db ∅ 1 (λ _, 0) (λ _, 0) (λ _, 0) (λ _, 0) (λ _, 0) (λ _, 0) 0.

Definition creachable (db : gmap cacheKey (string * string)) (s : csys) : Prop :=
  rtc cstep (cinit db) s.

(** A role read at time [b] is the user's current role unless the user was
    written after. *)
Definition read_current (s : csys) (k : cacheKey) (role : string) (b : Z) : Prop :=
  b < clk s ∧ (wr s k <= b → udb s !! k = Some (role, "active") ∧ ValidRole role = true).

(** No invalidation since [start], or the unbounded counts have moved. *)
Definition not_invalidated (s : csys) (k : cacheKey) (start ng nt : Z) : Prop :=
  0 <= start < clk s ∧ 0 <= ng <= ngen s k ∧ 0 <= nt <= ntgen s k.1 ∧
  (ng = ngen s k → iv s k <= start) ∧ (nt = ntgen s k.1 → tiv s k.1 <= start).

Definition phase_ok (s : csys) (p : phase) : Prop :=
  match p with
  | Reading k g tg start ng nt =>
      g = ng mod 2 ^ 64 ∧ tg = nt mod 2 ^ 64 ∧ not_invalidated s k start ng nt
  | Storing k g tg role start ng nt b =>
      g = ng mod 2 ^ 64 ∧ tg = nt mod 2 ^ 64 ∧ not_invalidated s k start ng nt ∧
      start <= b ∧ read_current s k role b
  | Dropping _ => True
  end.

Record cinv (s : csys) : Prop := {
  ci_gen : ∀ k, count (gen (chk s)) k = ngen s k mod 2 ^ 64;
  ci_tgen : ∀ t, count (tenantGen (chk s)) t = ntgen s t mod 2 ^ 64;
  ci_nbound : ∀ k, 0 <= ngen s k <= invs s;
  ci_tbound : ∀ t, 0 <= ntgen s t <= invs s;
  ci_times : 0 < clk s ∧ (∀ k, wr s k < clk s) ∧ (∀ k, iv s k < clk s) ∧ (∀ t, tiv s t < clk s);
  ci_threads : map_Forall (λ _ p, phase_ok s p) (threads s);
  ci_cache : map_Forall (λ k e, iv s k <= rd s k ∧ tiv s k.1 <= rd s k ∧
                                read_current s k (ce_role e) (rd s k)) (cache (chk s))
}.

(** How a step moves the data the invariant speaks about. *)
Definition evolves (s s' : csys) : Prop :=
  clk s < clk s' ∧
  (∀ k, ngen s k <= ngen s' k ∧ (ngen s' k = ngen s k → iv s' k = iv s k)) ∧
  (∀ t, ntgen s t <= ntgen s' t ∧ (ntgen s' t = ntgen s t → tiv s' t = tiv s t)) ∧
  (∀ k, (wr s' k = wr s k ∧ udb s' !! k = udb s !! k) ∨ wr s' k = clk s).

Lemma read_current_evolves s s' k role b :
  evolves s s' → read_current s k role b → read_current s' k role b.
Proof.
  intros (Hc & _ & _ & Hw) [Hb Hr]. split; [lia|]. intros Hwr.
  destruct (Hw k) as [[Hk ->]|Hk]; [|lia]. apply Hr. lia.
Qed.

Lemma not_invalidated_evolves s s' k start ng nt :
  evolves s s' → not_invalidated s k start ng nt → not_invalidated s' k start ng nt.
Proof.
  intros (Hc & Hg & Ht & _) (? & ? & ? & Hi & Hti). destruct (Hg k) as [? Hg']. destruct (Ht k.1) as [? Ht'].
  split_and!; lia.
Qed.

Lemma phase_ok_evolves s s' p : evolves s s' → phase_ok s p → phase_ok s' p.
Proof.
  intros He. destruct p; simpl; [| |done].
  - intros (? & ? & ?). split_and!; [done..|]. by eapply not_invalidated_evolves.
  - intros (? & ? & ? & ? & ?). split_and!; [done..|by eapply not_invalidated_evolves|done|].
    by eapply read_current_evolves.
Qed.

Lemma threads_evolve s s' (ts : gmap nat phase) :
  evolves s s' → map_Forall (λ _ p, phase_ok s p) ts → map_Forall (λ _ p, phase_ok s' p) ts.
Proof. intros He Hts i p Hp. eauto using phase_ok_evolves. Qed.

(** A cached entry survives a step that does not invalidate its key. *)
Lemma cache_evolves (s s' : csys) (m : gmap cacheKey cacheEntry) :
  evolves s s' → (∀ k, rd s' k = rd s k) → m ⊆ cache (chk s) →
  map_Forall (λ k e, iv s k <= rd s k ∧ tiv s k.1 <= rd s k ∧ read_current s k (ce_role e) (rd s k))
    (cache (chk s)) →
  (∀ k e, m !! k = Some e → iv s' k = iv s k ∧ tiv s' k.1 = tiv s k.1) →
  map_Forall (λ k e, iv s' k <= rd s' k ∧ tiv s' k.1 <= rd s' k ∧ read_current s' k (ce_role e) (rd s' k)) m.
Proof.
  intros He Hrd Hsub Hc Hm k e Hk. destruct (Hm k e Hk) as [-> ->]. rewrite Hrd.
  destruct (Hc k e) as (? & ? & ?); [by eapply lookup_weaken|]. eauto using read_current_evolves.
Qed.

(** A step that only moves threads, or shrinks the cache. *)
Lemma quiet_step_inv s c ts :
  cinv s → gen c = gen (chk s) → tenantGen c = tenantGen (chk s) → cache c ⊆ cache (chk s) →
  let s' := CSys c (udb s) ts (clk s + 1) (wr s) (iv s) (tiv s) (rd s) (ngen s) (ntgen s) (invs s) in
  (evolves s s' → map_Forall (λ _ p, phase_ok s' p) (threads s) → map_Forall (λ _ p, phase_ok s' p) ts) →
  cinv s'.
Proof.
  intros [Hg Ht Hn Hnt (Hp & Hw & Hi & Hti) Hth Hc] Hgc Htc Hsub s' Hts.
  assert (evolves s s') as He.
  { split; [simpl; lia|]. split_and!; intros; simpl; auto; lia. }
  split; simpl; rewrite ?Hgc, ?Htc; try done.
  - split_and!; [lia|intros k..|intros t]; [specialize (Hw k)|specialize (Hi k)|specialize (Hti t)]; lia.
  - apply Hts; [done|]. by apply (threads_evolve s _ _ He).
  - by apply (cache_evolves s s').
Qed.

Lemma write_inv s k v :
  cinv s →
  cinv (CSys (chk s) (partial_alter (λ _, v) k (udb s)) (threads s) (clk s + 1)
          (upd k (clk s) (wr s)) (iv s) (tiv s) (rd s) (ngen s) (ntgen s) (invs s)).
Proof.
  intros [Hg Ht Hn Hnt (Hp & Hw & Hi & Hti) Hth Hc].
  match goal with |- cinv ?x => assert (evolves s x) as He end.
  { split; [simpl; lia|]. split_and!; intros j; simpl; [split; [lia|done]..|].
    destruct (decide (j = k)) as [->|Hj].
    - right. by rewrite upd_eq.
    - left. by rewrite upd_ne, lookup_partial_alter_ne by done. }
  split; simpl; try done.
  - split_and!; [lia|by apply upd_lt|intros j..]; [specialize (Hi j)|specialize (Hti j)]; lia.
  - by apply (threads_evolve s _ _ He).
  - by apply (cache_evolves s _ _ He).
Qed.

Lemma invalidate_inv s tenantID userID :
  let k := canonicalKey parse tenantID userID in
  cinv s →
  cinv (CSys (Invalidate parse tenantID userID (chk s)) (udb s) (threads s) (clk s + 1)
          (wr s) (upd k (clk s) (iv s)) (tiv s) (rd s)
          (upd k (ngen s k + 1) (ngen s)) (ntgen s) (invs s + 1)).
Proof.
  intros k [Hg Ht Hn Hnt (Hp & Hw & Hi & Hti) Hth Hc].
  match goal with |- cinv ?x => assert (evolves s x) as He end.
  { split; [simpl; lia|]. split_and!; intros j; simpl; [|split; [lia|done]|by left].
    destruct (decide (j = k)) as [->|Hj]; [rewrite !upd_eq|rewrite !upd_ne by done]; split; try done; lia. }
  split; simpl; try done.
  - by apply count_incr.
  - by apply upd_bound.
  - intros t. specialize (Hnt t). lia.
  - split_and!; [lia|intros j|by apply upd_lt|intros t]; [specialize (Hw j)|specialize (Hti t)]; lia.
  - by apply (threads_evolve s _ _ He).
  - apply (cache_evolves s _ _ He); [done|apply delete_subseteq|done|].
    intros j e [Hj _]%lookup_delete_Some. simpl. by rewrite upd_ne.
Qed.

Lemma invalidate_tenant_inv s tenantID :
  let t := default tenantID (CanonicalID parse tenantID) in
  cinv s →
  cinv (CSys (InvalidateTenant parse tenantID (chk s)) (udb s) (threads s) (clk s + 1)
          (wr s) (iv s) (upd t (clk s) (tiv s)) (rd s)
          (ngen s) (upd t (ntgen s t + 1) (ntgen s)) (invs s + 1)).
Proof.
  intros t [Hg Ht Hn Hnt (Hp & Hw & Hi & Hti) Hth Hc].
  match goal with |- cinv ?x => assert (evolves s x) as He end.
  { split; [simpl; lia|]. split_and!; intros j; simpl; [split; [lia|done]| |by left].
    destruct (decide (j = t)) as [->|Hj]; [rewrite !upd_eq|rewrite !upd_ne by done]; split; try done; lia. }
  split; simpl; try done.
  - by apply count_incr.
  - intros j. specialize (Hn j). lia.
  - by apply upd_bound.
  - split_and!; [lia|intros j..|by apply upd_lt]; [specialize (Hw j)|specialize (Hi j)]; lia.
  - by apply (threads_evolve s _ _ He).
  - apply (cache_evolves s _ _ He); [done|apply map_filter_subseteq|done|].
    intros j e [_ Hj]%map_lookup_filter_Some. simpl in *. by rewrite upd_ne.
Qed.

Lemma store_inv s tid now k g tg role start ng nt read_at :
  invs s < 2 ^ 64 → cinv s → threads s !! tid = Some (Storing k g tg role start ng nt read_at) →
  let stored := (count (gen (chk s)) k =? g) && (count (tenantGen (chk s)) k.1 =? tg) in
  cinv (CSys (role_store (chk s) now k g tg role) (udb s) (delete tid (threads s)) (clk s + 1)
          (wr s) (iv s) (tiv s) (if stored then upd k read_at (rd s) else rd s) (ngen s) (ntgen s) (invs s)).
Proof.
  intros Hinvs Hinv Htid stored. pose proof Hinv as [Hg Ht Hn Hnt (Hp & Hw & Hi & Hti) Hth Hc].
  unfold role_store. fold stored. destruct stored eqn:Hst.
  2:{ apply quiet_step_inv; try done. intros _ H. by apply map_Forall_delete. }
  destruct (Hth tid _ Htid) as (-> & -> & (Hs & Hng & Hnt' & Hiv & Htiv) & Hb & Hr).
  unfold stored in Hst. bool_simpl. rewrite Hg, Ht in *. specialize (Hn k). specialize (Hnt k.1).
  rewrite !Z.mod_small in * by lia.
  match goal with |- cinv ?x => assert (evolves s x) as He end.
  { split; [simpl; lia|]. split_and!; intros; simpl; auto; lia. }
  split; simpl; try done; try (destruct Hinv; done).
  - split_and!; [lia|intros j..|intros t]; [specialize (Hw j)|specialize (Hi j)|specialize (Hti t)]; lia.
  - apply map_Forall_delete. by apply (threads_evolve s _ _ He).
  - intros j e [[<- <-]|[Hne Hj]]%lookup_insert_Some.
    + simpl. rewrite upd_eq. split; [lia|]. split; [lia|]. by eapply read_current_evolves.
    + rewrite upd_ne by done. destruct (Hc j e Hj) as (? & ? & ?). eauto using read_current_evolves.
Qed.

Lemma cstep_invs s s' : cstep s s' → invs s <= invs s'.
Proof. destruct 1; simpl; lia. Qed.

Lemma cstep_inv s s' : invs s < 2 ^ 64 → cinv s → cstep s s' → cinv s'.
Proof.
  intros Hb Hinv Hstep. destruct Hstep as [s k v|s tid' uid|s tid'|s tid now k g tg Hn Hbeg
    |s tid k g tg start ng nt role Ht Hv|s tid k g tg start ng nt Ht Hv|s tid k g tg start ng nt Ht
    |s tid k Ht|s tid now k g tg role start ng nt ra Ht].
  - by apply write_inv.
  - by apply invalidate_inv.
  - by apply invalidate_tenant_inv.
  - apply quiet_step_inv; try done. intros He Hts. apply map_Forall_insert_2; [|done].
    destruct Hinv as [Hg Htg Hnb Htb (Hp & _ & Hi & Hti) _ _].
    assert (g = count (gen (chk s)) k ∧ tg = count (tenantGen (chk s)) k.1) as [-> ->].
    { unfold role_begin in Hbeg. by cases. }
    simpl. split; [apply Hg|]. split; [apply Htg|]. unfold not_invalidated; simpl.
    specialize (Hnb k). specialize (Htb k.1). specialize (Hi k). specialize (Hti k.1). lia.
  - apply quiet_step_inv; try done. intros He Hts. apply map_Forall_insert_2; [|done].
    destruct (Hts tid _ Ht) as (? & ? & Hni). simpl. split_and!; try done.
    + destruct Hinv as [_ _ _ _ _ Hth _]. destruct (Hth tid _ Ht) as (_ & _ & (? & _)). lia.
    + split; [simpl; lia|]. intros _. simpl. unfold read_user in Hv.
      destruct (udb s !! k) as [[r st]|]; [|done]. simpl in Hv. cases. bool_simpl. by subst.
  - apply quiet_step_inv; try done. intros He Hts. by apply map_Forall_insert_2.
  - apply quiet_step_inv; try done. intros He Hts. by apply map_Forall_delete.
  - apply quiet_step_inv; try done; [apply delete_subseteq|]. intros He Hts. by apply map_Forall_delete.
  - by apply (store_inv s tid now k g tg role start ng nt ra).
Qed.

Lemma cinit_inv db : cinv (cinit db).
Proof. split; simpl; try done; intros; unfold count; rewrite ?lookup_empty; done || lia. Qed.

Lemma creachable_inv db s : creachable db s → invs s < 2 ^ 64 → cinv s.
Proof.
  intros Hs. revert s Hs. apply (rtc_ind_r (λ s, invs s < 2 ^ 64 → cinv s)).
  - intros. apply cinit_inv.
  - intros s s' _ Hstep IH Hb. pose proof (cstep_invs _ _ Hstep).
    eapply cstep_inv; [| |done]; [lia|apply IH; lia].
Qed.
End concurrency.

(** C10: However lookups, invalidations and user changes interleave (fewer than
    2^64 invalidations), a cached role whose user was last changed before the
    key or its workspace was last invalidated is the user's current role and
    the user is active; the same holds of the role a lookup is about to return,
    when the change came before that lookup started. *)
Theorem role_cache_fresh parse db s k :
  creachable parse db s → invs s < 2 ^ 64 →
  (∀ e, cache (chk s) !! k = Some e → wr s k <= Z.max (iv s k) (tiv s k.1) →
     udb s !! k = Some (ce_role e, "active") ∧ ValidRole (ce_role e) = true) ∧
  (∀ tid g tg role start ng nt b, threads s !! tid = Some (Storing k g tg role start ng nt b) →
     wr s k <= start → udb s !! k = Some (role, "active") ∧ ValidRole role = true).
Proof.
  intros Hs Hb. destruct (creachable_inv parse db s Hs Hb) as [_ _ _ _ _ Hth Hc]. split.
  - intros e He Hw. destruct (Hc k e He) as (? & ? & _ & Hr). apply Hr. lia.
  - intros tid g tg role start ng nt b Ht Hw. destruct (Hth tid _ Ht) as (_ & _ & _ & ? & _ & Hr). apply Hr. lia.
Qed.

(** A lookup that fills the cache. *)
Definition demo_key : cacheKey := ("t1", "u1").
Definition demo_users : gmap cacheKey (string * string) := {[demo_key := ("viewer", "active")]}.
Definition demo_cached : csys :=
  CSys (role_store NewChecker 40 demo_key 0 0 "viewer") demo_users ∅ 4 (λ _, 0) (λ _, 0) (λ _, 0)
       (upd demo_key 2 (λ _, 0)) (λ _, 0) (λ _, 0) 0.

Lemma demo_cached_reachable : creachable Some demo_users demo_cached.
Proof.
  eapply rtc_l; [apply (c_begin _ _ 0%nat 0 demo_key 0 0); vm_compute; reflexivity|].
  eapply rtc_l; [apply (c_read_ok _ _ 0%nat demo_key 0 0 1 0 0 "viewer"); vm_compute; reflexivity|].
  eapply rtc_l; [apply (c_store _ _ 0%nat 40 demo_key 0 0 "viewer" 1 0 0 2); vm_compute; reflexivity|].
  apply rtc_refl.
Qed.

Lemma role_cache_fresh_witness :
  ∃ s e, cache (chk s) !! demo_key = Some e ∧ udb s !! demo_key = Some (ce_role e, "active").
Proof.
  exists demo_cached, (CacheEntry "viewer" (40 + DefaultTTL)). split; [vm_compute; reflexivity|].
  apply (role_cache_fresh Some demo_users demo_cached demo_key demo_cached_reachable);
    vm_compute; first [reflexivity|discriminate].
Defined.

(** ** Enforcement *)

(** The role a request is decided on: a live cache entry, or the row read. *)
Definition live_role (c : Checker) (now : time) (read : cacheKey → lookup_result) (k : cacheKey) (r : string) : Prop :=
  (∃ e, cache c !! k = Some e ∧ ce_role e = r ∧ now < ce_expires e) ∨
  (read k = LRow r "active" ∧ ValidRole r = true).

Lemma role_begin_hit c now k r :
  role_begin c now k = inl r → ∃ e, cache c !! k = Some e ∧ ce_role e = r ∧ now < ce_expires e.
Proof.
  unfold role_begin, time_Before. destruct (cache c !! k) as [e|]; [|done].
  destruct (Z.ltb_spec now (ce_expires e)); [|done]. intros [= <-]. by exists e.
Qed.

Lemma role_verdict_ok l r : role_verdict l = Ok r → l = LRow r "active" ∧ ValidRole r = true.
Proof. unfold role_verdict. intros. cases; bool_simpl; by subst. Qed.

Lemma Role_ok parse c now now' read others t u r c' :
  Role parse c now now' read others t u = (Ok r, c') →
  ∃ t' u', parse t = Some t' ∧ parse u = Some u' ∧ live_role c now read (t', u') r.
Proof.
  unfold Role, CanonicalID. destruct (parse t) as [t'|], (parse u) as [u'|]; try done.
  intros H. exists t', u'. split_and!; try done.
  destruct (role_begin c now (t', u')) as [r0|[g tg]] eqn:Hb.
  - simplify_eq/=. left. by apply role_begin_hit.
  - destruct (role_verdict (read (t', u'))) as [r0|[]] eqn:Hv; simplify_eq/=.
    right. by apply role_verdict_ok.
Qed.

(** C36: A REST or GraphQL operation runs only for an authenticated caller with
    well-formed ids whose live role (an unexpired cache entry, or an active
    user row just read) holds the capability in the table; every other outcome
    (no identity, no row, inactive user, unknown role, failed lookup, missing
    capability) is a refusal. *)
Theorem enforcement_fails_closed parse c now now' read others t u cap auth r :
  RequireCapability auth (Role parse c now now' read others t u).1 cap = Next r ∨
  NewRequires auth (Role parse c now now' read others t u).1 cap = Resolve r →
  auth = true ∧ cap ∈ default [] (table !! r) ∧
  ∃ t' u', parse t = Some t' ∧ parse u = Some u' ∧ live_role c now read (t', u') r.
Proof.
  intros H. destruct (Role parse c now now' read others t u) as [res c'] eqn:Hr.
  assert (auth = true ∧ res = Ok r ∧ Allows r cap = true) as (-> & -> & Ha).
  { unfold RequireCapability, NewRequires in H. simpl in H. destruct H; cases; done. }
  unfold Allows in Ha. bool_simpl. split_and!; try done. by eapply Role_ok.
Qed.

Lemma enforcement_fails_closed_witness :
  RequireCapability true
    (Role Some NewChecker 0 0 (λ _, LRow "devops" "active") (λ c, c) "t1" "u1").1 NetworkWrite = Next "devops" ∧
  NetworkWrite ∈ default [] (table !! "devops").
Proof.
  split; [vm_compute; reflexivity|].
  apply (enforcement_fails_closed Some NewChecker 0 0 (λ _, LRow "devops" "active") (λ c, c) "t1" "u1"
           NetworkWrite true "devops").
  left. vm_compute. reflexivity.
Defined.

(** ** The last active admin *)

Definition has_admin (tenant : uuid) (db : UDB) : Prop :=
  ∃ id u, r_users db !! id = Some u ∧ active_admin tenant u = true.

Lemma count_removed_spec admins removed hit remaining :
  count_removed admins removed hit remaining =
  (hit || bool_decide (Exists (λ id, id ∈ removed) admins),
   remaining + length (filter (λ id, id ∉ removed) admins))%nat.
Proof.
  revert hit remaining. induction admins as [|a admins IH]; intros hit remaining; cbn [count_removed].
  { rewrite bool_decide_false by (by intros ?%Exists_nil). rewrite orb_false_r. f_equal. simpl. lia. }
  rewrite filter_cons. destruct (bool_decide_reflect (a ∈ removed)) as [Ha|Ha]; rewrite IH.
  - rewrite (bool_decide_true (Exists _ (a :: _))) by (by left). rewrite orb_true_r.
    rewrite decide_False by tauto. done.
  - rewrite decide_True by done. simpl. f_equal; [|lia]. f_equal. apply bool_decide_ext.
    rewrite Exists_cons. tauto.
Qed.

Lemma lastAdminCheck_true admins removed :
  lastAdminCheck admins removed = true ↔ admins ≠ [] ∧ Forall (λ id, id ∈ removed) admins.
Proof.
  unfold lastAdminCheck. rewrite count_removed_spec. simpl.
  rewrite andb_true_iff, bool_decide_eq_true, Nat.eqb_eq. split.
  - intros [He Hl%nil_length_inv]. split; [by intros ->; apply Exists_nil in He|].
    apply Forall_forall. intros a Ha. destruct (decide (a ∈ removed)); [done|].
    assert (a ∈ filter (λ id, id ∉ removed) admins) as Hin by (by apply list_elem_of_filter).
    rewrite Hl in Hin. by apply not_elem_of_nil in Hin.
  - intros [Hne Hall]. split.
    + destruct admins as [|a admins]; [done|]. left. by apply Forall_cons in Hall as [? _].
    + apply length_zero_iff_nil. clear Hne. induction Hall as [|a l Ha _ IH]; [done|].
      rewrite filter_cons_False; [done|tauto].
Qed.

Lemma active_admins_elem tenant db id :
  id ∈ active_admins tenant db ↔ ∃ u, r_users db !! id = Some u ∧ active_admin tenant u = true.
Proof.
  unfold active_admins. rewrite merge_sort_Permutation, list_elem_of_fmap. split.
  - intros ([i u] & -> & [Ha Hi]%list_elem_of_filter). apply elem_of_map_to_list in Hi. eauto.
  - intros (u & Hu & Ha). exists (id, u). split; [done|]. apply list_elem_of_filter.
    split; [done|]. by apply elem_of_map_to_list.
Qed.

(** The guard lets a set of users go only if it misses an active admin or
    contains none. *)
Lemma guard_passes tenant db removed :
  lastAdminCheck (active_admins tenant db) removed = false →
  has_admin tenant db →
  ∃ id u, r_users db !! id = Some u ∧ active_admin tenant u = true ∧ id ∉ removed.
Proof.
  intros Hc (id & u & Hu & Ha).
  destruct (decide (Forall (λ i, i ∈ removed) (active_admins tenant db))) as [Hall|Hn].
  - rewrite <-not_true_iff_false, lastAdminCheck_true in Hc. destruct Hc. split; [|done].
    assert (id ∈ active_admins tenant db) as Hin by (apply active_admins_elem; eauto).
    intros Hnil. rewrite Hnil in Hin. by apply not_elem_of_nil in Hin.
  - apply not_Forall_Exists, Exists_exists in Hn; [|apply _]. destruct Hn as (i & Hi & Hni).
    apply active_admins_elem in Hi as (v & Hv & Hav). eauto.
Qed.

(** Updating users outside [removed], or not touching admins, keeps an admin. *)
Lemma keep_admin tenant db db' removed :
  lastAdminCheck (active_admins tenant db) removed = false →
  (∀ id u, r_users db !! id = Some u → active_admin tenant u = true → id ∉ removed →
           ∃ u', r_users db' !! id = Some u' ∧ active_admin tenant u' = true) →
  has_admin tenant db → has_admin tenant db'.
Proof.
  intros Hc Hk Ha. destruct (guard_passes _ _ _ Hc Ha) as (id & u & Hu & Hau & Hn).
  destruct (Hk id u Hu Hau Hn) as (u' & ? & ?). by exists id, u'.
Qed.

(** What a committed role change leaves. *)
Definition role_changed (tc : caller) (id : uuid) (u : URow) (newRole reason : string) (db db' : UDB) : Prop :=
  db' = add_role_audit (RoleAudit (tc_TenantID tc) (tc_UserID tc) (tc_Email tc) id (u_role u) newRole reason)
          (set_members (alter (λ _, newRole) (tc_TenantID tc, id) (r_members db))
             (set_users (<[id := set_role newRole u]> (r_users db)) db)).

Lemma role_change_keeps_admin tc id u newRole reason db db' tenant :
  r_users db !! id = Some u → role_changed tc id u newRole reason db db' →
  (u_role u = RoleAdmin → newRole ≠ RoleAdmin → u_tenant u = tc_TenantID tc ∧
     lastAdminCheck (active_admins (tc_TenantID tc) db) {[id]} = false) →
  has_admin tenant db → has_admin tenant db'.
Proof.
  intros Hu -> Hguard Ha.
  assert (∀ i v, r_users db !! i = Some v → active_admin tenant v = true → i ≠ id →
            ∃ u', <[id := set_role newRole u]> (r_users db) !! i = Some u' ∧ active_admin tenant u' = true) as Hother.
  { intros i v Hv Hav Hi. exists v. by rewrite lookup_insert_ne. }
  destruct (decide (u_role u = RoleAdmin ∧ newRole ≠ RoleAdmin ∧ tenant = u_tenant u)) as [(Hr & Hn & ->)|Hno].
  - destruct (Hguard Hr Hn) as [Ht Hc]. rewrite Ht in *.
    eapply keep_admin; [exact Hc| |exact Ha]. intros i v Hv Hav Hi. apply (Hother i v); set_solver.
  - destruct Ha as (i & v & Hv & Hav). destruct (decide (i = id)) as [->|Hi].
    + rewrite Hu in Hv. injection Hv as <-. exists id, (set_role newRole u). simpl.
      split; [apply lookup_insert_eq|]. unfold active_admin in *. bool_simpl. simpl.
      destruct (decide (newRole = RoleAdmin)) as [->|]; [by rewrite !bool_decide_true|].
      destruct Hno. done.
    + destruct (Hother i v Hv Hav Hi) as (u' & ? & ?). by exists i, u'.
Qed.

Lemma find_user_Some id tenant db u :
  find_user id tenant db = Some u ↔ r_users db !! id = Some u ∧ u_tenant u = tenant.
Proof.
  unfold find_user. destruct (r_users db !! id) as [v|]; simpl; [|naive_solver].
  case_bool_decide; naive_solver.
Qed.

Lemma setMemberRole_tx_effect tc id newRole reason db :
  wp (setMemberRole_tx tc id newRole reason) db None (λ r db' _,
    (db' = db ∧ r ≠ Ok true) ∨
    (∃ u, find_user id (tc_TenantID tc) db = Some u ∧ u_status u ≠ "deleted" ∧
       role_changed tc id u newRole reason db db' ∧
       (u_role u = RoleAdmin → newRole ≠ RoleAdmin →
          lastAdminCheck (active_admins (tc_TenantID tc) db) {[id]} = false) ∧
       (r = Ok true ∨ r = Err (Sql "set member role: commit" ReplyLost)))).
Proof.
  unfold setMemberRole_tx, LockActiveAdmins. wp_go; try (by left; eauto).
  all: right; exists u; split; [done|]; bool_simpl; split; [done|].
  all: match goal with H : find_user _ _ _ = Some _ |- _ => apply find_user_Some in H as [Hu Ht] end.
  all: unfold insert_role_audit, update_membership, update_user, exec in *; case_match; simplify_eq/=.
  all: rewrite (update_where_hit id _ _ (r_users db) u Hu) in * by (by rewrite bool_decide_true).
  all: simplify_eq/=; split; [done|]; split; [|by auto].
  all: intros Hr Hn; match goal with H : _ ∨ lastAdminCheck _ _ = false |- _ => destruct H as [H|H]; [|exact H] end.
  all: repeat match goal with H : _ ∨ _ |- _ => destruct H | H : _ && _ = false |- _ => apply andb_false_iff in H end.
  all: bool_simpl; contradiction.
Qed.

(** Changing a member's role either leaves the tables and the role cache as
    they were, or commits, together with its audit record, the new role of a
    user of the caller's workspace other than the caller (however the id is
    spelled); a workspace that had an active admin still has one; and the
    target's cached role is dropped unless the reply to the commit was lost. *)
Theorem setMemberRole_safe parse tc userID role reason c db fs :
  let '(r, w, c') := setMemberRole parse tc userID role reason c (World db None fs) in
  (committed w = db ∧ c' = c) ∨
  (∃ id u, parse userID = Some id ∧ parse (tc_UserID tc) ≠ Some id ∧
     r_users db !! id = Some u ∧ u_tenant u = tc_TenantID tc ∧ ValidRole (ToLower role) = true ∧
     role_changed tc id u (ToLower role) (TrimSpace reason) db (committed w) ∧
     (∀ tenant, has_admin tenant db → has_admin tenant (committed w)) ∧
     (c' = Invalidate parse (tc_TenantID tc) id c ∨
      c' = c ∧ r = Err (Sql "set member role: commit" ReplyLost))).
Proof.
  unfold setMemberRole. destruct (setMemberRole_args _ _ _ _ _) as [[[id newRole] reason']|e] eqn:Hargs; [|by left].
  assert (parse userID = Some id ∧ parse (tc_UserID tc) ≠ Some id ∧ ValidRole (ToLower role) = true ∧
          newRole = ToLower role ∧ reason' = TrimSpace reason) as (Hid & Hself & Hrole & -> & ->).
  { unfold setMemberRole_args, CanonicalID in Hargs. cases; bool_simpl. split_and!; try done.
    intros Heq. rewrite Heq in *. done. }
  pose proof (setMemberRole_tx_effect tc id (ToLower role) (TrimSpace reason) db fs) as Hw.
  destruct (setMemberRole_tx _ _ _ _ _) as [r w'].
  assert (∀ w, committed (loadMember (tc_TenantID tc) id w).2 = committed w) as Hload.
  { intros w. unfold loadMember. apply keeps_bind; [apply keeps_pool_query|]. intros []; done. }
  specialize (Hload w'). destruct Hw as [[Hdb Hr]|(u & Hu & _ & Hch & Hg & Hr)].
  - destruct r as [[]|e]; [done| |by left]. destruct (loadMember _ _ _); simpl in *. left. by rewrite Hload.
  - apply find_user_Some in Hu as [Hu Ht].
    assert (∀ tenant, has_admin tenant db → has_admin tenant (committed w')) as Hadm.
    { intros tenant. eapply role_change_keeps_admin; [done..|]. auto. }
    destruct Hr as [->| ->].
    + destruct (loadMember _ _ _); simpl in *. rewrite Hload. right. exists id, u. split_and!; auto.
    + right. exists id, u. split_and!; auto.
Qed.

(** *** Disabling a connection *)

Lemma canonical_set_self parse ids set :
  Forall (λ id, parse id = Some id) ids → canonical_set parse ids set = Some (list_to_set ids ∪ set).
Proof.
  intros Hids. revert set. induction Hids as [|id ids Hid _ IH]; intros set; simpl.
  { f_equal. set_solver. }
  unfold CanonicalID. rewrite Hid, IH. f_equal. set_solver.
Qed.

Lemma scim_affected_elem tenant connection db id :
  id ∈ scim_affected tenant connection db ↔
  ∃ u, r_users db !! id = Some u ∧ u_tenant u = tenant ∧ u_status u = "active" ∧
       u_provisioning_owner u = "scim" ∧ (id, tenant, connection) ∈ r_identities db.
Proof.
  unfold scim_affected. rewrite list_elem_of_fmap. split.
  - intros ([i u] & -> & [H Hi]%list_elem_of_filter). apply elem_of_map_to_list in Hi. naive_solver.
  - intros (u & Hu & H). exists (id, u). split; [done|]. apply list_elem_of_filter.
    split; [done|]. by apply elem_of_map_to_list.
Qed.

(** The users after a suspension of [ids]. *)
Definition suspended (tenant : uuid) (ids : list uuid) (m m' : gmap uuid URow) : Prop :=
  ∀ i, m' !! i = (λ u, if (u_tenant u ≟ tenant) && bool_decide (i ∈ ids) then set_status "suspended" u else u)
                 <$> m !! i.

Lemma suspend_users_spec tenant ids db n db' :
  suspend_users tenant ids db = Ok (n, db') → suspended tenant ids (r_users db) (r_users db').
Proof.
  intros [= _ <-] i. simpl. rewrite map_lookup_imap. by destruct (r_users db !! i).
Qed.

Lemma suspend_step parse tenant ids db n db' removed :
  Forall (λ id, parse id = Some id) ids → canonical_set parse ids ∅ = Some removed →
  lastAdminCheck (active_admins tenant db) removed = false →
  suspend_users tenant ids db = Ok (n, db') →
  suspended tenant ids (r_users db) (r_users db') ∧ ∀ t, has_admin t db → has_admin t db'.
Proof.
  intros Hids Hset Hc Hs%suspend_users_spec. rewrite canonical_set_self in Hset by done.
  injection Hset as <-. split; [done|]. intros t Ha. destruct (decide (t = tenant)) as [->|Hne].
  - eapply keep_admin; [done| |done]. intros id u Hu Hau Hn. exists u. rewrite Hs, Hu. simpl.
    rewrite (bool_decide_false (id ∈ ids)) by set_solver. by rewrite andb_false_r.
  - destruct Ha as (id & u & Hu & Hau). exists id, u. rewrite Hs, Hu. simpl. split; [|done].
    unfold active_admin in Hau. bool_simpl. by rewrite bool_decide_false by congruence.
Qed.

(** Disabling a connection's users changes nothing unless it commits; then
    exactly the active SCIM-owned users linked through the connection are
    suspended, and every workspace that had an active admin still has one. *)
Theorem suspend_keeps_admin parse tenant connection db :
  (∀ id, is_Some (r_users db !! id) → parse id = Some id) →
  wp (SuspendSCIMUsersForConnection parse tenant connection) db None (λ r db' _,
    db' = db ∨
    (suspended tenant (scim_affected tenant connection db) (r_users db) (r_users db') ∧
     ∀ t, has_admin t db → has_admin t db')).
Proof.
  intros Hcan. unfold SuspendSCIMUsersForConnection, suspendSCIMUsers, GuardLastAdminsTx, LockActiveAdmins.
  assert (Forall (λ id, parse id = Some id) (scim_affected tenant connection db)) as Hids.
  { apply Forall_forall. intros id (u & Hu & _)%scim_affected_elem. apply Hcan. eauto. }
  wp_go; try (by left); right; by eapply suspend_step.
Qed.

Definition demo_udb : UDB :=
  MkUDB {["u1" := MkURow "t1" "a@x" "admin" "active" "scim"; "u2" := MkURow "t1" "b@x" "viewer" "active" "scim"]}
        ∅ {[("u2", "t1", "c1")]} [].

Lemma suspend_keeps_admin_witness :
  wp (SuspendSCIMUsersForConnection Some "t1" "c1") demo_udb None (λ r db' _,
    db' = demo_udb ∨
    (suspended "t1" (scim_affected "t1" "c1" demo_udb) (r_users demo_udb) (r_users db') ∧
     ∀ t, has_admin t demo_udb → has_admin t db')).
Proof. apply (suspend_keeps_admin Some "t1" "c1" demo_udb). intros id _. reflexivity. Defined.

(** ** Permissions *)

Module PermissionFacts.
Import Permission.

(** Grants are exactly what was granted: after a successful grant the user
    holds the permission, after a revocation the user does not, no other
    (workspace, user, permission) is affected by either, and only an explicit
    grant makes a check succeed. *)
Theorem grant_revoke_exact (pg_uuid : string → option uuid) w u p by_ db db' w' u' p' :
  let holds d := run (HasPermission pg_uuid w' u' p') d in
  let same := pg_uuid w' = pg_uuid w ∧ pg_uuid u' = pg_uuid u ∧ p' = p in
  invalid_scope w' u' p' = false →
  (run (Grant pg_uuid w u p by_) db = (Ok tt, db') →
     (same → (holds db').1 = Ok true) ∧ (¬ same → (holds db').1 = (holds db).1)) ∧
  (run (Revoke pg_uuid w u p) db = (Ok tt, db') →
     (same → (holds db').1 = Ok false) ∧ (¬ same → (holds db').1 = (holds db).1)).
Proof.
  intros holds same Hscope. unfold holds, same, run, HasPermission, Grant, Revoke, pool_stmt, grant_stmt.
  rewrite Hscope. clear holds same.
  destruct (invalid_scope w u p); [by split; intros|]. simpl.
  destruct (pg_uuid w) as [cw|], (pg_uuid u) as [cu|]; try (by split; intros).
  split; intros H.
  - assert (permissions db' = {[(cw, cu, p)]} ∪ permissions db) as Hdb.
    { destruct (if by_ ≟ "" then _ else _); [|done]. simpl in *. cases; bool_simpl; set_solver. }
    split.
    + intros (-> & -> & ->). simpl. by rewrite Hdb, bool_decide_true by set_solver.
    + intros Hn. destruct (pg_uuid w') as [cw'|], (pg_uuid u') as [cu'|]; try done. simpl.
      rewrite Hdb. do 2 f_equal. apply bool_decide_ext. set_solver.
  - injection H as <-. split.
    + intros (-> & -> & ->). simpl. by rewrite bool_decide_false by set_solver.
    + intros Hn. destruct (pg_uuid w') as [cw'|], (pg_uuid u') as [cu'|]; try done. simpl.
      do 2 f_equal. apply bool_decide_ext. set_solver.
Qed.

Lemma grant_revoke_exact_witness :
  invalid_scope "w1" "u1" "identity.mapping.break_glass" = false ∧
  (run (HasPermission Some "w1" "u1" "identity.mapping.break_glass")
     (MkPDB {[("w1", "u1", "identity.mapping.break_glass")]} {["u1" := "w1"]})).1 = Ok true.
Proof.
  split; [reflexivity|].
  eapply (grant_revoke_exact Some "w1" "u1" "identity.mapping.break_glass" "" (MkPDB ∅ {["u1" := "w1"]})
            _ "w1" "u1" "identity.mapping.break_glass"); [reflexivity|vm_compute; reflexivity|].
  repeat split.
Defined.
End PermissionFacts.
