(* ===== verification/PolicyStore.v ===== *)
(** * The policy tables (controller/internal/policy/store.go)

    The tables behind access policy, the mutations of groups, members and
    access rules, and the queries the ACL compiler reads.  [uuid.Parse] and the
    database's reading of a uuid parameter are parameters ([parse], [pg_uuid]);
    a query without ORDER BY returns its rows in the order that the class
    [RowOrder] picks. *)

From Stdlib Require Import ZArith Lia.
From S2P Require Import Prelude Sql GoText.
Open Scope Z_scope.

(** ** Tables *)

Record GroupRow := MkGroupRow {
  g_workspace : uuid; g_name : string; g_description : option string;
  g_created_at : time; g_updated_at : time;
  g_origin : string; g_external_id : option string; g_connection_id : option uuid
}.

Record AccessRuleRow := MkAccessRuleRow {
  ar_workspace : uuid; ar_resource : uuid; ar_group : uuid; ar_enabled : bool;
  ar_created_at : time; ar_updated_at : time
}.

Record ResourceRec := MkResourceRec {
  rs_tenant : uuid; rs_name : string; rs_host : string; rs_port_from : Z; rs_protocol : string;
  rs_shield : option uuid; rs_status : string; rs_remote_network : uuid; rs_policy : option uuid
}.

Record ShieldRec := MkShieldRec { sh_tenant : uuid; sh_connector : uuid; sh_status : string }.

Record DeviceRec := MkDeviceRec {
  cd_user : uuid; cd_workspace : uuid; cd_spiffe : option string; cd_revoked_at : option time
}.

Record ConnectorRec := MkConnectorRec {
  cn_tenant : uuid; cn_remote_network : uuid; cn_status : string;
  cn_lan_addr : option string; cn_trust_domain : option string;
  cn_last_heartbeat : option time; cn_revoked_at : option time
}.

Record RelayRec := MkRelayRec {
  rl_status : string; rl_public_addr : option string; rl_observed_ip : option string;
  rl_address_scope : option string; rl_drain_started_at : option time; rl_last_heartbeat : option time
}.

Record CertRec := MkCertRec { cc_connector : uuid; cc_tenant : uuid; cc_not_after : time }.

Record ProfileRec := MkProfileRec { dp_workspace : uuid; dp_name : string; dp_revision : Z }.

Record EvalRec := MkEvalRec {
  ev_workspace : uuid; ev_satisfied : bool; ev_profile_revision : Z; ev_report : option uuid
}.

Record PolicyDB := MkPolicyDB {
  groups : gmap uuid GroupRow;
  group_members : gset (uuid * uuid); (* group, user *)
  access_rules : gmap uuid AccessRuleRow;
  resources : gmap uuid ResourceRec;
  remote_networks : gmap uuid (uuid * string); (* tenant, name *)
  shields : gmap uuid ShieldRec;
  shield_revocations : gset uuid;
  p_workspaces : gmap uuid string; (* trust domain *)
  p_users : gmap uuid (uuid * string); (* tenant, status *)
  p_members : gmap (uuid * uuid) string; (* workspace_members.status *)
  client_devices : gmap uuid DeviceRec;
  connectors : gmap uuid ConnectorRec;
  connector_certificates : gmap uuid CertRec;
  connector_relay_placement : gmap uuid uuid; (* connector, relay *)
  relays : gmap uuid RelayRec;
  device_profiles : gmap uuid ProfileRec;
  resource_policy_profiles : gset (uuid * uuid); (* policy, profile *)
  evaluations_tbl : gmap (uuid * uuid) EvalRec; (* device, profile *)
  report_received : gmap uuid time
}.

Definition set_groups (m : gmap uuid GroupRow) (s : PolicyDB) : PolicyDB :=
  MkPolicyDB m (group_members s) (access_rules s) (resources s) (remote_networks s) (shields s)
    (shield_revocations s) (p_workspaces s) (p_users s) (p_members s) (client_devices s) (connectors s)
    (connector_certificates s) (connector_relay_placement s) (relays s) (device_profiles s)
    (resource_policy_profiles s) (evaluations_tbl s) (report_received s).
Definition set_group_members (m : gset (uuid * uuid)) (s : PolicyDB) : PolicyDB :=
  MkPolicyDB (groups s) m (access_rules s) (resources s) (remote_networks s) (shields s)
    (shield_revocations s) (p_workspaces s) (p_users s) (p_members s) (client_devices s) (connectors s)
    (connector_certificates s) (connector_relay_placement s) (relays s) (device_profiles s)
    (resource_policy_profiles s) (evaluations_tbl s) (report_received s).
Definition set_access_rules (m : gmap uuid AccessRuleRow) (s : PolicyDB) : PolicyDB :=
  MkPolicyDB (groups s) (group_members s) m (resources s) (remote_networks s) (shields s)
    (shield_revocations s) (p_workspaces s) (p_users s) (p_members s) (client_devices s) (connectors s)
    (connector_certificates s) (connector_relay_placement s) (relays s) (device_profiles s)
    (resource_policy_profiles s) (evaluations_tbl s) (report_received s).

Inductive policy_error :=
| ErrNotFound | ErrInvalidWorkspace | ErrRouteType (resource : uuid) | NilRemoteNetwork.
Abbreviation policyM A := (sqlM PolicyDB policy_error A).

(** ** Groups, members and rules *)

Section mutations.
Context (parse pg_uuid : string → option uuid).

Definition validUUIDs (ids : list string) : bool := forallb (λ id, bool_decide (is_Some (parse id))) ids.

(** A statement whose uuid parameters the database must read. *)
Definition with_uuid {A} (raw : string) (k : uuid → stmt PolicyDB A) : stmt PolicyDB A := λ s,
  match pg_uuid raw with Some id => k id s | None => Err InvalidText end.

Definition name_taken (ws : uuid) (name : string) (except : option uuid) (s : PolicyDB) : bool :=
  bool_decide (map_Exists (λ i g, Some i ≠ except ∧ g_workspace g = ws ∧ g_name g = name) (groups s)).

Definition CreateGroup (id : uuid) (now : time) (workspaceID name : string) (description : option string)
    : policyM (uuid * GroupRow) :=
  pool_stmt "create group" (with_uuid workspaceID (λ ws s,
    let row := MkGroupRow ws name description now now "manual" None None in
    if negb (text_param_ok name && from_option text_param_ok true description) then Err InvalidText
    else if negb (bool_decide (is_Some (p_workspaces s !! ws))) then Err ForeignKeyViolation
    else if name_taken ws name None s || bool_decide (is_Some (groups s !! id)) then Err UniqueViolation
    else Ok ((id, row), set_groups (<[id := row]> (groups s)) s))).

Definition update_group_row (now : time) (name description : option string) (g : GroupRow) : GroupRow :=
  MkGroupRow (g_workspace g) (default (g_name g) name)
    (match description with Some d => Some d | None => g_description g end)
    (g_created_at g) now (g_origin g) (g_external_id g) (g_connection_id g).

Definition UpdateGroup (now : time) (id : string) (name description : option string)
    : policyM (uuid * GroupRow) :=
  let! r := pool_stmt "update group" (with_uuid id (λ gid s,
    if negb (from_option text_param_ok true name && from_option text_param_ok true description)
    then Err InvalidText
    else match groups s !! gid with
         | None => Ok (None, s)
         | Some g =>
             let g' := update_group_row now name description g in
             if name_taken (g_workspace g) (g_name g') (Some gid) s then Err UniqueViolation
             else Ok (Some (gid, g'), set_groups (<[gid := g']> (groups s)) s)
         end)) in
  match r with Some row => ret row | None => fail ErrNotFound end.

(** Deleting a group cascades to its members and rules. *)
Definition delete_group (gid : uuid) : stmt PolicyDB Z := λ s,
  match groups s !! gid with
  | None => Ok (0, s)
  | Some _ =>
      Ok (1, set_access_rules (filter (λ kv, ar_group kv.2 ≠ gid) (access_rules s))
               (set_group_members (filter (λ gu, gu.1 ≠ gid) (group_members s))
                  (set_groups (delete gid (groups s)) s)))
  end.

Definition DeleteGroup (id : string) : policyM () :=
  let! n := pool_stmt "delete group" (with_uuid id delete_group) in
  if n =? 0 then fail ErrNotFound else ret tt.

Definition GetGroup (id : string) : policyM (uuid * GroupRow) :=
  if negb (validUUIDs [id]) then fail ErrNotFound
  else
    let! r := pool_stmt "get group" (with_uuid id (λ gid s, Ok (pair gid <$> groups s !! gid, s))) in
    match r with Some row => ret row | None => fail ErrNotFound end.

(** The rows [target] selects: at most one. *)
Definition member_target (gid uid ws : uuid) (s : PolicyDB) : bool :=
  match groups s !! gid, p_users s !! uid with
  | Some g, Some (tenant, _) => (g_workspace g ≟ ws) && (tenant ≟ g_workspace g)
  | _, _ => false
  end.

Definition AddGroupMember (workspaceID groupID userID : string) : policyM () :=
  if negb (validUUIDs [workspaceID; groupID; userID]) then fail ErrNotFound
  else
    let! matched := pool_stmt "add group member"
      (with_uuid groupID (λ gid, with_uuid userID (λ uid, with_uuid workspaceID (λ ws s,
         if member_target gid uid ws s
         then Ok (1, set_group_members ({[(gid, uid)]} ∪ group_members s) s)
         else Ok (0, s))))) in
    if matched =? 0 then fail ErrNotFound else ret tt.

Definition RemoveGroupMember (groupID userID : string) : policyM () :=
  let! n := pool_stmt "remove group member"
    (with_uuid groupID (λ gid, with_uuid userID (λ uid s,
       if bool_decide ((gid, uid) ∈ group_members s)
       then Ok (1, set_group_members (group_members s ∖ {[(gid, uid)]}) s) else Ok (0, s)))) in
  if n =? 0 then fail ErrNotFound else ret tt.

(** The rule of a (resource, group) pair, which is unique. *)
Definition rule_of (rid gid : uuid) (s : PolicyDB) : option (uuid * AccessRuleRow) :=
  (λ p, p.2) <$> list_find (λ kv : uuid * AccessRuleRow, ar_resource kv.2 = rid ∧ ar_group kv.2 = gid)
                   (map_to_list (access_rules s)).

Definition set_enabled (now : time) (enabled : bool) (r : AccessRuleRow) : AccessRuleRow :=
  MkAccessRuleRow (ar_workspace r) (ar_resource r) (ar_group r) enabled (ar_created_at r) now.

Definition assign_stmt (id : uuid) (now : time) (ws rid gid : uuid)
    : stmt PolicyDB (option (uuid * AccessRuleRow)) := λ s,
  if bool_decide (rs_tenant <$> resources s !! rid = Some ws)
     && bool_decide (g_workspace <$> groups s !! gid = Some ws) then
    match rule_of rid gid s with
    | Some (old, r) =>
        if ar_workspace r ≟ ws
        then let r' := set_enabled now true r in
             Ok (Some (old, r'), set_access_rules (<[old := r']> (access_rules s)) s)
        else Ok (None, s)
    | None =>
        match access_rules s !! id with
        | Some _ => Err UniqueViolation
        | None => let r := MkAccessRuleRow ws rid gid true now now in
                  Ok (Some (id, r), set_access_rules (<[id := r]> (access_rules s)) s)
        end
    end
  else Ok (None, s).

Definition AssignResourceToGroup (id : uuid) (now : time) (workspaceID resourceID groupID : string)
    : policyM (uuid * AccessRuleRow) :=
  if negb (validUUIDs [workspaceID; resourceID; groupID]) then fail ErrNotFound
  else
    let! r := pool_stmt "assign resource to group"
      (with_uuid workspaceID (λ ws, with_uuid resourceID (λ rid, with_uuid groupID (λ gid,
         assign_stmt id now ws rid gid)))) in
    match r with Some row => ret row | None => fail ErrNotFound end.

Definition unassign_stmt (ws rid gid : uuid) : stmt PolicyDB Z := λ s,
  let hit kv := (ar_resource kv.2 ≟ rid) && (ar_group kv.2 ≟ gid) && (ar_workspace kv.2 ≟ ws) in
  Ok (Z.of_nat (size (filter (λ kv : uuid * AccessRuleRow, hit kv = true) (access_rules s))),
      set_access_rules (filter (λ kv : uuid * AccessRuleRow, hit kv = false) (access_rules s)) s).

Definition UnassignResourceFromGroup (workspaceID resourceID groupID : string) : policyM () :=
  if negb (validUUIDs [workspaceID; resourceID; groupID]) then fail ErrNotFound
  else
    let! n := pool_stmt "unassign resource from group"
      (with_uuid resourceID (λ rid, with_uuid groupID (λ gid, with_uuid workspaceID (λ ws,
         unassign_stmt ws rid gid)))) in
    if n =? 0 then fail ErrNotFound else ret tt.

Definition SetRuleEnabled (now : time) (id : string) (enabled : bool) : policyM () :=
  let! n := pool_stmt "set rule enabled" (with_uuid id (λ rid, exec (λ s,
    let '(n, m) := update_where rid (λ _, true) (set_enabled now enabled) (access_rules s) in
    (n, set_access_rules m s)))) in
  if n =? 0 then fail ErrNotFound else ret tt.
End mutations.

(** ** Queries *)

Section queries.
Context `{RowOrder}.

(** The rule [ar] joined with its resource and group, all of one workspace. *)
Definition rule_joined (ws : uuid) (s : PolicyDB) (ar : AccessRuleRow) : option (ResourceRec * GroupRow) :=
  r ← resources s !! ar_resource ar;
  g ← groups s !! ar_group ar;
  if (ar_workspace ar ≟ ws) && ar_enabled ar && (rs_tenant r ≟ ws) && (g_workspace g ≟ ws)
  then Some (r, g) else None.

Definition ListGroups (ws : uuid) (s : PolicyDB) : list (uuid * GroupRow) :=
  merge_sort (rel_on Z.le (λ kv, g_created_at kv.2))
    (ord (filter (λ kv, g_workspace kv.2 = ws) (map_to_list (groups s)))).

Definition ListGroupMembers (ws gid : uuid) (s : PolicyDB) : list uuid :=
  ord (snd <$> filter (λ gu, gu.1 = gid ∧ member_target gid gu.2 ws s = true) (elements (group_members s))).

Definition ListGroupsForResource (ws rid : uuid) (s : PolicyDB) : list uuid :=
  ord (omap (λ kv, if ar_resource kv.2 ≟ rid then (λ _, ar_group kv.2) <$> rule_joined ws s kv.2 else None)
            (map_to_list (access_rules s))).

Definition ListResourcesForGroup (ws gid : uuid) (s : PolicyDB) : list uuid :=
  ord (omap (λ kv, if ar_group kv.2 ≟ gid then (λ _, ar_resource kv.2) <$> rule_joined ws s kv.2 else None)
            (map_to_list (access_rules s))).

(** *** For the compiler *)

Record CompilerResourceRow := MkCompilerResourceRow {
  ResourceID : uuid; Name : string; Address : string; Port : Z; Protocol : string;
  GroupID : uuid; ShieldID : string; ShieldConnectorID : string; RStatus : string;
  RemoteNetworkID : uuid; RemoteNetworkName : string; ShieldRevoked : bool
}.

(** The shield of the rule's workspace, if any (LEFT JOIN). *)
Definition joined_shield (ws : uuid) (s : PolicyDB) (r : ResourceRec) : option ShieldRec :=
  sid ← rs_shield r; sh ← shields s !! sid; if sh_tenant sh ≟ ws then Some sh else None.

Definition shield_revoked (ws : uuid) (s : PolicyDB) (r : ResourceRec) : bool :=
  match rs_shield r with
  | None => false
  | Some sid =>
      match joined_shield ws s r with
      | None => true
      | Some sh => (sh_status sh ≟ "revoked") || bool_decide (sid ∈ shield_revocations s)
      end
  end.

Definition compiler_row (ws : uuid) (s : PolicyDB) (ar : AccessRuleRow) : option CompilerResourceRow :=
  '(r, _) ← rule_joined ws s ar;
  '(rn_tenant, rn_name) ← remote_networks s !! rs_remote_network r;
  if (rn_tenant ≟ ws) && negb (rs_status r ≟ "deleting") then
    Some (MkCompilerResourceRow (ar_resource ar) (rs_name r) (rs_host r) (rs_port_from r) (rs_protocol r)
            (ar_group ar) (default "" (rs_shield r)) (default "" (sh_connector <$> joined_shield ws s r))
            (rs_status r) (rs_remote_network r) rn_name (shield_revoked ws s r))
  else None.

Definition ListEnabledRulesWithResources (ws : uuid) (s : PolicyDB) : list CompilerResourceRow :=
  ord (omap (λ kv, compiler_row ws s kv.2) (map_to_list (access_rules s))).

Record DeviceIdentity := MkDeviceIdentity { DeviceID : uuid; SPIFFEID : string }.
#[export] Instance DeviceIdentity_eq_dec : EqDecision DeviceIdentity.
Proof. solve_decision. Defined.

(** A device authorizes while it has an unrevoked identity and its user is an
    active user of the workspace without an inactive membership row. *)
Definition device_active (ws : uuid) (s : PolicyDB) (d : DeviceRec) : bool :=
  (cd_workspace d ≟ ws) && (cd_revoked_at d ≟ None) &&
  match p_users s !! cd_user d with
  | Some (tenant, status) => (tenant ≟ cd_workspace d) && (status ≟ "active")
  | None => false
  end &&
  from_option (λ st, st ≟ "active") true (p_members s !! (cd_workspace d, cd_user d)).

Definition group_devices (ws gid : uuid) (s : PolicyDB) : list DeviceIdentity :=
  omap (λ kv, if bool_decide ((gid, cd_user kv.2) ∈ group_members s) && device_active ws s kv.2
              then MkDeviceIdentity kv.1 <$> cd_spiffe kv.2 else None)
       (map_to_list (client_devices s)).

(** The map from each requested group to its devices; a group without one has
    no key. *)
Definition ListActiveDeviceSPIFFEsForGroups (ws : uuid) (groupIDs : list uuid) (s : PolicyDB)
    : gmap uuid (list DeviceIdentity) :=
  list_to_map (omap (λ gid, match ord (group_devices ws gid s) with
                            | [] => None
                            | ds => Some (gid, ds)
                            end) groupIDs).

Record RemoteNetworkConnectorsRow := MkRNCRow {
  rc_RemoteNetworkID : uuid; rc_ConnectorID : uuid; rc_LanAddr : string; rc_TrustDomain : string;
  rc_RelayPublicAddr : string; rc_RelayObservedHost : string; rc_RelayID : string
}.

Definition placed_relay (cid : uuid) (s : PolicyDB) : option (uuid * RelayRec) :=
  rid ← connector_relay_placement s !! cid; r ← relays s !! rid;
  if rl_status r ≟ "active" then Some (rid, r) else None.

Definition connector_row (s : PolicyDB) (cid : uuid) (c : ConnectorRec) : RemoteNetworkConnectorsRow :=
  let relay := placed_relay cid s in
  MkRNCRow (cn_remote_network c) cid (default "" (cn_lan_addr c)) (default "" (cn_trust_domain c))
    (default "" (relay ≫= λ p, rl_public_addr p.2))
    (match relay with
     | Some (_, r) => if rl_address_scope r ≟ Some "public" then default "" (rl_observed_ip r) else ""
     | None => ""
     end)
    (default "" (fst <$> relay)).

(** DESC NULLS LAST *)
Definition heartbeat_ge (a b : option time) : Prop :=
  match a, b with
  | Some x, Some y => y <= x
  | None, Some _ => False
  | _, None => True
  end.
#[export] Instance heartbeat_ge_dec : RelDecision heartbeat_ge.
Proof. intros [x|] [y|]; simpl; apply _. Defined.

Definition connector_le (a b : uuid * ConnectorRec) : Prop :=
  let ra := cn_remote_network a.2 in let rb := cn_remote_network b.2 in
  (ra ≠ rb ∧ String.le ra rb) ∨ (ra = rb ∧ heartbeat_ge (cn_last_heartbeat a.2) (cn_last_heartbeat b.2)).
#[export] Instance connector_le_dec : RelDecision connector_le.
Proof. intros a b. unfold connector_le. apply _. Defined.

Definition GetConnectorsForRemoteNetworks (ws : uuid) (rnIDs : list uuid) (s : PolicyDB)
    : list RemoteNetworkConnectorsRow :=
  (λ kv, connector_row s kv.1 kv.2) <$>
    merge_sort connector_le (ord (filter (λ kv, cn_remote_network kv.2 ∈ rnIDs ∧ cn_tenant kv.2 = ws ∧
                                               cn_status kv.2 = "active") (map_to_list (connectors s)))).

Record RelayDiscoveryRow := MkRelayDiscoveryRow {
  rd_ID : uuid; rd_PublicAddr : string; rd_ObservedIP : string; rd_AddressScope : string
}.

Definition GetActiveRelay (s : PolicyDB) : option RelayDiscoveryRow :=
  (λ kv : uuid * RelayRec,
     MkRelayDiscoveryRow kv.1 (default "" (rl_public_addr kv.2)) (default "" (rl_observed_ip kv.2))
                         (default "" (rl_address_scope kv.2))) <$>
  head (merge_sort (rel_on heartbeat_ge (λ kv : uuid * RelayRec, rl_last_heartbeat kv.2))
    (ord (filter (λ kv : uuid * RelayRec, rl_status kv.2 = "active" ∧ rl_drain_started_at kv.2 = None ∧
                       (rl_public_addr kv.2 ≠ None ∨ rl_address_scope kv.2 = Some "public"))
           (map_to_list (relays s))))).

Record RevokedConnectorRow := MkRevokedConnectorRow { rv_ConnectorID : uuid; rv_TrustDomain : string }.

(** A certificate that is still valid, of a connector that is gone or revoked. *)
Definition cert_of_revoked (ws : uuid) (now : time) (s : PolicyDB) (cc : CertRec) : bool :=
  (cc_tenant cc ≟ ws) && (now <? cc_not_after cc) && bool_decide (is_Some (p_workspaces s !! cc_tenant cc)) &&
  match connectors s !! cc_connector cc with
  | None => true
  | Some c => (cn_status c ≟ "revoked") || negb (cn_revoked_at c ≟ None)
  end.

Definition revoked_trust_domain (ws cid : uuid) (s : PolicyDB) : string :=
  let own := default "" (connectors s !! cid ≫= cn_trust_domain) in
  if own ≟ "" then default "" (p_workspaces s !! ws) else own.

Definition GetRevokedConnectors (ws : uuid) (now : time) (s : PolicyDB) : list RevokedConnectorRow :=
  (λ cid, MkRevokedConnectorRow cid (revoked_trust_domain ws cid s)) <$>
    merge_sort String.le (remove_dups (cc_connector <$>
      (filter (λ kv, cert_of_revoked ws now s kv.2 = true) (map_to_list (connector_certificates s))).*2)).

(** *** Posture reads (posture/store.go, posture/resource_policy.go) *)

Record Profile := MkProfile { pr_ID : uuid; pr_Name : string; pr_Revision : Z }.
Record Evaluation := MkEvaluation {
  el_DeviceID : uuid; el_ProfileID : uuid; el_Satisfied : bool; el_ProfileRevision : Z;
  el_ReportReceivedAt : option time
}.

Definition ListProfiles (ws : uuid) (s : PolicyDB) : list Profile :=
  merge_sort (rel_on String.le pr_Name)
    (ord (omap (λ kv, if dp_workspace kv.2 ≟ ws then Some (MkProfile kv.1 (dp_name kv.2) (dp_revision kv.2))
                      else None) (map_to_list (device_profiles s)))).

(** The profiles each resource's policy requires. *)
Definition ResourceProfilesForWorkspace (ws : uuid) (s : PolicyDB) : gmap uuid (list uuid) :=
  omap (λ r, if rs_tenant r ≟ ws then
               p ← rs_policy r;
               match merge_sort String.le (snd <$> filter (λ pp, pp.1 = p) (elements (resource_policy_profiles s))) with
               | [] => None
               | l => Some l
               end
             else None) (resources s).

Definition evaluation_row (s : PolicyDB) (d p : uuid) (e : EvalRec) : Evaluation :=
  MkEvaluation d p (ev_satisfied e) (ev_profile_revision e) (ev_report e ≫= λ r, report_received s !! r).

Definition device_evaluations (ws d : uuid) (s : PolicyDB) : list Evaluation :=
  merge_sort (rel_on String.le el_ProfileID)
    (omap (λ kv, if (kv.1.1 ≟ d) && (ev_workspace kv.2 ≟ ws)
                 then Some (evaluation_row s kv.1.1 kv.1.2 kv.2) else None)
          (map_to_list (evaluations_tbl s))).

Definition EvaluationsForDevices (ws : uuid) (ds : list uuid) (s : PolicyDB) : gmap uuid (list Evaluation) :=
  list_to_map (omap (λ d, match device_evaluations ws d s with [] => None | l => Some (d, l) end) ds).
End queries.
