(* ===== verification/PolicyFacts.v ===== *)
(** * Invariants of the policy tables

    Tenant consistency and the uniqueness constraints, kept by every mutation
    of policy/store.go whatever statement fails, and what assigning and
    unassigning a resource do to the rules. *)

From Stdlib Require Import ZArith Lia.
From S2P Require Import Prelude Sql GoText PolicyStore.
Open Scope Z_scope.

(** ** Well-formed tables *)

Definition rule_tenant_ok (s : PolicyDB) (r : AccessRuleRow) : Prop :=
  rs_tenant <$> resources s !! ar_resource r = Some (ar_workspace r) ∧
  g_workspace <$> groups s !! ar_group r = Some (ar_workspace r).

Definition member_tenant_ok (s : PolicyDB) (gu : uuid * uuid) : Prop :=
  ∃ g u, groups s !! gu.1 = Some g ∧ p_users s !! gu.2 = Some u ∧ g_workspace g = u.1.

Record policy_wf (s : PolicyDB) : Prop := {
  wf_rules : map_Forall (λ _ r, rule_tenant_ok s r) (access_rules s);
  wf_members : set_Forall (member_tenant_ok s) (group_members s);
  wf_pair : ∀ i j r q, access_rules s !! i = Some r → access_rules s !! j = Some q →
    ar_resource r = ar_resource q → ar_group r = ar_group q → i = j;
  wf_names : ∀ i j g h, groups s !! i = Some g → groups s !! j = Some h →
    g_workspace g = g_workspace h → g_name g = g_name h → i = j
}.

(** ** Mutations, as one type *)

Inductive policy_op :=
| OpCreateGroup (id : uuid) (now : time) (workspaceID name : string) (description : option string)
| OpUpdateGroup (now : time) (id : string) (name description : option string)
| OpDeleteGroup (id : string)
| OpAddGroupMember (workspaceID groupID userID : string)
| OpRemoveGroupMember (groupID userID : string)
| OpAssign (id : uuid) (now : time) (workspaceID resourceID groupID : string)
| OpUnassign (workspaceID resourceID groupID : string)
| OpSetRuleEnabled (now : time) (id : string) (enabled : bool).

Section mutations.
Context (parse pg_uuid : string → option uuid).

(** Run the operation and forget its answer. *)
Definition run_op (op : policy_op) : policyM () :=
  match op with
  | OpCreateGroup id now ws name d => CreateGroup pg_uuid id now ws name d ;;; ret tt
  | OpUpdateGroup now id name d => UpdateGroup pg_uuid now id name d ;;; ret tt
  | OpDeleteGroup id => DeleteGroup pg_uuid id
  | OpAddGroupMember ws g u => AddGroupMember parse pg_uuid ws g u
  | OpRemoveGroupMember g u => RemoveGroupMember pg_uuid g u
  | OpAssign id now ws r g => AssignResourceToGroup parse pg_uuid id now ws r g ;;; ret tt
  | OpUnassign ws r g => UnassignResourceFromGroup parse pg_uuid ws r g
  | OpSetRuleEnabled now id enabled => SetRuleEnabled pg_uuid now id enabled
  end.

Lemma with_uuid_preserves {A} I raw (k : uuid → stmt PolicyDB A) :
  (∀ id, stmt_preserves I (k id)) → stmt_preserves I (with_uuid pg_uuid raw k).
Proof. intros Hk s a s' Hs. unfold with_uuid. destruct (pg_uuid raw); [by apply Hk|done]. Qed.

(** *** Groups *)

(** Rules and members see only the workspaces of the groups. *)
Lemma wf_set_groups s m :
  (∀ gid g, groups s !! gid = Some g → g_workspace <$> m !! gid = Some (g_workspace g)) →
  (∀ i j g h, m !! i = Some g → m !! j = Some h → g_workspace g = g_workspace h → g_name g = g_name h → i = j) →
  policy_wf s → policy_wf (set_groups m s).
Proof.
  intros Hws Hnames [Hr Hm Hp Hn]. split; simpl; [| |done|done].
  - intros i r Hi. destruct (Hr i r Hi) as [Hres (g & Hg & Hgw)%fmap_Some]. split; [done|]. simpl.
    rewrite (Hws _ _ Hg). by rewrite Hgw.
  - intros gu Hgu. destruct (Hm gu Hgu) as (g & u & Hg & Hu & Ht). specialize (Hws _ _ Hg).
    apply fmap_Some in Hws as (g' & Hg' & Hw). exists g', u. simpl. split_and!; [done..|congruence].
Qed.

Lemma name_free ws name except s i g :
  name_taken ws name except s = false → groups s !! i = Some g → Some i ≠ except →
  g_workspace g = ws → g_name g = name → False.
Proof. intros Ht Hi Hne Hw Hnm. unfold name_taken in Ht. bool_simpl. apply Ht. exists i, g. auto. Qed.

Lemma create_group_wf id row s :
  name_taken (g_workspace row) (g_name row) None s = false → groups s !! id = None →
  policy_wf s → policy_wf (set_groups (<[id := row]> (groups s)) s).
Proof.
  intros Ht Hid Hwf. apply wf_set_groups; [| |done].
  - intros gid g Hg. rewrite lookup_insert_ne by naive_solver. by rewrite Hg.
  - intros i j g h. rewrite !lookup_insert_Some. intros [[<- <-]|[? Hg]] [[<- <-]|[? Hh]] Hw Hnm; [done| | |].
    + exfalso. by apply (name_free _ _ _ _ _ _ Ht Hh).
    + exfalso. by apply (name_free _ _ _ _ _ _ Ht Hg).
    + by apply (wf_names _ Hwf i j g h).
Qed.

Lemma update_group_wf gid g g' s :
  groups s !! gid = Some g → g_workspace g' = g_workspace g →
  name_taken (g_workspace g) (g_name g') (Some gid) s = false →
  policy_wf s → policy_wf (set_groups (<[gid := g']> (groups s)) s).
Proof.
  intros Hg Hw Ht Hwf. apply wf_set_groups; [| |done].
  - intros i h Hi. destruct (decide (gid = i)) as [<-|].
    + rewrite lookup_insert_eq. simpl. congruence.
    + rewrite lookup_insert_ne by done. by rewrite Hi.
  - intros i j h k. rewrite !lookup_insert_Some. intros [[<- <-]|[? Hh]] [[<- <-]|[? Hk]] Hw' Hnm; [done| | |].
    + exfalso. apply (name_free _ _ _ _ _ _ Ht Hk); congruence.
    + exfalso. apply (name_free _ _ _ _ _ _ Ht Hh); congruence.
    + by apply (wf_names _ Hwf i j h k).
Qed.

Lemma delete_group_wf gid : stmt_preserves policy_wf (delete_group gid).
Proof.
  intros s n s' [Hr Hm Hp Hn]. unfold delete_group. destruct (groups s !! gid); intros [= <- <-]; [|done].
  split; simpl.
  - intros i r [Hi Hne]%map_lookup_filter_Some. destruct (Hr i r Hi) as [Hres Hg]. split; [done|].
    simpl. by rewrite lookup_delete_ne.
  - intros gu [Hne Hgu]%elem_of_filter. destruct (Hm gu Hgu) as (g' & u & Hg & Hu & Ht).
    exists g', u. simpl. by rewrite lookup_delete_ne.
  - intros i j r q [Hi _]%map_lookup_filter_Some [Hj _]%map_lookup_filter_Some. by apply Hp.
  - intros i j g' h [_ Hi]%lookup_delete_Some [_ Hj]%lookup_delete_Some. by apply Hn.
Qed.

(** *** Members *)

Lemma wf_set_members s m :
  set_Forall (member_tenant_ok s) m → policy_wf s → policy_wf (set_group_members m s).
Proof. intros Hm [Hr _ Hp Hn]. by split. Qed.

Lemma member_target_ok gid uid ws s : member_target gid uid ws s = true → member_tenant_ok s (gid, uid).
Proof.
  unfold member_target. intros Ht. destruct (groups s !! gid) as [g|] eqn:Hg; [|done].
  destruct (p_users s !! uid) as [[tenant st]|] eqn:Hu; [|done].
  apply andb_true_iff in Ht as [_ ->%bool_decide_eq_true]. by exists g, (g_workspace g, st).
Qed.

(** *** Rules *)

Lemma wf_set_rules s m :
  map_Forall (λ _ r, rule_tenant_ok s r) m →
  (∀ i j r q, m !! i = Some r → m !! j = Some q → ar_resource r = ar_resource q → ar_group r = ar_group q → i = j) →
  policy_wf s → policy_wf (set_access_rules m s).
Proof. intros Hr Hp [_ Hm _ Hn]. by split. Qed.

Lemma wf_filter_rules s (P : uuid * AccessRuleRow → Prop) `{!∀ kv, Decision (P kv)} :
  policy_wf s → policy_wf (set_access_rules (filter P (access_rules s)) s).
Proof.
  intros Hwf. apply wf_set_rules; [| |done].
  - intros i r [Hi _]%map_lookup_filter_Some. by apply (wf_rules _ Hwf i).
  - intros i j r q [Hi _]%map_lookup_filter_Some [Hj _]%map_lookup_filter_Some. by apply (wf_pair _ Hwf).
Qed.

(** Replacing a rule by one of the same workspace, resource and group. *)
Lemma wf_replace_rule s i r r' :
  access_rules s !! i = Some r → ar_workspace r' = ar_workspace r → ar_resource r' = ar_resource r →
  ar_group r' = ar_group r → policy_wf s → policy_wf (set_access_rules (<[i := r']> (access_rules s)) s).
Proof.
  intros Hi Hw Hr Hg Hwf. apply wf_set_rules; [| |done].
  - apply map_Forall_insert_2; [|apply Hwf]. unfold rule_tenant_ok. rewrite Hw, Hr, Hg. by apply (wf_rules _ Hwf i).
  - intros a b x y. rewrite !lookup_insert_Some. intros [[<- <-]|[? Ha]] [[<- <-]|[? Hb]] ? ?; [done| | |].
    + apply (wf_pair _ Hwf i b r y); congruence.
    + apply (wf_pair _ Hwf a i x r); congruence.
    + by apply (wf_pair _ Hwf a b x y).
Qed.

Lemma rule_of_Some rid gid s i r :
  rule_of rid gid s = Some (i, r) → access_rules s !! i = Some r ∧ ar_resource r = rid ∧ ar_group r = gid.
Proof.
  unfold rule_of. intros ([n kv] & Hf & Heq)%fmap_Some. simpl in Heq. subst kv.
  apply list_find_Some in Hf as (Hl & [? ?] & _). apply list_elem_of_lookup_2, elem_of_map_to_list in Hl. done.
Qed.

Lemma rule_of_None rid gid s i r :
  rule_of rid gid s = None → access_rules s !! i = Some r → ar_resource r = rid → ar_group r = gid → False.
Proof.
  unfold rule_of. intros Hf%fmap_None Hi Hr Hg. apply list_find_None in Hf. rewrite Forall_forall in Hf.
  apply (Hf (i, r)); [by apply elem_of_map_to_list|done].
Qed.

Lemma assign_wf id now ws rid gid : stmt_preserves policy_wf (assign_stmt id now ws rid gid).
Proof.
  intros s a s' Hwf. unfold assign_stmt. destruct (_ && _) eqn:Hok; [|by intros [= <- <-]].
  apply andb_true_iff in Hok as [Hres%bool_decide_eq_true Hgrp%bool_decide_eq_true].
  destruct (rule_of rid gid s) as [[old r]|] eqn:Hro.
  - apply rule_of_Some in Hro as (Hi & Hr & Hg). destruct (ar_workspace r ≟ ws); intros [= <- <-]; [|done].
    by apply (wf_replace_rule s old r).
  - destruct (access_rules s !! id) eqn:Hid; intros [= <- <-]. apply wf_set_rules; [| |done].
    + apply map_Forall_insert_2; [done|apply Hwf].
    + intros i j x y. rewrite !lookup_insert_Some. intros [[<- <-]|[? Hx]] [[<- <-]|[? Hy]] Hr Hg; simpl in *;
        [done|exfalso; by eapply rule_of_None..|by apply (wf_pair _ Hwf i j x y)].
Qed.

(** Every mutation of groups, members and access rules keeps the policy
    tables tenant-consistent, whatever statement fails: a rule, its resource and
    its group are of one workspace, a member and its group are of one workspace,
    there is one rule per resource and group, and group names are unique in a
    workspace. *)
Theorem mutations_keep_tenancy (op : policy_op) : preserves policy_wf (run_op op).
Proof.
  destruct op; simpl;
    unfold CreateGroup, UpdateGroup, DeleteGroup, AddGroupMember, RemoveGroupMember, AssignResourceToGroup,
      UnassignResourceFromGroup, SetRuleEnabled;
    repeat (first [apply preserves_bind; intros | apply preserves_ret | apply preserves_fail
      | apply preserves_pool_stmt; repeat (apply with_uuid_preserves; intros)
      | match goal with |- preserves _ _ => case_match end]).
  - intros s a s' Hwf. case_match; [done|]. case_match; [done|]. case_match eqn:Ht; [done|].
    apply orb_false_iff in Ht as [Ht Hid%bool_decide_eq_false]. intros [= <- <-].
    apply create_group_wf; [done|by apply eq_None_not_Some|done].
  - intros s a s' Hwf. case_match; [done|]. destruct (groups s !! id0) as [g|] eqn:Hg; [|by intros [= <- <-]].
    simpl. case_match eqn:Ht; [done|]. intros [= <- <-]. by apply (update_group_wf id0 g).
  - apply delete_group_wf.
  - intros s a s' Hwf. destruct (member_target _ _ _ _) eqn:Ht; intros [= <- <-]; [|done].
    apply wf_set_members; [|done]. apply set_Forall_union; [|apply Hwf].
    apply set_Forall_singleton. by eapply member_target_ok.
  - intros s a s' Hwf. case_match; intros [= <- <-]; [|done]. apply wf_set_members; [|done].
    intros gu [Hgu _]%elem_of_difference. by apply (wf_members _ Hwf).
  - apply assign_wf.
  - intros s a s' Hwf [= <- <-]. by apply wf_filter_rules.
  - intros s a s' Hwf. unfold exec. destruct (update_where _ _ _ _) as [n m] eqn:Hu. intros [= <- <-].
    apply update_where_inv in Hu as [(_ & r & Hr & _ & ->)|(_ & -> & _)].
    + by apply (wf_replace_rule s id0 r).
    + by apply wf_set_rules; [apply Hwf..|].
Qed.

(** Assigning a resource to a group answers with an enabled rule of exactly
    that workspace, resource and group, and only when both belong to the
    workspace; it writes that rule and no other.  A refusal, a failed statement
    included, writes nothing. *)
Theorem assign_exact id now workspaceID resourceID groupID s :
  wp (AssignResourceToGroup parse pg_uuid id now workspaceID resourceID groupID) s None (λ r s' _,
    match r with
    | Ok (i, row) => ∃ ws rid gid, pg_uuid workspaceID = Some ws ∧ pg_uuid resourceID = Some rid ∧
        pg_uuid groupID = Some gid ∧
        rs_tenant <$> resources s !! rid = Some ws ∧ g_workspace <$> groups s !! gid = Some ws ∧
        ar_workspace row = ws ∧ ar_resource row = rid ∧ ar_group row = gid ∧ ar_enabled row = true ∧
        (∀ old, access_rules s !! i = Some old → ar_resource old = rid ∧ ar_group old = gid) ∧
        s' = set_access_rules (<[i := row]> (access_rules s)) s
    | Err e => reply_lost e = false → s' = s
    end).
Proof.
  unfold AssignResourceToGroup. destruct (negb _); [by apply wp_fail|].
  apply wp_bind, wp_pool_stmt; [naive_solver|]. intros a s'. unfold with_uuid.
  destruct (pg_uuid workspaceID) as [ws|], (pg_uuid resourceID) as [rid|], (pg_uuid groupID) as [gid|];
    try (intros; discriminate).
  unfold assign_stmt. destruct (_ && _) eqn:Hok.
  2:{ intros [= <- <-]. split; [by apply wp_fail|naive_solver]. }
  apply andb_true_iff in Hok as [Hres%bool_decide_eq_true Hgrp%bool_decide_eq_true].
  destruct (rule_of rid gid s) as [[old r]|] eqn:Hro.
  - apply rule_of_Some in Hro as (Hi & Hr & Hg). destruct (bool_decide_reflect (ar_workspace r = ws)) as [Hw|];
      intros [= <- <-]; (split; [|naive_solver]); [|by apply wp_fail].
    apply wp_ret. exists ws, rid, gid. split_and!; try done. intros old' Ho. naive_solver.
  - destruct (access_rules s !! id) eqn:Hid; intros [= <- <-]. split; [|naive_solver].
    apply wp_ret. exists ws, rid, gid. split_and!; try done. intros old' Ho. naive_solver.
Qed.
End mutations.
