(* ===== verification/AclCompiler.v ===== *)
(** * The ACL compiler (controller/internal/policy/compiler.go, preview.go)

    [CompileACLSnapshot] reads the policy tables and builds the snapshot that
    connectors and clients enforce: per resource the SPIFFE ids allowed to
    reach it, and how to route to it.  A Go map is a [gmap]; ranging over one
    visits its entries in the order [ord] picks. *)

From Stdlib Require Import ZArith Lia.
From S2P Require Import Prelude Sql GoText PolicyStore.
Open Scope Z_scope.

(** ** Identities (appmeta/identity.go) *)

Definition SPIFFEGlobalTrustDomain : string := "zecurity.in".
Definition ConnectorSPIFFEID (trustDomain connectorID : string) : string :=
  "spiffe://" +:+ trustDomain +:+ "/" +:+ "connector" +:+ "/" +:+ connectorID.
Definition RelaySPIFFEID (relayID : string) : string :=
  "spiffe://" +:+ SPIFFEGlobalTrustDomain +:+ "/" +:+ "relay" +:+ "/" +:+ relayID.

Definition defaultRelayPort : string := "9093".
Definition MaxReportAge : duration := 10 * Minute.

(** ** The snapshot *)

Record ACLEntry := MkACLEntry {
  ae_ResourceId : uuid; ae_Name : string; ae_Address : string; ae_Port : Z; ae_Protocol : string;
  ae_AllowedSpiffeIds : list string; ae_RouteType : string; ae_ShieldId : string;
  ae_RemoteNetworkId : uuid; ae_PreferredConnectorId : string
}.
Record ACLConnector := MkACLConnector {
  ac_ConnectorId : uuid; ac_ConnectorTunnelAddr : string; ac_ConnectorSpiffe : string;
  ac_RelayAddr : string; ac_RelaySpiffeId : string
}.
Record ACLRemoteNetwork := MkACLRemoteNetwork {
  an_RemoteNetworkId : uuid; an_Name : string; an_Connectors : list ACLConnector
}.
Record RevokedConnector := MkRevokedConnector { rk_ConnectorId : uuid; rk_ConnectorSpiffe : string }.
Record ACLSnapshot := MkACLSnapshot {
  as_WorkspaceId : string; as_Version : Z; as_GeneratedAt : Z;
  as_Entries : list ACLEntry; as_RemoteNetworks : list ACLRemoteNetwork;
  as_RelayAddr : string; as_RelaySpiffeId : string; as_RevokedConnectors : list RevokedConnector
}.
Record CompiledACL := MkCompiledACL { ca_Snapshot : ACLSnapshot; ca_ValidUntil : time }.

(** ** Per-rule decisions *)

Definition shield_status (status : string) : bool :=
  (status ≟ "protecting") || (status ≟ "protected") || (status ≟ "failed").

Definition shieldUnavailable (rule : CompilerResourceRow) : bool :=
  shield_status (RStatus rule) && ((ShieldID rule ≟ "") || ShieldRevoked rule).

(** [None] is an error. *)
Definition routeTypeForResource (status shieldID : string) : option string :=
  if (status ≟ "pending") || (status ≟ "unprotected") then Some "connector"
  else if shield_status status then (if shieldID ≟ "" then None else Some "shield")
  else None.

Definition resolveConnectorRelayAddr (publicAddr observedHost : string) : string :=
  if negb (publicAddr ≟ "") then publicAddr
  else if negb (observedHost ≟ "") then JoinHostPort observedHost defaultRelayPort
  else "".

(** ** Posture *)

Section compile.
Context `{RowOrder}.

(** Profile ids resolved against the workspace's profiles; a resource none of
    whose ids resolves has no key. *)
Definition profile_index (profiles : list Profile) : gmap uuid Profile :=
  foldl (λ m p, <[pr_ID p := p]> m) ∅ profiles.

Definition requiredProfiles (profiles : list Profile) (resourceProfiles : gmap uuid (list uuid))
    : gmap uuid (list Profile) :=
  omap (λ ids, match omap (λ id, profile_index profiles !! id) ids with
               | [] => None
               | l => Some l
               end) resourceProfiles.

(** The inner loop: the first evaluation of the profile decides, and gives the
    time at which the report gets too old. *)
Fixpoint profile_passes (now : time) (profile : Profile) (evaluations : list Evaluation) : option time :=
  match evaluations with
  | [] => None
  | e :: rest =>
      if negb (el_ProfileID e ≟ pr_ID profile) then profile_passes now profile rest
      else if negb (el_Satisfied e) then None
      else if negb (el_ProfileRevision e =? pr_Revision profile) then None
      else match el_ReportReceivedAt e with
           | None => None
           | Some received =>
               let expiresAt := time_Add received MaxReportAge in
               if time_After expiresAt now then Some expiresAt else None
           end
  end.

(** The loop over the required profiles: authorized by any, until the latest. *)
Definition device_step (now : time) (evaluations : list Evaluation) (acc : bool * time) (profile : Profile)
    : bool * time :=
  match profile_passes now profile evaluations with
  | Some expiresAt => (true, if time_After expiresAt acc.2 then expiresAt else acc.2)
  | None => acc
  end.
Definition device_posture (now : time) (required : list Profile) (evaluations : list Evaluation) : bool * time :=
  foldl (device_step now evaluations) (false, zero_time) required.

Definition posture_step (now : time) (required : list Profile) (evaluations : gmap uuid (list Evaluation))
    (acc : list string * time) (device : uuid * string) : list string * time :=
  let '(authorized, until) := device_posture now required (default [] (evaluations !! device.1)) in
  if authorized then (acc.1 ++ [device.2], if time_After until acc.2 then until else acc.2) else acc.

Definition applyPosture (now : time) (entryDevices : gmap uuid string) (required : list Profile)
    (evaluations : gmap uuid (list Evaluation)) : list string * time * bool :=
  match required with
  | [] => (snd <$> ord (map_to_list entryDevices), zero_time, false)
  | _ => (foldl (posture_step now required evaluations) ([], zero_time) (ord (map_to_list entryDevices)), true)
  end.

(** ** Collecting the rules *)

Definition entryKey : Type := uuid * string * Z * string. (* resource, address, port, protocol *)

(** What the maps keyed by [entryKey] hold for one key. *)
Record keyInfo := MkKeyInfo {
  ki_name : string; ki_shieldID : string; ki_preferredConnectorID : string;
  ki_routeType : string; ki_rn : uuid
}.
Record collected := MkCollected {
  col_info : gmap entryKey keyInfo;
  col_groups : gmap entryKey (list uuid);
  col_groupIDs : gset uuid;
  col_rnNames : gmap uuid string
}.

Definition rule_key (rule : CompilerResourceRow) : entryKey :=
  (ResourceID rule, Address rule, Port rule, Protocol rule).

Definition collect_rule (c : collected) (rule : CompilerResourceRow) : result policy_error collected :=
  if shieldUnavailable rule then Ok c
  else
    let key := rule_key rule in
    let? info := match col_info c !! key with
                 | Some _ => Ok (col_info c)
                 | None =>
                     match routeTypeForResource (RStatus rule) (ShieldID rule) with
                     | None => Err (ErrRouteType (ResourceID rule))
                     | Some routeType =>
                         Ok (<[key := MkKeyInfo (Name rule) (ShieldID rule) (ShieldConnectorID rule)
                                        routeType (RemoteNetworkID rule)]> (col_info c))
                     end
                 end in
    Ok (MkCollected info
          (<[key := default [] (col_groups c !! key) ++ [GroupID rule]]> (col_groups c))
          ({[GroupID rule]} ∪ col_groupIDs c)
          (<[RemoteNetworkID rule := RemoteNetworkName rule]> (col_rnNames c))).

Fixpoint collect_rules (c : collected) (rules : list CompilerResourceRow) : result policy_error collected :=
  match rules with
  | [] => Ok c
  | rule :: rest => let? c' := collect_rule c rule in collect_rules c' rest
  end.

(** ** Connectors of the referenced networks *)

Definition acl_connector (row : RemoteNetworkConnectorsRow) : ACLConnector :=
  let host := match SplitHostPort (rc_LanAddr row) with Some (h, _) => h | None => rc_LanAddr row end in
  MkACLConnector (rc_ConnectorID row)
    (if host ≟ "" then "" else JoinHostPort host "9092")
    (if (rc_ConnectorID row ≟ "") || (rc_TrustDomain row ≟ "") then ""
     else ConnectorSPIFFEID (rc_TrustDomain row) (rc_ConnectorID row))
    (resolveConnectorRelayAddr (rc_RelayPublicAddr row) (rc_RelayObservedHost row))
    (if rc_RelayID row ≟ "" then "" else RelaySPIFFEID (rc_RelayID row)).

Definition add_connector (n : ACLRemoteNetwork) (c : ACLConnector) : ACLRemoteNetwork :=
  MkACLRemoteNetwork (an_RemoteNetworkId n) (an_Name n) (an_Connectors n ++ [c]).

(** A row of a network that is not in the map dereferences a nil pointer. *)
Fixpoint populate (m : gmap uuid ACLRemoteNetwork) (rows : list RemoteNetworkConnectorsRow)
    : result policy_error (gmap uuid ACLRemoteNetwork) :=
  match rows with
  | [] => Ok m
  | row :: rest =>
      match m !! rc_RemoteNetworkID row with
      | None => Err NilRemoteNetwork
      | Some n => populate (<[rc_RemoteNetworkID row := add_connector n (acl_connector row)]> m) rest
      end
  end.

(** ** Entries *)

(** [sort.Slice]'s order: resource, address, port, protocol. *)
Definition key_le (a b : entryKey) : Prop :=
  let '(r1, a1, p1, q1) := a in let '(r2, a2, p2, q2) := b in
  if r1 ≟ r2 then (if a1 ≟ a2 then (if p1 =? p2 then String.le q1 q2 else p1 <= p2) else String.le a1 a2)
  else String.le r1 r2.
#[export] Instance key_le_dec : RelDecision key_le.
Proof. intros [[[r1 a1] p1] q1] [[[r2 a2] p2] q2]. simpl. repeat case_match; apply _. Defined.

(** The devices of a key's groups; a later group overwrites. *)
Definition entry_devices (groupSPIFFEs : gmap uuid (list DeviceIdentity)) (gids : list uuid) : gmap uuid string :=
  foldl (λ m gid, foldl (λ m d, <[DeviceID d := SPIFFEID d]> m) m (default [] (groupSPIFFEs !! gid))) ∅ gids.

Definition entry_of (now : time) (groupSPIFFEs : gmap uuid (list DeviceIdentity))
    (required : gmap uuid (list Profile)) (evaluations : gmap uuid (list Evaluation))
    (c : collected) (key : entryKey) : ACLEntry * option time :=
  let '(rid, address, port, protocol) := key in
  let info := default (MkKeyInfo "" "" "" "" "") (col_info c !! key) in
  let devices := entry_devices groupSPIFFEs (default [] (col_groups c !! key)) in
  let '(allowed, until, gated) := applyPosture now devices (default [] (required !! rid)) evaluations in
  (MkACLEntry rid (ki_name info) address port protocol (merge_sort String.le allowed)
     (ki_routeType info) (ki_shieldID info) (ki_rn info) (ki_preferredConnectorID info),
   if gated && negb (bool_decide (allowed = [])) then Some until else None).

(** The earliest of the gated entries' times; zero when there is none. *)
Definition until_step (acc : bool * time) (o : option time) : bool * time :=
  match o with
  | None => acc
  | Some t => if negb acc.1 then (true, t) else if time_Before t acc.2 then (true, t) else acc
  end.

Definition relay_addr (relay : option RelayDiscoveryRow) : string :=
  match relay with
  | None => ""
  | Some r =>
      if negb (rd_PublicAddr r ≟ "") then rd_PublicAddr r
      else if (rd_AddressScope r ≟ "public") && negb (rd_ObservedIP r ≟ "")
      then JoinHostPort (rd_ObservedIP r) defaultRelayPort else ""
  end.

(** ** The compiler *)

Definition CompileACLSnapshot (parse pg_uuid : string → option uuid) (now dbnow : time) (version : string → Z)
    (workspaceID : string) : policyM CompiledACL :=
  match parse workspaceID, pg_uuid workspaceID with
  | None, _ => fail ErrInvalidWorkspace
  | Some _, None => raise (Sql "compile acl: list rules" InvalidText)
  | Some wsu, Some ws =>
    let! rules := pool_stmt "compile acl: list rules" (query (ListEnabledRulesWithResources ws)) in
    match collect_rules (MkCollected ∅ ∅ ∅ ∅) rules with
    | Err e => fail e
    | Ok c =>
      let groupIDs := merge_sort String.le (elements (col_groupIDs c)) in
      let rnIDs := merge_sort String.le ((map_to_list (col_rnNames c)).*1) in
      let! groupSPIFFEs := (match groupIDs with
        | [] => ret ∅
        | _ => pool_stmt "compile acl: batch spiffes" (query (ListActiveDeviceSPIFFEsForGroups ws groupIDs))
        end) in
      let! connectorRows := (match rnIDs with
        | [] => ret []
        | _ => pool_stmt "compile acl: connector lookup" (query (GetConnectorsForRemoteNetworks ws rnIDs))
        end) in
      match populate (map_imap (λ id name, Some (MkACLRemoteNetwork id name [])) (col_rnNames c)) connectorRows with
      | Err e => fail e
      | Ok rnMap =>
        let! profiles := pool_stmt "compile acl: list posture profiles" (query (ListProfiles wsu)) in
        let! resourceProfiles := pool_stmt "compile acl: resource policy profiles"
                                   (query (ResourceProfilesForWorkspace wsu)) in
        let required := requiredProfiles profiles resourceProfiles in
        let deviceIDs := ord (remove_dups (DeviceID <$> concat (map_to_list groupSPIFFEs).*2)) in
        let! evaluations := (match deviceIDs with
          | [] => ret ∅
          | _ => pool_stmt "compile acl: batch evaluations" (query (EvaluationsForDevices wsu deviceIDs))
          end) in
        let keys := merge_sort key_le ((map_to_list (col_groups c)).*1) in
        let rows := entry_of now groupSPIFFEs required evaluations c <$> keys in
        let remoteNetworks := omap (λ id, rnMap !! id) (merge_sort String.le ((map_to_list rnMap).*1)) in
        let! relay := pool_stmt "compile acl: relay lookup" (query GetActiveRelay) in
        let relayAddr := relay_addr relay in
        let relaySPIFFEID := if relayAddr ≟ "" then ""
                             else default "" ((λ r, RelaySPIFFEID (rd_ID r)) <$> relay) in
        let! revoked := pool_stmt "compile acl" (query (GetRevokedConnectors ws dbnow)) in
        ret (MkCompiledACL
               (MkACLSnapshot workspaceID (version workspaceID) (time_Unix now) rows.*1 remoteNetworks
                  relayAddr relaySPIFFEID
                  ((λ r, MkRevokedConnector (rv_ConnectorID r)
                           (ConnectorSPIFFEID (rv_TrustDomain r) (rv_ConnectorID r))) <$> revoked))
               (foldl until_step (false, zero_time) rows.*2).2)
      end
    end
  end.

(** ** Preview (preview.go) *)

Record PolicyPreview := MkPolicyPreview { pv_Devices : Z; pv_Passing : Z }.
Inductive preview_error := ErrPolicyProfileMissing.

(** The proposed profiles, all of the workspace. *)
Definition proposed_profiles (profiles : list Profile) (ids : list uuid) : option (list Profile) :=
  mapM (λ id, profile_index profiles !! id) ids.

Definition preview_devices (groupSPIFFEs : gmap uuid (list DeviceIdentity)) : gmap uuid string :=
  foldl (λ m d, <[DeviceID d := SPIFFEID d]> m) ∅ (concat (ord (map_to_list groupSPIFFEs)).*2).

Definition PreviewResourcePolicy (parse pg_uuid : string → option uuid) (now : time) (workspaceID : string)
    (resourceIDs profileIDs : list uuid) : policyM (result preview_error PolicyPreview) :=
  match parse workspaceID, pg_uuid workspaceID with
  | None, _ => fail ErrInvalidWorkspace
  | Some _, None => raise (Sql "preview policy: list rules" InvalidText)
  | Some wsu, Some ws =>
    let! rules := pool_stmt "preview policy: list rules" (query (ListEnabledRulesWithResources ws)) in
    let groupIDs := merge_sort String.le (remove_dups
                      (GroupID <$> filter (λ rule, ResourceID rule ∈ resourceIDs) rules)) in
    let! groupSPIFFEs := (match groupIDs with
      | [] => ret ∅
      | _ => pool_stmt "preview policy: group devices" (query (ListActiveDeviceSPIFFEsForGroups ws groupIDs))
      end) in
    let devices := preview_devices groupSPIFFEs in
    let! profiles := pool_stmt "preview policy: list profiles" (query (ListProfiles wsu)) in
    match proposed_profiles profiles profileIDs with
    | None => ret (Err ErrPolicyProfileMissing)
    | Some required =>
      let deviceIDs := ord ((map_to_list devices).*1) in
      let! evaluations := (match deviceIDs with
        | [] => ret ∅
        | _ => pool_stmt "preview policy: evaluations" (query (EvaluationsForDevices wsu deviceIDs))
        end) in
      let '(allowed, _, _) := applyPosture now devices required evaluations in
      ret (Ok (MkPolicyPreview (Z.of_nat (size devices)) (Z.of_nat (length allowed))))
    end
  end.
End compile.
