(* ===== verification/AclSound.v ===== *)
(** * What a compiled ACL snapshot grants

    The declarative meaning of the policy tables ([may_access]) and the proof
    that the compiled snapshot grants exactly that, whatever row and map
    iteration orders the database and the runtime choose. *)

From Stdlib Require Import ZArith Lia.
From S2P Require Import Prelude Sql GoText PolicyStore AclCompiler.
Open Scope Z_scope.

(** ** Access, declaratively *)

Definition required_profile (ws : uuid) (db : PolicyDB) (r : ResourceRec) (p : uuid) (prof : ProfileRec) : Prop :=
  ∃ pol, rs_policy r = Some pol ∧ (pol, p) ∈ resource_policy_profiles db ∧
         device_profiles db !! p = Some prof ∧ dp_workspace prof = ws.

(** Device [d] passes profile [p] at time [now]. *)
Definition passes_profile (ws : uuid) (db : PolicyDB) (now : time) (d p : uuid) (prof : ProfileRec) : Prop :=
  ∃ e rep received, evaluations_tbl db !! (d, p) = Some e ∧ ev_workspace e = ws ∧ ev_satisfied e = true ∧
    ev_profile_revision e = dp_revision prof ∧ ev_report e = Some rep ∧
    report_received db !! rep = Some received ∧ now < received + MaxReportAge.

Definition posture_allows (ws : uuid) (db : PolicyDB) (now : time) (r : ResourceRec) (d : uuid) : Prop :=
  (¬ ∃ p prof, required_profile ws db r p prof) ∨
  (∃ p prof, required_profile ws db r p prof ∧ passes_profile ws db now d p prof).

(** The resource is in the workspace, not being deleted, in one of its
    networks, and not behind a missing or revoked shield. *)
Definition resource_available (ws : uuid) (db : PolicyDB) (r : ResourceRec) : Prop :=
  rs_tenant r = ws ∧ rs_status r ≠ "deleting" ∧
  (∃ name, remote_networks db !! rs_remote_network r = Some (ws, name)) ∧
  ¬ (shield_status (rs_status r) = true ∧ (default "" (rs_shield r) = "" ∨ shield_revoked ws db r = true)).

Definition group_granted (ws : uuid) (db : PolicyDB) (rid gid : uuid) : Prop :=
  ∃ i ar g, access_rules db !! i = Some ar ∧ ar_enabled ar = true ∧ ar_workspace ar = ws ∧
    ar_resource ar = rid ∧ ar_group ar = gid ∧ groups db !! gid = Some g ∧ g_workspace g = ws.

Definition device_in_group (ws : uuid) (db : PolicyDB) (gid d : uuid) (spiffe : string) : Prop :=
  ∃ rec, client_devices db !! d = Some rec ∧ (gid, cd_user rec) ∈ group_members db ∧
    device_active ws db rec = true ∧ cd_spiffe rec = Some spiffe.

(** The holder of identity [spiffe] may reach resource [rid]. *)
Definition may_access (ws : uuid) (db : PolicyDB) (now : time) (rid : uuid) (spiffe : string) : Prop :=
  ∃ r gid d, resources db !! rid = Some r ∧ resource_available ws db r ∧
    group_granted ws db rid gid ∧ device_in_group ws db gid d spiffe ∧ posture_allows ws db now r d.

(** ** Collecting rules *)

Section collect.
Implicit Types (rules : list CompilerResourceRow) (c : collected).

Definition available rules : list CompilerResourceRow := filter (λ r, shieldUnavailable r = false) rules.
Definition key_info (rule : CompilerResourceRow) (route : string) : keyInfo :=
  MkKeyInfo (Name rule) (ShieldID rule) (ShieldConnectorID rule) route (RemoteNetworkID rule).

(** What collecting [rules] adds to [c]. *)
Record collects c rules c' : Prop := {
  cl_groups : ∀ key, default [] (col_groups c' !! key) =
      default [] (col_groups c !! key) ++ (GroupID <$> filter (λ r, rule_key r = key) (available rules));
  cl_keys : ∀ key, is_Some (col_groups c' !! key) ↔
      is_Some (col_groups c !! key) ∨ ∃ r, r ∈ available rules ∧ rule_key r = key;
  cl_info : ∀ key, match col_info c !! key with
      | Some i => col_info c' !! key = Some i
      | None => match filter (λ r, rule_key r = key) (available rules) with
                | [] => col_info c' !! key = None
                | r :: _ => ∃ route, routeTypeForResource (RStatus r) (ShieldID r) = Some route ∧
                                     col_info c' !! key = Some (key_info r route)
                end
      end;
  cl_groupIDs : col_groupIDs c' = list_to_set (GroupID <$> available rules) ∪ col_groupIDs c;
  cl_rns : ∀ rn, is_Some (col_rnNames c' !! rn) ↔
      is_Some (col_rnNames c !! rn) ∨ ∃ r, r ∈ available rules ∧ RemoteNetworkID r = rn
}.

Lemma collect_rule_inv c rule c1 :
  collect_rule c rule = Ok c1 →
  (shieldUnavailable rule = true ∧ c1 = c) ∨
  (shieldUnavailable rule = false ∧ ∃ info,
     c1 = MkCollected info (<[rule_key rule := default [] (col_groups c !! rule_key rule) ++ [GroupID rule]]> (col_groups c))
            ({[GroupID rule]} ∪ col_groupIDs c)
            (<[RemoteNetworkID rule := RemoteNetworkName rule]> (col_rnNames c)) ∧
     ((is_Some (col_info c !! rule_key rule) ∧ info = col_info c) ∨
      (col_info c !! rule_key rule = None ∧ ∃ route, routeTypeForResource (RStatus rule) (ShieldID rule) = Some route ∧
         info = <[rule_key rule := key_info rule route]> (col_info c)))).
Proof.
  unfold collect_rule. destruct (shieldUnavailable rule); [intros [= <-]; by left|].
  intros (info & Hinfo & [= <-])%result_bind_Ok. right. split; [done|]. exists info. split; [done|].
  destruct (col_info c !! rule_key rule) as [i|] eqn:Hi; [injection Hinfo as <-; left; eauto|].
  right. split; [done|]. destruct (routeTypeForResource _ _) as [route|]; [|done].
  exists route. by injection Hinfo as <-.
Qed.

Lemma available_cons rule rules :
  available (rule :: rules) = if shieldUnavailable rule then available rules else rule :: available rules.
Proof.
  unfold available. rewrite filter_cons. destruct (shieldUnavailable rule); [by rewrite decide_False|by rewrite decide_True].
Qed.

Lemma collect_rules_spec c rules c' : collect_rules c rules = Ok c' → collects c rules c'.
Proof.
  revert c. induction rules as [|rule rules IH]; intros c; simpl.
  { intros [= <-]. split; unfold available; simpl.
    - intros key. by rewrite app_nil_r.
    - set_solver.
    - intros key. by destruct (col_info c !! key).
    - set_solver.
    - set_solver. }
  intros (c1 & H1 & H2)%result_bind_Ok. specialize (IH _ H2). clear H2.
  apply collect_rule_inv in H1 as [[Hu ->]|(Hu & info & -> & Hinfo)].
  { destruct IH as [Hg Hk Hi Hgs Hr].
    split; intros; rewrite ?available_cons, ?Hu; [apply Hg|apply Hk|apply Hi|apply Hgs|apply Hr]. }
  destruct IH as [Hg Hk Hi Hgs Hr]. simpl in *.
  split; intros; rewrite ?available_cons, ?Hu.
  - rewrite Hg. rewrite filter_cons. destruct (decide (rule_key rule = key)) as [<-|Hne].
    + rewrite lookup_insert_eq. simpl. by rewrite <-app_assoc.
    + by rewrite lookup_insert_ne.
  - rewrite Hk, lookup_insert_is_Some', exists_elem_cons. tauto.
  - specialize (Hi key). rewrite filter_cons. destruct (decide (rule_key rule = key)) as [<-|Hne].
    + destruct Hinfo as [[[i Hsome] ->]|(Hnone & route & Hroute & ->)].
      * by rewrite Hsome in *.
      * rewrite Hnone. rewrite lookup_insert_eq in Hi. eauto.
    + destruct Hinfo as [[_ ->]|(Hnone & route & _ & ->)]; [done|].
      by rewrite lookup_insert_ne in Hi.
  - rewrite Hgs, fmap_cons, list_to_set_cons. clear. set_solver.
  - rewrite Hr, lookup_insert_is_Some', exists_elem_cons. tauto.
Qed.
End collect.

(** ** Devices of a key *)

Definition insert_device (m : gmap uuid string) (d : DeviceIdentity) : gmap uuid string :=
  <[DeviceID d := SPIFFEID d]> m.

(** A device has one identity throughout the list. *)
Definition one_identity (l : list DeviceIdentity) : Prop :=
  ∀ d1 d2, d1 ∈ l → d2 ∈ l → DeviceID d1 = DeviceID d2 → d1 = d2.

Lemma foldl_concat {A B} (f : A → B → A) (ls : list (list B)) (a : A) :
  foldl (foldl f) a ls = foldl f a (concat ls).
Proof. revert a. induction ls as [|l ls IH]; intros a; simpl; [done|]. by rewrite IH, foldl_app. Qed.

Lemma foldl_fmap {A B C} (f : A → B → A) (g : C → B) (l : list C) (a : A) :
  foldl f a (g <$> l) = foldl (λ a c, f a (g c)) a l.
Proof. revert a. induction l as [|x l IH]; intros a; simpl; [done|]. apply IH. Qed.

Lemma entry_devices_foldl G gids :
  entry_devices G gids = foldl insert_device ∅ (concat ((λ gid, default [] (G !! gid)) <$> gids)).
Proof. unfold entry_devices. by rewrite <-foldl_concat, foldl_fmap. Qed.

Lemma insert_devices_lookup l m d sp :
  one_identity l →
  foldl insert_device m l !! d = Some sp ↔
  MkDeviceIdentity d sp ∈ l ∨ (d ∉ DeviceID <$> l ∧ m !! d = Some sp).
Proof.
  intros Hone. revert m. induction l as [|x l IH] using rev_ind; intros m; simpl.
  { set_solver. }
  rewrite foldl_app. simpl. unfold insert_device at 1. rewrite lookup_insert_Some, IH.
  2:{ intros d1 d2 H1 H2. apply Hone; set_solver. }
  rewrite elem_of_app, fmap_app, elem_of_app, list_elem_of_singleton. simpl. rewrite list_elem_of_singleton. split.
  - intros [[<- <-]|[Hne [Hin|[Hni Hm]]]]; [left; right; by destruct x|by left; left|]. right. naive_solver.
  - intros [[Hin|<-]|[Hni Hm]].
    + destruct (decide (DeviceID x = d)) as [<-|Hne]; [left|right; auto].
      split; [done|]. assert (x = MkDeviceIdentity (DeviceID x) sp) as Hx by (apply Hone; set_solver).
      by rewrite Hx.
    + by left.
    + right. split; [naive_solver|]. right. naive_solver.
Qed.

Lemma entry_devices_lookup G gids d sp :
  one_identity (concat ((λ gid, default [] (G !! gid)) <$> gids)) →
  entry_devices G gids !! d = Some sp ↔
  ∃ gid, gid ∈ gids ∧ MkDeviceIdentity d sp ∈ default [] (G !! gid).
Proof.
  intros Hone. rewrite entry_devices_foldl, insert_devices_lookup by done.
  rewrite lookup_empty. rewrite list_elem_of_In, in_concat. split.
  - intros [(l & Hl & Hd)|[_ [=]]]. apply list_elem_of_In, list_elem_of_fmap in Hl as (gid & -> & Hg).
    exists gid. split; [done|]. by apply list_elem_of_In.
  - intros (gid & Hg & Hd). left. exists (default [] (G !! gid)). split; [|by apply list_elem_of_In].
    apply list_elem_of_In, list_elem_of_fmap. eauto.
Qed.

Lemma group_devices_elem ws gid db d sp :
  MkDeviceIdentity d sp ∈ group_devices ws gid db ↔ device_in_group ws db gid d sp.
Proof.
  unfold group_devices, device_in_group. rewrite list_elem_of_omap. split.
  - intros ([i rec] & Hi & Hs). apply elem_of_map_to_list in Hi. simpl in Hs.
    destruct (bool_decide _) eqn:Hg; simpl in Hs; [|done]. bool_simpl.
    destruct (device_active ws db rec) eqn:Ha; [|done].
    destruct (cd_spiffe rec) as [sp'|] eqn:Hsp; [|done]. simpl in Hs. simplify_eq. eauto.
  - intros (rec & Hd & Hm & Ha & Hsp). exists (d, rec). rewrite elem_of_map_to_list. split; [done|]. simpl.
    by rewrite bool_decide_true, Ha, Hsp.
Qed.

Section order.
Context `{RowOrder}.

Lemma group_map_lookup ws gids db gid :
  gid ∈ gids → default [] (ListActiveDeviceSPIFFEsForGroups ws gids db !! gid) ≡ₚ group_devices ws gid db.
Proof.
  intros Hg. unfold ListActiveDeviceSPIFFEsForGroups.
  rewrite <-(ord_perm (group_devices ws gid db)).
  set (f := λ gid, match ord (group_devices ws gid db) with [] => None | ds => Some (gid, ds) end).
  assert (∀ g ds, (g, ds) ∈ omap f gids ↔ g ∈ gids ∧ ds = ord (group_devices ws g db) ∧ ds ≠ []) as Hin.
  { intros g ds. rewrite list_elem_of_omap. unfold f. split.
    - intros (g' & Hg' & Hs). destruct (ord (group_devices ws g' db)) eqn:Ho; [done|].
      injection Hs as <- <-. by rewrite Ho.
    - intros (Hg' & -> & Hne). exists g. split; [done|]. by destruct (ord (group_devices ws g db)). }
  destruct (list_to_map (omap f gids) !! gid) as [ds|] eqn:Hl.
  - apply elem_of_list_to_map_2, Hin in Hl as (_ & -> & _). done.
  - apply not_elem_of_list_to_map_2 in Hl. simpl.
    destruct (ord (group_devices ws gid db)) as [|x l] eqn:Ho; [done|]. destruct Hl.
    apply list_elem_of_fmap. exists (gid, x :: l). split; [done|]. apply Hin. by rewrite Ho.
Qed.

Lemma group_map_elem ws gids db gid d sp :
  gid ∈ gids →
  MkDeviceIdentity d sp ∈ default [] (ListActiveDeviceSPIFFEsForGroups ws gids db !! gid) ↔
  device_in_group ws db gid d sp.
Proof. intros Hg. by rewrite group_map_lookup, group_devices_elem. Qed.

(** Every device the query returns is a row of [client_devices], so a device
    has one identity. *)
Lemma group_map_one_identity ws all gids db :
  gids ⊆ all →
  one_identity (concat ((λ gid, default [] (ListActiveDeviceSPIFFEsForGroups ws all db !! gid)) <$> gids)).
Proof.
  intros Hsub [i1 s1] [i2 s2] H1 H2 Heq. simpl in Heq. subst i2.
  assert (∀ i s, MkDeviceIdentity i s ∈ concat ((λ gid, default [] (ListActiveDeviceSPIFFEsForGroups ws all db !! gid)) <$> gids)
            → ∃ rec, client_devices db !! i = Some rec ∧ cd_spiffe rec = Some s) as Hrow.
  { intros i s. rewrite list_elem_of_In, in_concat. intros (l & Hl & Hi).
    apply list_elem_of_In, list_elem_of_fmap in Hl as (gid & -> & Hg). apply list_elem_of_In in Hi.
    apply group_map_elem in Hi as (rec & ? & _ & _ & ?); [eauto|set_solver]. }
  destruct (Hrow _ _ H1) as (r1 & ? & ?), (Hrow _ _ H2) as (r2 & ? & ?). congruence.
Qed.
End order.

(** ** Posture *)

Lemma device_posture_snoc now required p evs :
  device_posture now (required ++ [p]) evs = device_step now evs (device_posture now required evs) p.
Proof. unfold device_posture. by rewrite foldl_app. Qed.

Lemma device_posture_authorized now required evs :
  (device_posture now required evs).1 = true ↔ ∃ p, p ∈ required ∧ is_Some (profile_passes now p evs).
Proof.
  induction required as [|p required IH] using rev_ind; [set_solver|].
  rewrite device_posture_snoc. unfold device_step. setoid_rewrite elem_of_app. setoid_rewrite list_elem_of_singleton.
  destruct (profile_passes now p evs) as [t|] eqn:Hp; simpl.
  - split; [|done]. intros _. exists p. rewrite Hp. eauto.
  - rewrite IH. split; [naive_solver|]. intros (q & [Hq| ->] & Hs); [eauto|]. rewrite Hp in Hs. by destruct Hs.
Qed.

Lemma posture_step_snoc now required evals devs d acc :
  foldl (posture_step now required evals) acc (devs ++ [d])
  = posture_step now required evals (foldl (posture_step now required evals) acc devs) d.
Proof. by rewrite foldl_app. Qed.

Lemma posture_fold_elem now required evals devs sp :
  sp ∈ (foldl (posture_step now required evals) ([], zero_time) devs).1 ↔
  ∃ d, (d, sp) ∈ devs ∧ (device_posture now required (default [] (evals !! d))).1 = true.
Proof.
  induction devs as [|[d s] devs IH] using rev_ind; [set_solver|].
  rewrite posture_step_snoc. unfold posture_step at 1. simpl.
  setoid_rewrite elem_of_app. setoid_rewrite list_elem_of_singleton.
  destruct (device_posture now required (default [] (evals !! d))) as [[] t] eqn:Hd; simpl.
  - rewrite elem_of_app, list_elem_of_singleton, IH. split.
    + intros [(d' & ? & ?)| ->]; [eauto|]. exists d. by rewrite Hd; auto.
    + intros (d' & [Hin|[= -> ->]] & Ha); [left; eauto|by right].
  - rewrite IH. split; [naive_solver|]. intros (d' & [Hin|[= -> ->]] & Ha); [eauto|]. by rewrite Hd in Ha.
Qed.

Section order.
Context `{RowOrder}.

Lemma applyPosture_elem now devices required evals sp :
  sp ∈ (applyPosture now devices required evals).1.1 ↔
  ∃ d, devices !! d = Some sp ∧
    (required = [] ∨ ∃ p, p ∈ required ∧ is_Some (profile_passes now p (default [] (evals !! d)))).
Proof.
  unfold applyPosture. destruct required as [|p required]; simpl.
  - rewrite list_elem_of_fmap. setoid_rewrite ord_elem. split.
    + intros ([d s] & -> & Hd%elem_of_map_to_list). eauto.
    + intros (d & Hd & _). exists (d, sp). by rewrite elem_of_map_to_list.
  - rewrite posture_fold_elem. setoid_rewrite ord_elem. setoid_rewrite elem_of_map_to_list.
    setoid_rewrite device_posture_authorized. naive_solver.
Qed.

(** ** The posture tables *)

Lemma device_evaluations_elem ws d db e :
  e ∈ device_evaluations ws d db ↔
  ∃ p rec, evaluations_tbl db !! (d, p) = Some rec ∧ ev_workspace rec = ws ∧ e = evaluation_row db d p rec.
Proof.
  unfold device_evaluations. rewrite merge_sort_Permutation, list_elem_of_omap. split.
  - intros ([[d' p] rec] & Hi & Hs). apply elem_of_map_to_list in Hi. simpl in Hs.
    cases. exists p, rec. bool_simpl. by subst.
  - intros (p & rec & Hr & Hws & ->). exists ((d, p), rec). rewrite elem_of_map_to_list. split; [done|].
    simpl. by rewrite Hws, !bool_decide_refl.
Qed.

Lemma evaluation_map_lookup ws ds d db :
  d ∈ ds → default [] (EvaluationsForDevices ws ds db !! d) = device_evaluations ws d db.
Proof.
  intros Hd. unfold EvaluationsForDevices.
  set (f := λ d, match device_evaluations ws d db with [] => None | l => Some (d, l) end).
  assert (∀ g l, (g, l) ∈ omap f ds ↔ g ∈ ds ∧ l = device_evaluations ws g db ∧ l ≠ []) as Hin.
  { intros g l. rewrite list_elem_of_omap. unfold f. split.
    - intros (g' & Hg' & Hs). destruct (device_evaluations ws g' db) eqn:Ho; [done|].
      injection Hs as <- <-. by rewrite Ho.
    - intros (Hg' & -> & Hne). exists g. split; [done|]. by destruct (device_evaluations ws g db). }
  destruct (list_to_map (omap f ds) !! d) as [l|] eqn:Hl.
  - by apply elem_of_list_to_map_2, Hin in Hl as (_ & -> & _).
  - apply not_elem_of_list_to_map_2 in Hl. simpl.
    destruct (device_evaluations ws d db) as [|x l] eqn:Ho; [done|]. destruct Hl.
    apply list_elem_of_fmap. exists (d, x :: l). split; [done|]. apply Hin. by rewrite Ho.
Qed.

(** With one evaluation per profile the loop decides on the table's row. *)
Lemma profile_passes_spec now p evs :
  (∀ e1 e2, e1 ∈ evs → e2 ∈ evs → el_ProfileID e1 = el_ProfileID e2 → e1 = e2) →
  is_Some (profile_passes now p evs) ↔
  ∃ e received, e ∈ evs ∧ el_ProfileID e = pr_ID p ∧ el_Satisfied e = true ∧
    el_ProfileRevision e = pr_Revision p ∧ el_ReportReceivedAt e = Some received ∧ now < received + MaxReportAge.
Proof.
  intros Huniq. induction evs as [|e evs IH]; simpl.
  { split; [by intros []|set_solver]. }
  assert (∀ e', e' ∈ evs → el_ProfileID e' = el_ProfileID e → e' = e) as Hhd by (intros; apply Huniq; set_solver).
  assert (∀ e1 e2, e1 ∈ evs → e2 ∈ evs → el_ProfileID e1 = el_ProfileID e2 → e1 = e2) as Htl
    by (intros; apply Huniq; set_solver).
  specialize (IH Htl). destruct (bool_decide_reflect (el_ProfileID e = pr_ID p)) as [Hp|Hp]; simpl.
  - assert ((∃ e' r, e' ∈ e :: evs ∧ el_ProfileID e' = pr_ID p ∧ el_Satisfied e' = true ∧
        el_ProfileRevision e' = pr_Revision p ∧ el_ReportReceivedAt e' = Some r ∧ now < r + MaxReportAge) ↔
      (∃ r, el_Satisfied e = true ∧ el_ProfileRevision e = pr_Revision p ∧
            el_ReportReceivedAt e = Some r ∧ now < r + MaxReportAge)) as Heq.
    { split; [|intros (r & ?); exists e, r; rewrite elem_of_cons; naive_solver].
      intros (e' & r & [->|Hin]%elem_of_cons & Hid & Hrest); [eauto|].
      rewrite (Hhd e' Hin) in Hrest by congruence. eauto. }
    rewrite Heq. clear Heq IH.
    destruct (el_Satisfied e); simpl; [|split; [by intros []|naive_solver]].
    destruct (Z.eqb_spec (el_ProfileRevision e) (pr_Revision p)); simpl; [|split; [by intros []|naive_solver]].
    destruct (el_ReportReceivedAt e) as [r|]; [|split; [by intros []|naive_solver]].
    unfold time_After, time_Add. destruct (Z.ltb_spec now (r + MaxReportAge)); [|split; [by intros []|naive_solver lia]].
    split; [|by eauto]. intros _. exists r. auto.
  - rewrite IH. setoid_rewrite elem_of_cons. naive_solver.
Qed.
End order.

Lemma profile_index_lookup profiles id p :
  (∀ p1 p2, p1 ∈ profiles → p2 ∈ profiles → pr_ID p1 = pr_ID p2 → p1 = p2) →
  profile_index profiles !! id = Some p ↔ p ∈ profiles ∧ pr_ID p = id.
Proof.
  unfold profile_index. intros Huniq. induction profiles as [|q profiles IH] using rev_ind; [set_solver|].
  rewrite foldl_app. simpl. rewrite lookup_insert_Some, IH.
  2:{ intros. apply Huniq; set_solver. }
  rewrite elem_of_app, list_elem_of_singleton. split; [naive_solver|].
  intros [[Hp| ->] Hid]; [|by left]. destruct (decide (pr_ID q = id)) as [Hq|Hq]; [|by right].
  left. split; [done|]. apply Huniq; [set_solver..|congruence].
Qed.

Section order.
Context `{RowOrder}.

Lemma ListProfiles_elem ws db p :
  p ∈ ListProfiles ws db ↔
  ∃ prof, device_profiles db !! pr_ID p = Some prof ∧ dp_workspace prof = ws ∧
          p = MkProfile (pr_ID p) (dp_name prof) (dp_revision prof).
Proof.
  unfold ListProfiles. rewrite merge_sort_Permutation, ord_elem, list_elem_of_omap. split.
  - intros ([i prof] & Hi & Hs). apply elem_of_map_to_list in Hi. simpl in Hs. cases. eauto.
  - intros (prof & Hp & Hws & ->). exists (pr_ID p, prof). rewrite elem_of_map_to_list. split; [done|].
    simpl. by rewrite Hws, bool_decide_refl.
Qed.

Lemma ListProfiles_unique ws db p1 p2 :
  p1 ∈ ListProfiles ws db → p2 ∈ ListProfiles ws db → pr_ID p1 = pr_ID p2 → p1 = p2.
Proof.
  intros (f1 & H1 & _ & ->)%ListProfiles_elem (f2 & H2 & _ & ->)%ListProfiles_elem. simpl in *.
  intros Heq. rewrite Heq in *. by simplify_eq.
Qed.

(** The ids of a policy's profiles. *)
Lemma resource_profiles_lookup ws rid r db id :
  resources db !! rid = Some r → rs_tenant r = ws →
  id ∈ default [] (ResourceProfilesForWorkspace ws db !! rid) ↔
  ∃ pol, rs_policy r = Some pol ∧ (pol, id) ∈ resource_policy_profiles db.
Proof.
  intros Hr Ht. unfold ResourceProfilesForWorkspace. rewrite lookup_omap, Hr. simpl.
  rewrite Ht, bool_decide_refl. destruct (rs_policy r) as [pol|]; simpl; [|set_solver].
  set (l := merge_sort _ _).
  assert (id ∈ l ↔ (pol, id) ∈ resource_policy_profiles db) as Hl.
  { unfold l. rewrite merge_sort_Permutation, list_elem_of_fmap. split.
    - intros ([a b] & -> & [Ha Hb]%list_elem_of_filter). simpl in *. subst a. by apply elem_of_elements.
    - intros Hin. exists (pol, id). split; [done|]. apply list_elem_of_filter.
      split; [done|]. by apply elem_of_elements. }
  transitivity (id ∈ l); [by destruct l|]. rewrite Hl. naive_solver.
Qed.

Lemma required_lookup ws rid r db p :
  resources db !! rid = Some r → rs_tenant r = ws →
  p ∈ default [] (requiredProfiles (ListProfiles ws db) (ResourceProfilesForWorkspace ws db) !! rid) ↔
  ∃ prof, required_profile ws db r (pr_ID p) prof ∧ p = MkProfile (pr_ID p) (dp_name prof) (dp_revision prof).
Proof.
  intros Hr Ht. unfold requiredProfiles. rewrite lookup_omap.
  set (l := omap (λ id, profile_index (ListProfiles ws db) !! id)
                 (default [] (ResourceProfilesForWorkspace ws db !! rid))).
  assert (p ∈ l ↔ ∃ prof, required_profile ws db r (pr_ID p) prof ∧
                          p = MkProfile (pr_ID p) (dp_name prof) (dp_revision prof)) as <-.
  { unfold l. rewrite list_elem_of_omap. setoid_rewrite (resource_profiles_lookup ws rid r db _ Hr Ht).
    setoid_rewrite (profile_index_lookup _ _ _ (ListProfiles_unique ws db)).
    setoid_rewrite ListProfiles_elem. unfold required_profile. naive_solver. }
  unfold l. destruct (ResourceProfilesForWorkspace ws db !! rid) as [ids|]; simpl; [|done].
  by destruct (omap _ ids).
Qed.

Lemma device_passes ws db now d ds r rid p prof :
  d ∈ ds → resources db !! rid = Some r → required_profile ws db r (pr_ID p) prof →
  p = MkProfile (pr_ID p) (dp_name prof) (dp_revision prof) →
  is_Some (profile_passes now p (default [] (EvaluationsForDevices ws ds db !! d))) ↔
  passes_profile ws db now d (pr_ID p) prof.
Proof.
  intros Hd Hr Hreq Hp. rewrite evaluation_map_lookup by done. rewrite profile_passes_spec.
  2:{ intros e1 e2 (p1 & r1 & H1 & _ & ->)%device_evaluations_elem (p2 & r2 & H2 & _ & ->)%device_evaluations_elem.
      simpl. intros ->. by simplify_eq. }
  setoid_rewrite device_evaluations_elem. unfold passes_profile. rewrite Hp. simpl. split.
  - intros (e & received & (q & rec & Hrec & Hws & ->) & Hid & Hs & Hrev & Hrep & Hlt). simpl in *. subst q.
    apply bind_Some in Hrep as (rep & ? & ?). eauto 10.
  - intros (rec & rep & received & Hrec & Hws & Hs & Hrev & Hrep & Hrcv & Hlt).
    exists (evaluation_row db d (pr_ID p) rec), received. simpl. split; [eauto 6|]. rewrite Hrep. simpl. auto.
Qed.
End order.

(** ** Rules *)

Section order.
Context `{RowOrder}.

Lemma rules_elem ws db rule :
  rule ∈ ListEnabledRulesWithResources ws db ↔
  ∃ i ar, access_rules db !! i = Some ar ∧ compiler_row ws db ar = Some rule.
Proof.
  unfold ListEnabledRulesWithResources. rewrite ord_elem, list_elem_of_omap. split.
  - intros ([i ar] & Hi%elem_of_map_to_list & Hr). eauto.
  - intros (i & ar & Hi & Hr). exists (i, ar). by rewrite elem_of_map_to_list.
Qed.

Lemma compiler_row_spec ws db ar rule :
  compiler_row ws db ar = Some rule ↔
  ∃ r g name, resources db !! ar_resource ar = Some r ∧ groups db !! ar_group ar = Some g ∧
    ar_workspace ar = ws ∧ ar_enabled ar = true ∧ rs_tenant r = ws ∧ g_workspace g = ws ∧
    remote_networks db !! rs_remote_network r = Some (ws, name) ∧ rs_status r ≠ "deleting" ∧
    rule = MkCompilerResourceRow (ar_resource ar) (rs_name r) (rs_host r) (rs_port_from r) (rs_protocol r)
             (ar_group ar) (default "" (rs_shield r)) (default "" (sh_connector <$> joined_shield ws db r))
             (rs_status r) (rs_remote_network r) name (shield_revoked ws db r).
Proof.
  unfold compiler_row, rule_joined. split.
  - intros ([r g] & Hj & ([t name] & Hrn & Hs)%bind_Some)%bind_Some.
    apply bind_Some in Hj as (r' & Hr & (g' & Hg & Hj)%bind_Some). cases. bool_simpl. subst. eauto 15.
  - intros (r & g & name & -> & -> & -> & -> & Ht & Hg & Hrn & Hst & ->). simpl.
    rewrite Ht, Hg, !bool_decide_refl. simpl. rewrite Hrn. simpl.
    by rewrite bool_decide_refl, bool_decide_false.
Qed.

(** The available rules for a resource and a group. *)
Lemma available_granted ws db rid gid :
  (∃ rule, rule ∈ available (ListEnabledRulesWithResources ws db) ∧ ResourceID rule = rid ∧ GroupID rule = gid) ↔
  ∃ r, resources db !! rid = Some r ∧ resource_available ws db r ∧ group_granted ws db rid gid.
Proof.
  unfold available, resource_available, group_granted. setoid_rewrite list_elem_of_filter.
  setoid_rewrite rules_elem. setoid_rewrite compiler_row_spec. split.
  - intros (rule & [Hav (i & ar & Hi & r & g & name & Hr & Hg & Hw & He & Ht & Hgw & Hrn & Hst & ->)] & <- & <-).
    simpl in *. exists r. split; [done|]. split; [|by exists i, ar, g].
    split_and!; try done; [by exists name|]. intros [H1 H2]. unfold shieldUnavailable in Hav. simpl in Hav.
    rewrite H1 in Hav. simpl in Hav. bool_simpl. destruct H2; congruence.
  - intros (r & Hr & (Ht & Hst & [name Hrn] & Hsh) & i & ar & g & Hi & He & Hw & <- & <- & Hg & Hgw).
    eexists. split; [split; [|by exists i, ar; split; [done|]; exists r, g, name]|done].
    unfold shieldUnavailable. simpl. apply andb_false_iff.
    destruct (shield_status (rs_status r)) eqn:Hss; [right|by left].
    apply orb_false_iff. split; [apply bool_decide_eq_false; naive_solver|].
    apply not_true_iff_false. naive_solver.
Qed.

(** A row whose shield is available has a route. *)
Definition statuses_checked (db : PolicyDB) : Prop :=
  map_Forall (λ _ r, rs_status r ∈ ["pending"; "protecting"; "protected"; "unprotected"; "failed"; "deleting"])
    (resources db).

Lemma row_has_route ws db rule :
  statuses_checked db → rule ∈ available (ListEnabledRulesWithResources ws db) →
  is_Some (routeTypeForResource (RStatus rule) (ShieldID rule)).
Proof.
  intros Hst [Hav (i & ar & Hi & Hrow)%rules_elem]%list_elem_of_filter.
  apply compiler_row_spec in Hrow as (r & g & name & Hr & _ & _ & _ & _ & _ & _ & Hnd & ->). simpl in *.
  specialize (Hst _ _ Hr). unfold shieldUnavailable, routeTypeForResource in *. simpl in *.
  destruct (shield_status (rs_status r)) eqn:Hss; simpl in *.
  - apply orb_false_iff in Hav as [-> _]. by case_match; eauto.
  - case_match; [eauto|]. unfold shield_status in Hss. bool_simpl. set_solver.
Qed.

Lemma collect_rules_total c rules :
  Forall (λ rule, is_Some (routeTypeForResource (RStatus rule) (ShieldID rule))) (available rules) →
  ∃ c', collect_rules c rules = Ok c'.
Proof.
  revert c. induction rules as [|rule rules IH]; intros c; [by eexists|].
  rewrite available_cons. simpl. unfold collect_rule.
  destruct (shieldUnavailable rule); [apply IH|]. intros [[route Hroute] Hrest]%Forall_cons.
  destruct (col_info c !! rule_key rule); simpl; [by apply IH|]. rewrite Hroute. simpl. by apply IH.
Qed.

(** The rows of the referenced networks never miss the map. *)
Lemma populate_total m rows :
  Forall (λ row, is_Some (m !! rc_RemoteNetworkID row)) rows → ∃ m', populate m rows = Ok m'.
Proof.
  revert m. induction rows as [|row rows IH]; intros m; [by eexists|]. intros [[n Hn] Hrest]%Forall_cons.
  simpl. rewrite Hn. apply IH. eapply Forall_impl; [exact Hrest|]. intros row' Hrow'.
  rewrite lookup_insert_is_Some'. by right.
Qed.

Lemma populate_dom m rows m' :
  populate m rows = Ok m' → ∀ rn, is_Some (m' !! rn) ↔ is_Some (m !! rn).
Proof.
  revert m. induction rows as [|row rows IH]; intros m; simpl; [by intros [= <-]|].
  destruct (m !! rc_RemoteNetworkID row) as [n|] eqn:Hn; [|done]. intros Hp rn. rewrite (IH _ Hp).
  rewrite lookup_insert_is_Some'. split; [|auto]. intros [<-|]; [|done]. by rewrite Hn.
Qed.

Lemma connectors_in_map ws rnIDs db :
  Forall (λ row, rc_RemoteNetworkID row ∈ rnIDs) (GetConnectorsForRemoteNetworks ws rnIDs db).
Proof.
  apply Forall_forall. unfold GetConnectorsForRemoteNetworks.
  intros row ([i cn] & -> & Hin)%list_elem_of_fmap. simpl.
  rewrite merge_sort_Permutation, ord_elem in Hin. apply list_elem_of_filter in Hin as [(? & _) _]. done.
Qed.
End order.

(** ** Entries *)

Section order.
Context `{RowOrder} (ws : uuid) (db : PolicyDB) (now : time).

Definition no_rules : collected := MkCollected ∅ ∅ ∅ ∅.
Definition rules : list CompilerResourceRow := ListEnabledRulesWithResources ws db.
Definition groupMap (c : collected) : gmap uuid (list DeviceIdentity) :=
  ListActiveDeviceSPIFFEsForGroups ws (merge_sort String.le (elements (col_groupIDs c))) db.
Definition requiredMap : gmap uuid (list Profile) :=
  requiredProfiles (ListProfiles ws db) (ResourceProfilesForWorkspace ws db).
Definition evaluationMap (c : collected) : gmap uuid (list Evaluation) :=
  EvaluationsForDevices ws (ord (remove_dups (DeviceID <$> concat (map_to_list (groupMap c)).*2))) db.
Definition entry (c : collected) (key : entryKey) : ACLEntry :=
  (entry_of now (groupMap c) requiredMap (evaluationMap c) c key).1.

Context (c : collected) (Hc : collect_rules no_rules rules = Ok c).

Lemma key_groups key gid :
  gid ∈ default [] (col_groups c !! key) ↔
  ∃ rule, rule ∈ available rules ∧ rule_key rule = key ∧ GroupID rule = gid.
Proof using Hc.
  rewrite (cl_groups _ _ _ (collect_rules_spec _ _ _ Hc)). cbn [col_groups no_rules].
  rewrite lookup_empty, app_nil_l, list_elem_of_fmap. split.
  - intros (rule & -> & [? ?]%list_elem_of_filter). by exists rule.
  - intros (rule & ? & ? & <-). exists rule. split; [done|]. by apply list_elem_of_filter.
Qed.

Lemma key_groups_sub key :
  default [] (col_groups c !! key) ⊆ merge_sort String.le (elements (col_groupIDs c)).
Proof using Hc.
  intros gid (rule & Hr & _ & <-)%key_groups. rewrite merge_sort_Permutation, elem_of_elements.
  rewrite (cl_groupIDs _ _ _ (collect_rules_spec _ _ _ Hc)).
  apply elem_of_union_l, elem_of_list_to_set. by apply list_elem_of_fmap_2.
Qed.

Lemma entry_devices_spec key d sp :
  entry_devices (groupMap c) (default [] (col_groups c !! key)) !! d = Some sp ↔
  ∃ gid, gid ∈ default [] (col_groups c !! key) ∧ device_in_group ws db gid d sp.
Proof using Hc.
  rewrite entry_devices_lookup by apply group_map_one_identity, key_groups_sub.
  split; intros (gid & Hg & Hd); exists gid; (split; [done|]);
    apply (group_map_elem ws (merge_sort String.le (elements (col_groupIDs c))) db gid d sp); try done;
    by apply (key_groups_sub key).
Qed.

Lemma entry_device_evaluated key d sp :
  entry_devices (groupMap c) (default [] (col_groups c !! key)) !! d = Some sp →
  d ∈ ord (remove_dups (DeviceID <$> concat (map_to_list (groupMap c)).*2)).
Proof using Hc.
  intros (gid & Hg & Hd)%entry_devices_spec. rewrite ord_elem, elem_of_remove_dups. apply list_elem_of_fmap.
  exists (MkDeviceIdentity d sp). split; [done|].
  apply (group_map_elem ws (merge_sort String.le (elements (col_groupIDs c))) db gid) in Hd;
    [|by apply (key_groups_sub key)].
  fold (groupMap c) in Hd.
  destruct (groupMap c !! gid) as [ds|] eqn:Hds; simpl in Hd; [|by apply not_elem_of_nil in Hd].
  rewrite list_elem_of_In, in_concat. exists ds. split; [|by apply list_elem_of_In].
  apply list_elem_of_In, list_elem_of_fmap. exists (gid, ds). split; [done|]. by apply elem_of_map_to_list.
Qed.

(** Posture of an evaluated device, from the tables. *)
Lemma posture_tables rid r d :
  resources db !! rid = Some r → rs_tenant r = ws →
  d ∈ ord (remove_dups (DeviceID <$> concat (map_to_list (groupMap c)).*2)) →
  (default [] (requiredMap !! rid) = [] ∨
   ∃ p, p ∈ default [] (requiredMap !! rid) ∧ is_Some (profile_passes now p (default [] (evaluationMap c !! d)))) ↔
  posture_allows ws db now r d.
Proof.
  intros Hr Ht Hd. unfold posture_allows.
  pose proof (λ p, required_lookup ws rid r db p Hr Ht) as Hreq. fold requiredMap in Hreq. split.
  - intros [Hnil|(p & Hp & Hpass)].
    + left. intros (id & prof & Hp).
      assert (MkProfile id (dp_name prof) (dp_revision prof) ∈ default [] (requiredMap !! rid)) as Hin
        by (apply Hreq; eauto). rewrite Hnil in Hin. by apply not_elem_of_nil in Hin.
    + right. apply Hreq in Hp as (prof & Hp & Heq). exists (pr_ID p), prof. split; [done|].
      by eapply (device_passes ws db now d).
  - intros [Hno|(id & prof & Hp & Hpass)].
    + left. destruct (default [] (requiredMap !! rid)) as [|p l] eqn:Hl; [done|]. destruct Hno.
      destruct (proj1 (Hreq p)) as (prof & Hp & _); [left|eauto].
    + right. exists (MkProfile id (dp_name prof) (dp_revision prof)). split; [apply Hreq; eauto|].
      by apply (device_passes ws db now d _ r rid (MkProfile id (dp_name prof) (dp_revision prof)) prof).
Qed.

Lemma entry_allowed rid address port protocol r sp :
  resources db !! rid = Some r → rs_tenant r = ws →
  sp ∈ ae_AllowedSpiffeIds (entry c (rid, address, port, protocol)) ↔
  ∃ gid d, gid ∈ default [] (col_groups c !! (rid, address, port, protocol)) ∧
    device_in_group ws db gid d sp ∧ posture_allows ws db now r d.
Proof using Hc.
  intros Hr Ht. unfold entry, entry_of.
  pose proof (applyPosture_elem now (entry_devices (groupMap c) (default [] (col_groups c !! (rid, address, port, protocol))))
                (default [] (requiredMap !! rid)) (evaluationMap c) sp) as Happ.
  destruct (applyPosture _ _ _ _) as [[allowed until] gated]. simpl in *.
  rewrite merge_sort_Permutation, Happ. clear Happ. split.
  - intros (d & Hd & Hp). pose proof (entry_device_evaluated _ _ _ Hd) as Hev.
    apply entry_devices_spec in Hd as (gid & Hg & Hd). exists gid, d. split_and!; try done.
    by apply (posture_tables rid).
  - intros (gid & d & Hg & Hd & Hp). exists d.
    assert (entry_devices (groupMap c) (default [] (col_groups c !! (rid, address, port, protocol))) !! d = Some sp) as Hd'.
    { apply entry_devices_spec. eauto. }
    split; [done|]. apply (posture_tables rid r d); try done. by eapply entry_device_evaluated.
Qed.

(** The entries grant exactly the declared access. *)
Lemma entries_exact rid sp :
  (∃ key, is_Some (col_groups c !! key) ∧ key.1.1.1 = rid ∧ sp ∈ ae_AllowedSpiffeIds (entry c key)) ↔
  may_access ws db now rid sp.
Proof using Hc.
  split.
  - intros ([[[rid' a] p] q] & Hk & <- & Hsp). simpl in *.
    apply (cl_keys _ _ _ (collect_rules_spec _ _ _ Hc)) in Hk as [[? [=]]|(rule & Hrule & Hkey)].
    assert (ResourceID rule = rid') as Hrid by (unfold rule_key in Hkey; congruence).
    destruct (proj1 (available_granted ws db rid' (GroupID rule))) as (r & Hr & Hav & _); [eauto|].
    apply (entry_allowed rid' a p q r) in Hsp as (gid & d & Hg & Hd & Hp); [|done|apply Hav].
    apply key_groups in Hg as (rule' & Hrule' & Hkey' & <-).
    assert (ResourceID rule' = rid') as Hrid' by (unfold rule_key in Hkey'; congruence).
    destruct (proj1 (available_granted ws db rid' (GroupID rule'))) as (r' & Hr' & Hav' & Hgr); [eauto|].
    simplify_eq. exists r, (GroupID rule'), d. auto.
  - intros (r & gid & d & Hr & Hav & Hgr & Hd & Hp).
    destruct (proj2 (available_granted ws db rid gid)) as (rule & Hrule & Hrid & Hgid); [eauto|].
    exists (rule_key rule). split_and!.
    + apply (cl_keys _ _ _ (collect_rules_spec _ _ _ Hc)). eauto.
    + done.
    + unfold rule_key. apply (entry_allowed _ _ _ _ r); [by rewrite Hrid|apply Hav|].
      exists gid, d. split_and!; try done. apply key_groups. by exists rule.
Qed.
End order.

(** ** The compiled snapshot *)

Section order.
Context `{RowOrder}.

Lemma ord_nil {A} : ord (@nil A) = [].
Proof. apply Permutation_nil_r, ord_perm. Qed.

(** An empty list of ids is answered without a query, by what the query would
    return. *)
Lemma no_groups ws db : ListActiveDeviceSPIFFEsForGroups ws [] db = ∅.
Proof. done. Qed.
Lemma no_devices ws db : EvaluationsForDevices ws [] db = ∅.
Proof. done. Qed.
Lemma no_networks ws db : GetConnectorsForRemoteNetworks ws [] db = [].
Proof.
  unfold GetConnectorsForRemoteNetworks.
  assert (filter (λ kv : uuid * ConnectorRec, cn_remote_network kv.2 ∈ [] ∧ cn_tenant kv.2 = ws ∧ cn_status kv.2 = "active")
            (map_to_list (connectors db)) = []) as ->.
  { induction (map_to_list (connectors db)) as [|x l IH]; [done|].
    rewrite filter_cons_False; [done|]. intros [?%not_elem_of_nil _]. done. }
  by rewrite ord_nil.
Qed.

(** The parts of the snapshot that the tables determine. *)
Definition compiled_from (ws : uuid) (db : PolicyDB) (now : time) (acl : CompiledACL) : Prop :=
  ∃ c, collect_rules no_rules (rules ws db) = Ok c ∧
    let keys := merge_sort key_le ((map_to_list (col_groups c)).*1) in
    as_Entries (ca_Snapshot acl) = entry ws db now c <$> keys ∧
    ca_ValidUntil acl = (foldl until_step (false, zero_time)
      ((λ key, (entry_of now (groupMap ws db c) (requiredMap ws db) (evaluationMap ws db c) c key).2) <$> keys)).2 ∧
    (∀ rn, rn ∈ an_RemoteNetworkId <$> as_RemoteNetworks (ca_Snapshot acl) ↔ is_Some (col_rnNames c !! rn)).

Lemma wp_query_or_empty {A B} (l : list A) label (q : PolicyDB → B) (e : B) db
    (Q : result (err policy_error) B → PolicyDB → option PolicyDB → Prop) :
  (l = [] → q db = e) → wp (pool_stmt label (query q)) db None Q →
  wp (match l with [] => ret e | _ :: _ => pool_stmt label (query q) end) db None Q.
Proof.
  intros He Hq. destruct l; [|done]. apply wp_ret. specialize (Hq []). simpl in Hq. by rewrite <-He.
Qed.

Lemma networks_listed (m : gmap uuid ACLRemoteNetwork) :
  map_Forall (λ id n, an_RemoteNetworkId n = id) m →
  ∀ rn, rn ∈ an_RemoteNetworkId <$> omap (λ id, m !! id) (merge_sort String.le ((map_to_list m).*1)) ↔ is_Some (m !! rn).
Proof.
  intros Hm rn. rewrite list_elem_of_fmap. split.
  - intros (n & -> & Hn). apply list_elem_of_omap in Hn as (id & _ & Hid). rewrite (Hm id n Hid). eauto.
  - intros [n Hn]. exists n. split; [by rewrite (Hm rn n Hn)|]. apply list_elem_of_omap. exists rn.
    split; [|done]. rewrite merge_sort_Permutation, list_elem_of_fmap. exists (rn, n).
    by rewrite elem_of_map_to_list.
Qed.

Lemma populate_ids m rows m' :
  populate m rows = Ok m' → map_Forall (λ id n, an_RemoteNetworkId n = id) m →
  map_Forall (λ id n, an_RemoteNetworkId n = id) m'.
Proof.
  revert m. induction rows as [|row rows IH]; intros m; simpl; [by intros [= <-]|].
  destruct (m !! rc_RemoteNetworkID row) as [n|] eqn:Hn; [|done]. intros Hp Hm.
  apply (IH _ Hp). apply map_Forall_insert_2; [|done]. simpl. by apply Hm.
Qed.

Definition empty_networks (c : collected) : gmap uuid ACLRemoteNetwork :=
  map_imap (λ id name, Some (MkACLRemoteNetwork id name [])) (col_rnNames c).

Lemma empty_networks_lookup c rn :
  empty_networks c !! rn = (λ name, MkACLRemoteNetwork rn name []) <$> col_rnNames c !! rn.
Proof. unfold empty_networks. rewrite map_lookup_imap. by destruct (col_rnNames c !! rn). Qed.

Lemma compile_wp parse pg_uuid now dbnow version workspaceID ws db :
  parse workspaceID = Some ws → pg_uuid workspaceID = Some ws →
  wp (CompileACLSnapshot parse pg_uuid now dbnow version workspaceID) db None (λ r db' _,
    db' = db ∧ ∀ acl, r = Ok acl → compiled_from ws db now acl).
Proof.
  intros Hp Hpg. unfold CompileACLSnapshot. rewrite Hp, Hpg.
  repeat (first
    [ apply wp_query_or_empty;
        [intros Hnil; rewrite Hnil; first [apply no_groups|apply no_devices|apply no_networks]|]
    | wp_step]; cbn beta iota); (split; [done|]); try done; intros acl [= <-].
  match goal with H : collect_rules _ _ = Ok ?c, H' : populate _ _ = Ok ?m |- _ =>
    exists c; split; [exact H|]; rename H' into Hpop end.
  cbn [ca_Snapshot as_Entries ca_ValidUntil as_RemoteNetworks]. split_and!.
  - by rewrite <-list_fmap_compose.
  - by rewrite <-list_fmap_compose.
  - intros rn. rewrite networks_listed.
    + rewrite (populate_dom _ _ _ Hpop). fold (empty_networks a). rewrite empty_networks_lookup. by rewrite fmap_is_Some.
    + apply (populate_ids _ _ _ Hpop). fold (empty_networks a). intros id n. rewrite empty_networks_lookup.
      by intros (name & _ & ->)%fmap_Some.
Qed.
End order.

(** ** Theorems *)

Definition entry_key (e : ACLEntry) : entryKey :=
  (ae_ResourceId e, ae_Address e, ae_Port e, ae_Protocol e).

(** The identity [sp] is allowed on resource [rid] by the snapshot. *)
Definition grants (acl : CompiledACL) (rid : uuid) (sp : string) : Prop :=
  ∃ e, e ∈ as_Entries (ca_Snapshot acl) ∧ ae_ResourceId e = rid ∧ sp ∈ ae_AllowedSpiffeIds e.

Section order.
Context `{RowOrder}.

Lemma entry_entry_key ws db now c key : entry_key (entry ws db now c key) = key.
Proof.
  destruct key as [[[rid a] p] q]. unfold entry, entry_of. by destruct (applyPosture _ _ _ _) as [[? ?] ?].
Qed.

Lemma compiled_grants ws db now acl rid sp :
  compiled_from ws db now acl → grants acl rid sp ↔ may_access ws db now rid sp.
Proof.
  intros (c & Hc & Hent & _). rewrite <-(entries_exact ws db now c Hc). unfold grants. rewrite Hent.
  assert (∀ key, key ∈ merge_sort key_le (map_to_list (col_groups c)).*1 ↔ is_Some (col_groups c !! key)) as Hkeys.
  { intros key. rewrite merge_sort_Permutation, list_elem_of_fmap. split.
    - intros ([k l] & -> & Hk%elem_of_map_to_list). eauto.
    - intros [l Hl]. exists (key, l). by rewrite elem_of_map_to_list. }
  assert (∀ key, ae_ResourceId (entry ws db now c key) = key.1.1.1) as Hrid.
  { intros key. rewrite <-(entry_entry_key ws db now c key) at 2. done. }
  split.
  - intros (e & (key & -> & Hk%Hkeys)%list_elem_of_fmap & <- & Hsp). exists key. by rewrite Hrid.
  - intros (key & Hk & <- & Hsp). exists (entry ws db now c key). split; [|by rewrite Hrid].
    apply list_elem_of_fmap. exists key. by rewrite Hkeys.
Qed.

(** C4: Whatever statements fail, and whatever row and map orders the database
    and the runtime choose, a compiled snapshot allows an identity on a
    resource if and only if the tables grant it: an enabled rule of the
    workspace from the resource to a group of an active user whose unrevoked
    device has that identity, the resource not behind a revoked shield, and the
    device's posture satisfying one of the required profiles at its current
    revision with a fresh report.  Compiling never writes. *)
Theorem compile_exact parse pg_uuid now dbnow version workspaceID ws db :
  parse workspaceID = Some ws → pg_uuid workspaceID = Some ws →
  wp (CompileACLSnapshot parse pg_uuid now dbnow version workspaceID) db None (λ r db' _,
    db' = db ∧ ∀ acl, r = Ok acl → ∀ rid sp, grants acl rid sp ↔ may_access ws db now rid sp).
Proof.
  intros Hp Hpg. eapply wp_mono; [|by apply compile_wp]. intros r db' _ [-> Hr].
  split; [done|]. intros acl Ha rid sp. by apply compiled_grants, Hr.
Qed.

Lemma runs_query_or_empty {A B} (l : list A) label (q : PolicyDB → B) (e : B) db :
  (l = [] → q db = e) →
  runs (E:=policy_error) (match l with [] => ret e | _ :: _ => pool_stmt label (query q) end) db (q db) db.
Proof. intros He. destruct l; [|done]. by rewrite He. Qed.

Lemma networks_populate ws db c :
  ∃ m, populate (empty_networks c)
         (GetConnectorsForRemoteNetworks ws (merge_sort String.le (map_to_list (col_rnNames c)).*1) db) = Ok m.
Proof.
  apply populate_total. eapply Forall_impl; [apply connectors_in_map|].
  intros row Hrow. cbn beta in *. rewrite merge_sort_Permutation in Hrow.
  apply list_elem_of_fmap in Hrow as ([rn name] & -> & Hin%elem_of_map_to_list).
  rewrite empty_networks_lookup. simpl. rewrite Hin. by eexists.
Qed.

Lemma compile_runs parse pg_uuid now dbnow version workspaceID ws db :
  parse workspaceID = Some ws → pg_uuid workspaceID = Some ws → statuses_checked db →
  ∃ acl, runs (CompileACLSnapshot parse pg_uuid now dbnow version workspaceID) db acl db.
Proof.
  intros Hp Hpg Hst. unfold CompileACLSnapshot. rewrite Hp, Hpg.
  destruct (collect_rules_total no_rules (rules ws db)) as [c Hc].
  { apply Forall_forall. intros rule Hr. by eapply row_has_route. }
  destruct (networks_populate ws db c) as [m Hm].
  eexists. eapply runs_bind; [apply runs_pool_query|].
  unfold rules, no_rules in Hc. rewrite Hc. cbn beta iota.
  eapply runs_bind; [apply runs_query_or_empty; intros ->; apply no_groups|].
  eapply runs_bind; [apply runs_query_or_empty; intros ->; apply no_networks|].
  fold (empty_networks c). rewrite Hm. cbn beta iota.
  do 2 (eapply runs_bind; [apply runs_pool_query|]).
  eapply runs_bind; [apply runs_query_or_empty; intros ->; apply no_devices|].
  do 2 (eapply runs_bind; [apply runs_pool_query|]). apply runs_ret.
Qed.

(** Every entry has a route and a listed network. *)
Definition routable (acl : CompiledACL) (e : ACLEntry) : Prop :=
  ae_RemoteNetworkId e ∈ an_RemoteNetworkId <$> as_RemoteNetworks (ca_Snapshot acl) ∧
  (ae_RouteType e = "connector" ∨ ae_RouteType e = "shield" ∧ ae_ShieldId e ≠ "").

Lemma route_types status sh route :
  routeTypeForResource status sh = Some route → route = "connector" ∨ route = "shield" ∧ sh ≠ "".
Proof. unfold routeTypeForResource. intros Hr. cases; bool_simpl; simplify_eq; auto. Qed.

Lemma compiled_routable ws db now acl :
  compiled_from ws db now acl → Forall (routable acl) (as_Entries (ca_Snapshot acl)).
Proof.
  intros (c & Hc & -> & _ & Hrn). pose proof (collect_rules_spec _ _ _ Hc) as Hcl.
  apply Forall_forall. intros e (key & -> & Hk)%list_elem_of_fmap.
  rewrite merge_sort_Permutation in Hk. apply list_elem_of_fmap in Hk as ([k l] & -> & Hk%elem_of_map_to_list).
  simpl. assert (is_Some (col_groups c !! k)) as [[? [=]]|(rule & Hrule & Hkey)]%(cl_keys _ _ _ Hcl) by eauto.
  pose proof (cl_info _ _ _ Hcl k) as Hi. cbn in Hi. rewrite lookup_empty in Hi.
  destruct (filter _ _) as [|r rest] eqn:Hf.
  { assert (rule ∈ filter (λ r, rule_key r = k) (available (rules ws db))) as Hin by (by apply list_elem_of_filter).
    rewrite Hf in Hin. by apply not_elem_of_nil in Hin. }
  assert (r ∈ available (rules ws db)) as Hr.
  { assert (r ∈ r :: rest) as Hin by left. rewrite <-Hf in Hin. by apply list_elem_of_filter in Hin as [_ ?]. }
  destruct Hi as (route & Hroute & Hi). unfold routable, entry, entry_of. destruct k as [[[rid a] p] q].
  destruct (applyPosture _ _ _ _) as [[? ?] ?]. simpl. rewrite Hi. simpl. split; [|by eapply route_types].
  apply Hrn, (cl_rns _ _ _ Hcl). eauto.
Qed.

#[local] Instance key_le_total : Total key_le.
Proof.
  intros [[[r1 a1] p1] q1] [[[r2 a2] p2] q2]. unfold key_le.
  rewrite (bool_decide_ext (r2 = r1) (r1 = r2)), (bool_decide_ext (a2 = a1) (a1 = a2)), (Z.eqb_sym p2) by done.
  repeat case_match; try apply (total String.le). lia.
Qed.

Lemma compiled_keys ws db now acl :
  compiled_from ws db now acl →
  Sorted key_le (entry_key <$> as_Entries (ca_Snapshot acl)) ∧ NoDup (entry_key <$> as_Entries (ca_Snapshot acl)).
Proof.
  intros (c & Hc & -> & _). rewrite <-list_fmap_compose.
  rewrite (list_fmap_ext _ id) by (intros; apply entry_entry_key). rewrite list_fmap_id. split.
  - apply Sorted_merge_sort, _.
  - rewrite merge_sort_Permutation. apply NoDup_fst_map_to_list.
Qed.

(** On tables whose resource statuses are the ones the schema allows, the
    compiler always answers: no route error and no missing network, when no
    statement fails.  The entries are in strictly increasing key order, and each
    names a network the snapshot lists and a route, with a shield when it is the
    shield route. *)
Theorem compile_total parse pg_uuid now dbnow version workspaceID ws db :
  parse workspaceID = Some ws → pg_uuid workspaceID = Some ws → statuses_checked db →
  ∃ acl, run (CompileACLSnapshot parse pg_uuid now dbnow version workspaceID) db = (Ok acl, db) ∧
    Sorted key_le (entry_key <$> as_Entries (ca_Snapshot acl)) ∧
    NoDup (entry_key <$> as_Entries (ca_Snapshot acl)) ∧
    Forall (routable acl) (as_Entries (ca_Snapshot acl)).
Proof.
  intros Hp Hpg Hst. destruct (compile_runs parse pg_uuid now dbnow version _ _ _ Hp Hpg Hst) as [acl Hacl].
  exists acl. split; [by apply runs_run|].
  pose proof (compile_wp parse pg_uuid now dbnow version _ _ db Hp Hpg []) as Hwp.
  rewrite Hacl in Hwp. destruct Hwp as [_ Hwp]. specialize (Hwp acl eq_refl).
  destruct (compiled_keys _ _ _ _ Hwp). split_and!; [done..|by eapply compiled_routable].
Qed.
End order.

(** ** A workspace with one posture-gated resource and two devices *)

Definition demo_policy : PolicyDB :=
  MkPolicyDB
    {["g" := MkGroupRow "ws" "staff" None 0 0 "manual" None None]}
    {[("g", "ann"); ("g", "bob")]}
    {["ar" := MkAccessRuleRow "ws" "db" "g" true 0 0]}
    {["db" := MkResourceRec "ws" "postgres" "10.0.0.5" 5432 "tcp" None "unprotected" "rn" (Some "pol")]}
    {["rn" := ("ws", "office")]} ∅ ∅ {["ws" := "ws.zecurity.in"]}
    {["ann" := ("ws", "active"); "bob" := ("ws", "active")]}
    {[("ws", "ann") := "active"; ("ws", "bob") := "active"]}
    {["d1" := MkDeviceRec "ann" "ws" (Some "spiffe://ws/client/d1") None;
      "d2" := MkDeviceRec "bob" "ws" (Some "spiffe://ws/client/d2") None]}
    ∅ ∅ ∅ ∅
    {["p" := MkProfileRec "ws" "managed" 1]}
    {[("pol", "p")]}
    {[("d1", "p") := MkEvalRec "ws" true 1 (Some "rep1"); ("d2", "p") := MkEvalRec "ws" true 1 (Some "rep2")]}
    {["rep1" := 0; "rep2" := 5 * Minute]}.

Definition demo_compile (now : time) : policyM CompiledACL :=
  CompileACLSnapshot (H:=scan_order) Some Some now now (λ _, 1) "ws".

(** The snapshot of a time. *)
Definition demo_acl (now : time) : CompiledACL :=
  match run (demo_compile now) demo_policy with
  | (Ok acl, _) => acl
  | _ => MkCompiledACL (MkACLSnapshot "" 0 0 [] [] "" "" []) 0
  end.

Lemma compile_exact_witness :
  wp (demo_compile (6 * Minute)) demo_policy None (λ r db' _, db' = demo_policy ∧
    ∀ acl, r = Ok acl → ∀ rid sp, grants acl rid sp ↔ may_access "ws" demo_policy (6 * Minute) rid sp).
Proof. apply (compile_exact (H:=scan_order) Some Some (6 * Minute) (6 * Minute) (λ _, 1) "ws" "ws" demo_policy); reflexivity. Defined.

Lemma demo_statuses : statuses_checked demo_policy.
Proof. apply map_Forall_singleton. simpl. set_solver. Qed.

Lemma compile_total_witness :
  ∃ acl, run (demo_compile (6 * Minute)) demo_policy = (Ok acl, demo_policy) ∧
    Sorted key_le (entry_key <$> as_Entries (ca_Snapshot acl)) ∧
    NoDup (entry_key <$> as_Entries (ca_Snapshot acl)) ∧
    Forall (routable acl) (as_Entries (ca_Snapshot acl)).
Proof.
  apply (compile_total (H:=scan_order) Some Some (6 * Minute) (6 * Minute) (λ _, 1) "ws" "ws" demo_policy);
    [reflexivity..|apply demo_statuses].
Defined.

Lemma demo_compiled now : run (demo_compile now) demo_policy = (Ok (demo_acl now), demo_policy).
Proof.
  destruct (compile_runs (H:=scan_order) Some Some now now (λ _, 1) "ws" "ws" demo_policy eq_refl eq_refl demo_statuses)
    as [acl Hacl%runs_run].
  unfold demo_acl. unfold demo_compile at 2. by rewrite Hacl.
Qed.

Lemma demo_grants now rid sp : grants (demo_acl now) rid sp ↔ may_access "ws" demo_policy now rid sp.
Proof.
  pose proof (compile_wp (H:=scan_order) Some Some now now (λ _, 1) "ws" "ws" demo_policy eq_refl eq_refl []) as Hwp.
  pose proof (demo_compiled now) as Hrun. unfold run, demo_compile in Hrun.
  destruct (CompileACLSnapshot _ _ _ _ _ _ _) as [r w]. injection Hrun as -> Hw. destruct Hwp as [_ Hwp].
  by apply (compiled_grants (H:=scan_order)), Hwp.
Qed.

(** The time until which a snapshot may be cached is the latest expiry over
    the devices of a gated resource, not the earliest.  Two devices report five
    minutes apart; the snapshot compiled with both is valid until the later
    report expires, and before that it still allows the device whose own report
    has expired. *)
Theorem snapshot_outlives_device_posture :
  let t := 12 * Minute in
  run (demo_compile (6 * Minute)) demo_policy = (Ok (demo_acl (6 * Minute)), demo_policy) ∧
  t < ca_ValidUntil (demo_acl (6 * Minute)) ∧
  grants (demo_acl (6 * Minute)) "db" "spiffe://ws/client/d1" ∧
  ¬ may_access "ws" demo_policy t "db" "spiffe://ws/client/d1".
Proof.
  simpl. split_and!.
  - apply demo_compiled.
  - vm_compute. reflexivity.
  - exists (MkACLEntry "db" "postgres" "10.0.0.5" 5432 "tcp" ["spiffe://ws/client/d1"; "spiffe://ws/client/d2"]
              "connector" "" "rn" "").
    split_and!; [|reflexivity|left].
    assert (as_Entries (ca_Snapshot (demo_acl (6 * Minute))) = [MkACLEntry "db" "postgres" "10.0.0.5" 5432 "tcp"
      ["spiffe://ws/client/d1"; "spiffe://ws/client/d2"] "connector" "" "rn" ""]) as -> by (vm_compute; reflexivity).
    left.
  - rewrite <-demo_grants. intros (e & He & _ & Hsp).
    assert (Forall (λ e, ae_AllowedSpiffeIds e = ["spiffe://ws/client/d2"])
              (as_Entries (ca_Snapshot (demo_acl (12 * Minute))))) as Hall
      by (vm_compute; repeat constructor).
    rewrite Forall_forall in Hall. rewrite (Hall e He) in Hsp. by apply list_elem_of_singleton in Hsp.
Qed.
