(* ===== verification/SnapshotCache.v ===== *)
(** * The snapshot cache and the policy notifier

    policy/cache.go, policy/notifier.go and policy/invalidation.go.  Each
    critical section of the cache is one function on its state; an operation
    that locks more than once ([Get], [GetOrCompile]) runs against a schedule of
    what other goroutines did before each of its critical sections. *)

From Stdlib Require Import ZArith Lia.
From S2P Require Import Prelude GoText PolicyStore AclCompiler.
Open Scope Z_scope.

(** ** The cache *)

Definition maxCompileRetries : nat := 3.

Record cacheEntry := MkCacheEntry { ce_snapshot : ACLSnapshot; ce_validUntil : time }.
Record SnapshotCache := MkSnapshotCache { entries : gmap string cacheEntry; epoch : gmap string Z }.
Definition NewSnapshotCache : SnapshotCache := MkSnapshotCache ∅ ∅.

(** [Get] under the read lock: no entry, a valid snapshot, or an expired one. *)
Inductive lookup_outcome := Miss | Hit (snap : ACLSnapshot) | Expired.

Definition entry_valid (now : time) (e : cacheEntry) : bool :=
  time_IsZero (ce_validUntil e) || time_After (ce_validUntil e) now.

Definition get_lookup (now : time) (workspaceID : string) (c : SnapshotCache) : lookup_outcome :=
  match entries c !! workspaceID with
  | None => Miss
  | Some e => if entry_valid now e then Hit (ce_snapshot e) else Expired
  end.

(** [Get] under the write lock: drop the entry if it is still expired. *)
Definition get_evict (now : time) (workspaceID : string) (c : SnapshotCache) : bool * SnapshotCache :=
  match entries c !! workspaceID with
  | Some e =>
      if negb (entry_valid now e)
      then (true, MkSnapshotCache (delete workspaceID (entries c)) (epoch c)) else (false, c)
  | None => (false, c)
  end.

Definition Epoch (workspaceID : string) (c : SnapshotCache) : Z := count (epoch c) workspaceID.

Definition setLocked (workspaceID : string) (snapshot : ACLSnapshot) (validUntil : time) (c : SnapshotCache)
    : SnapshotCache :=
  let store := MkSnapshotCache (<[workspaceID := MkCacheEntry snapshot validUntil]> (entries c)) (epoch c) in
  match entries c !! workspaceID with
  | Some existing => if as_Version snapshot <? as_Version (ce_snapshot existing) then c else store
  | None => store
  end.

Definition SetIfEpoch (workspaceID : string) (snapshot : ACLSnapshot) (validUntil : time) (observedEpoch : Z)
    (c : SnapshotCache) : bool * SnapshotCache :=
  if negb (Epoch workspaceID c =? observedEpoch) then (false, c)
  else (true, setLocked workspaceID snapshot validUntil c).

Definition Invalidate (workspaceID : string) (c : SnapshotCache) : SnapshotCache :=
  MkSnapshotCache (delete workspaceID (entries c)) (incr workspaceID (epoch c)).

(** ** Running among other goroutines *)

(** The cache, the clock, what the others do before each critical section still
    to come, and the expiry notifications sent. *)
Record cworld := CWorld {
  sc : SnapshotCache;
  clock : time;
  moves : list (time * (SnapshotCache → SnapshotCache));
  expiries : list string
}.
Definition concM (A : Type) : Type := cworld → A * cworld.

(** One critical section. *)
Definition locked {A} (f : time → SnapshotCache → A * SnapshotCache) : concM A := λ w,
  let '(now, others, rest) := match moves w with
                              | [] => (clock w, id, [])
                              | (now, others) :: rest => (now, others, rest)
                              end in
  let '(a, c) := f now (others (sc w)) in (a, CWorld c now rest (expiries w)).

Definition notifyExpiryEvent (workspaceID : string) : concM () := λ w,
  (tt, CWorld (sc w) (clock w) (moves w) (expiries w ++ [workspaceID])).

Definition Get (workspaceID : string) : concM (option ACLSnapshot) := λ w,
  match locked (λ now c, (get_lookup now workspaceID c, c)) w with
  | (Miss, w1) => (None, w1)
  | (Hit snap, w1) => (Some snap, w1)
  | (Expired, w1) =>
      let '(expired, w2) := locked (λ now c, get_evict now workspaceID c) w1 in
      (None, if expired then (notifyExpiryEvent workspaceID w2).2 else w2)
  end.

Section GetOrCompile.
Context {E : Type} (compileFn : concM (result E CompiledACL)).

(** The loop of the flight; [last] is the snapshot of the previous attempt. *)
Fixpoint compile_loop (attempts : nat) (workspaceID : string) (last : option ACLSnapshot)
    : concM (result E (option ACLSnapshot)) := λ w,
  match attempts with
  | O => (Ok last, w)
  | S attempts =>
      let '(observed, w1) := locked (λ _ c, (Epoch workspaceID c, c)) w in
      match compileFn w1 with
      | (Err e, w2) => (Err e, w2)
      | (Ok compiled, w2) =>
          let snap := ca_Snapshot compiled in
          let '(stored, w3) := locked (λ _ c, SetIfEpoch workspaceID snap (ca_ValidUntil compiled) observed c) w2 in
          if stored then (Ok (Some snap), w3)
          else match Get workspaceID w3 with
               | (Some fresh, w4) => (Ok (Some fresh), w4)
               | (None, w4) => compile_loop attempts workspaceID (Some snap) w4
               end
      end
  end.

(** The call that leads its flight; a call that joins one gets its result. *)
Definition GetOrCompile (workspaceID : string) : concM (result E (option ACLSnapshot)) := λ w,
  match Get workspaceID w with
  | (Some snap, w1) => (Ok (Some snap), w1)
  | (None, w1) => compile_loop maxCompileRetries workspaceID None w1
  end.
End GetOrCompile.

(** ** The notifier *)

(** Callbacks, by the order in which they are registered. *)
Inductive callback := PushHook | Listener (i : nat).

Record Notifier := MkNotifier {
  n_cache : SnapshotCache; versions : gmap string Z; pushHook : bool; listeners : nat
}.
Definition NewNotifier (c : SnapshotCache) : Notifier := MkNotifier c ∅ false 0.
Definition AddChangeListener (n : Notifier) : Notifier :=
  MkNotifier (n_cache n) (versions n) (pushHook n) (S (listeners n)).
Definition RegisterPushHook (n : Notifier) : Notifier :=
  MkNotifier (n_cache n) (versions n) true (listeners n).

Definition Version (workspaceID : string) (n : Notifier) : Z := count (versions n) workspaceID.

Inductive notify_error := ErrWorkspaceRequired.

(** The new state and the callbacks fired, in order. *)
Definition NotifyPolicyChange (workspaceID : string) (n : Notifier)
    : result notify_error (list (callback * string)) * Notifier :=
  if workspaceID ≟ "" then (Err ErrWorkspaceRequired, n)
  else
    let bumped := incr workspaceID (versions n) in
    (Ok ((if pushHook n then [(PushHook, workspaceID)] else [])
           ++ ((λ i, (Listener i, workspaceID)) <$> seq 0 (listeners n))),
     MkNotifier (Invalidate workspaceID (n_cache n)) bumped (pushHook n) (listeners n)).

(** The outbox handler of [policy.invalidation.requested]. *)
Definition InvalidationHandler_Handle (workspaceID : string) (n : Notifier)
    : result notify_error (list (callback * string)) * Notifier :=
  NotifyPolicyChange workspaceID n.
