(* ===== verification/CacheSafety.v ===== *)
(** * Freshness of cached snapshots

    A transition system in which callers of [GetOrCompile], policy changes and
    their notifications interleave at the critical sections of the cache, and
    its invariant: every read behind a cached snapshot came after the last
    invalidation of its workspace.  Then the behaviour of [GetOrCompile] against
    an arbitrary schedule of the other goroutines. *)

From Stdlib Require Import ZArith Lia.
From S2P Require Import Prelude GoText PolicyStore AclCompiler SnapshotCache.
Open Scope Z_scope.

Section concurrency.
(** What a compile of one workspace reads, statement by statement, and what it
    makes of the tables its statements saw and of the version. *)
Context {T : Type} (compile : list T → Z → CompiledACL).

(** The statements a compile has run: when, and what each saw. *)
Definition trace : Type := list (Z * T).
Definition compiled_of (tr : trace) (v : Z) : CompiledACL := compile tr.*2 v.

(** A call in [GetOrCompile], by where it is: answered from the cache, leading a
    flight, or joined to one.  A call that finds the flight of
    another call in progress waits for it and gets its result. *)
Inductive phase :=
| Answered (tr : trace) (v : Z)
| Starting (attempt : nat)
| Compiling (attempt : nat) (observed : Z) (start ne : Z) (tr : trace)
| Storing (attempt : nat) (observed : Z) (start ne : Z) (tr : trace) (v : Z)
| Rechecking (attempt : nat) (tr : trace) (v : Z)
| Returning (tr : trace) (v : Z)
| Joined (leader : nat)
| Delivered (tr : trace) (v : Z).

(** A call: its workspace, the last invalidation before it, and its phase. *)
Record call := MkCall { cl_ws : string; cl_iv : Z; cl_phase : phase }.

(** The notifier with its cache, the tables by workspace, the calls, and ghost
    state: logical time, when each workspace was last written and invalidated,
    the trace behind each cached snapshot, and unbounded invalidation counts. *)
Record ssys := SSys {
  ntf : Notifier;
  tables : string → T;
  calls : gmap nat call;
  clk : Z;
  wr : string → Z;
  iv : string → Z;
  prov : string → trace * Z;
  nep : string → Z;
  invs : Z
}.

Definition set_cache (c : SnapshotCache) (n : Notifier) : Notifier :=
  MkNotifier c (versions n) (pushHook n) (listeners n).
Definition bump (ws : string) (n : Notifier) : Notifier :=
  MkNotifier (n_cache n) (incr ws (versions n)) (pushHook n) (listeners n).

(** A step that only moves a call. *)
Definition moved (tid : nat) (c : call) (s : ssys) : ssys :=
  SSys (ntf s) (tables s) (<[tid := c]> (calls s)) (clk s + 1) (wr s) (iv s) (prov s) (nep s) (invs s).
Definition with_cache (c : SnapshotCache) (cs : gmap nat call) (pv : string → trace * Z) (s : ssys) : ssys :=
  SSys (set_cache c (ntf s)) (tables s) cs (clk s + 1) (wr s) (iv s) pv (nep s) (invs s).

Definition set_at {A} (ws : string) (v : A) (f : string → A) : string → A := λ w, if w ≟ ws then v else f w.

(** Does [setLocked] store? *)
Definition stores (ws : string) (snap : ACLSnapshot) (c : SnapshotCache) : bool :=
  match entries c !! ws with
  | Some existing => negb (as_Version snap <? as_Version (ce_snapshot existing))
  | None => true
  end.

(** A leader's flight can be joined until its result is delivered. *)
Definition in_flight (p : phase) : bool :=
  match p with Answered _ _ | Joined _ | Delivered _ _ => false | _ => true end.

Inductive sstep : ssys → ssys → Prop :=
| s_write s ws t :
    sstep s (SSys (ntf s) (set_at ws t (tables s)) (calls s) (clk s + 1)
               (upd ws (clk s) (wr s)) (iv s) (prov s) (nep s) (invs s))
| s_bump s ws :
    sstep s (SSys (bump ws (ntf s)) (tables s) (calls s) (clk s + 1) (wr s) (iv s) (prov s) (nep s) (invs s))
| s_invalidate s ws :
    sstep s (SSys (set_cache (Invalidate ws (n_cache (ntf s))) (ntf s)) (tables s) (calls s) (clk s + 1)
               (wr s) (upd ws (clk s) (iv s)) (prov s) (upd ws (nep s ws + 1) (nep s)) (invs s + 1))
| s_evict s now ws :
    sstep s (with_cache (get_evict now ws (n_cache (ntf s))).2 (calls s) (prov s) s)
| s_call_hit s tid now ws snap :
    calls s !! tid = None → get_lookup now ws (n_cache (ntf s)) = Hit snap →
    sstep s (moved tid (MkCall ws (iv s ws) (Answered (prov s ws).1 (prov s ws).2)) s)
| s_call s tid ws :
    calls s !! tid = None →
    sstep s (moved tid (MkCall ws (iv s ws) (Starting 0)) s)
| s_start s tid ws i a :
    calls s !! tid = Some (MkCall ws i (Starting a)) →
    sstep s (moved tid (MkCall ws i (Compiling a (Epoch ws (n_cache (ntf s))) (clk s) (nep s ws) [])) s)
| s_read s tid ws i a o start ne tr :
    calls s !! tid = Some (MkCall ws i (Compiling a o start ne tr)) →
    sstep s (moved tid (MkCall ws i (Compiling a o start ne (tr ++ [(clk s, tables s ws)]))) s)
| s_compiled s tid ws i a o start ne tr :
    calls s !! tid = Some (MkCall ws i (Compiling a o start ne tr)) →
    sstep s (moved tid (MkCall ws i (Storing a o start ne tr (Version ws (ntf s)))) s)
| s_failed s tid ws i a o start ne tr :
    calls s !! tid = Some (MkCall ws i (Compiling a o start ne tr)) →
    sstep s (with_cache (n_cache (ntf s)) (delete tid (calls s)) (prov s) s)
| s_stored s tid ws i a o start ne tr v c' :
    calls s !! tid = Some (MkCall ws i (Storing a o start ne tr v)) →
    let snap := ca_Snapshot (compiled_of tr v) in
    SetIfEpoch ws snap (ca_ValidUntil (compiled_of tr v)) o (n_cache (ntf s)) = (true, c') →
    sstep s (with_cache c' (<[tid := MkCall ws i (Returning tr v)]> (calls s))
               (if stores ws snap (n_cache (ntf s)) then set_at ws (tr, v) (prov s) else prov s) s)
| s_lost s tid ws i a o start ne tr v :
    calls s !! tid = Some (MkCall ws i (Storing a o start ne tr v)) →
    (SetIfEpoch ws (ca_Snapshot (compiled_of tr v)) (ca_ValidUntil (compiled_of tr v)) o (n_cache (ntf s))).1 = false →
    sstep s (moved tid (MkCall ws i (Rechecking a tr v)) s)
| s_recheck_hit s tid now ws i a tr v snap :
    calls s !! tid = Some (MkCall ws i (Rechecking a tr v)) →
    get_lookup now ws (n_cache (ntf s)) = Hit snap →
    sstep s (moved tid (MkCall ws i (Returning (prov s ws).1 (prov s ws).2)) s)
| s_recheck_miss s tid ws i a tr v :
    calls s !! tid = Some (MkCall ws i (Rechecking a tr v)) →
    sstep s (moved tid (MkCall ws i (if bool_decide (S a < maxCompileRetries)%nat
                                     then Starting (S a) else Returning tr v)) s)
| s_join s tid leader ws i p :
    calls s !! tid = None → calls s !! leader = Some (MkCall ws i p) → in_flight p = true →
    sstep s (moved tid (MkCall ws (iv s ws) (Joined leader)) s)
| s_deliver s tid leader ws i j tr v :
    calls s !! tid = Some (MkCall ws j (Joined leader)) →
    calls s !! leader = Some (MkCall ws i (Returning tr v)) →
    sstep s (moved tid (MkCall ws j (Delivered tr v)) s).

Definition sinit (n : Notifier) (t : string → T) : ssys :=
  SSys n t ∅ 1 (λ _, 0) (λ _, 0) (λ _, ([], 0)) (λ _, 0) 0.
Definition fresh_start (t : string → T) (s : ssys) : Prop := rtc sstep (sinit (NewNotifier NewSnapshotCache) t) s.

(** ** The invariant *)

(** What a trace saw is what the tables hold, unless written after. *)
Definition trace_ok (s : ssys) (ws : string) (tr : trace) : Prop :=
  Forall (λ r, r.1 < clk s ∧ (wr s ws <= r.1 → r.2 = tables s ws)) tr.
Definition since (t : Z) (tr : trace) : Prop := Forall (λ r, t <= r.1) tr.

Definition not_invalidated (s : ssys) (ws : string) (i o start ne : Z) : Prop :=
  o = ne mod 2 ^ 64 ∧ i <= start < clk s ∧ 0 <= ne <= nep s ws ∧ (ne = nep s ws → iv s ws <= start).

Definition phase_ok (s : ssys) (ws : string) (i : Z) (p : phase) : Prop :=
  match p with
  | Starting _ | Joined _ => True
  | Delivered tr _ => trace_ok s ws tr
  | Compiling _ o start ne tr | Storing _ o start ne tr _ =>
      not_invalidated s ws i o start ne ∧ trace_ok s ws tr ∧ since start tr
  | Answered tr _ | Rechecking _ tr _ | Returning tr _ => trace_ok s ws tr ∧ since i tr
  end.
Definition call_ok (s : ssys) (c : call) : Prop :=
  cl_iv c <= iv s (cl_ws c) ∧ phase_ok s (cl_ws c) (cl_iv c) (cl_phase c).

Definition entry_ok (s : ssys) (ws : string) (e : cacheEntry) : Prop :=
  let '(tr, v) := prov s ws in
  e = MkCacheEntry (ca_Snapshot (compiled_of tr v)) (ca_ValidUntil (compiled_of tr v)) ∧
  trace_ok s ws tr ∧ since (iv s ws) tr.

Record sinv (s : ssys) : Prop := {
  si_epoch : ∀ ws, Epoch ws (n_cache (ntf s)) = nep s ws mod 2 ^ 64;
  si_bound : ∀ ws, 0 <= nep s ws <= invs s;
  si_times : (∀ ws, wr s ws < clk s) ∧ (∀ ws, iv s ws < clk s);
  si_calls : map_Forall (λ _ c, call_ok s c) (calls s);
  si_cache : map_Forall (entry_ok s) (entries (n_cache (ntf s)))
}.

(** How a step moves what the invariant speaks about. *)
Definition evolves (s s' : ssys) : Prop :=
  clk s < clk s' ∧
  (∀ ws, nep s ws <= nep s' ws ∧ iv s ws <= iv s' ws ∧ (nep s' ws = nep s ws → iv s' ws = iv s ws)) ∧
  (∀ ws, (wr s' ws = wr s ws ∧ tables s' ws = tables s ws) ∨ wr s' ws = clk s).

Lemma trace_ok_evolves s s' ws tr : evolves s s' → trace_ok s ws tr → trace_ok s' ws tr.
Proof.
  intros (Hc & _ & Hw) Htr. eapply Forall_impl; [exact Htr|]. intros [t x] [Ht Hx]. simpl in *. split; [lia|].
  destruct (Hw ws) as [[-> ->]| ->]; [done|lia].
Qed.

Lemma call_ok_evolves s s' c : evolves s s' → call_ok s c → call_ok s' c.
Proof.
  intros He [Hi Hp]. pose proof He as (Hc & Hg & _). destruct (Hg (cl_ws c)) as (? & ? & Hiv).
  split; [lia|]. assert (∀ i o start ne, not_invalidated s (cl_ws c) i o start ne →
    not_invalidated s' (cl_ws c) i o start ne) as Hni.
  { intros i o start ne (? & ? & ? & ?). unfold not_invalidated. split_and!; lia. }
  destruct (cl_phase c); simpl in *; naive_solver eauto using trace_ok_evolves.
Qed.

Lemma calls_evolve s s' (cs : gmap nat call) :
  evolves s s' → map_Forall (λ _ c, call_ok s c) cs → map_Forall (λ _ c, call_ok s' c) cs.
Proof. intros He Hcs i c Hc. eauto using call_ok_evolves. Qed.

(** Entries that stay survive a step that does not invalidate their workspace. *)
Lemma entries_evolve s s' (m : gmap string cacheEntry) :
  evolves s s' → map_Forall (entry_ok s) m →
  (∀ ws e, m !! ws = Some e → iv s' ws = iv s ws ∧ prov s' ws = prov s ws) → map_Forall (entry_ok s') m.
Proof.
  intros He Hm Hiv ws e Hws. destruct (Hiv ws e Hws) as [Hi Hp]. specialize (Hm ws e Hws).
  unfold entry_ok in *. rewrite Hi, Hp. destruct (prov s ws) as [tr v]. naive_solver eauto using trace_ok_evolves.
Qed.

(** A step that leaves tables and invalidations alone. *)
Lemma quiet_step_sinv s n cs pv :
  sinv s → epoch (n_cache n) = epoch (n_cache (ntf s)) →
  let s' := SSys n (tables s) cs (clk s + 1) (wr s) (iv s) pv (nep s) (invs s) in
  (map_Forall (λ _ c, call_ok s' c) (calls s) → map_Forall (λ _ c, call_ok s' c) cs) →
  (evolves s s' → map_Forall (entry_ok s') (entries (n_cache n))) → sinv s'.
Proof.
  intros [He Hb [Hw Hi] Hc Hm] Hep s' Hcs Hes.
  assert (evolves s s') as Hev. { split; [simpl; lia|]. split; intros; simpl; auto; lia. }
  split; simpl.
  - intros ws. unfold Epoch. rewrite Hep. apply He.
  - done.
  - split; intros ws; [specialize (Hw ws)|specialize (Hi ws)]; lia.
  - by apply Hcs, (calls_evolve s).
  - by apply Hes.
Qed.

Lemma moved_inv s tid c :
  sinv s → (map_Forall (λ _ x, call_ok (moved tid c s) x) (calls s) → call_ok (moved tid c s) c) → sinv (moved tid c s).
Proof.
  intros Hinv Hc. apply quiet_step_sinv; [done..| |].
  - intros Hcs. apply map_Forall_insert_2; [by apply Hc|done].
  - intros Hev. apply (entries_evolve s); [done|apply Hinv|done].
Qed.

Lemma shrink_inv s c cs :
  sinv s → epoch c = epoch (n_cache (ntf s)) → entries c ⊆ entries (n_cache (ntf s)) → cs ⊆ calls s →
  sinv (with_cache c cs (prov s) s).
Proof.
  intros Hinv Hep Hsub Hcs. apply quiet_step_sinv; [done..| |].
  - intros Hall i x Hx. apply (Hall i). by eapply lookup_weaken.
  - intros Hev. apply (entries_evolve s); [done| |done].
    intros ws e Hws. apply (si_cache _ Hinv). by eapply lookup_weaken.
Qed.

Lemma write_sinv s ws t :
  sinv s → sinv (SSys (ntf s) (set_at ws t (tables s)) (calls s) (clk s + 1)
                   (upd ws (clk s) (wr s)) (iv s) (prov s) (nep s) (invs s)).
Proof.
  intros [He Hb [Hw Hi] Hc Hm].
  match goal with |- sinv ?x => assert (evolves s x) as Hev end.
  { split; [simpl; lia|]. split; intros w; simpl; [lia|]. unfold set_at, upd. case_bool_decide; auto. }
  split; simpl; try done.
  - split; [by apply upd_lt|]. intros w. specialize (Hi w). lia.
  - by apply (calls_evolve s).
  - by apply (entries_evolve s).
Qed.

Lemma invalidate_sinv s ws :
  sinv s → sinv (SSys (set_cache (Invalidate ws (n_cache (ntf s))) (ntf s)) (tables s) (calls s) (clk s + 1)
                   (wr s) (upd ws (clk s) (iv s)) (prov s) (upd ws (nep s ws + 1) (nep s)) (invs s + 1)).
Proof.
  intros [He Hb [Hw Hi] Hc Hm].
  match goal with |- sinv ?x => assert (evolves s x) as Hev end.
  { split; [simpl; lia|]. split; intros w; simpl; [|by left]. unfold upd. specialize (Hi w).
    case_bool_decide; subst; lia. }
  split; simpl; try done.
  - unfold Epoch in *. simpl. by apply count_incr.
  - by apply upd_bound.
  - split; [|by apply upd_lt]. intros w. specialize (Hw w). lia.
  - by apply (calls_evolve s).
  - apply (entries_evolve s); [done| |].
    + by apply map_Forall_delete.
    + intros w e [Hne _]%lookup_delete_Some. simpl. by rewrite upd_ne.
Qed.

Lemma hit_entry now ws c snap :
  get_lookup now ws c = Hit snap → ∃ e, entries c !! ws = Some e ∧ ce_snapshot e = snap ∧ entry_valid now e = true.
Proof. unfold get_lookup. intros Hl. repeat case_match; simplify_eq. eauto. Qed.

(** A call that returns what the cache holds. *)
Lemma hit_inv s tid now ws i snap p :
  sinv s → i <= iv s ws → get_lookup now ws (n_cache (ntf s)) = Hit snap →
  p = Answered (prov s ws).1 (prov s ws).2 ∨ p = Returning (prov s ws).1 (prov s ws).2 →
  sinv (moved tid (MkCall ws i p) s).
Proof.
  intros Hinv Hi (e & He & _)%hit_entry Hp. apply moved_inv; [done|]. intros _. split; [done|].
  enough (trace_ok (moved tid (MkCall ws i p) s) ws (prov s ws).1 ∧ since i (prov s ws).1) by (by destruct Hp as [-> | ->]).
  pose proof (si_cache _ Hinv ws e He) as Hent. unfold entry_ok in Hent.
  destruct (prov s ws) as [tr v]. destruct Hent as (_ & Htr & Hs). simpl. split.
  - eapply trace_ok_evolves; [|done]. split; [simpl; lia|]. split; intros; simpl; auto; lia.
  - eapply Forall_impl; [exact Hs|]. simpl. lia.
Qed.

Lemma setLocked_stores ws snap until c :
  setLocked ws snap until c = if stores ws snap c
    then MkSnapshotCache (<[ws := MkCacheEntry snap until]> (entries c)) (epoch c) else c.
Proof. unfold setLocked, stores. destruct (entries c !! ws); [|done]. by destruct (_ <? _). Qed.

Lemma stored_entries s s' ws tr v :
  evolves s s' → (∀ w, iv s' w = iv s w) → prov s' = set_at ws (tr, v) (prov s) →
  map_Forall (entry_ok s) (entries (n_cache (ntf s))) → trace_ok s ws tr → since (iv s ws) tr →
  map_Forall (entry_ok s') (<[ws := MkCacheEntry (ca_Snapshot (compiled_of tr v)) (ca_ValidUntil (compiled_of tr v))]>
                              (entries (n_cache (ntf s)))).
Proof.
  intros Hev Hiv Hp Hm Htr Hs w e [[<- <-]|[Hne Hw]]%lookup_insert_Some; unfold entry_ok; rewrite Hp, Hiv; unfold set_at.
  - rewrite bool_decide_refl. split_and!; [done|by eapply trace_ok_evolves|done].
  - rewrite bool_decide_false by done. specialize (Hm w e Hw). unfold entry_ok in Hm.
    destruct (prov s w). naive_solver eauto using trace_ok_evolves.
Qed.

Lemma stored_inv s tid ws i a o start ne tr v c' :
  invs s < 2 ^ 64 → sinv s → calls s !! tid = Some (MkCall ws i (Storing a o start ne tr v)) →
  let snap := ca_Snapshot (compiled_of tr v) in
  SetIfEpoch ws snap (ca_ValidUntil (compiled_of tr v)) o (n_cache (ntf s)) = (true, c') →
  sinv (with_cache c' (<[tid := MkCall ws i (Returning tr v)]> (calls s))
          (if stores ws snap (n_cache (ntf s)) then set_at ws (tr, v) (prov s) else prov s) s).
Proof.
  intros Hbnd Hinv Htid snap Hset. destruct (si_calls _ Hinv _ _ Htid) as [Hi ((Ho & Hst & Hne & Hiv) & Htr & Hs)].
  simpl in *. unfold SetIfEpoch in Hset. destruct (Epoch ws (n_cache (ntf s)) =? o) eqn:Heq; [|done].
  injection Hset as <-. apply Z.eqb_eq in Heq. rewrite (si_epoch _ Hinv), Ho in Heq.
  pose proof (si_bound _ Hinv ws). rewrite !Z.mod_small in Heq by lia.
  assert (since (iv s ws) tr) as Hsi by (eapply Forall_impl; [exact Hs|]; simpl; lia).
  rewrite setLocked_stores. destruct (stores ws snap (n_cache (ntf s))).
  all: apply quiet_step_sinv; [done..| |].
  1,3: intros Hall; apply map_Forall_insert_2; [|done]; pose proof (Hall _ _ Htid) as [? (_ & ? & _)]; simpl in *;
    (split; [done|]); simpl; (split; [done|]); (eapply Forall_impl; [exact Hs|]; simpl; lia).
  - intros Hev. apply (stored_entries s); [done..| |done|done]. apply Hinv.
  - intros Hev. apply (entries_evolve s); [done|apply Hinv|done].
Qed.

Lemma sstep_inv s s' : invs s < 2 ^ 64 → sinv s → sstep s s' → sinv s'.
Proof.
  intros Hb Hinv Hstep. pose proof Hinv as [He Hbd [Hw Hi] Hc Hm].
  destruct Hstep as [s ws t|s ws|s ws|s now ws|s tid now ws snap Hn Hl|s tid ws Hn|s tid ws i a Ht
    |s tid ws i a o start ne tr Ht|s tid ws i a o start ne tr Ht|s tid ws i a o start ne tr Ht
    |s tid ws i a o start ne tr v c' Ht snap Hs|s tid ws i a o start ne tr v Ht Hl
    |s tid now ws i a tr v snap Ht Hl|s tid ws i a tr v Ht|s tid l ws i p Hn Ht Hf|s tid l ws i j tr v Ht Hl].
  - by apply write_sinv.
  - apply quiet_step_sinv; [done..|]. intros Hev. by apply (entries_evolve s).
  - by apply invalidate_sinv.
  - unfold get_evict. repeat case_match; apply shrink_inv; try done. simpl. apply delete_subseteq.
  - eapply hit_inv; eauto. done.
  - apply moved_inv; [done|]. intros _. split; [done|]. done.
  - apply moved_inv; [done|]. intros Hcs. destruct (Hcs _ _ Ht) as [Hiv _]. split; [done|].
    specialize (Hbd ws). specialize (Hi ws). simpl in *. split_and!; [|by constructor..].
    unfold not_invalidated. simpl. split_and!; try lia. apply He.
  - apply moved_inv; [done|]. intros Hcs. destruct (Hcs _ _ Ht) as [Hiv (Hni & Htr & Hs)]. split; [done|].
    simpl in *. destruct (Hc _ _ Ht) as [_ ((_ & ? & _) & _)]. split_and!; [done|..].
    + apply Forall_app. split; [done|]. apply Forall_singleton. simpl. split; [lia|done].
    + apply Forall_app. split; [done|]. apply Forall_singleton. simpl. lia.
  - apply moved_inv; [done|]. intros Hcs. exact (Hcs _ _ Ht).
  - apply shrink_inv; try done. apply delete_subseteq.
  - by eapply stored_inv.
  - apply moved_inv; [done|]. intros Hcs. destruct (Hcs _ _ Ht) as [Hiv ((_ & ? & _) & Htr & Hs)]. split; [done|].
    simpl in *. split; [done|]. eapply Forall_impl; [exact Hs|]. simpl. lia.
  - destruct (Hc _ _ Ht) as [Hiv _]. eapply hit_inv; eauto.
  - apply moved_inv; [done|]. intros Hcs. destruct (Hcs _ _ Ht) as [Hiv Hp]. split; [done|].
    simpl in *. by case_match.
  - apply moved_inv; [done|]. intros _. by split.
  - apply moved_inv; [done|]. intros Hcs. destruct (Hcs _ _ Ht) as [Hj _], (Hcs _ _ Hl) as [_ [Htr _]]. by split.
Qed.

Lemma sstep_invs s s' : sstep s s' → invs s <= invs s'.
Proof. destruct 1; simpl; lia. Qed.

Lemma sinit_inv t : sinv (sinit (NewNotifier NewSnapshotCache) t).
Proof. split; simpl; try done; intros; unfold Epoch, count; simpl; rewrite ?lookup_empty; done || lia. Qed.

Lemma reachable_sinv t s : fresh_start t s → invs s < 2 ^ 64 → sinv s.
Proof.
  intros Hs. revert s Hs. apply (rtc_ind_r (λ s, invs s < 2 ^ 64 → sinv s)).
  - intros. apply sinit_inv.
  - intros s s' _ Hstep IH Hb. pose proof (sstep_invs _ _ Hstep).
    eapply sstep_inv; [| |done]; [lia|apply IH; lia].
Qed.

(** A compile whose statements all saw the workspace's current tables. *)
Definition compiled_now (s : ssys) (ws : string) (snap : ACLSnapshot) : Prop :=
  ∃ n v, snap = ca_Snapshot (compile (replicate n (tables s ws)) v).

Lemma trace_now s ws tr t :
  trace_ok s ws tr → since t tr → wr s ws <= t → tr.*2 = replicate (length tr) (tables s ws).
Proof.
  induction tr as [|[u x] tr IH]; [done|]. intros [[Hu Hx] Htr]%Forall_cons [Ht Hs]%Forall_cons Hw. simpl in *.
  rewrite Hx by lia. f_equal. by apply IH.
Qed.

(** ** Runs, by their actions *)

Inductive action :=
| AWrite (ws : string) (t : T) | AInvalidate (ws : string) | ACall (tid : nat) (ws : string) | AStart (tid : nat)
| ARead (tid : nat) | ACompiled (tid : nat) | AStore (tid : nat) | AJoin (tid leader : nat) | ADeliver (tid : nat).

Definition do_action (a : action) (s : ssys) : option ssys :=
  match a with
  | AWrite ws t => Some (SSys (ntf s) (set_at ws t (tables s)) (calls s) (clk s + 1)
                           (upd ws (clk s) (wr s)) (iv s) (prov s) (nep s) (invs s))
  | AInvalidate ws =>
      Some (SSys (set_cache (Invalidate ws (n_cache (ntf s))) (ntf s)) (tables s) (calls s) (clk s + 1)
              (wr s) (upd ws (clk s) (iv s)) (prov s) (upd ws (nep s ws + 1) (nep s)) (invs s + 1))
  | ACall tid ws =>
      match calls s !! tid with None => Some (moved tid (MkCall ws (iv s ws) (Starting 0)) s) | _ => None end
  | AStart tid =>
      match calls s !! tid with
      | Some (MkCall ws i (Starting a)) =>
          Some (moved tid (MkCall ws i (Compiling a (Epoch ws (n_cache (ntf s))) (clk s) (nep s ws) [])) s)
      | _ => None
      end
  | ARead tid =>
      match calls s !! tid with
      | Some (MkCall ws i (Compiling a o start ne tr)) =>
          Some (moved tid (MkCall ws i (Compiling a o start ne (tr ++ [(clk s, tables s ws)]))) s)
      | _ => None
      end
  | ACompiled tid =>
      match calls s !! tid with
      | Some (MkCall ws i (Compiling a o start ne tr)) =>
          Some (moved tid (MkCall ws i (Storing a o start ne tr (Version ws (ntf s)))) s)
      | _ => None
      end
  | AStore tid =>
      match calls s !! tid with
      | Some (MkCall ws i (Storing a o start ne tr v)) =>
          let snap := ca_Snapshot (compiled_of tr v) in
          match SetIfEpoch ws snap (ca_ValidUntil (compiled_of tr v)) o (n_cache (ntf s)) with
          | (true, c') => Some (with_cache c' (<[tid := MkCall ws i (Returning tr v)]> (calls s))
               (if stores ws snap (n_cache (ntf s)) then set_at ws (tr, v) (prov s) else prov s) s)
          | (false, _) => None
          end
      | _ => None
      end
  | AJoin tid leader =>
      match calls s !! tid, calls s !! leader with
      | None, Some (MkCall ws i p) =>
          if in_flight p then Some (moved tid (MkCall ws (iv s ws) (Joined leader)) s) else None
      | _, _ => None
      end
  | ADeliver tid =>
      match calls s !! tid with
      | Some (MkCall ws j (Joined leader)) =>
          match calls s !! leader with
          | Some (MkCall ws' i (Returning tr v)) =>
              if ws ≟ ws' then Some (moved tid (MkCall ws j (Delivered tr v)) s) else None
          | _ => None
          end
      | _ => None
      end
  end.

Lemma do_action_sound a s s' : do_action a s = Some s' → sstep s s'.
Proof.
  destruct a; simpl; intros Hd; repeat (case_match; try done); simplify_eq; bool_simpl; subst.
  - apply s_write.
  - apply s_invalidate.
  - by apply s_call.
  - by eapply s_start.
  - by eapply s_read.
  - by eapply s_compiled.
  - pose proof (s_stored s tid _ _ _ _ _ _ _ _ _ H H2) as Hst. by rewrite H4 in Hst.
  - pose proof (s_stored s tid _ _ _ _ _ _ _ _ _ H H2) as Hst. by rewrite H4 in Hst.
  - by eapply s_join.
  - by eapply s_deliver.
Qed.

Fixpoint do_actions (l : list action) (s : ssys) : option ssys :=
  match l with [] => Some s | a :: l => do_action a s ≫= do_actions l end.

Lemma do_actions_sound l t s :
  do_actions l (sinit (NewNotifier NewSnapshotCache) t) = Some s → fresh_start t s.
Proof.
  unfold fresh_start. generalize (sinit (NewNotifier NewSnapshotCache) t) as s0.
  induction l as [|a l IH]; simpl; [intros s0 [= ->]; constructor|].
  intros s0 (s1 & H1 & H2)%bind_Some. eapply rtc_l; [by eapply do_action_sound|by apply IH].
Qed.
End concurrency.

(** C7: However calls, policy changes, notifications and expiries interleave
    (fewer than 2^64 invalidations), every database read behind a cached
    snapshot came after the last invalidation of its workspace; so a cached
    snapshot of a workspace that was not written since its last invalidation is
    a compile of its current tables. *)
Theorem snapshot_cache_fresh {T} (compile : list T → Z → CompiledACL) t s ws e :
  fresh_start compile t s → invs s < 2 ^ 64 → entries (n_cache (ntf s)) !! ws = Some e →
  (∃ tr v, ce_snapshot e = ca_Snapshot (compile tr.*2 v) ∧ Forall (λ r, iv s ws <= r.1) tr) ∧
  (wr s ws <= iv s ws → compiled_now compile s ws (ce_snapshot e)).
Proof.
  intros Hs Hb He. pose proof (si_cache _ _ (reachable_sinv compile t s Hs Hb) ws e He) as Hent.
  unfold entry_ok in Hent. destruct (prov s ws) as [tr v]. destruct Hent as (-> & Htr & Hsi). simpl. split.
  - by exists tr, v.
  - intros Hw. exists (length tr), v. unfold compiled_of. by rewrite (trace_now s ws tr (iv s ws)).
Qed.

(** No call of [GetOrCompile] that is answered from the cache or leads its
    flight returns a snapshot older than the invalidations before the call:
    every read behind the snapshot came after the last of them, the uncached
    snapshot of the last retry included.  A workspace not written since that
    invalidation gets a compile of its current tables. *)
Theorem GetOrCompile_not_stale {T} (compile : list T → Z → CompiledACL) t s tid ws i p tr v :
  fresh_start compile t s → invs s < 2 ^ 64 →
  calls s !! tid = Some (MkCall ws i p) → p = Answered tr v ∨ p = Returning tr v →
  Forall (λ r, i <= r.1) tr ∧
  (wr s ws <= i → compiled_now compile s ws (ca_Snapshot (compile tr.*2 v))).
Proof.
  intros Hs Hb Ht Hp. destruct (si_calls _ _ (reachable_sinv compile t s Hs Hb) _ _ Ht) as [_ Hok]. simpl in Hok.
  assert (trace_ok s ws tr ∧ since i tr) as [Htr Hsi] by (by destruct Hp as [-> | ->]).
  split; [done|]. intros Hw. exists (length tr), v. by rewrite (trace_now s ws tr i).
Qed.

(** ** Runs *)

(** Tables that are one number, and a compile that keeps the last one read. *)
Definition demo_snapshot (x v : Z) : ACLSnapshot := MkACLSnapshot "ws" v x [] [] "" "" [].
Definition demo_compile (reads : list Z) (v : Z) : CompiledACL :=
  MkCompiledACL (demo_snapshot (List.last reads 0) v) zero_time.
Definition demo_state (l : list action) : ssys :=
  default (sinit (NewNotifier NewSnapshotCache) (λ _, 0))
    (do_actions demo_compile l (sinit (NewNotifier NewSnapshotCache) (λ _, 0))).

(** A change, its notification, and a call that compiles and stores. *)
Definition demo_cached : ssys :=
  demo_state [AWrite "ws" 7; AInvalidate "ws"; ACall 0 "ws"; AStart 0; ARead 0; ACompiled 0; AStore 0].

Lemma demo_stored_reachable : fresh_start demo_compile (λ _, 0) demo_cached.
Proof.
  apply (do_actions_sound demo_compile
    [AWrite "ws" 7; AInvalidate "ws"; ACall 0 "ws"; AStart 0; ARead 0; ACompiled 0; AStore 0]).
  vm_compute. reflexivity.
Qed.

Lemma snapshot_cache_fresh_witness :
  compiled_now demo_compile demo_cached "ws" (demo_snapshot 7 0).
Proof.
  apply (snapshot_cache_fresh demo_compile (λ _, 0) demo_cached "ws" (MkCacheEntry (demo_snapshot 7 0) zero_time));
    [apply demo_stored_reachable|reflexivity|vm_compute; reflexivity|vm_compute; discriminate].
Defined.

Lemma GetOrCompile_not_stale_witness :
  compiled_now demo_compile demo_cached "ws" (demo_snapshot 7 0).
Proof.
  apply (GetOrCompile_not_stale demo_compile (λ _, 0) demo_cached 0 "ws" 2 (Returning [(5, 7)] 0) [(5, 7)] 0);
    [apply demo_stored_reachable|reflexivity|vm_compute; reflexivity|by right|vm_compute; discriminate].
Defined.

(** A call joins the flight of [demo_cached] after another change and its
    notification. *)
Definition demo_joined : ssys :=
  demo_state [AWrite "ws" 7; ACall 0 "ws"; AStart 0; ARead 0; ACompiled 0; AStore 0;
              AWrite "ws" 8; AInvalidate "ws"; AJoin 1 0; ADeliver 1].

(** A call that joins a flight can get a snapshot older than the policy
    change and invalidation it was made after: the flight stored its snapshot
    before the invalidation and had not returned yet.  The call gets the tables
    as they were before the change. *)
Theorem joined_flight_may_be_stale :
  fresh_start demo_compile (λ _, 0) demo_joined ∧
  calls demo_joined !! 1%nat = Some (MkCall "ws" (iv demo_joined "ws") (Delivered [(4, 7)] 0)) ∧
  wr demo_joined "ws" <= iv demo_joined "ws" ∧
  entries (n_cache (ntf demo_joined)) !! "ws" = None ∧
  4 < iv demo_joined "ws" ∧ tables demo_joined "ws" = 8.
Proof.
  split; [|vm_compute; intuition discriminate].
  apply (do_actions_sound demo_compile
    [AWrite "ws" 7; ACall 0 "ws"; AStart 0; ARead 0; ACompiled 0; AStore 0;
     AWrite "ws" 8; AInvalidate "ws"; AJoin 1 0; ADeliver 1]).
  vm_compute. reflexivity.
Qed.

(** ** The operations themselves *)

Lemma locked_alone {A} (f : time → SnapshotCache → A * SnapshotCache) w :
  moves w = [] → locked f w = ((f (clock w) (sc w)).1, CWorld (f (clock w) (sc w)).2 (clock w) [] (expiries w)).
Proof. unfold locked. intros ->. unfold id. by destruct (f _ _). Qed.

(** [Get] with no other goroutine: the lookup, and the eviction it causes. *)
Definition after_get (ws : string) (w : cworld) : cworld :=
  match get_lookup (clock w) ws (sc w) with
  | Expired => CWorld (MkSnapshotCache (delete ws (entries (sc w))) (epoch (sc w))) (clock w) [] (expiries w ++ [ws])
  | _ => w
  end.

Lemma Get_alone ws w :
  moves w = [] →
  Get ws w = (match get_lookup (clock w) ws (sc w) with Hit snap => Some snap | _ => None end, after_get ws w).
Proof.
  intros Hm. unfold Get, after_get. rewrite locked_alone by done. destruct w as [[es ep] now ms ex]. simpl in *. subst ms.
  unfold get_lookup at 1. simpl. destruct (es !! ws) as [e|] eqn:He; unfold get_lookup; simpl; rewrite He; [|done].
  destruct (entry_valid now e) eqn:Hv; [done|]. unfold locked, get_evict, id. simpl. by rewrite He, Hv.
Qed.

Lemma after_get_moves ws w : moves w = [] → moves (after_get ws w) = [].
Proof. unfold after_get. by destruct (get_lookup _ _ _). Qed.

(** A call of [GetOrCompile] that no other goroutine disturbs answers from a
    valid entry without compiling or changing the cache.  Otherwise it drops an
    expired entry, announcing the expiry, compiles once, and either stores and
    returns the compiled snapshot or returns the compiler's error with no entry
    left. *)
Theorem GetOrCompile_alone {E} (answer : result E CompiledACL) ws w :
  moves w = [] →
  let '(r, w') := GetOrCompile (λ w, (answer, w)) ws w in
  match get_lookup (clock w) ws (sc w), answer with
  | Hit snap, _ => r = Ok (Some snap) ∧ w' = w
  | l, Err e => r = Err e ∧ sc w' = MkSnapshotCache (delete ws (entries (sc w))) (epoch (sc w)) ∧
      expiries w' = expiries w ++ match l with Expired => [ws] | _ => [] end
  | l, Ok acl => r = Ok (Some (ca_Snapshot acl)) ∧
      sc w' = MkSnapshotCache (<[ws := MkCacheEntry (ca_Snapshot acl) (ca_ValidUntil acl)]> (entries (sc w))) (epoch (sc w)) ∧
      expiries w' = expiries w ++ match l with Expired => [ws] | _ => [] end
  end.
Proof.
  intros Hm. unfold GetOrCompile. rewrite Get_alone by done.
  assert (∀ l, get_lookup (clock w) ws (sc w) = l → l = Miss ∨ l = Expired →
    entries (sc (after_get ws w)) = delete ws (entries (sc w)) ∧ epoch (sc (after_get ws w)) = epoch (sc w) ∧
    expiries (after_get ws w) = expiries w ++ match l with Expired => [ws] | _ => [] end) as Hget.
  { intros l Hl [-> | ->]; unfold after_get; rewrite Hl; simpl; rewrite ?app_nil_r; [|done].
    unfold get_lookup in Hl. repeat case_match; try done. by rewrite delete_id. }
  assert (∀ l, get_lookup (clock w) ws (sc w) = l → l = Miss ∨ l = Expired →
    compile_loop (λ w, (answer, w)) maxCompileRetries ws None (after_get ws w) =
      match answer with
      | Err e => (Err e, CWorld (sc (after_get ws w)) (clock (after_get ws w)) [] (expiries (after_get ws w)))
      | Ok acl => (Ok (Some (ca_Snapshot acl)),
          CWorld (setLocked ws (ca_Snapshot acl) (ca_ValidUntil acl) (sc (after_get ws w)))
            (clock (after_get ws w)) [] (expiries (after_get ws w)))
      end) as Hloop.
  { intros l _ _. simpl. rewrite locked_alone by (by apply after_get_moves). simpl.
    destruct answer as [acl|e]; [|done]. rewrite locked_alone by done. simpl.
    unfold SetIfEpoch. by rewrite Z.eqb_refl. }
  destruct (get_lookup (clock w) ws (sc w)) as [|snap|] eqn:Hl.
  2:{ unfold after_get. by rewrite Hl. }
  all: rewrite (Hloop _ eq_refl) by auto; destruct (Hget _ eq_refl) as (He & Hp & Hx); [by auto|].
  all: destruct answer as [acl|e]; cbn [sc expiries]; (split; [done|]); (split; [|done]).
  2,4: destruct (sc (after_get ws w)); simpl in *; congruence.
  all: unfold setLocked; rewrite He, lookup_delete_eq, insert_delete_eq; by rewrite Hp.
Qed.

Lemma GetOrCompile_alone_witness :
  let acl := MkCompiledACL (demo_snapshot 7 1) (10 * Minute) in
  let stale := MkCacheEntry (demo_snapshot 6 1) Minute in
  let w := CWorld (MkSnapshotCache {["ws" := stale]} {["ws" := 3]}) (2 * Minute) [] [] in
  (GetOrCompile (λ w, (Ok (E:=string) acl, w)) "ws" w).1 = Ok (Some (demo_snapshot 7 1)).
Proof.
  intros acl stale w. pose proof (GetOrCompile_alone (Ok (E:=string) acl) "ws" w eq_refl) as Hgoc.
  revert Hgoc. vm_compute. tauto.
Defined.

Lemma count_incr_eq `{Countable K} (m : gmap K Z) k : count (incr k m) k = (count m k + 1) mod 2 ^ 64.
Proof. unfold count at 1, incr. by rewrite lookup_insert_eq. Qed.
Lemma count_incr_ne `{Countable K} (m : gmap K Z) k j : j ≠ k → count (incr k m) j = count m j.
Proof. intros. unfold count, incr. by rewrite lookup_insert_ne. Qed.

(** Notifying a policy change of a workspace advances its version, drops its
    cached snapshot, and makes every compile begun before lose its store.  Other
    workspaces keep their version, epoch and snapshot.  The push hook fires
    before the listeners.  The outbox handler of invalidation requests does the
    same. *)
Theorem NotifyPolicyChange_effect ws n :
  ws ≠ "" → 0 <= Epoch ws (n_cache n) < 2 ^ 64 →
  let '(r, n') := NotifyPolicyChange ws n in
  r = Ok ((if pushHook n then [(PushHook, ws)] else []) ++ ((λ i, (Listener i, ws)) <$> seq 0 (listeners n))) ∧
  Version ws n' = (Version ws n + 1) mod 2 ^ 64 ∧
  entries (n_cache n') !! ws = None ∧
  (∀ snap until, SetIfEpoch ws snap until (Epoch ws (n_cache n)) (n_cache n') = (false, n_cache n')) ∧
  (∀ other, other ≠ ws → Version other n' = Version other n ∧
     Epoch other (n_cache n') = Epoch other (n_cache n) ∧
     entries (n_cache n') !! other = entries (n_cache n) !! other) ∧
  InvalidationHandler_Handle ws n = (r, n').
Proof.
  intros Hne Hb. unfold InvalidationHandler_Handle, NotifyPolicyChange. rewrite bool_decide_false by done.
  unfold Version, Epoch in *. simpl. split_and!; try done.
  - apply count_incr_eq.
  - apply lookup_delete_eq.
  - intros snap until. unfold SetIfEpoch, Epoch. simpl. rewrite count_incr_eq.
    destruct (Z.eqb_spec ((count (epoch (n_cache n)) ws + 1) mod 2 ^ 64) (count (epoch (n_cache n)) ws)) as [Heq|]; [|done].
    destruct (decide (count (epoch (n_cache n)) ws + 1 = 2 ^ 64)) as [Hw|].
    + rewrite Hw, Z.mod_same in Heq by lia. lia.
    + rewrite Z.mod_small in Heq by lia. lia.
  - intros other Ho. rewrite !count_incr_ne, lookup_delete_ne by done. done.
Qed.

Lemma NotifyPolicyChange_effect_witness :
  let n := RegisterPushHook (AddChangeListener (NewNotifier NewSnapshotCache)) in
  (NotifyPolicyChange "ws" n).1 = Ok [(PushHook, "ws"); (Listener 0, "ws")] ∧ Version "ws" (NotifyPolicyChange "ws" n).2 = 1.
Proof.
  intros n. pose proof (NotifyPolicyChange_effect "ws" n) as Hn. revert Hn. vm_compute. intros Hn.
  destruct Hn as (? & ? & _); [discriminate|by split|]. by split.
Defined.
