(* ===== verification/Posture.v ===== *)
(** * Device posture: reports, profiles and country rules

    The pure part of controller/internal/posture: validating a client's report
    (validate.go), judging a profile (evaluate.go) and country rules
    (country.go).  [uuid.Parse] is a parameter that returns the canonical
    spelling; [encoding/json] round-trips the structures it stores. *)

From Stdlib Require Import ZArith Lia.
From S2P Require Import Prelude GoText AclCompiler.
Open Scope Z_scope.

(** ** Checks *)

Definition MaxChecks : Z := 32.
Definition MaxDetailBytes : Z := 256.
Definition MaxMetadataBytes : Z := 64.
Definition MaxFutureClockSkew : duration := 5 * Minute.

Definition CheckOSVersion : string := "linux.os.version".
Definition CheckLUKS : string := "linux.disk_encryption.luks".
Definition CheckFirewall : string := "linux.firewall.active".
Definition CheckSecureBoot : string := "linux.secure_boot.enabled".
Definition CheckDeviceApproved : string := "zecurity.device.approved".
Definition CheckNetworkCountry : string := "zecurity.network.country".

Definition StatusPass : string := "PASS".
Definition StatusFail : string := "FAIL".
Definition StatusUnsupported : string := "UNSUPPORTED".
Definition StatusUnknown : string := "UNKNOWN".
Definition StatusError : string := "ERROR".
Definition recognizedStatuses : list string := [StatusPass; StatusFail; StatusUnsupported; StatusUnknown; StatusError].

Record CheckDescriptor := MkCheckDescriptor {
  cd_ID : string; cd_Label : string; cd_Platform : string; cd_AllowUnsupportedMeaningful : bool
}.
Definition supportedCheckDescriptors : list CheckDescriptor := [
  MkCheckDescriptor CheckOSVersion "OS version" "linux" true;
  MkCheckDescriptor CheckLUKS "Disk encryption (LUKS)" "linux" true;
  MkCheckDescriptor CheckFirewall "Firewall active" "linux" true;
  MkCheckDescriptor CheckSecureBoot "Secure Boot enabled" "linux" true].
Definition serverCheckDescriptors : list CheckDescriptor := [
  MkCheckDescriptor CheckDeviceApproved "Approved by an admin" "any" false;
  MkCheckDescriptor CheckNetworkCountry "Device country (public IP)" "any" false].

Definition recognizedChecks : list string := cd_ID <$> supportedCheckDescriptors.
Definition IsServerCheck (checkID : string) : bool := bool_decide (checkID ∈ cd_ID <$> serverCheckDescriptors).
Definition IsRecognizedCheck (checkID : string) : bool :=
  bool_decide (checkID ∈ recognizedChecks) || IsServerCheck checkID.
Definition SupportedChecks : list string := cd_ID <$> supportedCheckDescriptors.
Definition SupportedCheckDescriptors : list CheckDescriptor := supportedCheckDescriptors ++ serverCheckDescriptors.

(** ** Reports *)

Record CheckInput := MkCheckInput { ci_CheckID : string; ci_Status : string; ci_Detail : string }.
Record ReportInput := MkReportInput {
  ri_ReportID : string; ri_ReportedAt : time; ri_ClientVersion : string;
  ri_OSName : string; ri_OSVersion : string; ri_Checks : list CheckInput
}.
Record Observation := MkObservation { ob_CheckID : string; ob_Status : string; ob_Detail : option string }.
Record Report := MkReport {
  r_ReportID : string; r_ClientVersion : string; r_OSInfo : string * string; (* name, version *)
  r_ReportedAt : time; r_Observations : list Observation
}.

Inductive report_error :=
| ErrInvalidReport | ErrNoRecognizedChecks | ErrDuplicateCheck (checkID : string)
| ErrInvalidReportID | ErrInvalidReportedTime.

Definition metadata_ok (value : string) : bool := ValidString value && negb (MaxMetadataBytes <? blen value).

(** One check of the report: dropped, or the observation to keep. *)
Definition check_observation (checkID : string) (check : CheckInput) : option Observation :=
  if negb (bool_decide (checkID ∈ recognizedChecks)) then None
  else if negb (bool_decide (ci_Status check ∈ recognizedStatuses)) then None
  else if negb (ValidString (ci_Detail check)) then None
  else if MaxDetailBytes <? blen (ci_Detail check) then None
  else Some (MkObservation checkID (ci_Status check)
               (if ci_Detail check ≟ "" then None else Some (ci_Detail check))).

(** The loop over the checks, with the ids seen so far. *)
Fixpoint read_checks (seen : gset string) (checks : list CheckInput) : result report_error (list Observation) :=
  match checks with
  | [] => Ok []
  | check :: rest =>
      let checkID := TrimSpace (ci_CheckID check) in
      if checkID ≟ "" then Err ErrInvalidReport
      else if bool_decide (checkID ∈ seen) then Err (ErrDuplicateCheck checkID)
      else
        let? observations := read_checks ({[checkID]} ∪ seen) rest in
        Ok (option_list (check_observation checkID check) ++ observations)
  end.

Definition ValidateReport (parse : string → option uuid) (now : time) (input : ReportInput) : result report_error Report :=
  if negb (parse (ri_ReportID input) ≟ Some (ri_ReportID input)) then Err ErrInvalidReportID
  else if time_Before (ri_ReportedAt input) (time_Add now (- MaxReportAge))
          || time_After (ri_ReportedAt input) (time_Add now MaxFutureClockSkew) then Err ErrInvalidReportedTime
  else if Z.of_nat (length (ri_Checks input)) =? 0 then Err ErrNoRecognizedChecks
  else if MaxChecks <? Z.of_nat (length (ri_Checks input)) then Err ErrInvalidReport
  else if negb (forallb metadata_ok [ri_ClientVersion input; ri_OSName input; ri_OSVersion input])
  then Err ErrInvalidReport
  else
    let? observations := read_checks ∅ (ri_Checks input) in
    if Z.of_nat (length observations) =? 0 then Err ErrNoRecognizedChecks
    else Ok (MkReport (ri_ReportID input) (ri_ClientVersion input) (ri_OSName input, ri_OSVersion input)
               (ri_ReportedAt input) observations).

(** ** Country rules *)

Definition MaxCountryRuleEntries : Z := 250.
Record CountryRule := MkCountryRule { Allow : list string; Deny : list string }.
Inductive country_error := TooManyEntries | InvalidCode (c : string) | EmptyRule | InBothLists (c : string).

Definition ValidCountryCode (s : string) : bool :=
  match bytes s with
  | [a; b] => in_range 65 90 a && in_range 65 90 b
  | _ => false
  end.

(** The loop of [norm]; [out] is what it has kept. *)
Fixpoint norm_codes (out codes : list string) : result country_error (list string) :=
  match codes with
  | [] => Ok out
  | c :: rest =>
      let c := ToUpper (TrimSpace c) in
      if negb (ValidCountryCode c) then Err (InvalidCode c)
      else norm_codes (if bool_decide (c ∈ out) then out else out ++ [c]) rest
  end.

Definition norm (codes : list string) : result country_error (list string) :=
  if MaxCountryRuleEntries <? Z.of_nat (length codes) then Err TooManyEntries
  else let? out := norm_codes [] codes in Ok (merge_sort String.le out).

Definition NormalizeCountryRule (rule : CountryRule) : result country_error CountryRule :=
  let? allow := norm (Allow rule) in
  let? deny := norm (Deny rule) in
  if (Z.of_nat (length allow) =? 0) && (Z.of_nat (length deny) =? 0) then Err EmptyRule
  else match list_find (λ c, c ∈ deny) allow with
       | Some (_, c) => Err (InBothLists c)
       | None => Ok (MkCountryRule allow deny)
       end.

Definition Allows (r : CountryRule) (country : string) : bool :=
  if (country ≟ "") || bool_decide (country ∈ Deny r) then false
  else (Z.of_nat (length (Allow r)) =? 0) || bool_decide (country ∈ Allow r).

(** ** Judging a profile *)

Record Requirement := MkRequirement {
  rq_CheckID : string; rq_AllowUnsupported : bool; rq_Countries : option CountryRule
}.

Definition requirementSatisfied (requirement : Requirement) (observation : Observation) : bool :=
  if ob_Status observation ≟ StatusPass then true
  else if ob_Status observation ≟ StatusUnsupported then rq_AllowUnsupported requirement
  else false.

Definition requirementFailureReason (requirement : Requirement) (observation : Observation) : string :=
  if (ob_Status observation ≟ StatusUnsupported) && negb (rq_AllowUnsupported requirement)
  then "check " +:+ rq_CheckID requirement +:+ " is unsupported"
  else
    let detail := match ob_Detail observation with
                  | Some d => if TrimSpace d ≟ "" then "" else ": " +:+ TrimSpace d
                  | None => ""
                  end in
    "check " +:+ rq_CheckID requirement +:+ ": " +:+ ob_Status observation +:+ detail.

Definition stringValue (value : option string) : string := default "" value.

Definition countryRequirementSatisfied (requirement : Requirement) (observation : Observation) : bool * string :=
  match rq_Countries requirement, ob_Detail observation with
  | None, _ => (false, "check " +:+ CheckNetworkCountry +:+ " has no country rule")
  | Some rule, Some country =>
      if negb (ob_Status observation ≟ StatusPass)
      then (false, "check " +:+ CheckNetworkCountry +:+ ": " +:+ country)
      else if Allows rule country then (true, "")
      else if bool_decide (country ∈ Deny rule)
      then (false, "check " +:+ CheckNetworkCountry +:+ ": " +:+ country +:+ " is denied")
      else (false, "check " +:+ CheckNetworkCountry +:+ ": " +:+ country +:+ " is not allowed")
  | Some _, None => (false, "check " +:+ CheckNetworkCountry +:+ ": ")
  end.

(** What the country check is judged against: the last sighting. *)
Definition countryObservation (seen : option (string * time)) (now : time) : Observation :=
  let '(status, detail) :=
    match seen with
    | None => (StatusUnknown, "device not seen yet")
    | Some (country, observedAt) =>
        if MaxReportAge <? now - observedAt then (StatusUnknown, "device location is stale")
        else if country ≟ "" then (StatusUnknown, "device location unknown (no country for its address)")
        else (StatusPass, country)
    end in
  MkObservation CheckNetworkCountry status (Some detail).

Definition approvalObservation (approved : bool) : Observation :=
  if approved then MkObservation CheckDeviceApproved StatusPass (Some "approved by an admin")
  else MkObservation CheckDeviceApproved StatusFail (Some "device not approved by an admin").

Record ProfileResult := MkProfileResult {
  pr_Satisfied : bool; pr_Reason : string; pr_ResultRevision : Z; pr_ExpiresAt : time
}.

(** The loop over the requirements: the reason of the first that fails. *)
Fixpoint judge (requirements : list Requirement) (observations : gmap string Observation) : option string :=
  match requirements with
  | [] => None
  | requirement :: rest =>
      match observations !! rq_CheckID requirement with
      | None => Some ("missing required check " +:+ rq_CheckID requirement)
      | Some observation =>
          if rq_CheckID requirement ≟ CheckNetworkCountry then
            let '(ok, reason) := countryRequirementSatisfied requirement observation in
            if ok then judge rest observations else Some reason
          else if requirementSatisfied requirement observation then judge rest observations
          else Some (requirementFailureReason requirement observation)
      end
  end.

Definition EvaluateProfile (now reportReceivedAt : time) (revision : Z) (requirements : list Requirement)
    (observations : gmap string Observation) : ProfileResult :=
  let expiresAt := time_Add reportReceivedAt MaxReportAge in
  match requirements with
  | [] => MkProfileResult false "profile has no requirements" revision expiresAt
  | _ =>
      if time_After now expiresAt then MkProfileResult false "posture report is stale" revision expiresAt
      else match judge requirements observations with
           | Some reason => MkProfileResult false reason revision expiresAt
           | None => MkProfileResult true "all requirements satisfied" revision expiresAt
           end
  end.
