(* ===== verification/PostureFacts.v ===== *)
(** * What posture judgements mean

    When a profile is satisfied, what a validated report may contain, and the
    normal form of country rules. *)

From Stdlib Require Import ZArith Lia Ascii.
From S2P Require Import Prelude GoText AclCompiler Posture.
Open Scope Z_scope.

(** ** Profiles *)

(** The device was observed in a country the rule allows. *)
Definition country_met (rule : option CountryRule) (o : Observation) : Prop :=
  ∃ r c, rule = Some r ∧ ob_Status o = StatusPass ∧ ob_Detail o = Some c ∧
    c ≠ "" ∧ c ∉ Deny r ∧ (Allow r = [] ∨ c ∈ Allow r).

Definition requirement_met (observations : gmap string Observation) (r : Requirement) : Prop :=
  ∃ o, observations !! rq_CheckID r = Some o ∧
    if rq_CheckID r ≟ CheckNetworkCountry then country_met (rq_Countries r) o
    else ob_Status o = StatusPass ∨ (ob_Status o = StatusUnsupported ∧ rq_AllowUnsupported r = true).

Lemma Allows_true r c : Allows r c = true ↔ c ≠ "" ∧ c ∉ Deny r ∧ (Allow r = [] ∨ c ∈ Allow r).
Proof.
  unfold Allows. destruct (Allow r) as [|x l]; repeat case_bool_decide; simpl; split; try naive_solver;
    intros; bool_simpl; naive_solver.
Qed.

Lemma country_satisfied r o : (countryRequirementSatisfied r o).1 = true ↔ country_met (rq_Countries r) o.
Proof.
  unfold countryRequirementSatisfied, country_met. destruct (rq_Countries r) as [rule|]; [|naive_solver].
  destruct (ob_Detail o) as [c|]; [|naive_solver].
  destruct (bool_decide_reflect (ob_Status o = StatusPass)); simpl; [|naive_solver].
  pose proof (Allows_true rule c). destruct (Allows rule c); simpl; [naive_solver|].
  case_bool_decide; simpl; naive_solver.
Qed.

Lemma requirement_satisfied r o :
  requirementSatisfied r o = true ↔
  ob_Status o = StatusPass ∨ (ob_Status o = StatusUnsupported ∧ rq_AllowUnsupported r = true).
Proof. unfold requirementSatisfied. repeat case_bool_decide; naive_solver. Qed.

Lemma judge_None requirements observations :
  judge requirements observations = None ↔ Forall (requirement_met observations) requirements.
Proof.
  induction requirements as [|r rest IH]; simpl; [by split|]. rewrite Forall_cons, <-IH.
  unfold requirement_met. destruct (observations !! rq_CheckID r) as [o|]; [|naive_solver].
  case_bool_decide.
  - pose proof (country_satisfied r o). destruct (countryRequirementSatisfied r o) as [[] reason]; naive_solver.
  - pose proof (requirement_satisfied r o). destruct (requirementSatisfied r o); naive_solver.
Qed.

Lemma EvaluateProfile_satisfied now received revision requirements observations :
  pr_Satisfied (EvaluateProfile now received revision requirements observations) = true ↔
  requirements ≠ [] ∧ now <= received + MaxReportAge ∧ Forall (requirement_met observations) requirements.
Proof.
  rewrite <-judge_None. unfold EvaluateProfile, time_After, time_Add.
  destruct requirements as [|r rest]; [simpl; naive_solver|].
  destruct (Z.ltb_spec (received + MaxReportAge) now); [split; [done|lia]|].
  destruct (judge (r :: rest) observations); cbn [pr_Satisfied]; split; [done|by intros (_ & _ & ?)| |done].
  intros _. split_and!; [done|lia|done].
Qed.

(** A profile is satisfied exactly when it has requirements, the report is
    not older than the maximum age, and every requirement is met: the check was
    observed and passed, or is unsupported where that is allowed; for the
    country check the device was located in a country that the rule does not
    deny and, if it lists any, allows. *)
Theorem EvaluateProfile_iff now received revision requirements observations :
  pr_Satisfied (EvaluateProfile now received revision requirements observations) = true ↔
  requirements ≠ [] ∧ now <= received + MaxReportAge ∧ Forall (requirement_met observations) requirements.
Proof. apply EvaluateProfile_satisfied. Qed.

(** The country check passes only on a recent sighting in a known country. *)
Lemma country_observation_met rule seen now :
  country_met (Some rule) (countryObservation seen now) ↔
  ∃ c t, seen = Some (c, t) ∧ now - t <= MaxReportAge ∧ Allows rule c = true.
Proof.
  unfold country_met, countryObservation. destruct seen as [[c t]|]; [|simpl; naive_solver].
  destruct (Z.ltb_spec MaxReportAge (now - t)); [simpl; naive_solver lia|].
  destruct (bool_decide_reflect (c = "")) as [->|]; simpl.
  - split; [naive_solver|]. intros (c & t' & [= <- <-] & _ & (? & _)%Allows_true). done.
  - setoid_rewrite Allows_true. naive_solver.
Qed.

(** ** Reports *)

Definition observation_ok (o : Observation) : Prop :=
  ob_CheckID o ∈ recognizedChecks ∧ ob_Status o ∈ recognizedStatuses ∧
  match ob_Detail o with
  | Some d => d ≠ "" ∧ ValidString d = true ∧ blen d <= MaxDetailBytes
  | None => True
  end.

Lemma check_observation_ok id check o :
  check_observation id check = Some o → observation_ok o ∧ ob_CheckID o = id.
Proof.
  unfold check_observation, observation_ok. intros Ho.
  destruct (bool_decide_reflect (id ∈ recognizedChecks)); [|done].
  destruct (bool_decide_reflect (ci_Status check ∈ recognizedStatuses)); [|done].
  destruct (ValidString (ci_Detail check)) eqn:Hv; [|done].
  destruct (Z.ltb_spec MaxDetailBytes (blen (ci_Detail check))); [done|].
  injection Ho as <-. simpl. by case_bool_decide.
Qed.

Lemma read_checks_spec seen checks obs :
  read_checks seen checks = Ok obs →
  Forall observation_ok obs ∧ NoDup (ob_CheckID <$> obs) ∧ (length obs <= length checks)%nat ∧
  (∀ o, o ∈ obs → ob_CheckID o ∈ (λ c, TrimSpace (ci_CheckID c)) <$> checks) ∧
  NoDup ((λ c, TrimSpace (ci_CheckID c)) <$> checks) ∧
  (∀ c, c ∈ checks → TrimSpace (ci_CheckID c) ∉ seen).
Proof.
  revert seen obs. induction checks as [|check rest IH]; intros seen obs; simpl.
  { intros [= <-]. split_and!; try constructor; set_solver. }
  case_bool_decide as Hne; [done|]. case_bool_decide as Hseen; [done|].
  intros (obs' & (Hok & Hnd & Hlen & Hsub & Hnd' & Hfresh)%IH & [= <-])%result_bind_Ok.
  assert (TrimSpace (ci_CheckID check) ∉ (λ c, TrimSpace (ci_CheckID c)) <$> rest) as Hnew.
  { intros (c & Heq & Hc)%list_elem_of_fmap. apply (Hfresh c Hc). set_solver. }
  assert (∀ c, c ∈ check :: rest → TrimSpace (ci_CheckID c) ∉ seen) as Hall.
  { intros c [->|Hc]%elem_of_cons; [done|]. specialize (Hfresh c Hc). set_solver. }
  destruct (check_observation _ check) as [o|] eqn:Ho; simpl.
  - apply check_observation_ok in Ho as [Hoo Hid]. split_and!; try done.
    + by constructor.
    + constructor; [|done]. rewrite Hid. intros (o' & Heq & Ho')%list_elem_of_fmap. apply Hnew. rewrite Heq. by apply Hsub.
    + simpl. lia.
    + intros o' [->|Ho']%elem_of_cons; [rewrite Hid; left|right; by apply Hsub].
    + by constructor.
  - split_and!; try done; [lia|intros; right; by apply Hsub|by constructor].
Qed.

Lemma client_checks : Forall (λ c, IsServerCheck c = false) recognizedChecks.
Proof. repeat constructor. Qed.

(** A report that passes validation carries the client's canonical report
    id, was made within the accepted time window, and has between one and
    [MaxChecks] observations, each of a different check that clients may report,
    with a known status and a bounded valid detail.  It never carries a check
    that only the controller observes, and two checks with one id reject the
    report. *)
Theorem ValidateReport_sound parse now input r :
  ValidateReport parse now input = Ok r →
  parse (r_ReportID r) = Some (r_ReportID r) ∧
  now - MaxReportAge <= r_ReportedAt r <= now + MaxFutureClockSkew ∧
  1 <= Z.of_nat (length (r_Observations r)) <= MaxChecks ∧
  Forall observation_ok (r_Observations r) ∧ NoDup (ob_CheckID <$> r_Observations r) ∧
  Forall (λ o, IsServerCheck (ob_CheckID o) = false) (r_Observations r) ∧
  NoDup ((λ c, TrimSpace (ci_CheckID c)) <$> ri_Checks input) ∧
  Forall (λ v, blen v <= MaxMetadataBytes) [r_ClientVersion r; (r_OSInfo r).1; (r_OSInfo r).2].
Proof.
  unfold ValidateReport. destruct (negb (bool_decide _)) eqn:Hid; [done|].
  destruct (_ || _) eqn:Ht; [done|]. destruct (_ =? 0) eqn:Hz; [done|].
  destruct (MaxChecks <? _) eqn:Hmax; [done|]. destruct (forallb _ _) eqn:Hm; [|done]. simpl negb. cbn iota.
  intros (obs & Hobs & Hr)%result_bind_Ok. destruct (Z.of_nat (length obs) =? 0) eqn:Hz'; [done|].
  injection Hr as <-. simpl. apply read_checks_spec in Hobs as (Hok & Hnd & Hlen & _ & Hnd' & _).
  unfold time_Before, time_After, time_Add in Ht. apply orb_false_iff in Ht as [?%Z.ltb_ge ?%Z.ltb_ge].
  apply negb_false_iff, bool_decide_eq_true in Hid. apply Z.eqb_neq in Hz, Hz'. apply Z.ltb_ge in Hmax.
  split_and!; try done; try lia.
  - eapply Forall_impl; [exact Hok|]. intros o (Hrec & _). by eapply Forall_forall in Hrec; [|apply client_checks].
  - simpl in Hm. unfold metadata_ok in Hm. bool_simpl. repeat constructor; lia.
Qed.

(** ** Country rules *)

Definition code_chars : list ascii := (λ n, chr (Z.of_nat n)) <$> seq 65 26.

Lemma code_char a : in_range 65 90 a = true → a ∈ code_chars.
Proof.
  unfold in_range, code_chars. intros [Hlo Hhi]%andb_true_iff. apply Z.leb_le in Hlo, Hhi.
  apply list_elem_of_fmap. exists (Z.to_nat (code a)). split; [|apply elem_of_seq; lia].
  rewrite Z2Nat.id by lia. unfold chr, code. by rewrite N2Z.id, ascii_N_embedding.
Qed.

(** Trimming and upper-casing leave a valid code alone. *)
Lemma valid_code_normal c : ValidCountryCode c = true → ToUpper (TrimSpace c) = c.
Proof.
  unfold ValidCountryCode. intros Hv. destruct (bytes c) as [|a [|b [|]]] eqn:Hc; try done.
  apply andb_true_iff in Hv as [Ha%code_char Hb%code_char].
  rewrite <-(of_bytes_bytes c), Hc. clear Hc.
  assert (forallb (λ a, forallb (λ b, ToUpper (TrimSpace (of_bytes [a; b])) ≟ of_bytes [a; b]) code_chars) code_chars
    = true) as Hall by (vm_compute; reflexivity).
  rewrite forallb_forall in Hall. apply list_elem_of_In in Ha, Hb. specialize (Hall a Ha).
  rewrite forallb_forall in Hall. specialize (Hall b Hb). by apply bool_decide_eq_true in Hall.
Qed.

Lemma norm_codes_spec out codes l :
  norm_codes out codes = Ok l → NoDup out → Forall (λ c, ValidCountryCode c = true) out →
  NoDup l ∧ Forall (λ c, ValidCountryCode c = true) l ∧
  (∀ c, c ∈ l ↔ c ∈ out ∨ c ∈ (λ x, ToUpper (TrimSpace x)) <$> codes) ∧ (length l <= length out + length codes)%nat.
Proof.
  revert out. induction codes as [|x codes IH]; intros out; cbn [norm_codes].
  { intros [= <-] ? ?. split_and!; [done..|set_solver|simpl; lia]. }
  destruct (ValidCountryCode (ToUpper (TrimSpace x))) eqn:Hv; [|done]. simpl. intros Hn Hnd Hf.
  case_bool_decide as Hin; apply IH in Hn as (? & ? & Hl & ?).
  - split_and!; [done..| |lia]. intros c. rewrite Hl. set_solver.
  - done.
  - done.
  - split_and!; [done..| |rewrite length_app in *; simpl in *; lia]. intros c. rewrite Hl. set_solver.
  - apply NoDup_app. split_and!; [done|set_solver|apply NoDup_singleton].
  - apply Forall_app. split; [done|by constructor].
Qed.

Lemma norm_codes_fixed out codes :
  NoDup (out ++ codes) → Forall (λ c, ValidCountryCode c = true) codes → norm_codes out codes = Ok (out ++ codes).
Proof.
  revert out. induction codes as [|c codes IH]; intros out Hnd Hf; cbn [norm_codes]; [by rewrite app_nil_r|].
  apply Forall_cons in Hf as [Hc Hf]. rewrite (valid_code_normal c Hc), Hc. simpl.
  rewrite bool_decide_false. 2:{ apply NoDup_app in Hnd as (_ & Hd & _). intros Hin. apply (Hd c Hin). left. }
  rewrite IH; [by rewrite <-app_assoc| |done]. by rewrite <-app_assoc.
Qed.

(** A list of codes in normal form. *)
Definition normal_codes (l : list string) : Prop :=
  Sorted String.le l ∧ NoDup l ∧ Forall (λ c, ValidCountryCode c = true) l ∧ Z.of_nat (length l) <= MaxCountryRuleEntries.

Lemma norm_spec codes l :
  norm codes = Ok l → normal_codes l ∧ ∀ c, c ∈ l ↔ c ∈ (λ x, ToUpper (TrimSpace x)) <$> codes.
Proof.
  unfold norm. destruct (Z.ltb_spec MaxCountryRuleEntries (Z.of_nat (length codes))); [done|].
  intros (out & Ho & [= <-])%result_bind_Ok.
  apply norm_codes_spec in Ho as (Hnd & Hf & Hl & Hlen); [|constructor..].
  assert (merge_sort String.le out ≡ₚ out) as Hp by apply merge_sort_Permutation. split.
  - split_and!; [apply Sorted_merge_sort, _|by rewrite Hp|by rewrite Hp|rewrite Hp; simpl in Hlen; lia].
  - intros c. rewrite Hp, Hl. set_solver.
Qed.

Lemma norm_fixed l : normal_codes l → norm l = Ok l.
Proof.
  intros (Hs & Hnd & Hf & Hlen). unfold norm. destruct (Z.ltb_spec MaxCountryRuleEntries (Z.of_nat (length l))); [lia|].
  rewrite norm_codes_fixed by done. simpl. f_equal. apply (Sorted_unique String.le).
  - apply Sorted_merge_sort, _.
  - done.
  - apply merge_sort_Permutation.
Qed.

(** A country rule that passes normalization lists valid, sorted, distinct
    codes, the same countries as the input, in at least one list and none in
    both; normalizing it again changes nothing; and it lets a device through
    exactly in a known country that is not denied and, if any country is listed
    as allowed, is one of those. *)
Theorem NormalizeCountryRule_spec rule r :
  NormalizeCountryRule rule = Ok r →
  normal_codes (Allow r) ∧ normal_codes (Deny r) ∧
  (Allow r ≠ [] ∨ Deny r ≠ []) ∧ (∀ c, c ∈ Allow r → c ∉ Deny r) ∧
  (∀ c, c ∈ Allow r ↔ c ∈ (λ x, ToUpper (TrimSpace x)) <$> Allow rule) ∧
  (∀ c, c ∈ Deny r ↔ c ∈ (λ x, ToUpper (TrimSpace x)) <$> Deny rule) ∧
  NormalizeCountryRule r = Ok r ∧
  (∀ country, Allows r country = true ↔
     country ≠ "" ∧ country ∉ Deny r ∧ (Allow r = [] ∨ country ∈ Allow r)).
Proof.
  unfold NormalizeCountryRule.
  intros (allow & [Ha Ha']%norm_spec & (deny & [Hd Hd']%norm_spec & Hr)%result_bind_Ok)%result_bind_Ok.
  destruct (_ && _) eqn:He; [done|]. destruct (list_find (λ c, c ∈ deny) allow) as [[n c]|] eqn:Hf; [done|].
  injection Hr as <-. simpl. pose proof Hf as Hf'. apply list_find_None in Hf'. rewrite Forall_forall in Hf'.
  split_and!; try done.
  - destruct allow, deny; simpl in He; naive_solver.
  - rewrite (norm_fixed allow Ha). simpl. rewrite (norm_fixed deny Hd). simpl. by rewrite He, Hf.
  - apply Allows_true.
Qed.

(** ** Instances *)

Definition demo_report : ReportInput :=
  MkReportInput "r1" 0 "1.0" "Ubuntu" "24.04"
    [MkCheckInput " linux.firewall.active" "PASS" ""; MkCheckInput "zecurity.device.approved" "PASS" "";
     MkCheckInput "linux.os.version" "FAIL" "20.04"].

Lemma ValidateReport_sound_witness :
  ValidateReport Some Minute demo_report = Ok (MkReport "r1" "1.0" ("Ubuntu", "24.04") 0
    [MkObservation CheckFirewall StatusPass None; MkObservation CheckOSVersion StatusFail (Some "20.04")]) ∧
  Forall (λ o, IsServerCheck (ob_CheckID o) = false)
    [MkObservation CheckFirewall StatusPass None; MkObservation CheckOSVersion StatusFail (Some "20.04")].
Proof.
  assert (ValidateReport Some Minute demo_report = Ok (MkReport "r1" "1.0" ("Ubuntu", "24.04") 0
    [MkObservation CheckFirewall StatusPass None; MkObservation CheckOSVersion StatusFail (Some "20.04")])) as Hr
    by (vm_compute; reflexivity).
  split; [exact Hr|].
  exact (proj1 (proj2 (proj2 (proj2 (proj2 (proj2 (ValidateReport_sound Some Minute demo_report _ Hr))))))).
Defined.

Lemma NormalizeCountryRule_spec_witness :
  NormalizeCountryRule (MkCountryRule [" in"; "DE"; "de "] ["kp"]) = Ok (MkCountryRule ["DE"; "IN"] ["KP"]) ∧
  NormalizeCountryRule (MkCountryRule ["DE"; "IN"] ["KP"]) = Ok (MkCountryRule ["DE"; "IN"] ["KP"]).
Proof.
  assert (NormalizeCountryRule (MkCountryRule [" in"; "DE"; "de "] ["kp"]) = Ok (MkCountryRule ["DE"; "IN"] ["KP"])) as Hr
    by (vm_compute; reflexivity).
  split; [exact Hr|]. apply (NormalizeCountryRule_spec (MkCountryRule [" in"; "DE"; "de "] ["kp"])). exact Hr.
Defined.
