(* ===== verification/PostureStore.v ===== *)
(** * The posture tables (posture/store.go, resource_policy.go, country.go)

    Reports and observations, device profiles with their requirements and
    evaluations, sightings, and resource policies.  Unique keys of the schema
    are the keys of the tables; foreign keys and cascades are part of the
    statements they affect.  Requirement parameters are the country rule they
    encode, if any. *)

From Stdlib Require Import ZArith Lia.
From S2P Require Import Prelude Sql GoText Posture.
Open Scope Z_scope.

(** ** Tables *)

Record PDevice := MkPDevice { pd_workspace : uuid; pd_approved_at : option time; pd_revoked_at : option time }.
Record ReportRow := MkReportRow {
  rp_report_id : string; rp_device : uuid; rp_workspace : uuid; rp_client_version : string;
  rp_os_info : string * string; rp_reported_at : time; rp_received_at : time
}.
Record ProfileRow := MkProfileRow {
  pf_workspace : uuid; pf_name : string; pf_revision : Z; pf_manual_trust : bool;
  pf_created_at : time; pf_updated_at : time
}.
Record EvaluationRow := MkEvaluationRow {
  er_workspace : uuid; er_satisfied : bool; er_revision : Z; er_reason : option string;
  er_evaluated_at : time; er_report : option uuid
}.
Record SightingRow := MkSightingRow {
  sg_workspace : uuid; sg_country : string; sg_observed_at : time; sg_country_since : time
}.
Record PolicyRow := MkPolicyRow {
  po_workspace : uuid; po_name : string; po_description : option string; po_is_default : bool;
  po_created_at : time; po_updated_at : time
}.

Record PostureDB := MkPostureDB {
  q_workspaces : gset uuid;
  q_devices : gmap uuid PDevice;
  q_reports : gmap uuid ReportRow;
  q_observations : gmap (uuid * string) (string * option string); (* report, check: status, detail *)
  q_profiles : gmap uuid ProfileRow;
  q_requirements : gmap (uuid * string) (bool * option CountryRule); (* profile, check *)
  q_evaluations : gmap (uuid * uuid) EvaluationRow; (* device, profile *)
  q_sightings : gmap uuid SightingRow;
  q_policies : gmap uuid PolicyRow;
  q_policy_profiles : gmap (uuid * uuid) uuid; (* policy, profile: workspace *)
  q_resources : gmap uuid (uuid * uuid) (* tenant, policy *)
}.

Definition set_reports (r : gmap uuid ReportRow) (o : gmap (uuid * string) (string * option string)) (s : PostureDB) : PostureDB :=
  MkPostureDB (q_workspaces s) (q_devices s) r o (q_profiles s) (q_requirements s) (q_evaluations s)
    (q_sightings s) (q_policies s) (q_policy_profiles s) (q_resources s).
Definition set_profiles (m : gmap uuid ProfileRow) (s : PostureDB) : PostureDB :=
  MkPostureDB (q_workspaces s) (q_devices s) (q_reports s) (q_observations s) m (q_requirements s)
    (q_evaluations s) (q_sightings s) (q_policies s) (q_policy_profiles s) (q_resources s).
Definition set_requirements (m : gmap (uuid * string) (bool * option CountryRule)) (s : PostureDB) : PostureDB :=
  MkPostureDB (q_workspaces s) (q_devices s) (q_reports s) (q_observations s) (q_profiles s) m
    (q_evaluations s) (q_sightings s) (q_policies s) (q_policy_profiles s) (q_resources s).
Definition set_evaluations (m : gmap (uuid * uuid) EvaluationRow) (s : PostureDB) : PostureDB :=
  MkPostureDB (q_workspaces s) (q_devices s) (q_reports s) (q_observations s) (q_profiles s) (q_requirements s)
    m (q_sightings s) (q_policies s) (q_policy_profiles s) (q_resources s).
Definition set_sightings (m : gmap uuid SightingRow) (s : PostureDB) : PostureDB :=
  MkPostureDB (q_workspaces s) (q_devices s) (q_reports s) (q_observations s) (q_profiles s) (q_requirements s)
    (q_evaluations s) m (q_policies s) (q_policy_profiles s) (q_resources s).
Definition set_policies (m : gmap uuid PolicyRow) (s : PostureDB) : PostureDB :=
  MkPostureDB (q_workspaces s) (q_devices s) (q_reports s) (q_observations s) (q_profiles s) (q_requirements s)
    (q_evaluations s) (q_sightings s) m (q_policy_profiles s) (q_resources s).
Definition set_policy_profiles (m : gmap (uuid * uuid) uuid) (s : PostureDB) : PostureDB :=
  MkPostureDB (q_workspaces s) (q_devices s) (q_reports s) (q_observations s) (q_profiles s) (q_requirements s)
    (q_evaluations s) (q_sightings s) (q_policies s) m (q_resources s).
Definition set_resources (m : gmap uuid (uuid * uuid)) (s : PostureDB) : PostureDB :=
  MkPostureDB (q_workspaces s) (q_devices s) (q_reports s) (q_observations s) (q_profiles s) (q_requirements s)
    (q_evaluations s) (q_sightings s) (q_policies s) (q_policy_profiles s) m.

Record PolicyRef := MkPolicyRef { pl_ID : uuid; pl_Name : string }.

Inductive posture_error :=
| ErrNotFound | ErrDuplicateReport | ErrDuplicateRequirement | ErrWorkspaceMismatch | ErrLastRequirement
| ErrInvalidProfileName | ErrNoVerificationMethod | ErrPolicyNotFound | ErrPolicyResourceGone
| ErrDefaultPolicyFixed | ErrPolicyNameTaken | ErrInvalidPolicyName | ErrPolicyProfileMissing
| ErrEmptyProfileInPolicy | ProfileInUse (policies : list PolicyRef) | ErrLimit | ErrNotify.
Abbreviation postureM A := (sqlM PostureDB posture_error A).

(** The profile [id] of workspace [ws]. *)
Definition profile_of (ws id : uuid) (s : PostureDB) : option ProfileRow :=
  match q_profiles s !! id with Some p => if pf_workspace p ≟ ws then Some p else None | None => None end.
Definition policy_of (ws id : uuid) (s : PostureDB) : option PolicyRow :=
  match q_policies s !! id with Some p => if po_workspace p ≟ ws then Some p else None | None => None end.

(** ** Reports *)

Definition insert_report (id : uuid) (now : time) (ws d : uuid) (r : Report) : stmt PostureDB bool := λ s,
  if negb (text_param_ok (r_ReportID r) && text_param_ok (r_ClientVersion r)
           && text_param_ok (r_OSInfo r).1 && text_param_ok (r_OSInfo r).2) then Err InvalidText
  else match q_devices s !! d with
  | Some dev =>
      if (pd_workspace dev ≟ ws) && (pd_revoked_at dev ≟ None) then
        if bool_decide (map_Exists (λ _ row, rp_report_id row = r_ReportID r) (q_reports s))
           || bool_decide (is_Some (q_reports s !! id)) then Err UniqueViolation
        else Ok (true, set_reports (<[id := MkReportRow (r_ReportID r) d ws (r_ClientVersion r) (r_OSInfo r)
                                              (r_ReportedAt r) now]> (q_reports s)) (q_observations s) s)
      else Ok (false, s)
  | None => Ok (false, s)
  end.

Definition insert_observation (report : uuid) (o : Observation) : stmt PostureDB () := λ s,
  if negb (text_param_ok (ob_CheckID o) && from_option text_param_ok true (ob_Detail o)) then Err InvalidText
  else if negb (bool_decide (ob_Status o ∈ recognizedStatuses)) then Err CheckViolation
  else if bool_decide (is_Some (q_observations s !! (report, ob_CheckID o))) then Err UniqueViolation
  else Ok (tt, set_reports (q_reports s)
                 (<[(report, ob_CheckID o) := (ob_Status o, ob_Detail o)]> (q_observations s)) s).

Definition or_duplicate {A} (dup : posture_error) (m : postureM A) : postureM A :=
  let! r := attempt m in
  match r with
  | Ok a => ret a
  | Err e => if isUniqueViolation e then fail dup else raise e
  end.

Fixpoint insert_observations (report : uuid) (l : list Observation) : postureM () :=
  match l with
  | [] => ret tt
  | o :: rest =>
      or_duplicate ErrDuplicateReport (tx_stmt "insert posture observation" (insert_observation report o)) ;;;
      insert_observations report rest
  end.

Definition InsertReport (id : uuid) (now : time) (ws d : uuid) (r : Report) : postureM () :=
  with_tx "begin insert posture report" (
    let! inserted := or_duplicate ErrDuplicateReport (tx_stmt "insert posture report" (insert_report id now ws d r)) in
    if negb inserted then fail ErrWorkspaceMismatch
    else insert_observations id (r_Observations r) ;;;
         commit_tx "commit posture report").

Definition ReportByClientID (reportID : string) : postureM (uuid * ReportRow) :=
  let! r := pool_stmt "load posture report by client id" (query (λ s,
    list_find (λ kv : uuid * ReportRow, rp_report_id kv.2 = reportID) (map_to_list (q_reports s)))) in
  match r with Some (_, row) => ret row | None => fail ErrNotFound end.

(** ** Profiles *)

Definition CreateProfile (id : uuid) (now : time) (ws : uuid) (name : string) (manualTrustEnabled : bool)
    : postureM (uuid * ProfileRow) :=
  let name := TrimSpace name in
  if name ≟ "" then fail ErrInvalidProfileName
  else pool_stmt "create device profile" (λ s,
    let row := MkProfileRow ws name 1 manualTrustEnabled now now in
    if negb (text_param_ok name) then Err InvalidText
    else if negb (bool_decide (ws ∈ q_workspaces s)) then Err ForeignKeyViolation
    else if bool_decide (map_Exists (λ _ p, pf_workspace p = ws ∧ pf_name p = name) (q_profiles s))
            || bool_decide (is_Some (q_profiles s !! id)) then Err UniqueViolation
    else Ok ((id, row), set_profiles (<[id := row]> (q_profiles s)) s)).

Definition GetProfile (ws id : uuid) : postureM ProfileRow :=
  let! r := pool_stmt "get device profile" (query (profile_of ws id)) in
  match r with Some p => ret p | None => fail ErrNotFound end.

Definition update_profile (ws id : uuid) (f : ProfileRow → ProfileRow) : stmt PostureDB Z := exec (λ s,
  let '(n, m) := update_where id (λ p, pf_workspace p ≟ ws) f (q_profiles s) in (n, set_profiles m s)).

Definition UpdateProfileManualTrust (now : time) (ws id : uuid) (enabled : bool) : postureM ProfileRow :=
  if negb enabled then fail ErrNoVerificationMethod
  else
    let! r := pool_stmt "update device profile manual trust" (exec (λ s,
      let set p := MkProfileRow (pf_workspace p) (pf_name p) (pf_revision p) enabled (pf_created_at p) now in
      match profile_of ws id s with
      | Some p => (Some (set p), set_profiles (<[id := set p]> (q_profiles s)) s)
      | None => (None, s)
      end)) in
    match r with Some p => ret p | None => fail ErrNotFound end.

(** [revision = revision + 1]. *)
Definition bump_revision (now : time) (p : ProfileRow) : ProfileRow :=
  MkProfileRow (pf_workspace p) (pf_name p) (pf_revision p + 1) (pf_manual_trust p) (pf_created_at p) now.

Definition insert_requirement (id : uuid) (r : Requirement) : stmt PostureDB () := λ s,
  if negb (text_param_ok (rq_CheckID r)) then Err InvalidText
  else if bool_decide (is_Some (q_requirements s !! (id, rq_CheckID r))) then Err UniqueViolation
  else Ok (tt, set_requirements
                 (<[(id, rq_CheckID r) := (rq_AllowUnsupported r, rq_Countries r)]> (q_requirements s)) s).

Definition AddRequirement (now : time) (ws id : uuid) (r : Requirement) : postureM () :=
  with_tx "begin transaction" (
    let! found := tx_stmt "check device profile" (query (profile_of ws id)) in
    match found with
    | None => fail ErrNotFound
    | Some _ =>
        or_duplicate ErrDuplicateRequirement (tx_stmt "insert requirement" (insert_requirement id r)) ;;;
        tx_stmt "update profile revision" (update_profile ws id (bump_revision now)) ;;;
        commit_tx "commit add requirement"
    end).

Definition requirement_count (id : uuid) (s : PostureDB) : Z :=
  Z.of_nat (size (filter (λ kv : (uuid * string) * (bool * option CountryRule), kv.1.1 = id) (q_requirements s))).
Definition profileInUse (id : uuid) (s : PostureDB) : bool :=
  bool_decide (map_Exists (λ pp _, pp.2 = id) (q_policy_profiles s)).

Definition delete_requirement (id : uuid) (checkID : string) : stmt PostureDB Z := λ s,
  match q_requirements s !! (id, checkID) with
  | Some _ => Ok (1, set_requirements (delete (id, checkID) (q_requirements s)) s)
  | None => Ok (0, s)
  end.

Definition RemoveRequirement (now : time) (ws id : uuid) (checkID : string) : postureM () :=
  with_tx "begin transaction" (
    let! locked := tx_stmt "load device profile" (query (profile_of ws id)) in
    match locked with
    | None => fail ErrNotFound
    | Some _ =>
        let! n := tx_stmt "delete requirement" (delete_requirement id checkID) in
        if n =? 0 then fail ErrNotFound
        else
          let! remaining := tx_stmt "count requirements" (query (requirement_count id)) in
          let! inUse := (if remaining =? 0 then tx_stmt "profile in use" (query (profileInUse id)) else ret false) in
          if inUse then fail ErrLastRequirement
          else
            tx_stmt "update profile revision" (update_profile ws id (bump_revision now)) ;;;
            commit_tx "commit remove requirement"
    end).

(** [params] decoded: an object without lists gives empty lists. *)
Definition countryRuleFromParams (params : option CountryRule) : CountryRule := default (MkCountryRule [] []) params.

Definition UpdateCountryRule (now : time) (ws id : uuid) (rule : CountryRule) : postureM CountryRule :=
  with_tx "begin transaction" (
    let! previous := tx_stmt "lock country requirement" (query (λ s,
      match profile_of ws id s with
      | Some _ => snd <$> q_requirements s !! (id, CheckNetworkCountry)
      | None => None
      end)) in
    match previous with
    | None => fail ErrNotFound
    | Some old =>
        tx_stmt "update country rule" (exec (λ s,
          (tt, set_requirements (alter (λ r, (r.1, Some rule)) (id, CheckNetworkCountry) (q_requirements s)) s))) ;;;
        tx_stmt "update profile revision" (update_profile ws id (bump_revision now)) ;;;
        commit_tx "commit country rule" ;;;
        ret (countryRuleFromParams old)
    end).

(** ** Queries of the evaluator *)

Section queries.
Context `{RowOrder}.

(** Newest first; the database picks among reports of one instant. *)
Definition newest (a b : uuid * ReportRow) : Prop := rp_received_at b.2 <= rp_received_at a.2.
#[export] Instance newest_dec : RelDecision newest.
Proof. intros a b. unfold newest. apply _. Defined.

Definition LatestReport (ws d : uuid) : postureM (uuid * ReportRow) :=
  let! r := pool_stmt "load latest posture report" (query (λ s,
    head (merge_sort newest (ord (filter (λ kv : uuid * ReportRow, rp_workspace kv.2 = ws ∧ rp_device kv.2 = d)
                                    (map_to_list (q_reports s))))))) in
  match r with Some row => ret row | None => fail ErrNotFound end.

Definition device_approved (ws d : uuid) (s : PostureDB) : bool :=
  match q_devices s !! d with
  | Some dev => (pd_workspace dev ≟ ws) && bool_decide (is_Some (pd_approved_at dev)) && (pd_revoked_at dev ≟ None)
  | None => false
  end.
Definition DeviceApproved (ws d : uuid) : postureM bool :=
  pool_stmt "load device approval" (query (device_approved ws d)).

Definition by_check (a b : Observation) : Prop := String.le (ob_CheckID a) (ob_CheckID b).
#[export] Instance by_check_dec : RelDecision by_check.
Proof. intros a b. unfold by_check. apply _. Defined.
Definition ListObservations (report : uuid) : postureM (list Observation) :=
  pool_stmt "list posture observations" (query (λ s,
    merge_sort by_check (omap (λ '((r, check), (status, detail)),
      if r ≟ report then Some (MkObservation check status detail) else None) (map_to_list (q_observations s))))).

Definition DeviceIDsWithReports (ws : uuid) : postureM (list uuid) :=
  pool_stmt "list devices with posture reports" (query (λ s,
    merge_sort String.le (remove_dups (rp_device <$> filter (λ row, rp_workspace row = ws) (map_to_list (q_reports s)).*2)))).

Definition by_name (a b : uuid * ProfileRow) : Prop := String.le (pf_name a.2) (pf_name b.2).
#[export] Instance by_name_dec : RelDecision by_name.
Proof. intros a b. unfold by_name. apply _. Defined.
Definition workspace_profiles (ws : uuid) (s : PostureDB) : list (uuid * ProfileRow) :=
  merge_sort by_name (ord (filter (λ kv : uuid * ProfileRow, pf_workspace kv.2 = ws) (map_to_list (q_profiles s)))).
Definition ListProfiles (ws : uuid) : postureM (list (uuid * ProfileRow)) :=
  pool_stmt "list device profiles" (query (workspace_profiles ws)).

(** The requirements of a profile, in check order. *)
Definition by_requirement (a b : Requirement) : Prop := String.le (rq_CheckID a) (rq_CheckID b).
#[export] Instance by_requirement_dec : RelDecision by_requirement.
Proof. intros a b. unfold by_requirement. apply _. Defined.
Definition requirement_row (check : string) (r : bool * option CountryRule) : Requirement :=
  MkRequirement check r.1 (if check ≟ CheckNetworkCountry then Some (countryRuleFromParams r.2) else None).
Definition profile_requirements (id : uuid) (s : PostureDB) : list Requirement :=
  merge_sort by_requirement (omap (λ '((p, check), r),
    if p ≟ id then Some (requirement_row check r) else None) (map_to_list (q_requirements s))).
Definition ListRequirements (ws id : uuid) : postureM (list Requirement) :=
  pool_stmt "list posture requirements" (query (λ s,
    match profile_of ws id s with Some _ => profile_requirements id s | None => [] end)).

Definition LatestEvaluation (ws d id : uuid) : postureM (option EvaluationRow) :=
  pool_stmt "load evaluation" (query (λ s,
    match q_evaluations s !! (d, id) with
    | Some e => if er_workspace e ≟ ws then Some e else None
    | None => None
    end)).

Definition upsert_evaluation (now : time) (ws d id : uuid) (revision : Z) (satisfied : bool)
    (reason : option string) (report : option uuid) : stmt PostureDB Z := λ s,
  if negb (from_option text_param_ok true reason) then Err InvalidText
  else if bool_decide (pd_workspace <$> q_devices s !! d = Some ws)
     && bool_decide (is_Some (profile_of ws id s))
     && match report with
        | None => true
        | Some r => match q_reports s !! r with
                    | Some row => (rp_workspace row ≟ ws) && (rp_device row ≟ d)
                    | None => false
                    end
        end
  then if revision <=? 0 then Err CheckViolation
       else Ok (1, set_evaluations (<[(d, id) := MkEvaluationRow ws satisfied revision reason now report]>
                                     (q_evaluations s)) s)
  else Ok (0, s).

Definition UpsertEvaluation (now : time) (ws d id : uuid) (revision : Z) (satisfied : bool)
    (reason : option string) (report : option uuid) : postureM () :=
  let! n := pool_stmt "upsert evaluation" (upsert_evaluation now ws d id revision satisfied reason report) in
  if n =? 0 then fail ErrWorkspaceMismatch else ret tt.

(** ** Sightings *)

Definition record_sighting (now : time) (ws d : uuid) (country : string) : stmt PostureDB (option (option string)) := λ s,
  let prev := match q_sightings s !! d with
              | Some row => if sg_workspace row ≟ ws then Some (sg_country row) else None
              | None => None
              end in
  if negb ((country ≟ "") || ValidCountryCode country) then Err CheckViolation
  else match q_sightings s !! d with
  | Some row =>
      if sg_workspace row ≟ ws then
        Ok (Some prev, set_sightings (<[d := MkSightingRow ws country now
              (if sg_country row ≟ country then sg_country_since row else now)]> (q_sightings s)) s)
      else Ok (None, s)
  | None =>
      if bool_decide (pd_workspace <$> q_devices s !! d = Some ws)
      then Ok (Some prev, set_sightings (<[d := MkSightingRow ws country now now]> (q_sightings s)) s)
      else Err ForeignKeyViolation
  end.

(** Did the country change? *)
Definition RecordNetworkObservation (now : time) (ws d : uuid) (country : string) : postureM bool :=
  let! r := pool_stmt "record network observation" (record_sighting now ws d country) in
  match r with
  | None => fail ErrNotFound
  | Some None => ret true
  | Some (Some previous) => ret (negb (previous ≟ country))
  end.

Definition LatestNetworkObservation (ws d : uuid) : postureM (option (string * time)) :=
  pool_stmt "load network observation" (query (λ s,
    match q_sightings s !! d with
    | Some row => if sg_workspace row ≟ ws then Some (sg_country row, sg_observed_at row) else None
    | None => None
    end)).

(** ** The evaluator (evaluate.go) *)

(** The observations a device is judged on: the report's, and the two the
    controller makes itself, which replace whatever a report says. *)
Definition judged_observations (observations : list Observation) (approved : bool)
    (seen : option (string * time)) (now : time) : gmap string Observation :=
  <[CheckNetworkCountry := countryObservation seen now]>
    (<[CheckDeviceApproved := approvalObservation approved]>
       (foldl (λ m o, <[ob_CheckID o := o]> m) ∅ observations)).

Definition evaluation_changed (previous : option EvaluationRow) (revision : Z) (r : ProfileResult) : bool :=
  match previous with
  | None => true
  | Some e => negb (eqb (er_satisfied e) (pr_Satisfied r)) || negb (er_revision e =? revision)
              || negb (stringValue (er_reason e) ≟ pr_Reason r)
  end.

(** The loop over the profiles. *)
Fixpoint evaluate_profiles (now dbnow : time) (ws d report : uuid) (received : time)
    (observations : gmap string Observation) (profiles : list (uuid * ProfileRow))
    : postureM (list (uuid * ProfileResult) * bool) :=
  match profiles with
  | [] => ret ([], false)
  | (id, p) :: rest =>
      let! requirements := ListRequirements ws id in
      let result := EvaluateProfile now received (pf_revision p) requirements observations in
      let! previous := LatestEvaluation ws d id in
      UpsertEvaluation dbnow ws d id (pf_revision p) (pr_Satisfied result) (Some (pr_Reason result)) (Some report) ;;;
      let! others := evaluate_profiles now dbnow ws d report received observations rest in
      ret ((id, result) :: others.1, evaluation_changed previous (pf_revision p) result || others.2)
  end.

Definition evaluateDevice (now dbnow : time) (ws d : uuid) : postureM (list (uuid * ProfileResult) * bool) :=
  let! report := LatestReport ws d in
  let! observations := ListObservations report.1 in
  let! profiles := ListProfiles ws in
  let! approved := DeviceApproved ws d in
  let! seen := LatestNetworkObservation ws d in
  evaluate_profiles now dbnow ws d report.1 (rp_received_at report.2)
    (judged_observations observations approved seen now) profiles.

(** The notifier is absent ([None]) or answers with or without an error; the
    second component of the answer says whether it was called. *)
Definition notify_if (changed : bool) (notifier : option bool) : bool * bool :=
  match notifier with
  | Some accepted => (changed, negb changed || accepted)
  | None => (false, true)
  end.

Definition EvaluateDevice (notifier : option bool) (now dbnow : time) (ws d : uuid)
    : postureM (list (uuid * ProfileResult) * bool) :=
  let! r := evaluateDevice now dbnow ws d in
  let '(called, accepted) := notify_if r.2 notifier in
  if accepted then ret (r.1, called) else fail ErrNotify.

(** The devices are evaluated one by one; a failure does not stop the rest.
    Answers: did anything change, and the devices that failed. *)
Fixpoint reevaluate_each (now dbnow : time) (ws : uuid) (ds : list uuid) : postureM (bool * list uuid) :=
  match ds with
  | [] => ret (false, [])
  | d :: rest =>
      let! r := attempt (evaluateDevice now dbnow ws d) in
      let! others := reevaluate_each now dbnow ws rest in
      ret (match r with
           | Ok (_, changed) => (changed || others.1, others.2)
           | Err _ => (others.1, d :: others.2)
           end)
  end.

(** The joined errors of a re-evaluation; [rv_notified] says whether the
    notifier was called. *)
Record reevaluation := MkReevaluation { rv_notified : bool; rv_failed : list uuid; rv_notify_failed : bool }.
Definition reevaluation_ok (r : reevaluation) : bool := bool_decide (rv_failed r = []) && negb (rv_notify_failed r).

Definition reevaluateDevices (notifier : option bool) (now dbnow : time) (ws : uuid) (ds : list uuid)
    : postureM reevaluation :=
  let! r := reevaluate_each now dbnow ws ds in
  let '(called, accepted) := notify_if r.1 notifier in
  ret (MkReevaluation called r.2 (negb accepted)).

Definition ReevaluateWorkspace (notifier : option bool) (now dbnow : time) (ws : uuid) : postureM reevaluation :=
  let! ds := DeviceIDsWithReports ws in reevaluateDevices notifier now dbnow ws ds.

(** ** Retention (retention.go) *)

Definition DefaultRetention : duration := 30 * 24 * Hour.
Definition DefaultBatchSize : Z := 2000.

Definition oldest (a b : uuid * ReportRow) : Prop := rp_received_at a.2 <= rp_received_at b.2.
#[export] Instance oldest_dec : RelDecision oldest.
Proof. intros a b. unfold oldest. apply _. Defined.

Definition expired_reports (cutoff : time) (s : PostureDB) : list (uuid * ReportRow) :=
  filter (λ kv : uuid * ReportRow, rp_received_at kv.2 < cutoff) (map_to_list (q_reports s)).

(** Deleting reports cascades to their observations and clears the evaluations
    that point to them. *)
Definition delete_reports (ids : list uuid) (s : PostureDB) : PostureDB :=
  set_evaluations ((λ e, match er_report e with
                         | Some r => if bool_decide (r ∈ ids)
                                     then MkEvaluationRow (er_workspace e) (er_satisfied e) (er_revision e)
                                            (er_reason e) (er_evaluated_at e) None
                                     else e
                         | None => e
                         end) <$> q_evaluations s)
    (set_reports (filter (λ kv : uuid * ReportRow, kv.1 ∉ ids) (q_reports s))
       (filter (λ kv : (uuid * string) * (string * option string), kv.1.1 ∉ ids) (q_observations s)) s).

Definition DeleteExpiredReports (cutoff : time) (limit : Z) : postureM Z :=
  if limit <=? 0 then fail ErrLimit
  else pool_stmt "delete expired posture reports" (exec (λ s,
    let ids := (take (Z.to_nat limit) (merge_sort oldest (ord (expired_reports cutoff s)))).*1 in
    (Z.of_nat (length ids), delete_reports ids s))).

Record RetentionWorker := MkRetentionWorker { rw_retention : duration; rw_batchSize : Z }.
Definition NewRetentionWorker (retention : duration) (batchSize : Z) : RetentionWorker :=
  MkRetentionWorker (if retention <=? 0 then DefaultRetention else retention)
    (if batchSize <=? 0 then DefaultBatchSize else batchSize).

(** The loop of [cleanup]; [None] when the fuel runs out. *)
Fixpoint cleanup_loop (fuel : nat) (cutoff : time) (batchSize : Z) : postureM (option ()) :=
  match fuel with
  | O => ret None
  | S fuel =>
      let! deleted := DeleteExpiredReports cutoff batchSize in
      if deleted <? batchSize then ret (Some tt) else cleanup_loop fuel cutoff batchSize
  end.
Definition cleanup (fuel : nat) (w : RetentionWorker) (now : time) : postureM (option ()) :=
  cleanup_loop fuel (time_Add now (- rw_retention w)) (rw_batchSize w).
End queries.
