(* ===== verification/ResourcePolicy.v ===== *)
(** * Resource policies (posture/resource_policy.go)

    Every resource is in one policy of its workspace; a policy requires device
    profiles.  Reads that order by [lower(name)] return their rows in an order
    that [RowOrder] picks. *)

From Stdlib Require Import ZArith Lia.
From S2P Require Import Prelude Sql GoText Posture PostureStore.
Open Scope Z_scope.

(** [btrim] of Postgres: spaces only. *)
Fixpoint drop_spaces (l : list Ascii.ascii) : list Ascii.ascii :=
  match l with c :: rest => if code c =? 32 then drop_spaces rest else l | [] => [] end.
Definition btrim (s : string) : string := of_bytes (reverse (drop_spaces (reverse (drop_spaces (bytes s))))).
Definition null_if_empty (s : string) : option string := if btrim s ≟ "" then None else Some (btrim s).

Definition validPolicyName (name : string) : option string :=
  let n := TrimSpace name in
  if (blen n <? 1) || (100 <? blen n) then None else Some n.

Record ResourcePolicy := MkResourcePolicy {
  rpo_ID : uuid; rpo_Row : PolicyRow; rpo_ProfileIDs : list uuid; rpo_ResourceCount : Z
}.
Record ProfileDeleteResult := MkProfileDeleteResult { RemovedFrom : list PolicyRef; NowAnyDevice : list PolicyRef }.

Definition policy_profile_ids (id : uuid) (s : PostureDB) : list uuid :=
  merge_sort String.le (omap (λ pp : (uuid * uuid), if pp.1 ≟ id then Some pp.2 else None) (map_to_list (q_policy_profiles s)).*1).
Definition scan_policy (id : uuid) (p : PolicyRow) (s : PostureDB) : ResourcePolicy :=
  MkResourcePolicy id p (policy_profile_ids id s)
    (Z.of_nat (size (filter (λ kv : uuid * (uuid * uuid), kv.2.2 = id) (q_resources s)))).

Definition policy_name_taken (ws : uuid) (name : string) (except : option uuid) (s : PostureDB) : bool :=
  bool_decide (map_Exists (λ i p, Some i ≠ except ∧ po_workspace p = ws ∧ po_name p = name) (q_policies s)).

Section policies.
Context `{RowOrder}.

Definition ListResourcePolicies (ws : uuid) : postureM (list ResourcePolicy) :=
  pool_stmt "list resource policies" (query (λ s,
    let rows := ord (filter (λ kv : uuid * PolicyRow, po_workspace kv.2 = ws) (map_to_list (q_policies s))) in
    (λ kv, scan_policy kv.1 kv.2 s) <$>
      (filter (λ kv, po_is_default kv.2 = true) rows ++ filter (λ kv, po_is_default kv.2 = false) rows))).

Definition GetResourcePolicy (ws id : uuid) : postureM ResourcePolicy :=
  let! r := pool_stmt "get resource policy" (query (λ s, (λ p, scan_policy id p s) <$> policy_of ws id s)) in
  match r with Some p => ret p | None => fail ErrPolicyNotFound end.

Definition PolicyOfResource (ws rid : uuid) : postureM ResourcePolicy :=
  let! r := pool_stmt "policy of resource" (query (λ s,
    match q_resources s !! rid with
    | Some (tenant, pol) => if tenant ≟ ws then (λ p, scan_policy pol p s) <$> policy_of ws pol s else None
    | None => None
    end)) in
  match r with Some p => ret p | None => fail ErrPolicyResourceGone end.

Definition ResourcesInPolicy (ws id : uuid) : postureM (list uuid) :=
  pool_stmt "resources in policy" (query (λ s,
    ord (filter (λ kv : uuid * (uuid * uuid), kv.2 = (ws, id)) (map_to_list (q_resources s))).*1)).

Definition policies_using (ws profile : uuid) (s : PostureDB) : list PolicyRef :=
  ord (omap (λ '((pol, prof), w),
    if (w ≟ ws) && (prof ≟ profile) then (λ p, MkPolicyRef pol (po_name p)) <$> q_policies s !! pol else None)
    (map_to_list (q_policy_profiles s))).
Definition PoliciesUsingProfile (ws profile : uuid) : postureM (list PolicyRef) :=
  pool_stmt "policies using profile" (query (policies_using ws profile)).

(** ** Changes *)

Definition insert_policy (id : uuid) (now : time) (ws : uuid) (name : string) (description : option string)
    : stmt PostureDB () := λ s,
  if negb (text_param_ok name && from_option text_param_ok true description) then Err InvalidText
  else if negb (bool_decide (ws ∈ q_workspaces s)) then Err ForeignKeyViolation
  else if policy_name_taken ws name None s || bool_decide (is_Some (q_policies s !! id)) then Err UniqueViolation
  else Ok (tt, set_policies (<[id := MkPolicyRow ws name (description ≫= null_if_empty) false now now]> (q_policies s)) s).

Definition CreateResourcePolicy (id : uuid) (now : time) (ws : uuid) (name : string) (description : option string)
    : postureM ResourcePolicy :=
  match validPolicyName name with
  | None => fail ErrInvalidPolicyName
  | Some n =>
      let! r := attempt (pool_stmt "create resource policy" (insert_policy id now ws n description)) in
      match r with
      | Err e => if isUniqueViolation e then fail ErrPolicyNameTaken
                 else if isForeignKeyViolation e then fail ErrPolicyNotFound else raise e
      | Ok _ => GetResourcePolicy ws id
      end
  end.

Definition update_policy (now : time) (ws id : uuid) (name : string) (description : option string) : stmt PostureDB () := λ s,
  if negb (text_param_ok name && from_option text_param_ok true description) then Err InvalidText
  else if policy_name_taken ws name (Some id) s then Err UniqueViolation
  else Ok (tt, set_policies (update_where id (λ p, po_workspace p ≟ ws) (λ p,
    MkPolicyRow (po_workspace p) name
      (match description with Some d => null_if_empty d | None => po_description p end)
      (po_is_default p) (po_created_at p) now) (q_policies s)).2 s).

(** The new name, or why not. *)
Definition new_policy_name (current : PolicyRow) (name : option string) : result posture_error string :=
  match name with
  | None => Ok (po_name current)
  | Some n =>
      match validPolicyName n with
      | None => Err ErrInvalidPolicyName
      | Some n => if po_is_default current && negb (n ≟ po_name current) then Err ErrDefaultPolicyFixed else Ok n
      end
  end.

Definition UpdateResourcePolicy (now : time) (ws id : uuid) (name description : option string) : postureM ResourcePolicy :=
  with_tx "begin update resource policy" (
    let! current := tx_stmt "lock resource policy" (query (policy_of ws id)) in
    match current with
    | None => fail ErrPolicyNotFound
    | Some p =>
        match new_policy_name p name with
        | Err e => fail e
        | Ok newName =>
            or_duplicate ErrPolicyNameTaken
              (tx_stmt "update resource policy" (update_policy now ws id newName description)) ;;;
            commit_tx "commit update resource policy"
        end
    end) ;;;
  GetResourcePolicy ws id.

Definition dedupeSorted (ids : list uuid) : list uuid := merge_sort String.le (remove_dups ids).

(** Lock the profiles in order; each must have a requirement. *)
Fixpoint lock_profiles (ws : uuid) (ids : list uuid) : postureM () :=
  match ids with
  | [] => ret tt
  | pid :: rest =>
      let! reqs := tx_stmt "lock device profile" (query (λ s,
        match profile_of ws pid s with Some _ => Some (requirement_count pid s) | None => None end)) in
      match reqs with
      | None => fail ErrPolicyProfileMissing
      | Some n => if n =? 0 then fail ErrEmptyProfileInPolicy else lock_profiles ws rest
      end
  end.

Definition clear_profiles (id : uuid) (s : PostureDB) : PostureDB :=
  set_policy_profiles (filter (λ kv : (uuid * uuid) * uuid, kv.1.1 ≠ id) (q_policy_profiles s)) s.
Definition add_profiles (ws id : uuid) (ids : list uuid) (s : PostureDB) : PostureDB :=
  set_policy_profiles (foldl (λ m pid, <[(id, pid) := ws]> m) (q_policy_profiles s) ids) s.
Definition touch_policy (now : time) (id : uuid) (s : PostureDB) : PostureDB :=
  set_policies (alter (λ p, MkPolicyRow (po_workspace p) (po_name p) (po_description p) (po_is_default p)
                              (po_created_at p) now) id (q_policies s)) s.

Definition SetResourcePolicyProfiles (now : time) (ws id : uuid) (profileIDs : list uuid) : postureM ResourcePolicy :=
  let ids := dedupeSorted profileIDs in
  with_tx "begin set policy profiles" (
    lock_profiles ws ids ;;;
    let! locked := tx_stmt "lock resource policy" (query (policy_of ws id)) in
    match locked with
    | None => fail ErrPolicyNotFound
    | Some _ =>
        tx_stmt "clear policy profiles" (exec (λ s, (tt, clear_profiles id s))) ;;;
        (match ids with
         | [] => ret tt
         | _ => tx_stmt "set policy profiles" (exec (λ s, (tt, add_profiles ws id ids s)))
         end) ;;;
        tx_stmt "touch resource policy" (exec (λ s, (tt, touch_policy now id s))) ;;;
        commit_tx "commit set policy profiles"
    end) ;;;
  GetResourcePolicy ws id.

(** The workspace's Default; the schema allows one. *)
Definition default_policy (ws : uuid) (s : PostureDB) : option uuid :=
  fst <$> head (filter (λ kv : uuid * PolicyRow, po_workspace kv.2 = ws ∧ po_is_default kv.2 = true) (map_to_list (q_policies s))).

Definition move_resources (ws id : uuid) (s : PostureDB) : list uuid * PostureDB :=
  match default_policy ws s with
  | None => ([], s)
  | Some d =>
      (ord (filter (λ kv : uuid * (uuid * uuid), kv.2 = (ws, id)) (map_to_list (q_resources s))).*1,
       set_resources ((λ tp, if bool_decide (tp = (ws, id)) then (ws, d) else tp) <$> q_resources s) s)
  end.

(** Deleting a policy is refused while a resource is in it; its profile rows go
    with it. *)
Definition delete_policy (id : uuid) : stmt PostureDB () := λ s,
  if bool_decide (map_Exists (λ _ tp, tp.2 = id) (q_resources s)) then Err ForeignKeyViolation
  else Ok (tt, set_policies (delete id (q_policies s)) (clear_profiles id s)).

Definition DeleteResourcePolicy (ws id : uuid) : postureM (list uuid) :=
  with_tx "begin delete resource policy" (
    let! locked := tx_stmt "lock resource policy" (query (policy_of ws id)) in
    match locked with
    | None => fail ErrPolicyNotFound
    | Some p =>
        if po_is_default p then fail ErrDefaultPolicyFixed
        else
          let! moved := tx_stmt "move resources to default policy" (exec (move_resources ws id)) in
          tx_stmt "delete resource policy" (delete_policy id) ;;;
          commit_tx "commit delete resource policy" ;;;
          ret moved
    end).

Definition set_policy_of (ws rid id : uuid) : stmt PostureDB () := λ s,
  match policy_of ws id s with
  | None => Err ForeignKeyViolation
  | Some _ => Ok (tt, set_resources (<[rid := (ws, id)]> (q_resources s)) s)
  end.

Definition SetResourcePolicy (ws rid id : uuid) : postureM uuid :=
  with_tx "begin set resource policy" (
    let! previous := tx_stmt "lock resource" (query (λ s, q_resources s !! rid)) in
    match previous with
    | Some (tenant, old) =>
        if negb (tenant ≟ ws) then fail ErrPolicyResourceGone
        else
          let! r := attempt (tx_stmt "set resource policy" (set_policy_of ws rid id)) in
          match r with
          | Err e => if isForeignKeyViolation e then fail ErrPolicyNotFound else raise e
          | Ok _ => commit_tx "commit set resource policy" ;;; ret old
          end
    | None => fail ErrPolicyResourceGone
    end).

(** Deleting a profile cascades to its requirements, evaluations and policy
    rows. *)
Definition delete_profile (ws id : uuid) (s : PostureDB) : PostureDB :=
  match profile_of ws id s with
  | None => s
  | Some _ =>
      set_profiles (delete id (q_profiles s))
        (set_requirements (filter (λ kv : (uuid * string) * (bool * option CountryRule), kv.1.1 ≠ id) (q_requirements s))
           (set_evaluations (filter (λ kv : (uuid * uuid) * EvaluationRow, kv.1.2 ≠ id) (q_evaluations s))
              (set_policy_profiles (filter (λ kv : (uuid * uuid) * uuid, kv.1.2 ≠ id) (q_policy_profiles s)) s)))
  end.

(** Of [policies], those that require no other profile. *)
Fixpoint now_any_device (id : uuid) (policies : list PolicyRef) : postureM (list PolicyRef) :=
  match policies with
  | [] => ret []
  | p :: rest =>
      let! others := tx_stmt "count policy profiles" (query (λ s,
        Z.of_nat (size (filter (λ kv : (uuid * uuid) * uuid, kv.1.1 = pl_ID p ∧ kv.1.2 ≠ id) (q_policy_profiles s))))) in
      let! l := now_any_device id rest in
      ret (if others =? 0 then p :: l else l)
  end.

Definition DeleteProfile (ws id : uuid) (confirmInUse : bool) : postureM ProfileDeleteResult :=
  with_tx "begin delete device profile" (
    let! locked := tx_stmt "lock device profile" (query (profile_of ws id)) in
    match locked with
    | None => fail ErrNotFound
    | Some _ =>
        let! policies := tx_stmt "policies using profile" (query (policies_using ws id)) in
        if bool_decide (policies ≠ []) && negb confirmInUse then fail (ProfileInUse policies)
        else
          let! anyDevice := now_any_device id policies in
          tx_stmt "delete device profile" (exec (λ s, (tt, delete_profile ws id s))) ;;;
          commit_tx "commit delete device profile" ;;;
          ret (MkProfileDeleteResult policies anyDevice)
    end).
End policies.
