(* ===== verification/PostureSafety.v ===== *)
(** * Invariants of the posture tables

    Tenant consistency and the promises of resource policies (every resource in
    a policy of its workspace, every workspace with one Default, no empty
    profile in a policy), kept by every operation whatever statement fails.
    Then evaluations against concurrent changes of requirements, and
    retention. *)

From Stdlib Require Import ZArith Lia.
From S2P Require Import Prelude Sql GoText AclCompiler Posture PostureStore ResourcePolicy.
Open Scope Z_scope.

(** ** Well-formed tables *)

Definition has_requirement (id : uuid) (s : PostureDB) : Prop := ∃ check, is_Some (q_requirements s !! (id, check)).
Definition policy_in (ws id : uuid) (s : PostureDB) : Prop := po_workspace <$> q_policies s !! id = Some ws.
Definition profile_in (ws id : uuid) (s : PostureDB) : Prop := pf_workspace <$> q_profiles s !! id = Some ws.

Record posture_wf (s : PostureDB) : Prop := {
  wf_policy_profiles : map_Forall (λ pp ws, policy_in ws pp.1 s ∧ profile_in ws pp.2 s ∧ has_requirement pp.2 s)
                         (q_policy_profiles s);
  wf_requirements : map_Forall (λ k _, is_Some (q_profiles s !! k.1)) (q_requirements s);
  wf_resources : map_Forall (λ _ tp, policy_in tp.1 tp.2 s) (q_resources s);
  wf_default : ∀ ws, ws ∈ q_workspaces s → ∃ id p, q_policies s !! id = Some p ∧ po_workspace p = ws ∧ po_is_default p = true;
  wf_one_default : ∀ i j p q, q_policies s !! i = Some p → q_policies s !! j = Some q →
    po_workspace p = po_workspace q → po_is_default p = true → po_is_default q = true → i = j;
  wf_evaluations : map_Forall (λ dp e, profile_in (er_workspace e) dp.2 s ∧
      ∀ r, er_report e = Some r → ∃ row, q_reports s !! r = Some row ∧ rp_workspace row = er_workspace e ∧ rp_device row = dp.1)
    (q_evaluations s);
  wf_observations : map_Forall (λ k _, is_Some (q_reports s !! k.1)) (q_observations s)
}.

(** ** Changes of one table *)

(** Updating one row of a table of profiles or policies keeps its workspace. *)
Lemma lookup_insert_ws {A} (m : gmap uuid A) (f : A → uuid) id row row' ws i :
  m !! id = Some row → f row' = f row → f <$> m !! i = Some ws → f <$> <[id := row']> m !! i = Some ws.
Proof.
  intros Hid Hf. destruct (decide (i = id)) as [->|].
  - rewrite lookup_insert_eq, Hid. simpl. by rewrite Hf.
  - by rewrite lookup_insert_ne.
Qed.
Lemma lookup_fresh_ws {A} (m : gmap uuid A) (f : A → uuid) id row ws i :
  m !! id = None → f <$> m !! i = Some ws → f <$> <[id := row]> m !! i = Some ws.
Proof. intros Hid Hi. rewrite lookup_insert_ne; [done|]. intros ->. by rewrite Hid in Hi. Qed.

Lemma wf_set_profiles s m :
  (∀ ws i, profile_in ws i s → pf_workspace <$> m !! i = Some ws) → posture_wf s → posture_wf (set_profiles m s).
Proof.
  intros Hm [Hpp Hrq Hrs Hd H1 Hev Hob]. split; simpl; try done.
  - intros pp ws Hi. destruct (Hpp pp ws Hi) as (? & ? & ?). split_and!; try done. by apply Hm.
  - intros k r Hk. destruct (Hrq k r Hk) as [p Hp]. apply fmap_is_Some with pf_workspace.
    exists (pf_workspace p). apply Hm. unfold profile_in. by rewrite Hp.
  - intros dp e He. destruct (Hev dp e He) as [? Hr]. split; [by apply Hm|done].
Qed.

Lemma wf_update_profile s id p p' :
  q_profiles s !! id = Some p → pf_workspace p' = pf_workspace p →
  posture_wf s → posture_wf (set_profiles (<[id := p']> (q_profiles s)) s).
Proof. intros Hp Hw. apply wf_set_profiles. intros ws i. by eapply lookup_insert_ws. Qed.

Lemma wf_set_requirements s m :
  (∀ id, has_requirement id s → profileInUse id s = true → ∃ check, is_Some (m !! (id, check))) →
  (∀ k, is_Some (m !! k) → is_Some (q_profiles s !! k.1)) →
  posture_wf s → posture_wf (set_requirements m s).
Proof.
  intros Hm Hk [Hpp Hrq Hrs Hd H1 Hev Hob]. split; simpl; try done.
  - intros pp ws Hi. destruct (Hpp pp ws Hi) as (? & ? & ?). split_and!; try done. apply Hm; [done|].
    apply bool_decide_eq_true. by exists pp, ws.
  - intros k r Hr. apply Hk. eauto.
Qed.

Lemma wf_set_policies s m :
  (∀ ws i, policy_in ws i s → po_workspace <$> m !! i = Some ws) →
  (∀ i p, q_policies s !! i = Some p → ∃ p', m !! i = Some p' ∧ po_is_default p' = po_is_default p) →
  (∀ i p', m !! i = Some p' → po_is_default p' = true →
     ∃ p, q_policies s !! i = Some p ∧ po_is_default p = true ∧ po_workspace p = po_workspace p') →
  posture_wf s → posture_wf (set_policies m s).
Proof.
  intros Hm Hup Hdown [Hpp Hrq Hrs Hd H1 Hev Hob]. split; simpl; try done.
  - intros pp ws Hi. destruct (Hpp pp ws Hi) as (? & ? & ?). split_and!; try done. by apply Hm.
  - intros i tp Hi. by apply Hm, (Hrs i tp).
  - intros ws Hws. destruct (Hd ws Hws) as (id & p & Hp & Hw & Hdef). destruct (Hup id p Hp) as (p' & Hp' & Heq).
    exists id, p'. split_and!; [done| |by rewrite Heq].
    assert (po_workspace <$> m !! id = Some ws) as Hmw by (apply Hm; unfold policy_in; rewrite Hp; simpl; by f_equal).
    rewrite Hp' in Hmw. by injection Hmw.
  - intros i j p q Hp Hq Hw Hdp Hdq. destruct (Hdown i p Hp Hdp) as (p0 & ? & ? & ?), (Hdown j q Hq Hdq) as (q0 & ? & ? & ?).
    apply (H1 i j p0 q0); congruence.
Qed.

Lemma wf_update_policy s id p p' :
  q_policies s !! id = Some p → po_workspace p' = po_workspace p → po_is_default p' = po_is_default p →
  posture_wf s → posture_wf (set_policies (<[id := p']> (q_policies s)) s).
Proof.
  intros Hp Hw Hd. apply wf_set_policies.
  - intros ws i. by eapply lookup_insert_ws.
  - intros i q Hq. destruct (decide (i = id)) as [->|]; [rewrite lookup_insert_eq|rewrite lookup_insert_ne by done]; naive_solver congruence.
  - intros i q [[<- <-]|[? Hq]]%lookup_insert_Some Hdq; [exists p|exists q]; split_and!; congruence.
Qed.

Lemma wf_insert_policy s id p :
  q_policies s !! id = None → po_is_default p = false →
  posture_wf s → posture_wf (set_policies (<[id := p]> (q_policies s)) s).
Proof.
  intros Hid Hd. apply wf_set_policies.
  - intros ws i. by eapply lookup_fresh_ws.
  - intros i q Hq. rewrite lookup_insert_ne by naive_solver. eauto.
  - intros i q [[<- <-]|[? Hq]]%lookup_insert_Some Hdq; [congruence|eauto].
Qed.

Lemma wf_set_evaluations s m :
  (∀ dp e, m !! dp = Some e → q_evaluations s !! dp = Some e ∨
     (profile_in (er_workspace e) dp.2 s ∧
      ∀ r, er_report e = Some r → ∃ row, q_reports s !! r = Some row ∧ rp_workspace row = er_workspace e ∧ rp_device row = dp.1)) →
  posture_wf s → posture_wf (set_evaluations m s).
Proof.
  intros Hm [Hpp Hrq Hrs Hd H1 Hev Hob]. split; simpl; try done.
  intros dp e He. destruct (Hm dp e He) as [?|?]; [by apply Hev|done].
Qed.

Lemma wf_set_policy_profiles s m :
  map_Forall (λ pp ws, policy_in ws pp.1 s ∧ profile_in ws pp.2 s ∧ has_requirement pp.2 s) m →
  posture_wf s → posture_wf (set_policy_profiles m s).
Proof. intros Hm [Hpp Hrq Hrs Hd H1 Hev Hob]. by split. Qed.

Lemma wf_set_resources s m :
  map_Forall (λ _ tp, policy_in tp.1 tp.2 s) m → posture_wf s → posture_wf (set_resources m s).
Proof. intros Hm [Hpp Hrq Hrs Hd H1 Hev Hob]. by split. Qed.

Lemma wf_set_sightings s m : posture_wf s → posture_wf (set_sightings m s).
Proof. intros [Hpp Hrq Hrs Hd H1 Hev Hob]. by split. Qed.

Lemma wf_insert_report s id row :
  q_reports s !! id = None → posture_wf s → posture_wf (set_reports (<[id := row]> (q_reports s)) (q_observations s) s).
Proof.
  intros Hid [Hpp Hrq Hrs Hd H1 Hev Hob]. split; simpl; try done.
  - intros dp e He. destruct (Hev dp e He) as [? Hr]. split; [done|]. intros r Hrep. destruct (Hr r Hrep) as (row' & Hrow & ?).
    exists row'. rewrite lookup_insert_ne; [done|naive_solver].
  - intros k o Hk. rewrite lookup_insert_is_Some'. right. by apply (Hob k o).
Qed.

Lemma wf_insert_observation s k o :
  is_Some (q_reports s !! k.1) → posture_wf s → posture_wf (set_reports (q_reports s) (<[k := o]> (q_observations s)) s).
Proof.
  intros Hk [Hpp Hrq Hrs Hd H1 Hev Hob]. split; simpl; try done. by apply map_Forall_insert_2.
Qed.

(** ** Requirements change only with the revision *)

Section steps.
(** The profiles a step may create. *)
Context (N : uuid → Prop).

(** From [s] to [s'] a surviving profile keeps its workspace, its revision does
    not go back, and at the same revision its requirements are the same. *)
Definition req_step (s s' : PostureDB) : Prop := ∀ id p', q_profiles s' !! id = Some p' →
  (q_profiles s !! id = None ∧ N id) ∨
  ∃ p, q_profiles s !! id = Some p ∧ pf_workspace p' = pf_workspace p ∧ pf_revision p <= pf_revision p' ∧
    (pf_revision p' = pf_revision p → ∀ check, q_requirements s' !! (id, check) = q_requirements s !! (id, check)).

(** Evaluations come from [s], or lose only their report. *)
Definition ev_step (s s' : PostureDB) : Prop := ∀ dp e', q_evaluations s' !! dp = Some e' →
  ∃ e, q_evaluations s !! dp = Some e ∧ er_satisfied e' = er_satisfied e ∧ er_revision e' = er_revision e.

(** What every operation but an evaluation does to the tables. *)
Definition good_step (s s' : PostureDB) : Prop := posture_wf s → posture_wf s' ∧ req_step s s' ∧ ev_step s s'.

Lemma ev_step_same s s' : q_evaluations s' = q_evaluations s → ev_step s s'.
Proof. intros Heq dp e'. rewrite Heq. eauto. Qed.

Lemma req_step_quiet s s' :
  q_profiles s' = q_profiles s → q_requirements s' = q_requirements s → req_step s s'.
Proof. intros Hp Hr id p'. rewrite Hp, Hr. intros Hi. right. exists p'. auto with lia. Qed.

Lemma good_refl s : good_step s s.
Proof. intros Hwf. split_and!; [done|by apply req_step_quiet|by apply ev_step_same]. Qed.

(** A step that leaves profiles, requirements and evaluations alone. *)
Definition quiet (s s' : PostureDB) : Prop :=
  q_profiles s' = q_profiles s ∧ q_requirements s' = q_requirements s ∧ q_evaluations s' = q_evaluations s ∧
  (posture_wf s → posture_wf s').
Lemma quiet_refl s : quiet s s.
Proof. by split_and!. Qed.
Lemma quiet_trans s s1 s2 : quiet s s1 → quiet s1 s2 → quiet s s2.
Proof. intros (? & ? & ? & ?) (? & ? & ? & ?). split_and!; [congruence..|auto]. Qed.
Lemma good_quiet s s' : quiet s s' → good_step s s'.
Proof. intros (? & ? & ? & Hw) Hwf. split_and!; [by apply Hw|by apply req_step_quiet|by apply ev_step_same]. Qed.

Lemma profile_of_Some ws id s p : profile_of ws id s = Some p → q_profiles s !! id = Some p ∧ pf_workspace p = ws.
Proof. unfold profile_of. intros Hp. repeat case_match; simplify_eq. bool_simpl. by subst. Qed.
Lemma policy_of_Some ws id s p : policy_of ws id s = Some p → q_policies s !! id = Some p ∧ po_workspace p = ws.
Proof. unfold policy_of. intros Hp. repeat case_match; simplify_eq. bool_simpl. by subst. Qed.

(** The bump of a profile whose requirements changed. *)
Lemma good_bump now ws id p s s1 :
  q_profiles s !! id = Some p → pf_workspace p = ws → q_profiles s1 = q_profiles s →
  q_evaluations s1 = q_evaluations s →
  (∀ i check, i ≠ id → q_requirements s1 !! (i, check) = q_requirements s !! (i, check)) →
  (posture_wf s → posture_wf s1) →
  ∀ n s2, update_profile ws id (bump_revision now) s1 = Ok (n, s2) → good_step s s2.
Proof.
  intros Hp Hw Hp1 Hev Hrq Hwf1 n s2 Hu Hwf. unfold update_profile, exec in Hu.
  rewrite Hp1 in Hu. rewrite (update_where_hit id _ _ _ p) in Hu by (done || by apply bool_decide_eq_true).
  injection Hu as _ <-. split_and!; [| |by apply ev_step_same].
  - rewrite <-Hp1. apply (wf_update_profile s1 id p); [by rewrite Hp1|done|by apply Hwf1].
  - intros i p'. simpl. rewrite lookup_insert_Some. intros [[<- <-]|[Hne Hi]]; right.
    + exists p. simpl. split_and!; [done..|lia|lia].
    + exists p'. split_and!; [done..|lia|]. intros _ check. by apply Hrq.
Qed.

(** ** Reports, profiles, evaluations *)

Ltac posture_go := unfold or_duplicate, exec in *; wp_go; try apply good_refl.

Lemma insert_observations_wp id l c s :
  is_Some (q_reports s !! id) →
  wp (insert_observations id l) c (Some s) (λ r c' wk, c' = c ∧ ∃ s', wk = Some s' ∧ quiet s s').
Proof.
  revert s. induction l as [|o l IH]; intros s Hid; simpl.
  { apply wp_ret. eauto using quiet_refl. }
  unfold or_duplicate. wp_go; eauto using quiet_refl.
  match goal with H : insert_observation _ _ _ = Ok (_, ?x) |- _ => rename x into s1; rename H into Hi end.
  assert (quiet s s1 ∧ q_reports s1 = q_reports s) as [Hq Hr].
  { unfold insert_observation in Hi. repeat case_match; simplify_eq. split; [|done].
    split_and!; [done..|]. by apply wf_insert_observation. }
  eapply wp_mono; [|apply IH; by rewrite Hr]. intros r c' wk (-> & s' & -> & Hg'). eauto using quiet_trans.
Qed.

Lemma InsertReport_good id now ws d r s : wp (InsertReport id now ws d r) s None (λ _ s' _, good_step s s').
Proof.
  unfold InsertReport. posture_go.
  match goal with H : insert_report _ _ _ _ _ _ = Ok (_, ?x) |- _ => rename x into s1; rename H into Hi end.
  assert (quiet s s1 ∧ is_Some (q_reports s1 !! id)) as [Hq Hr].
  { unfold insert_report in Hi. destruct (negb (text_param_ok _ && _ && _ && _)); [done|].
    destruct (q_devices s !! d) as [dev|]; [|by simplify_eq]. destruct (_ && _); [|by simplify_eq].
    destruct (_ || _) eqn:Hid; [done|]. apply orb_false_iff in Hid as [_ Hid%bool_decide_eq_false].
    injection Hi as _ <-. split; [|simpl; by rewrite lookup_insert_eq].
    split_and!; [done..|]. apply wf_insert_report. by apply eq_None_not_Some. }
  eapply wp_mono; [|by apply insert_observations_wp]. intros res c' wk (-> & s' & -> & Hs').
  destruct res; [|apply good_refl]. wp_go; try apply good_refl; apply good_quiet; eauto using quiet_trans.
Qed.

Lemma CreateProfile_good id now ws name manual s :
  N id → wp (CreateProfile id now ws name manual) s None (λ _ s' _, good_step s s').
Proof.
  intros HN. unfold CreateProfile. posture_go.
  all: match goal with H : (if negb (text_param_ok _) then _ else _) = Ok (_, ?x) |- _ => rename x into s1; rename H into Hc end.
  all: repeat (case_match; try done); simplify_eq.
  all: match goal with H : _ || _ = false |- _ => apply orb_false_iff in H as [_ Hid%bool_decide_eq_false] end.
  all: apply eq_None_not_Some in Hid; intros Hwf; split_and!;
    [apply wf_set_profiles; [|done]; intros w i; by apply lookup_fresh_ws| |by apply ev_step_same].
  all: intros i p'; simpl; rewrite lookup_insert_Some; intros [[<- _]|[_ Hi]]; [by left|right; exists p'; auto with lia].
Qed.

(** Replacing a profile's row without touching its revision. *)
Lemma good_same_revision s id p p' :
  q_profiles s !! id = Some p → pf_workspace p' = pf_workspace p → pf_revision p' = pf_revision p →
  good_step s (set_profiles (<[id := p']> (q_profiles s)) s).
Proof.
  intros Hp Hw Hr Hwf. split_and!; [by apply (wf_update_profile s id p)| |by apply ev_step_same].
  intros i q. simpl. rewrite lookup_insert_Some. intros [[<- <-]|[_ Hi]]; right; [exists p|exists q]; auto with lia.
Qed.

Lemma UpdateProfileManualTrust_good now ws id enabled s :
  wp (UpdateProfileManualTrust now ws id enabled) s None (λ _ s' _, good_step s s').
Proof.
  unfold UpdateProfileManualTrust. posture_go.
  all: destruct (profile_of ws id s) as [row|] eqn:Hp; simplify_eq; try apply good_refl.
  all: apply profile_of_Some in Hp as [Hp _]; by apply (good_same_revision s id row).
Qed.

(** Inserting or replacing one requirement of an existing profile. *)
Lemma wf_put_requirement s k v :
  is_Some (q_profiles s !! k.1) → posture_wf s → posture_wf (set_requirements (<[k := v]> (q_requirements s)) s).
Proof.
  intros Hk Hwf. apply wf_set_requirements; [| |done].
  - intros i [check Hc] _. exists check. rewrite lookup_insert_is_Some'. by right.
  - intros j [<-|[r Hr]]%lookup_insert_is_Some'; [done|]. by apply (wf_requirements _ Hwf j r).
Qed.

Lemma AddRequirement_good now ws id r s :
  wp (AddRequirement now ws id r) s None (λ _ s' _, good_step s s').
Proof.
  unfold AddRequirement. posture_go.
  all: match goal with H : profile_of _ _ _ = Some ?x, H' : insert_requirement _ _ _ = Ok (_, ?y),
         H'' : update_profile _ _ _ ?y = Ok _ |- _ =>
         apply profile_of_Some in H as [Hp Hw]; rename H' into Hi; apply (good_bump now ws id x s y Hp Hw) in H''; [done|..] end.
  all: unfold insert_requirement in Hi; repeat (case_match; try done); simplify_eq; simpl; try done.
  all: try (intros i check Hne; rewrite lookup_insert_ne; [done|congruence]).
  all: apply wf_put_requirement; simpl; by rewrite Hp.
Qed.

Lemma requirement_left id s : requirement_count id s ≠ 0 → has_requirement id s.
Proof.
  unfold requirement_count, has_requirement. intros Hn.
  destruct (map_choose (filter (λ kv : (uuid * string) * (bool * option CountryRule), kv.1.1 = id) (q_requirements s)))
    as ([i check] & v & [Hv Hi]%map_lookup_filter_Some).
  { intros Hemp. rewrite Hemp, map_size_empty in Hn. done. }
  simpl in Hi. subst i. exists check. eauto.
Qed.

Lemma wf_drop_requirement s id check :
  (profileInUse id s = true → ∃ c, is_Some (delete (id, check) (q_requirements s) !! (id, c))) →
  posture_wf s → posture_wf (set_requirements (delete (id, check) (q_requirements s)) s).
Proof.
  intros Hleft Hwf. apply wf_set_requirements; [| |done].
  - intros i [c Hc] Hu. destruct (decide (i = id)) as [->|Hne]; [by apply Hleft|].
    exists c. rewrite lookup_delete_ne; [done|congruence].
  - intros k [v [_ Hv]%lookup_delete_Some]. by apply (wf_requirements _ Hwf k v).
Qed.

Lemma RemoveRequirement_good now ws id check s :
  wp (RemoveRequirement now ws id check) s None (λ _ s' _, good_step s s').
Proof.
  unfold RemoveRequirement. posture_go.
  all: match goal with H : profile_of _ _ _ = Some ?x, H' : delete_requirement _ _ _ = Ok (_, ?y),
         H'' : update_profile _ _ _ ?y = Ok _ |- _ =>
         apply profile_of_Some in H as [Hp Hw]; rename H' into Hi; apply (good_bump now ws id x s y Hp Hw) in H''; [done|..] end.
  all: unfold delete_requirement in Hi; destruct (q_requirements s !! (id, check)) eqn:Hr; simplify_eq; try done; simpl.
  all: try (intros i c Hne; rewrite lookup_delete_ne; [done|congruence]).
  all: apply wf_drop_requirement; intros Hu.
  all: try (match goal with H : (_ =? 0) = false |- _ => apply Z.eqb_neq in H; by apply requirement_left in H end).
  all: match goal with H : profileInUse _ _ = false |- _ => change (profileInUse id s = false) in H; congruence end.
Qed.

Lemma UpdateCountryRule_good now ws id rule s :
  wp (UpdateCountryRule now ws id rule) s None (λ _ s' _, good_step s s').
Proof.
  unfold UpdateCountryRule. posture_go.
  all: destruct (profile_of ws id s) as [row|] eqn:Hp; [|done]; apply profile_of_Some in Hp as [Hp Hw].
  all: match goal with H : update_profile _ _ _ ?y = Ok _, H' : Ok _ = Ok _ |- _ =>
         apply (good_bump now ws id row s y Hp Hw) in H; [done|..]; injection H' as _ <- end.
  all: simpl; try done.
  all: try (intros i c Hne; rewrite lookup_alter_ne; [done|congruence]).
  all: intros Hwf; apply wf_set_requirements; [..|done].
  all: try (intros i [c Hc] _; exists c; by rewrite lookup_alter_is_Some).
  all: intros k; rewrite lookup_alter_is_Some; intros [v Hv]; by apply (wf_requirements _ Hwf k v).
Qed.

(** An evaluation is of an existing profile of the workspace. *)
Lemma upsert_evaluation_good now ws d id revision satisfied reason report s n s' :
  upsert_evaluation now ws d id revision satisfied reason report s = Ok (n, s') →
  (n = 0 ∧ s' = s) ∨
  (n = 1 ∧ (∃ p, q_profiles s !! id = Some p ∧ pf_workspace p = ws) ∧
   s' = set_evaluations (<[(d, id) := MkEvaluationRow ws satisfied revision reason now report]> (q_evaluations s)) s ∧
   (posture_wf s → posture_wf s')).
Proof.
  unfold upsert_evaluation. intros Hu.
  destruct (negb (from_option _ _ _)); [done|]; destruct (_ && _) eqn:Hok; [|simplify_eq; by left].
  destruct (revision <=? 0); [done|]; injection Hu as <- <-. right.
  apply andb_true_iff in Hok as [[Hdev%bool_decide_eq_true [p Hp]%bool_decide_eq_true]%andb_true_iff Hrep].
  apply profile_of_Some in Hp as [Hp Hw]. split_and!; [done|eauto|done|].
  apply wf_set_evaluations; intros dp e [[<- <-]|[_ ?]]%lookup_insert_Some; [right|by left]; simpl.
  split; [unfold profile_in; rewrite Hp; simpl; congruence|]; intros r ->.
  destruct (q_reports s !! r) as [row|]; [|done]; apply andb_true_iff in Hrep as [?%bool_decide_eq_true ?%bool_decide_eq_true]; eauto.
Qed.

Lemma UpsertEvaluation_wf now ws d id revision satisfied reason report s :
  posture_wf s →
  wp (UpsertEvaluation now ws d id revision satisfied reason report) s None (λ _ s' _, posture_wf s').
Proof.
  intros Hwf. unfold UpsertEvaluation. wp_go; try done.
  all: match goal with H : upsert_evaluation _ _ _ _ _ _ _ _ _ = Ok _ |- _ =>
    apply upsert_evaluation_good in H as [[_ ->]|(_ & _ & _ & ?)]; auto end.
Qed.

Lemma RecordNetworkObservation_good now ws d country s :
  wp (RecordNetworkObservation now ws d country) s None (λ _ s' _, good_step s s').
Proof.
  unfold RecordNetworkObservation. posture_go.
  all: match goal with H : record_sighting _ _ _ _ _ = Ok _ |- _ => unfold record_sighting in H end.
  all: repeat (case_match; try done); simplify_eq; try apply good_refl.
  all: apply good_quiet; split_and!; [done..|apply wf_set_sightings].
Qed.

Lemma delete_reports_wf ids s : posture_wf s → posture_wf (delete_reports ids s).
Proof.
  intros [Hpp Hrq Hrs Hd H1 Hev Hob]. split; simpl; try done.
  - intros dp e' (e & <- & He)%lookup_fmap_Some. destruct (Hev dp e He) as [Hprof Hr].
    destruct (er_report e) as [r|] eqn:Her; [case_bool_decide as Hin|]; simpl; (split; [done|]); try done.
    + intros r' Hr'. rewrite Her in Hr'. injection Hr' as <-. destruct (Hr r eq_refl) as (row & Hrow & ?).
      exists row. rewrite map_lookup_filter_Some. done.
    + intros r. by rewrite Her.
  - intros k o [Hk Hni]%map_lookup_filter_Some. destruct (Hob k o Hk) as [row Hrow]. exists row.
    apply map_lookup_filter_Some. done.
Qed.

Lemma delete_reports_ev ids s : ev_step s (delete_reports ids s).
Proof.
  intros dp e'. simpl. intros (e & <- & He)%lookup_fmap_Some. exists e. split; [done|].
  destruct (er_report e); [case_bool_decide|]; done.
Qed.

Section policies.
Context `{RowOrder}.

Lemma DeleteExpiredReports_good cutoff limit s :
  wp (DeleteExpiredReports cutoff limit) s None (λ _ s' _, good_step s s').
Proof.
  unfold DeleteExpiredReports. posture_go; simplify_eq.
  all: intros Hwf; split_and!; [by apply delete_reports_wf|by apply req_step_quiet|apply delete_reports_ev].
Qed.

(** ** Policies *)

Lemma GetResourcePolicy_good ws id s0 s :
  good_step s0 s → wp (GetResourcePolicy ws id) s None (λ _ s' _, good_step s0 s').
Proof. intros Hg. unfold GetResourcePolicy. by wp_go. Qed.

Lemma CreateResourcePolicy_good id now ws name description s :
  wp (CreateResourcePolicy id now ws name description) s None (λ _ s' _, good_step s s').
Proof.
  unfold CreateResourcePolicy. posture_go; try apply GetResourcePolicy_good.
  all: match goal with H : insert_policy _ _ _ _ _ _ = Ok _ |- _ => unfold insert_policy in H end.
  all: repeat (case_match; try done); simplify_eq.
  all: match goal with H : _ || _ = false |- _ => apply orb_false_iff in H as [_ Hid%bool_decide_eq_false] end.
  all: apply good_quiet; split_and!; [done..|]; apply wf_insert_policy; [by apply eq_None_not_Some|done].
Qed.

Lemma UpdateResourcePolicy_good now ws id name description s :
  wp (UpdateResourcePolicy now ws id name description) s None (λ _ s' _, good_step s s').
Proof.
  unfold UpdateResourcePolicy. posture_go; try apply GetResourcePolicy_good.
  all: match goal with H : policy_of _ _ _ = Some ?x |- _ => apply policy_of_Some in H as [Hp Hw] end.
  all: match goal with H : update_policy _ _ _ _ _ _ = Ok _ |- _ => unfold update_policy in H end.
  all: repeat (case_match; try done); simplify_eq.
  all: rewrite (update_where_hit id _ _ _ _ Hp) by (by apply bool_decide_eq_true).
  all: apply good_quiet; split_and!; [done..|]; by eapply wf_update_policy.
Qed.

Lemma lock_profiles_wp ws ids c s :
  wp (lock_profiles ws ids) c (Some s) (λ r c' wk, c' = c ∧ wk = Some s ∧
    (r = Ok tt → Forall (λ pid, profile_in ws pid s ∧ has_requirement pid s) ids)).
Proof.
  induction ids as [|pid ids IH]; simpl; [by apply wp_ret|].
  wp_go; try done. eapply wp_mono; [|apply IH]. intros r c' wk (-> & -> & Hr). split_and!; [done..|].
  intros Hok. constructor; [|by apply Hr].
  destruct (profile_of ws pid s) as [p|] eqn:Hp; simplify_eq. apply profile_of_Some in Hp as [Hp Hw]. split.
  - unfold profile_in. rewrite Hp. simpl. by f_equal.
  - apply requirement_left. by apply Z.eqb_neq.
Qed.

Lemma add_profiles_lookup (ws id : uuid) (ids : list uuid) (m : gmap (uuid * uuid) uuid) pp w :
  foldl (λ m pid, <[(id, pid) := ws]> m) m ids !! pp = Some w →
  m !! pp = Some w ∨ (pp.1 = id ∧ pp.2 ∈ ids ∧ w = ws).
Proof.
  revert m. induction ids as [|pid ids IH]; intros m; simpl; [auto|]. intros [Hi|(? & ? & ?)]%IH.
  - apply lookup_insert_Some in Hi as [[<- <-]|[_ Hi]]; [right|by left]. simpl. set_solver.
  - right. set_solver.
Qed.

(** The replaced profile rows of a policy. *)
Lemma set_profiles_wf ws id ids s :
  policy_in ws id s → Forall (λ pid, profile_in ws pid s ∧ has_requirement pid s) ids →
  posture_wf s → posture_wf (add_profiles ws id ids (clear_profiles id s)).
Proof.
  intros Hpol Hids Hwf.
  assert (add_profiles ws id ids (clear_profiles id s) = set_policy_profiles
    (foldl (λ m pid, <[(id, pid) := ws]> m) (q_policy_profiles (clear_profiles id s)) ids) s) as -> by done.
  apply wf_set_policy_profiles; [|done]. intros [pol pid] w [Hi|(? & Hin & ->)]%add_profiles_lookup; simpl in *.
  - apply map_lookup_filter_Some in Hi as [Hi _]. by apply (wf_policy_profiles _ Hwf (pol, pid)).
  - subst. rewrite Forall_forall in Hids. by specialize (Hids pid Hin).
Qed.

Lemma clear_profiles_wf id s : posture_wf s → posture_wf (clear_profiles id s).
Proof.
  intros Hwf. apply wf_set_policy_profiles; [|done]. intros pp w [Hi _]%map_lookup_filter_Some.
  by apply (wf_policy_profiles _ Hwf pp).
Qed.

Lemma touch_policy_wf now id s : is_Some (q_policies s !! id) → posture_wf s → posture_wf (touch_policy now id s).
Proof.
  intros [p Hp]. unfold touch_policy.
  set (f := λ p : PolicyRow, _). assert (alter f id (q_policies s) = <[id := f p]> (q_policies s)) as ->.
  { apply map_eq. intros i. destruct (decide (i = id)) as [->|].
    - by rewrite lookup_alter_eq, lookup_insert_eq, Hp.
    - by rewrite lookup_alter_ne, lookup_insert_ne. }
  by apply (wf_update_policy s id p).
Qed.

Lemma SetResourcePolicyProfiles_good now ws id profileIDs s :
  wp (SetResourcePolicyProfiles now ws id profileIDs) s None (λ _ s' _, good_step s s').
Proof.
  unfold SetResourcePolicyProfiles. wp_go; try apply good_refl.
  eapply wp_mono; [|apply lock_profiles_wp]. intros r c' wk (-> & -> & Hr).
  destruct r as [[]|e]; [|apply good_refl]. specialize (Hr eq_refl).
  set (ids := dedupeSorted profileIDs) in *. posture_go; try apply GetResourcePolicy_good.
  all: match goal with H : policy_of _ _ _ = Some ?x |- _ => apply policy_of_Some in H as [Hp Hw] end.
  all: simplify_eq; apply good_quiet; split_and!; [done..|]; intros Hwf; apply touch_policy_wf; simpl; [by rewrite Hp|].
  all: try by apply clear_profiles_wf.
  all: apply set_profiles_wf; [unfold policy_in; by rewrite Hp|done|done].
Qed.

Lemma move_resources_wf ws id s :
  posture_wf s → posture_wf (move_resources ws id s).2.
Proof.
  intros Hwf. unfold move_resources. destruct (default_policy ws s) as [d|] eqn:Hd; [|done]. simpl.
  apply wf_set_resources; [|done]. unfold default_policy in Hd. apply fmap_Some in Hd as ([d' p] & Hh & ->).
  apply head_Some_elem_of, list_elem_of_filter in Hh as [[Hw Hdef] Hp%elem_of_map_to_list]. simpl in *.
  intros i tp (tp' & <- & Hi)%lookup_fmap_Some. case_bool_decide; simpl; [|by apply (wf_resources _ Hwf i)].
  unfold policy_in. rewrite Hp. simpl. by f_equal.
Qed.

Lemma delete_policy_wf id p s s' :
  q_policies s !! id = Some p → po_is_default p = false → delete_policy id s = Ok (tt, s') → posture_wf s → posture_wf s'.
Proof.
  unfold delete_policy. intros Hp Hnd Hdel Hwf. destruct (bool_decide _) eqn:Hb; [done|]. injection Hdel as <-.
  apply bool_decide_eq_false in Hb. pose proof Hwf as [Hpp Hrq Hrs Hd H1 Hev Hob]. split; simpl; try done.
  - intros pp ws [Hi Hne]%map_lookup_filter_Some. destruct (Hpp pp ws Hi) as (? & ? & ?). split_and!; try done.
    unfold policy_in. simpl. by rewrite lookup_delete_ne.
  - intros i tp Hi. unfold policy_in. simpl. rewrite lookup_delete_ne; [by apply (Hrs i tp)|].
    intros ->. apply Hb. by exists i, tp.
  - intros ws Hws. destruct (Hd ws Hws) as (i & q & Hq & ? & ?). exists i, q. rewrite lookup_delete_ne; [done|].
    intros ->. congruence.
  - intros i j x y [_ Hx]%lookup_delete_Some [_ Hy]%lookup_delete_Some. by apply H1.
Qed.

Lemma DeleteResourcePolicy_good ws id s :
  wp (DeleteResourcePolicy ws id) s None (λ _ s' _, good_step s s').
Proof.
  unfold DeleteResourcePolicy. posture_go.
  all: match goal with H : policy_of _ _ _ = Some ?x, H' : Ok (move_resources _ _ _) = Ok (_, ?s1),
      H'' : delete_policy _ ?s1 = Ok (?u, ?s2) |- _ =>
      apply policy_of_Some in H as [Hp Hw]; injection H' as Hm; assert (s1 = (move_resources ws id s).2) as -> by (by rewrite Hm);
      destruct u; rename H'' into Hdel end.
  all: assert (q_policies (move_resources ws id s).2 = q_policies s ∧ q_profiles (move_resources ws id s).2 = q_profiles s ∧
      q_requirements (move_resources ws id s).2 = q_requirements s ∧
      q_evaluations (move_resources ws id s).2 = q_evaluations s) as (Hq1 & Hq2 & Hq3 & Hq4)
    by (unfold move_resources; by destruct (default_policy ws s)).
  all: apply good_quiet; pose proof Hdel as Hd; unfold delete_policy in Hd; destruct (bool_decide _); [done|]; injection Hd as <-.
  all: split_and!; [done..|]; intros Hwf; eapply delete_policy_wf; [by rewrite Hq1|done|exact Hdel|by apply move_resources_wf].
Qed.

Lemma SetResourcePolicy_good ws rid id s :
  wp (SetResourcePolicy ws rid id) s None (λ _ s' _, good_step s s').
Proof.
  unfold SetResourcePolicy. posture_go.
  all: match goal with H : set_policy_of _ _ _ _ = Ok _ |- _ => unfold set_policy_of in H; rename H into Hs end.
  all: destruct (policy_of ws id s) as [pol|] eqn:Hp; [|done]; apply policy_of_Some in Hp as [Hp Hw]; simplify_eq.
  all: apply good_quiet; split_and!; [done..|]; intros Hwf; apply wf_set_resources; [|done].
  all: apply map_Forall_insert_2; [|apply Hwf]; unfold policy_in; simpl; by rewrite Hp.
Qed.

Lemma now_any_device_wp id l c s :
  wp (now_any_device id l) c (Some s) (λ _ c' wk, c' = c ∧ wk = Some s).
Proof.
  induction l as [|p l IH]; simpl; [by apply wp_ret|]. wp_go; try done.
  eapply wp_mono; [|apply IH]. intros [r|e] c' wk [-> ->]; [|done]. by apply wp_ret.
Qed.

Lemma delete_profile_good ws id s : good_step s (delete_profile ws id s).
Proof.
  unfold delete_profile. destruct (profile_of ws id s) as [p|]; [|apply good_refl].
  intros [Hpp Hrq Hrs Hd H1 Hev Hob]. split_and!; [split; simpl; try done| |].
  - intros pp w [Hi Hne]%map_lookup_filter_Some. destruct (Hpp pp w Hi) as (? & ? & [c Hc]). split_and!; try done.
    + unfold profile_in. simpl. by rewrite lookup_delete_ne.
    + exists c. simpl. destruct Hc as [v Hv]. exists v. by rewrite map_lookup_filter_Some.
  - intros k v [Hk Hne]%map_lookup_filter_Some. simpl in *. rewrite lookup_delete_ne by done. by apply (Hrq k v).
  - intros dp e [He Hne]%map_lookup_filter_Some. destruct (Hev dp e He) as [? Hr]. split; [|done].
    unfold profile_in. simpl. by rewrite lookup_delete_ne.
  - intros i p'. simpl. intros [Hne Hi]%lookup_delete_Some. right. exists p'. split_and!; [done..|lia|].
    intros _ check. simpl. destruct (q_requirements s !! (i, check)) as [v|] eqn:Hv.
    + rewrite map_lookup_filter_Some. done.
    + rewrite map_lookup_filter_None. by left.
  - intros dp e. simpl. intros [He _]%map_lookup_filter_Some. eauto.
Qed.

Lemma DeleteProfile_good ws id confirm s :
  wp (DeleteProfile ws id confirm) s None (λ _ s' _, good_step s s').
Proof.
  unfold DeleteProfile. wp_go; try apply good_refl.
  eapply wp_mono; [|apply now_any_device_wp]. intros [l|e] c' wk [-> ->]; [|apply good_refl].
  wp_go; try apply good_refl; unfold exec in *; simplify_eq; apply delete_profile_good.
Qed.
End policies.

End steps.

(** ** Every operation *)

Inductive posture_op :=
| OpInsertReport (id : uuid) (now : time) (ws d : uuid) (r : Report)
| OpCreateProfile (id : uuid) (now : time) (ws : uuid) (name : string) (manual : bool)
| OpManualTrust (now : time) (ws id : uuid) (enabled : bool)
| OpAddRequirement (now : time) (ws id : uuid) (r : Requirement)
| OpRemoveRequirement (now : time) (ws id : uuid) (check : string)
| OpUpdateCountryRule (now : time) (ws id : uuid) (rule : CountryRule)
| OpUpsertEvaluation (now : time) (ws d id : uuid) (revision : Z) (satisfied : bool) (reason : option string) (report : option uuid)
| OpRecordNetworkObservation (now : time) (ws d : uuid) (country : string)
| OpDeleteExpiredReports (cutoff : time) (limit : Z)
| OpCreateResourcePolicy (id : uuid) (now : time) (ws : uuid) (name : string) (description : option string)
| OpUpdateResourcePolicy (now : time) (ws id : uuid) (name description : option string)
| OpSetResourcePolicyProfiles (now : time) (ws id : uuid) (profileIDs : list uuid)
| OpDeleteResourcePolicy (ws id : uuid)
| OpSetResourcePolicy (ws rid id : uuid)
| OpDeleteProfile (ws id : uuid) (confirm : bool).

Section operations.
Context `{RowOrder}.

(** Run the operation and forget its answer. *)
Definition run_posture_op (op : posture_op) : postureM () :=
  match op with
  | OpInsertReport id now ws d r => InsertReport id now ws d r
  | OpCreateProfile id now ws name manual => CreateProfile id now ws name manual ;;; ret tt
  | OpManualTrust now ws id enabled => UpdateProfileManualTrust now ws id enabled ;;; ret tt
  | OpAddRequirement now ws id r => AddRequirement now ws id r
  | OpRemoveRequirement now ws id check => RemoveRequirement now ws id check
  | OpUpdateCountryRule now ws id rule => UpdateCountryRule now ws id rule ;;; ret tt
  | OpUpsertEvaluation now ws d id revision satisfied reason report =>
      UpsertEvaluation now ws d id revision satisfied reason report
  | OpRecordNetworkObservation now ws d country => RecordNetworkObservation now ws d country ;;; ret tt
  | OpDeleteExpiredReports cutoff limit => DeleteExpiredReports cutoff limit ;;; ret tt
  | OpCreateResourcePolicy id now ws name description => CreateResourcePolicy id now ws name description ;;; ret tt
  | OpUpdateResourcePolicy now ws id name description => UpdateResourcePolicy now ws id name description ;;; ret tt
  | OpSetResourcePolicyProfiles now ws id profileIDs => SetResourcePolicyProfiles now ws id profileIDs ;;; ret tt
  | OpDeleteResourcePolicy ws id => DeleteResourcePolicy ws id ;;; ret tt
  | OpSetResourcePolicy ws rid id => SetResourcePolicy ws rid id ;;; ret tt
  | OpDeleteProfile ws id confirm => DeleteProfile ws id confirm ;;; ret tt
  end.

Definition is_upsert (op : posture_op) : bool := match op with OpUpsertEvaluation _ _ _ _ _ _ _ _ => true | _ => false end.

(** The profile an operation creates. *)
Definition creates (op : posture_op) (id : uuid) : Prop :=
  match op with OpCreateProfile i _ _ _ _ => i = id | _ => False end.

Lemma posture_op_good op s :
  is_upsert op = false → wp (run_posture_op op) s None (λ _ s' _, good_step (creates op) s s').
Proof.
  destruct op; simpl; intros Hop; try done; try apply wp_forget.
  - apply InsertReport_good.
  - by apply CreateProfile_good.
  - apply UpdateProfileManualTrust_good.
  - apply AddRequirement_good.
  - apply RemoveRequirement_good.
  - apply UpdateCountryRule_good.
  - apply RecordNetworkObservation_good.
  - apply DeleteExpiredReports_good.
  - apply CreateResourcePolicy_good.
  - apply UpdateResourcePolicy_good.
  - apply SetResourcePolicyProfiles_good.
  - apply DeleteResourcePolicy_good.
  - apply SetResourcePolicy_good.
  - apply DeleteProfile_good.
Qed.

End operations.
