(* ===== verification/PostureRun.v ===== *)
(** * Evaluations and retention

    Evaluators read profiles, requirements and the rest in separate statements,
    while administrators change requirements.  The transition system below
    interleaves them with every other operation, and its invariant says what an
    evaluation at the profile's current revision stands for.  Then the outcome
    of evaluating one device, and of the retention worker. *)

From Stdlib Require Import ZArith Lia.
From S2P Require Import Prelude Sql GoText AclCompiler Posture PostureFacts PostureStore ResourcePolicy PostureSafety.
Open Scope Z_scope.

(** ** Evaluators among other operations *)

(** What an evaluation judges on: the clock, when the report came, and the
    observations. *)
Record judging := MkJudging { jg_now : time; jg_received : time; jg_observations : gmap string Observation }.

Inductive ephase :=
| Todo (ws d : uuid) (j : judging) (todo : list (uuid * ProfileRow))
| Judging (ws d : uuid) (j : judging) (id : uuid) (p : ProfileRow) (reqs : list Requirement) (todo : list (uuid * ProfileRow)).

(** The tables, the evaluators, the profile ids ever used, and what each stored
    evaluation was computed from. *)
Record esys := ESys {
  edb : PostureDB;
  tasks : gmap nat ephase;
  born : gset uuid;
  basis : uuid * uuid → list Requirement * judging
}.

Definition judge_with (p : ProfileRow) (reqs : list Requirement) (j : judging) : ProfileResult :=
  EvaluateProfile (jg_now j) (jg_received j) (pf_revision p) reqs (jg_observations j).

Definition set_basis (k : uuid * uuid) (v : list Requirement * judging) (f : uuid * uuid → list Requirement * judging) :=
  λ k', if k' ≟ k then v else f k'.

Definition born_after (op : posture_op) (b : gset uuid) : gset uuid :=
  match op with OpCreateProfile id _ _ _ _ => {[id]} ∪ b | _ => b end.

Section evaluators.
Context `{RowOrder}.

(** What [ListRequirements] reads. *)
Definition listed_requirements (ws id : uuid) (s : PostureDB) : list Requirement :=
  match profile_of ws id s with Some _ => profile_requirements id s | None => [] end.

Inductive estep : esys → esys → Prop :=
| e_op s op fs r w' :
    is_upsert op = false → (∀ id, creates op id → id ∉ born s) →
    run_posture_op op (World (edb s) None fs) = (r, w') →
    estep s (ESys (committed w') (tasks s) (born_after op (born s)) (basis s))
| e_begin s tid ws d j :
    tasks s !! tid = None →
    estep s (ESys (edb s) (<[tid := Todo ws d j (workspace_profiles ws (edb s))]> (tasks s)) (born s) (basis s))
| e_requirements s tid ws d j id p todo :
    tasks s !! tid = Some (Todo ws d j ((id, p) :: todo)) →
    estep s (ESys (edb s) (<[tid := Judging ws d j id p (listed_requirements ws id (edb s)) todo]> (tasks s)) (born s) (basis s))
| e_store s tid ws d j id p reqs todo dbnow report n s' :
    tasks s !! tid = Some (Judging ws d j id p reqs todo) →
    let result := judge_with p reqs j in
    upsert_evaluation dbnow ws d id (pf_revision p) (pr_Satisfied result) (Some (pr_Reason result)) report (edb s) = Ok (n, s') →
    estep s (ESys s' (<[tid := Todo ws d j todo]> (tasks s)) (born s)
               (if n =? 1 then set_basis (d, id) (reqs, j) (basis s) else basis s))
| e_stop s tid :
    estep s (ESys (edb s) (delete tid (tasks s)) (born s) (basis s)).

(** ** The invariant *)

Definition current (reqs : list Requirement) (id : uuid) (s : PostureDB) : Prop :=
  ∀ r, r ∈ reqs ↔ r ∈ profile_requirements id s.

(** A profile row read earlier, against the row there is now. *)
Definition row_ok (s : esys) (ws id : uuid) (p : ProfileRow) : Prop :=
  id ∈ born s ∧ ∀ p', q_profiles (edb s) !! id = Some p' → pf_workspace p' = ws ∧ pf_revision p <= pf_revision p'.

Definition task_ok (s : esys) (t : ephase) : Prop :=
  match t with
  | Todo ws d j todo => Forall (λ ip, row_ok s ws ip.1 ip.2) todo
  | Judging ws d j id p reqs todo =>
      Forall (λ ip, row_ok s ws ip.1 ip.2) todo ∧ row_ok s ws id p ∧
      ∀ p', q_profiles (edb s) !! id = Some p' → pf_revision p' = pf_revision p → current reqs id (edb s)
  end.

Definition evaluation_ok (s : esys) (dp : uuid * uuid) (e : EvaluationRow) : Prop :=
  ∀ p', q_profiles (edb s) !! dp.2 = Some p' →
    er_revision e <= pf_revision p' ∧
    (pf_revision p' = er_revision e →
       let '(reqs, j) := basis s dp in
       current reqs dp.2 (edb s) ∧ er_satisfied e = pr_Satisfied (judge_with p' reqs j)).

Record einv (s : esys) : Prop := {
  ei_wf : posture_wf (edb s);
  ei_born : ∀ id, is_Some (q_profiles (edb s) !! id) → id ∈ born s;
  ei_tasks : map_Forall (λ _ t, task_ok s t) (tasks s);
  ei_evaluations : map_Forall (evaluation_ok s) (q_evaluations (edb s))
}.

Lemma profile_requirements_elem id s r :
  r ∈ profile_requirements id s ↔ ∃ check v, q_requirements s !! (id, check) = Some v ∧ r = requirement_row check v.
Proof.
  unfold profile_requirements. rewrite merge_sort_Permutation, list_elem_of_omap. split.
  - intros ([[p check] v] & Hin%elem_of_map_to_list & Hr). case_bool_decide; simplify_eq. eauto.
  - intros (check & v & Hv & ->). exists ((id, check), v). rewrite elem_of_map_to_list. split; [done|].
    by rewrite bool_decide_refl.
Qed.

Lemma current_same reqs id s s' :
  (∀ check, q_requirements s' !! (id, check) = q_requirements s !! (id, check)) → current reqs id s → current reqs id s'.
Proof.
  intros Hq Hc r. rewrite (Hc r), !profile_requirements_elem. by setoid_rewrite Hq.
Qed.

(** A step of the tables that creates no profile used before. *)
Definition safe_step (s s' : esys) : Prop :=
  born s ⊆ born s' ∧
  (∀ id p', id ∈ born s → q_profiles (edb s') !! id = Some p' →
     ∃ p, q_profiles (edb s) !! id = Some p ∧ pf_workspace p' = pf_workspace p ∧ pf_revision p <= pf_revision p' ∧
       (pf_revision p' = pf_revision p → ∀ check, q_requirements (edb s') !! (id, check) = q_requirements (edb s) !! (id, check))).

Lemma row_ok_step s s' ws id p : safe_step s s' → row_ok s ws id p → row_ok s' ws id p.
Proof.
  intros [Hb Hs] [Hid Hr]. split; [set_solver|]. intros p' Hp'. destruct (Hs id p' Hid Hp') as (p0 & Hp0 & -> & ? & _).
  destruct (Hr p0 Hp0). split; [done|lia].
Qed.

Lemma rows_ok_step s s' ws (todo : list (uuid * ProfileRow)) :
  safe_step s s' → Forall (λ ip, row_ok s ws ip.1 ip.2) todo → Forall (λ ip, row_ok s' ws ip.1 ip.2) todo.
Proof. intros Hs Hf. eapply Forall_impl; [exact Hf|]. intros ip. by apply row_ok_step. Qed.

Lemma task_ok_step s s' t : safe_step s s' → task_ok s t → task_ok s' t.
Proof.
  intros Hs. destruct t as [ws d j todo|ws d j id p reqs todo]; simpl; [by apply rows_ok_step|].
  intros (Htodo & Hrow & Hc). split_and!; [by eapply rows_ok_step|by eapply row_ok_step|].
  intros p' Hp' Heq. destruct Hrow as [Hid Hr]. destruct Hs as [_ Hs].
  destruct (Hs id p' Hid Hp') as (p0 & Hp0 & _ & Hle & Hq). destruct (Hr p0 Hp0) as [_ ?].
  apply (current_same _ _ (edb s)); [apply Hq; lia|]. apply (Hc p0 Hp0). lia.
Qed.

Lemma tasks_step s s' (ts : gmap nat ephase) :
  safe_step s s' → map_Forall (λ _ t, task_ok s t) ts → map_Forall (λ _ t, task_ok s' t) ts.
Proof. intros Hs Hts i t Ht. eapply task_ok_step; eauto. Qed.

Lemma evaluation_ok_step s s' dp e e' :
  safe_step s s' → basis s' = basis s → dp.2 ∈ born s →
  er_satisfied e' = er_satisfied e → er_revision e' = er_revision e → evaluation_ok s dp e → evaluation_ok s' dp e'.
Proof.
  intros [_ Hs] Hb Hid Hsat Hrev He p' Hp'. destruct (Hs _ p' Hid Hp') as (p0 & Hp0 & Hw & Hle & Hq).
  destruct (He p0 Hp0) as [Hle' Hc]. rewrite Hrev, Hsat, Hb. split; [lia|]. intros Heq.
  assert (pf_revision p0 = er_revision e) as Hp0e by lia. specialize (Hc Hp0e). destruct (basis s dp) as [reqs j].
  destruct Hc as [Hc Hs']. split; [apply (current_same _ _ (edb s)); [apply Hq; lia|done]|].
  rewrite Hs'. unfold judge_with. by rewrite Heq, Hp0e.
Qed.

Lemma safe_refl db ts b bs ts' bs' : safe_step (ESys db ts b bs) (ESys db ts' b bs').
Proof. split; [done|]. simpl. intros id p' _ Hp'. exists p'. auto with lia. Qed.

(** A step that only moves evaluators. *)
Lemma task_step_inv s ts :
  einv s → map_Forall (λ _ t, task_ok s t) ts → einv (ESys (edb s) ts (born s) (basis s)).
Proof.
  intros [Hwf Hb _ Hev] Hts. split; simpl; try done.
Qed.

Lemma op_inv s op fs r w' :
  einv s → is_upsert op = false → (∀ id, creates op id → id ∉ born s) →
  run_posture_op op (World (edb s) None fs) = (r, w') →
  einv (ESys (committed w') (tasks s) (born_after op (born s)) (basis s)).
Proof.
  intros Hinv Hop Hfresh Hrun. pose proof (posture_op_good op (edb s) Hop fs) as Hg. rewrite Hrun in Hg.
  destruct (Hg (ei_wf _ Hinv)) as (Hwf' & Hq & He). set (s' := ESys _ _ _ _).
  assert (born s ⊆ born s') as Hborn by (destruct op; simpl; set_solver).
  assert (safe_step s s') as Hs.
  { split; [done|]. intros id p' Hid Hp'. destruct (Hq id p' Hp') as [[_ Hc]|?]; [|done].
    by destruct (Hfresh id Hc). }
  split; simpl; [done| | |].
  - intros id [p' Hp']. destruct (Hq id p' Hp') as [[_ Hc]|(p & Hp & _)].
    + destruct op; try done. simpl in *. subst. set_solver.
    + apply Hborn, (ei_born _ Hinv). eauto.
  - apply (tasks_step s s' _ Hs), Hinv.
  - intros dp e' He'. destruct (He dp e' He') as (e & Hee & Hsat & Hrev).
    eapply (evaluation_ok_step s s'); [done|done| |done|done|by apply (ei_evaluations _ Hinv)].
    destruct (wf_evaluations _ (ei_wf _ Hinv) dp e Hee) as [Hp _]. apply (ei_born _ Hinv).
    unfold profile_in in Hp. destruct (q_profiles (edb s) !! dp.2); [by eexists|done].
Qed.

Lemma evaluator_store_inv s tid ws d j id p reqs todo dbnow report n s' :
  einv s → tasks s !! tid = Some (Judging ws d j id p reqs todo) →
  let result := judge_with p reqs j in
  upsert_evaluation dbnow ws d id (pf_revision p) (pr_Satisfied result) (Some (pr_Reason result)) report (edb s) = Ok (n, s') →
  einv (ESys s' (<[tid := Todo ws d j todo]> (tasks s)) (born s)
          (if n =? 1 then set_basis (d, id) (reqs, j) (basis s) else basis s)).
Proof.
  intros Hinv Ht result Hu. destruct (ei_tasks _ Hinv _ _ Ht) as (Htodo & [Hid Hrow] & Hc).
  apply upsert_evaluation_good in Hu as [[-> ->]|(-> & _ & -> & Hwf')].
  { simpl. apply task_step_inv; [done|]. apply map_Forall_insert_2; [done|apply Hinv]. }
  cbn [Z.eqb Pos.eqb]. split; simpl; [by apply Hwf', Hinv|apply Hinv| |].
  - apply map_Forall_insert_2; [done|apply Hinv].
  - intros dp e [[<- <-]|[Hne He]]%lookup_insert_Some.
    + intros p' Hp'. simpl in *. destruct (Hrow p' Hp') as [_ Hle]. split; [done|]. intros Heq.
      unfold set_basis. rewrite bool_decide_refl. split; [by apply (Hc p' Hp')|].
      unfold result, judge_with. by rewrite Heq.
    + pose proof (ei_evaluations _ Hinv dp e He) as Hev. intros p' Hp'. destruct (Hev p' Hp') as [? Hb]. split; [done|].
      simpl. unfold set_basis. rewrite bool_decide_false by done. exact Hb.
Qed.

Lemma workspace_profiles_elem ws s id p :
  (id, p) ∈ workspace_profiles ws s ↔ q_profiles s !! id = Some p ∧ pf_workspace p = ws.
Proof.
  unfold workspace_profiles. rewrite merge_sort_Permutation, ord_elem, list_elem_of_filter, elem_of_map_to_list. naive_solver.
Qed.

Lemma estep_inv s s' : einv s → estep s s' → einv s'.
Proof.
  intros Hinv Hstep. destruct Hstep as [s op fs r w' Hop Hfresh Hrun|s tid ws d j Hn|s tid ws d j id p todo Ht
    |s tid ws d j id p reqs todo dbnow report n s' Ht result Hu|s tid].
  - by eapply op_inv.
  - apply task_step_inv; [done|]. apply map_Forall_insert_2; [|apply Hinv]. simpl. apply Forall_forall.
    intros [id p] [Hp Hw]%workspace_profiles_elem. simpl. split; [apply (ei_born _ Hinv); eauto|].
    intros p' Hp'. rewrite Hp in Hp'. injection Hp' as <-. split; [done|lia].
  - apply task_step_inv; [done|]. apply map_Forall_insert_2; [|apply Hinv].
    pose proof (ei_tasks _ Hinv _ _ Ht) as [Hrow Htodo]%Forall_cons. simpl in *. split_and!; [done..|].
    intros p' Hp' Heq. destruct Hrow as [_ Hrow]. destruct (Hrow p' Hp') as [Hw _].
    unfold listed_requirements, profile_of. rewrite Hp', Hw, bool_decide_refl. done.
  - by eapply evaluator_store_inv.
  - apply task_step_inv; [done|]. apply map_Forall_delete, Hinv.
Qed.

(** Tables with no evaluation yet, and no evaluator. *)
Definition evaluators_start (s : esys) : Prop :=
  posture_wf (edb s) ∧ q_evaluations (edb s) = ∅ ∧ tasks s = ∅ ∧ (∀ id, is_Some (q_profiles (edb s) !! id) → id ∈ born s).

Lemma evaluators_inv s0 s : evaluators_start s0 → rtc estep s0 s → einv s.
Proof.
  intros (Hwf & He & Ht & Hb) Hs.
  assert (einv s0) as Hinv by (split; [done|done|by rewrite Ht|by rewrite He]).
  clear Hwf He Ht Hb. induction Hs; eauto using estep_inv.
Qed.

End evaluators.

(** ** A run *)

Definition demo_profile : ProfileRow := MkProfileRow "ws" "managed" 1 true 0 0.
Definition demo_tables : PostureDB :=
  MkPostureDB {["ws"]} {["d" := MkPDevice "ws" (Some 0) None]}
    {["rep" := MkReportRow "r1" "d" "ws" "1.0" ("Ubuntu", "24.04") 0 0]}
    {[("rep", CheckFirewall) := (StatusPass, None)]}
    {["p" := demo_profile]} {[("p", CheckFirewall) := (false, None); ("p", CheckDeviceApproved) := (false, None)]}
    ∅ ∅ {["def" := MkPolicyRow "ws" "Default" None true 0 0]} {[("def", "p") := "ws"]} {["res" := ("ws", "def")]}.

Lemma demo_tables_wf : posture_wf demo_tables.
Proof.
  split.
  - apply map_Forall_singleton. split_and!; [done..|]. by exists CheckFirewall.
  - intros [i c] v Hv. destruct (decide (i = "p")) as [->|Hne]; [by eexists|].
    simpl in Hv. rewrite lookup_insert_ne, lookup_singleton_ne in Hv by congruence. done.
  - by apply map_Forall_singleton.
  - intros ws Hws. change (ws ∈ ({["ws"]} : gset uuid)) in Hws. apply elem_of_singleton in Hws as ->. by exists "def", (MkPolicyRow "ws" "Default" None true 0 0).
  - intros i j x y Hi Hj. simpl in *. apply lookup_singleton_Some in Hi as [<- _], Hj as [<- _]. done.
  - done.
  - apply map_Forall_singleton. by eexists.
Qed.

Definition demo_judging : judging :=
  MkJudging Minute 0 (judged_observations [MkObservation CheckFirewall StatusPass None] true None Minute).
Definition demo_reqs : list Requirement := [MkRequirement CheckFirewall false None; MkRequirement CheckDeviceApproved false None].
Definition demo_basis : uuid * uuid → list Requirement * judging := λ _, ([], demo_judging).
Definition demo_start : esys := ESys demo_tables ∅ {["p"]} demo_basis.
Definition demo_evaluation : EvaluationRow :=
  MkEvaluationRow "ws" true 1 (Some "all requirements satisfied") Minute (Some "rep").
Definition demo_evaluated : esys :=
  ESys (set_evaluations {[("d", "p") := demo_evaluation]} demo_tables) {[0%nat := Todo "ws" "d" demo_judging []]} {["p"]}
    (set_basis ("d", "p") (demo_reqs, demo_judging) demo_basis).

Lemma demo_evaluated_reachable : rtc (estep (H:=scan_order)) demo_start demo_evaluated.
Proof.
  eapply rtc_l; [apply (e_begin (H:=scan_order) demo_start 0 "ws" "d" demo_judging); reflexivity|].
  eapply rtc_l; [apply (e_requirements (H:=scan_order) _ 0 "ws" "d" demo_judging "p" demo_profile []); vm_compute; reflexivity|].
  eapply rtc_l; [apply (e_store (H:=scan_order) _ 0 "ws" "d" demo_judging "p" demo_profile demo_reqs [] Minute (Some "rep") 1
    (set_evaluations {[("d", "p") := demo_evaluation]} demo_tables)); vm_compute; reflexivity|].
  apply rtc_refl.
Qed.



(** ** Evaluating one device *)

Section device.
Context `{RowOrder}.

Definition result_for (now received : time) (ws : uuid) (obs : gmap string Observation) (s : PostureDB)
    (ip : uuid * ProfileRow) : ProfileResult :=
  EvaluateProfile now received (pf_revision ip.2) (listed_requirements ws ip.1 s) obs.
Definition evaluation_for (dbnow : time) (ws report : uuid) (p : ProfileRow) (r : ProfileResult) : EvaluationRow :=
  MkEvaluationRow ws (pr_Satisfied r) (pf_revision p) (Some (pr_Reason r)) dbnow (Some report).
Definition previous_evaluation (ws d id : uuid) (s : PostureDB) : option EvaluationRow :=
  match q_evaluations s !! (d, id) with Some e => if er_workspace e ≟ ws then Some e else None | None => None end.

Lemma evaluate_profiles_wp now dbnow ws d rep received obs profiles s :
  wp (evaluate_profiles now dbnow ws d rep received obs profiles) s None (λ r s' _,
    (∃ m, s' = set_evaluations m s) ∧
    (∀ dp, dp.1 ≠ d ∨ dp.2 ∉ profiles.*1 → q_evaluations s' !! dp = q_evaluations s !! dp) ∧
    (NoDup profiles.*1 → ∀ results changed, r = Ok (results, changed) →
       results = (λ ip, (ip.1, result_for now received ws obs s ip)) <$> profiles ∧
       (∀ ip, ip ∈ profiles → q_evaluations s' !! (d, ip.1) =
          Some (evaluation_for dbnow ws rep ip.2 (result_for now received ws obs s ip))) ∧
       (changed = true ↔ ∃ ip, ip ∈ profiles ∧
          evaluation_changed (previous_evaluation ws d ip.1 s) (pf_revision ip.2) (result_for now received ws obs s ip) = true))).
Proof.
  revert s. induction profiles as [|[id p] profiles IH]; intros s; simpl.
  { apply wp_ret. split_and!; [by exists (q_evaluations s); destruct s|done|]. intros _ results changed [= <- <-].
    split_and!; [done|set_solver|set_solver]. }
  assert (∃ m, s = set_evaluations m s) as Hs by (exists (q_evaluations s); by destruct s).
  unfold ListRequirements, LatestEvaluation, UpsertEvaluation. wp_go; try done.
  all: match goal with H : upsert_evaluation _ _ _ _ _ _ _ _ _ = Ok _ |- _ =>
         apply upsert_evaluation_good in H as [[-> ->]|(-> & _ & -> & _)]; try done end.
  all: set (e := MkEvaluationRow _ _ _ _ _ _); set (s1 := set_evaluations (<[(d, id) := e]> (q_evaluations s)) s).
  2: { split_and!; [by eexists| |done]. intros dp Hdp; simpl; apply lookup_insert_ne. intros <-.
       destruct Hdp as [[]|[]]; [done|left]. }
  eapply wp_mono; [|apply (IH s1)]. cbn beta. clear IH. intros r s' wk ((m & ->) & Hother & Hok).
  assert (∀ dp, dp.1 ≠ d ∨ dp.2 ∉ id :: profiles.*1 → q_evaluations (set_evaluations m s1) !! dp = q_evaluations s !! dp) as Hother'.
  { intros dp Hdp. rewrite Hother by set_solver. simpl. apply lookup_insert_ne. set_solver. }
  destruct r as [[results changed]|err]; [apply wp_ret|]; (split_and!; [by exists m|exact Hother'|]); [|done].
  intros [Hid Hnd]%NoDup_cons results' changed' [= <- <-]. destruct (Hok Hnd _ _ eq_refl) as (-> & Hev & Hch). split_and!.
  - done.
  - intros [i q] [[= -> ->]|Hin]%elem_of_cons; [|by apply Hev]. simpl. rewrite Hother by (by right).
    simpl. by rewrite lookup_insert_eq.
  - rewrite orb_true_iff, Hch, exists_elem_cons. apply or_iff_compat_l. split; intros ([i q] & Hin & Hc); exists (i, q);
      (split; [done|]); revert Hc; unfold previous_evaluation; simpl; rewrite lookup_insert_ne; try done;
      intros [= ->]; apply Hid, list_elem_of_fmap; by exists (i, q).
Qed.

(** What the report [rid] says of a check. *)
Definition reported (s : PostureDB) (rid : uuid) (check : string) : option Observation :=
  (λ o, MkObservation check o.1 o.2) <$> q_observations s !! (rid, check).

Lemma latest_head ws d s rid row :
  head (merge_sort newest (ord (filter (λ kv : uuid * ReportRow, rp_workspace kv.2 = ws ∧ rp_device kv.2 = d)
                                  (map_to_list (q_reports s))))) = Some (rid, row) →
  q_reports s !! rid = Some row ∧ rp_workspace row = ws ∧ rp_device row = d ∧
  ∀ i other, q_reports s !! i = Some other → rp_workspace other = ws → rp_device other = d →
    rp_received_at other <= rp_received_at row.
Proof.
  set (l := merge_sort newest _). intros Hh.
  assert (∀ kv : uuid * ReportRow, kv ∈ l ↔ q_reports s !! kv.1 = Some kv.2 ∧ rp_workspace kv.2 = ws ∧ rp_device kv.2 = d) as Hl.
  { intros [i r]. unfold l. rewrite merge_sort_Permutation, ord_elem, list_elem_of_filter, elem_of_map_to_list. naive_solver. }
  destruct l as [|x l'] eqn:Heq; [done|]. injection Hh as ->.
  destruct (proj1 (Hl (rid, row))) as (? & ? & ?); [left|]. split_and!; try done.
  intros i other Hi Hw Hd. assert (StronglySorted newest ((rid, row) :: l')) as Hs.
  { rewrite <-Heq. apply StronglySorted_merge_sort; [intros a b c; unfold newest; lia|intros a b; unfold newest; lia]. }
  pose proof (proj2 (Hl (i, other)) (conj Hi (conj Hw Hd))) as [[= -> ->]|Hin]%elem_of_cons; [lia|].
  apply StronglySorted_inv in Hs as [_ Hf]. rewrite Forall_forall in Hf. apply (Hf (i, other) Hin).
Qed.

Lemma observation_index_lookup (l : list Observation) check o :
  (∀ o1 o2, o1 ∈ l → o2 ∈ l → ob_CheckID o1 = ob_CheckID o2 → o1 = o2) →
  foldl (λ m o, <[ob_CheckID o := o]> m) (∅ : gmap string Observation) l !! check = Some o ↔ o ∈ l ∧ ob_CheckID o = check.
Proof.
  intros Huniq. induction l as [|q l IH] using rev_ind; [set_solver|].
  rewrite foldl_app. simpl. rewrite lookup_insert_Some, IH.
  2:{ intros. apply Huniq; set_solver. }
  rewrite elem_of_app, list_elem_of_singleton. split; [naive_solver|].
  intros [[Hp| ->] Hid]; [|by left]. destruct (decide (ob_CheckID q = check)) as [Hq|Hq]; [|by right].
  left. split; [done|]. apply Huniq; [set_solver..|congruence].
Qed.

(** The observations of a report, as [ListObservations] reads them. *)
Definition report_observations (rid : uuid) (s : PostureDB) : list Observation :=
  merge_sort by_check (omap (λ '((r, check), (status, detail)),
    if r ≟ rid then Some (MkObservation check status detail) else None) (map_to_list (q_observations s))).

Lemma report_observations_elem rid s o :
  o ∈ report_observations rid s ↔ q_observations s !! (rid, ob_CheckID o) = Some (ob_Status o, ob_Detail o).
Proof.
  unfold report_observations. rewrite merge_sort_Permutation, list_elem_of_omap. split.
  - intros ([[r check] [status detail]] & Hin%elem_of_map_to_list & Ho). case_bool_decide; simplify_eq. done.
  - intros Ho. exists ((rid, ob_CheckID o), (ob_Status o, ob_Detail o)). rewrite elem_of_map_to_list. split; [done|].
    rewrite bool_decide_refl. by destruct o.
Qed.

(** What a device is judged on. *)
Lemma judged_lookup rid approved seen now s check :
  judged_observations (report_observations rid s) approved seen now !! check =
    if check ≟ CheckNetworkCountry then Some (countryObservation seen now)
    else if check ≟ CheckDeviceApproved then Some (approvalObservation approved)
    else reported s rid check.
Proof.
  unfold judged_observations. repeat case_bool_decide; subst.
  - by rewrite lookup_insert_eq.
  - by rewrite lookup_insert_ne, lookup_insert_eq by done.
  - rewrite !lookup_insert_ne by done. apply option_eq. intros o. rewrite observation_index_lookup.
    + rewrite report_observations_elem. unfold reported. rewrite fmap_Some. split.
      * intros [Ho <-]. eexists. split; [done|]. by destruct o.
      * intros ([st dt] & Hv & ->). done.
    + intros o1 o2. rewrite !report_observations_elem. intros Ho1 Ho2 Heq. rewrite Heq, Ho2 in Ho1.
      destruct o1, o2. simpl in *. congruence.
Qed.

Lemma workspace_profiles_NoDup ws s : NoDup (workspace_profiles ws s).*1.
Proof.
  unfold workspace_profiles. rewrite merge_sort_Permutation, ord_perm.
  apply (NoDup_fmap_fst). { intros i x y [_ Hx%elem_of_map_to_list]%list_elem_of_filter [_ Hy%elem_of_map_to_list]%list_elem_of_filter. congruence. }
  apply NoDup_filter, NoDup_map_to_list.
Qed.

(** The device's last sighting in the workspace. *)
Definition sighting_of (ws d : uuid) (s : PostureDB) : option (string * time) :=
  match q_sightings s !! d with
  | Some row => if sg_workspace row ≟ ws then Some (sg_country row, sg_observed_at row) else None
  | None => None
  end.

(** Whatever fails, evaluating a device writes only evaluations of that
    device.  When it succeeds it has judged every profile of the workspace at
    its revision, with its requirements, on the device's newest report, and
    stored each result.  Device approval and country are judged on the
    controller's own records, never on what the report says of them.  It asks
    for a notification exactly when some stored evaluation changed. *)
Theorem evaluateDevice_spec now dbnow ws d s :
  wp (evaluateDevice now dbnow ws d) s None (λ r s' _,
    (∃ m, s' = set_evaluations m s) ∧
    (∀ dp, dp.1 ≠ d → q_evaluations s' !! dp = q_evaluations s !! dp) ∧
    ∀ results changed, r = Ok (results, changed) →
      ∃ rid row obs,
        (q_reports s !! rid = Some row ∧ rp_workspace row = ws ∧ rp_device row = d ∧
         ∀ i other, q_reports s !! i = Some other → rp_workspace other = ws → rp_device other = d →
           rp_received_at other <= rp_received_at row) ∧
        (∀ check, obs !! check =
           if check ≟ CheckNetworkCountry then Some (countryObservation (sighting_of ws d s) now)
           else if check ≟ CheckDeviceApproved then Some (approvalObservation (device_approved ws d s))
           else reported s rid check) ∧
        (∀ id p, q_profiles s !! id = Some p → pf_workspace p = ws →
           let r := EvaluateProfile now (rp_received_at row) (pf_revision p) (profile_requirements id s) obs in
           (id, r) ∈ results ∧ q_evaluations s' !! (d, id) = Some (evaluation_for dbnow ws rid p r)) ∧
        (changed = true ↔ ∃ id p, q_profiles s !! id = Some p ∧ pf_workspace p = ws ∧
           evaluation_changed (previous_evaluation ws d id s) (pf_revision p)
             (EvaluateProfile now (rp_received_at row) (pf_revision p) (profile_requirements id s) obs) = true)).
Proof.
  assert (∃ m, s = set_evaluations m s) as Hs by (exists (q_evaluations s); by destruct s).
  unfold evaluateDevice, LatestReport, ListObservations, ListProfiles, DeviceApproved, LatestNetworkObservation. wp_go; try done.
  destruct p as [rid row].
  match goal with H : head _ = Some _ |- _ => apply latest_head in H as Hlatest end.
  eapply wp_mono; [|apply evaluate_profiles_wp]. cbn beta. intros r s' wk (Hm & Hother & Hok). split_and!; [done|auto|].
  intros results changed Hr. destruct (Hok (workspace_profiles_NoDup ws s) results changed Hr) as (-> & Hev & Hch).
  assert (∀ id p, q_profiles s !! id = Some p → pf_workspace p = ws → listed_requirements ws id s = profile_requirements id s) as Hlr.
  { intros id p Hp Hw. unfold listed_requirements, profile_of. by rewrite Hp, Hw, bool_decide_refl. }
  eexists rid, row, _. split; [exact Hlatest|]. split; [apply judged_lookup|]. simpl fst in *. simpl snd in *. split.
  - intros id p Hp Hw. pose proof (proj2 (workspace_profiles_elem ws s id p) (conj Hp Hw)) as Hin. split.
    + apply list_elem_of_fmap. exists (id, p). split; [|done]. unfold result_for. simpl. by rewrite (Hlr id p).
    + specialize (Hev _ Hin). unfold result_for in Hev. simpl in Hev. by rewrite (Hlr id p) in Hev.
  - rewrite Hch. unfold result_for. split.
    + intros ([id p] & [Hp Hw]%workspace_profiles_elem & Hc). simpl in Hc. rewrite (Hlr id p) in Hc by done. eauto.
    + intros (id & p & Hp & Hw & Hc). exists (id, p). rewrite workspace_profiles_elem. simpl. by rewrite (Hlr id p).
Qed.
End device.

(** ** Retention *)

Section retention.
Context `{RowOrder}.

Lemma expired_elem cutoff s i row :
  (i, row) ∈ expired_reports cutoff s ↔ q_reports s !! i = Some row ∧ rp_received_at row < cutoff.
Proof. unfold expired_reports. rewrite list_elem_of_filter, elem_of_map_to_list. simpl. tauto. Qed.

(** The oldest [n] expired reports. *)
Definition batch (cutoff : time) (n : Z) (s : PostureDB) : list uuid :=
  (take (Z.to_nat n) (merge_sort oldest (ord (expired_reports cutoff s)))).*1.

Lemma batch_length cutoff n s :
  length (batch cutoff n s) = (Z.to_nat n `min` length (expired_reports cutoff s))%nat.
Proof. unfold batch. by rewrite length_fmap, length_take, merge_sort_Permutation, ord_perm. Qed.

Lemma batch_expired cutoff n s i :
  i ∈ batch cutoff n s → ∃ row, q_reports s !! i = Some row ∧ rp_received_at row < cutoff.
Proof.
  intros ([j row] & -> & Hin)%list_elem_of_fmap. apply elem_of_take in Hin as (k & Hk & _).
  apply list_elem_of_lookup_2 in Hk. rewrite merge_sort_Permutation, ord_elem in Hk. apply expired_elem in Hk. eauto.
Qed.

Lemma batch_all cutoff n s i row :
  Z.of_nat (length (batch cutoff n s)) < n →
  q_reports s !! i = Some row → rp_received_at row < cutoff → i ∈ batch cutoff n s.
Proof.
  intros Hlen Hi Hc. rewrite batch_length in Hlen. unfold batch. rewrite take_ge.
  - apply list_elem_of_fmap. exists (i, row). split; [done|].
    rewrite merge_sort_Permutation, ord_elem. by apply expired_elem.
  - rewrite merge_sort_Permutation, ord_perm. lia.
Qed.

(** Deleting a batch leaves fewer expired reports. *)
Lemma expired_after cutoff ids s i row :
  (i, row) ∈ expired_reports cutoff (delete_reports ids s) ↔ (i, row) ∈ expired_reports cutoff s ∧ i ∉ ids.
Proof. rewrite !expired_elem. simpl. rewrite map_lookup_filter_Some. simpl. tauto. Qed.

Lemma expired_NoDup cutoff s : NoDup (expired_reports cutoff s).
Proof. apply NoDup_filter, NoDup_map_to_list. Qed.

Lemma expired_shrinks cutoff n s :
  0 < n → Z.of_nat (length (batch cutoff n s)) = n →
  (length (expired_reports cutoff (delete_reports (batch cutoff n s) s)) < length (expired_reports cutoff s))%nat.
Proof.
  intros Hn Hlen. destruct (batch cutoff n s) as [|i ids] eqn:Hb; [simpl in Hlen; lia|].
  assert (i ∈ batch cutoff n s) as Hi by (rewrite Hb; left). pose proof Hi as Hi'. unfold batch in Hi'.
  apply list_elem_of_fmap in Hi' as ([j row] & -> & Hin). apply elem_of_take in Hin as (k & Hk & _).
  apply list_elem_of_lookup_2 in Hk. rewrite merge_sort_Permutation, ord_elem in Hk. simpl in *.
  assert ((j, row) :: expired_reports cutoff (delete_reports (j :: ids) s) ⊆+ expired_reports cutoff s) as Hsub.
  { apply NoDup_submseteq.
    - constructor; [|apply expired_NoDup]. rewrite expired_after. set_solver.
    - intros [x r] [[= -> ->]|Hx]%elem_of_cons; [done|]. by apply expired_after in Hx as [? _]. }
  apply submseteq_length in Hsub. simpl in Hsub. lia.
Qed.

(** What remains of the tables once the reports before [cutoff] are gone. *)
Record retained (cutoff : time) (s s' : PostureDB) : Prop := {
  rt_reports : ∀ i row, q_reports s' !! i = Some row ↔ q_reports s !! i = Some row ∧ cutoff <= rp_received_at row;
  rt_evaluations : ∀ dp e', q_evaluations s' !! dp = Some e' ↔ ∃ e, q_evaluations s !! dp = Some e ∧
    e' = MkEvaluationRow (er_workspace e) (er_satisfied e) (er_revision e) (er_reason e) (er_evaluated_at e)
           (match er_report e with
            | Some r => match q_reports s !! r with
                        | Some row => if rp_received_at row <? cutoff then None else Some r
                        | None => Some r
                        end
            | None => None
            end);
  rt_profiles : q_profiles s' = q_profiles s;
  rt_policies : q_policy_profiles s' = q_policy_profiles s
}.

(** Nothing to delete. *)
Lemma retained_refl cutoff s :
  (∀ i row, q_reports s !! i = Some row → cutoff <= rp_received_at row) → retained cutoff s s.
Proof.
  intros Hall. split; [naive_solver| |done|done]. intros dp e'.
  assert (∀ e, MkEvaluationRow (er_workspace e) (er_satisfied e) (er_revision e) (er_reason e) (er_evaluated_at e)
    (match er_report e with
     | Some r => match q_reports s !! r with Some row => if rp_received_at row <? cutoff then None else Some r | None => Some r end
     | None => None
     end) = e) as Hid.
  { intros [? ? ? ? ? [r|]]; simpl; [|done]. destruct (q_reports s !! r) as [row|] eqn:Hr; [|done].
    specialize (Hall r row Hr). by apply Z.ltb_ge in Hall as ->. }
  setoid_rewrite Hid. naive_solver.
Qed.

Lemma retained_batch cutoff ids s s' :
  (∀ i, i ∈ ids → ∃ row, q_reports s !! i = Some row ∧ rp_received_at row < cutoff) →
  retained cutoff (delete_reports ids s) s' → retained cutoff s s'.
Proof.
  intros Hids [Hr He Hp Hpp]. split; [| |done|done].
  - intros i row. rewrite Hr. simpl. rewrite map_lookup_filter_Some. simpl. split; [naive_solver|].
    intros [Hi Hc]. split_and!; try done. intros (row' & Hrow' & ?)%Hids. simplify_eq. lia.
  - intros dp e'. rewrite He. simpl. setoid_rewrite lookup_fmap_Some.
    assert (∀ r, r ∉ ids → filter (λ kv : uuid * ReportRow, kv.1 ∉ ids) (q_reports s) !! r = q_reports s !! r) as Hf.
    { intros r Hni. destruct (q_reports s !! r) eqn:Hq; [by rewrite map_lookup_filter_Some|rewrite map_lookup_filter_None; by left]. }
    assert (∀ e, let e1 := match er_report e with
        | Some r => if bool_decide (r ∈ ids) then MkEvaluationRow (er_workspace e) (er_satisfied e) (er_revision e) (er_reason e) (er_evaluated_at e) None else e
        | None => e end in
      er_workspace e1 = er_workspace e ∧ er_satisfied e1 = er_satisfied e ∧ er_revision e1 = er_revision e ∧
      er_reason e1 = er_reason e ∧ er_evaluated_at e1 = er_evaluated_at e ∧
      (match er_report e1 with
       | Some r => match filter (λ kv : uuid * ReportRow, kv.1 ∉ ids) (q_reports s) !! r with
                   | Some row => if rp_received_at row <? cutoff then None else Some r | None => Some r end
       | None => None end) =
      (match er_report e with
       | Some r => match q_reports s !! r with Some row => if rp_received_at row <? cutoff then None else Some r | None => Some r end
       | None => None end)) as Hclear.
    { intros e. destruct (er_report e) as [r|] eqn:Her; simpl; [|by rewrite Her]. case_bool_decide as Hin; simpl.
      - destruct (Hids r Hin) as (row & -> & Hlt). apply Z.ltb_lt in Hlt as ->. done.
      - by rewrite Her, Hf. }
    split.
    + intros (e1 & (e & <- & Hdp) & ->). exists e. split; [done|]. destruct (Hclear e) as (-> & -> & -> & -> & -> & ->). done.
    + intros (e & Hdp & ->). eexists. split; [eauto|]. destruct (Hclear e) as (-> & -> & -> & -> & -> & ->). done.
Qed.

Lemma cleanup_loop_runs fuel cutoff n s :
  0 < n → (length (expired_reports cutoff s) < fuel)%nat →
  ∃ s', runs (cleanup_loop fuel cutoff n) s (Some tt) s' ∧ retained cutoff s s'.
Proof.
  intros Hn. revert s. induction fuel as [|fuel IH]; intros s Hf; [lia|].
  set (ids := batch cutoff n s).
  assert (runs (DeleteExpiredReports cutoff n) s (Z.of_nat (length ids)) (delete_reports ids s)) as Hd.
  { unfold DeleteExpiredReports. destruct (Z.leb_spec n 0); [lia|]. done. }
  simpl. destruct (Z.ltb_spec (Z.of_nat (length ids)) n) as [Hlt|Hge].
  - exists (delete_reports ids s). split.
    + eapply runs_bind; [exact Hd|]. apply Z.ltb_lt in Hlt. rewrite Hlt. apply runs_ret.
    + apply (retained_batch cutoff ids); [apply batch_expired|]. apply retained_refl. simpl.
      intros i row [Hi Hni]%map_lookup_filter_Some. simpl in Hni.
      destruct (Z.le_gt_cases cutoff (rp_received_at row)); [done|]. destruct Hni. by apply (batch_all cutoff n s i row).
  - pose proof (batch_length cutoff n s) as Hbl. fold ids in Hbl.
    destruct (IH (delete_reports ids s)) as (s' & Hs' & Hret).
    { pose proof (expired_shrinks cutoff n s Hn). fold ids in H0. lia. }
    exists s'. split; [|by apply (retained_batch cutoff ids); [apply batch_expired|]].
    eapply runs_bind; [exact Hd|]. apply Z.ltb_ge in Hge. rewrite Hge. exact Hs'.
Qed.

(** The retention worker's loop ends, whatever batch size it was built with,
    after at most one round more than there are expired reports, and when no
    statement fails exactly the reports older than the retention are gone.
    Evaluations stay, and lose only the link to a deleted report. *)
Theorem cleanup_complete fuel retention batchSize now s :
  let w := NewRetentionWorker retention batchSize in
  let cutoff := now - rw_retention w in
  (length (expired_reports cutoff s) < fuel)%nat →
  ∃ s', run (cleanup fuel w now) s = (Ok (Some tt), s') ∧ retained cutoff s s'.
Proof.
  intros w cutoff Hf. destruct (cleanup_loop_runs fuel cutoff (rw_batchSize w) s) as (s' & Hs' & Hret).
  - unfold w, NewRetentionWorker. simpl. destruct (Z.leb_spec batchSize 0); [done|lia].
  - done.
  - exists s'. split; [|done]. by apply runs_run.
Qed.
End retention.

Lemma cleanup_complete_witness :
  ∃ s', run (cleanup (H:=scan_order) 2 (NewRetentionWorker 0 0) (31 * 24 * Hour)) (edb demo_evaluated) = (Ok (Some tt), s') ∧
    retained (31 * 24 * Hour - DefaultRetention) (edb demo_evaluated) s'.
Proof.
  apply (cleanup_complete (H:=scan_order) 2 0 0 (31 * 24 * Hour) (edb demo_evaluated)). vm_compute. lia.
Defined.
