(* ===== verification/Authorization.v ===== *)
(** * The connector's serving authorization (connector/src/authorization.rs)

    A connector serves traffic only while the controller keeps authorizing it.
    Its requests are numbered; an acknowledgement of request [k] lets it serve
    until [sent[k] + H].  [AckTracker] keeps the book and is the serving-state
    machine; it publishes the state and the deadline together, and every path
    into the data plane asks [admits].

    An [Instant] is a number of nanoseconds on the connector's monotonic
    clock.  [BTreeMap] is a [gmap]; [u64] counters wrap.  Log lines are left
    out. *)

From Stdlib Require Import ZArith Lia.
From S2P Require Import Prelude.
Open Scope Z_scope.

Abbreviation instant := Z (only parsing).

Definition u64_succ (n : Z) : Z := (n + 1) mod 2 ^ 64.

(** ** Signals and states *)

Definition CONNECTOR_STATE_MARKER_KEY : string := "zecurity-connector-state".
Definition MARKER_REVOKED : string := "revoked".
Definition MARKER_UNKNOWN : string := "unknown".

Inductive TerminalSignal := SigRevoked | SigUnknownIdentity.
#[export] Instance TerminalSignal_eq_dec : EqDecision TerminalSignal.
Proof. solve_decision. Defined.

(** A gRPC status: its code, and the trailers that are readable text. *)
Record Status := MkStatus { st_code : Z; st_metadata : gmap string string }.
Inductive StatusClass := ClsRevoked | ClsUnknownConnector | Unmarked (code : Z).

Definition classify_status (status : Status) : StatusClass :=
  match st_metadata status !! CONNECTOR_STATE_MARKER_KEY with
  | Some v => if v ≟ MARKER_REVOKED then ClsRevoked
              else if v ≟ MARKER_UNKNOWN then ClsUnknownConnector
              else Unmarked (st_code status)
  | None => Unmarked (st_code status)
  end.

Inductive ServingState :=
| Starting | Serving | ServingDisconnected | Disabled | Recovering | Revoked | UnknownIdentity.
#[export] Instance ServingState_eq_dec : EqDecision ServingState.
Proof. solve_decision. Defined.

Definition is_terminal (s : ServingState) : bool :=
  match s with Revoked | UnknownIdentity => true | _ => false end.
Definition is_open (s : ServingState) : bool :=
  match s with Serving | ServingDisconnected => true | _ => false end.

Record AuthzSnapshot := MkAuthzSnapshot {
  sn_state : ServingState; sn_deadline : option instant; sn_closures : Z
}.

Definition admits (s : AuthzSnapshot) (now : instant) : bool :=
  is_open (sn_state s) && match sn_deadline s with Some d => now <? d | None => false end.

(** ** The tracker *)

Inductive AckRejection :=
| Terminal (s : TerminalSignal) | NoCapability | Zero | NotNewer (highest_accepted : Z)
| Unknown | Stale (age : duration) | BeforeLoss.

Record AckTracker := MkAckTracker {
  freshness : duration;
  last_assigned : Z;
  sent : gmap Z instant;
  highest_accepted : Z;
  latest_accepted_sent_at : option instant;
  terminal : option TerminalSignal;
  state : ServingState;
  deadline : option instant;
  lost_at : option instant;
  closures : Z;
  publish : AuthzSnapshot (* the value in the watch channel *)
}.

Definition set_last_assigned (n : Z) (t : AckTracker) : AckTracker :=
  MkAckTracker (freshness t) n (sent t) (highest_accepted t) (latest_accepted_sent_at t) (terminal t)
    (state t) (deadline t) (lost_at t) (closures t) (publish t).
Definition set_sent (m : gmap Z instant) (t : AckTracker) : AckTracker :=
  MkAckTracker (freshness t) (last_assigned t) m (highest_accepted t) (latest_accepted_sent_at t) (terminal t)
    (state t) (deadline t) (lost_at t) (closures t) (publish t).
Definition set_accepted (seq : Z) (sent_at : instant) (t : AckTracker) : AckTracker :=
  MkAckTracker (freshness t) (last_assigned t) (sent t) seq (Some sent_at) (terminal t)
    (state t) (deadline t) (lost_at t) (closures t) (publish t).
Definition set_terminal (s : TerminalSignal) (t : AckTracker) : AckTracker :=
  MkAckTracker (freshness t) (last_assigned t) (sent t) (highest_accepted t) (latest_accepted_sent_at t) (Some s)
    (state t) (deadline t) (lost_at t) (closures t) (publish t).
Definition set_deadline (d : option instant) (t : AckTracker) : AckTracker :=
  MkAckTracker (freshness t) (last_assigned t) (sent t) (highest_accepted t) (latest_accepted_sent_at t) (terminal t)
    (state t) d (lost_at t) (closures t) (publish t).
Definition set_lost_at (l : instant) (t : AckTracker) : AckTracker :=
  MkAckTracker (freshness t) (last_assigned t) (sent t) (highest_accepted t) (latest_accepted_sent_at t) (terminal t)
    (state t) (deadline t) (Some l) (closures t) (publish t).

Definition new (freshness : duration) : AckTracker :=
  MkAckTracker freshness 0 ∅ 0 None None Starting None None 0 (MkAuthzSnapshot Starting None 0).

Definition snapshot (t : AckTracker) : AuthzSnapshot := MkAuthzSnapshot (state t) (deadline t) (closures t).

(** The only place the state changes. *)
Definition transition (to : ServingState) (t : AckTracker) : AckTracker :=
  let closures' := if is_open (state t) && negb (is_open to) then u64_succ (closures t) else closures t in
  let deadline' := if is_open to then deadline t else None in
  MkAckTracker (freshness t) (last_assigned t) (sent t) (highest_accepted t) (latest_accepted_sent_at t)
    (terminal t) to deadline' (lost_at t) closures' (MkAuthzSnapshot to deadline' closures').

(** Applied first by every event, so the outcome does not depend on when the
    expiry timer runs. *)
Definition expire (now : instant) (t : AckTracker) : AckTracker :=
  if is_open (state t) then
    match deadline t with
    | Some d => if d <=? now then transition Disabled (set_lost_at d t) else t
    | None => t
    end
  else t.

Definition stream_up (now : instant) (t : AckTracker) : AckTracker :=
  let t := expire now t in
  if state t ≟ Disabled then transition Recovering t else t.

Definition stream_down (now : instant) (t : AckTracker) : AckTracker :=
  let t := expire now t in
  match state t with
  | Serving => transition ServingDisconnected t
  | Recovering => transition Disabled (set_lost_at now t)
  | _ => t
  end.

Definition next_seq (t : AckTracker) : Z * AckTracker :=
  let n := u64_succ (last_assigned t) in (n, set_last_assigned n t).

Definition seq_for_replacement (t : AckTracker) : Z * AckTracker :=
  if highest_accepted t <? last_assigned t then (last_assigned t, t) else next_seq t.

Definition record_sent (seq : Z) (at_ : instant) (t : AckTracker) : AckTracker :=
  if seq =? 0 then t
  else
    let sent' := match sent t !! seq with Some _ => sent t | None => <[seq := at_]> (sent t) end in
    set_sent (filter (λ kv : Z * instant, at_ < kv.2 + freshness t) sent') t.

Definition on_ack (seq : Z) (capable : bool) (now : instant) (t : AckTracker)
    : result AckRejection () * AckTracker :=
  let t := expire now t in
  match terminal t with
  | Some s => (Err (Terminal s), t)
  | None =>
      if negb capable then (Err NoCapability, t)
      else if seq =? 0 then (Err Zero, t)
      else if seq <=? highest_accepted t then (Err (NotNewer (highest_accepted t)), t)
      else match sent t !! seq with
      | None => (Err Unknown, t)
      | Some sent_at =>
          let age := Z.max 0 (now - sent_at) in
          if freshness t <=? age then (Err (Stale age), t)
          else if match lost_at t with Some lost => sent_at <? lost | None => false end then (Err BeforeLoss, t)
          else
            let t := set_accepted seq sent_at t in
            let t := set_sent (filter (λ kv : Z * instant, seq < kv.1) (sent t)) t in
            let d := sent_at + freshness t in
            let t := set_deadline (Some (match deadline t with Some old => Z.max old d | None => d end)) t in
            (Ok tt, transition Serving t)
      end
  end.

Definition terminal_state (signal : TerminalSignal) : ServingState :=
  match signal with SigRevoked => Revoked | SigUnknownIdentity => UnknownIdentity end.

Definition on_terminal (signal : TerminalSignal) (t : AckTracker) : bool * AckTracker :=
  match terminal t with
  | Some _ => (false, t)
  | None => (true, transition (terminal_state signal) (set_terminal signal t))
  end.

(** ** The control stream's messages *)

(** What the controller sends, as far as the tracker looks at it. *)
Inductive controller_body :=
| AgentPolicy (authorization_acks : bool)
| AuthorizationAck (heartbeat_seq : Z)
| ConnectorRevoked
| OtherBody.

Record StreamAuthz := MkStreamAuthz { sz_capable : bool; sz_first_seen : bool }.
Definition stream_authz_default : StreamAuthz := MkStreamAuthz false false.

(** [now1] and [now2] are the two readings of the clock. *)
Definition observe_controller_msg (now1 now2 : instant) (msg : controller_body) (stream : StreamAuthz)
    (t : AckTracker) : StreamAuthz * AckTracker :=
  let t := if sz_first_seen stream then t else stream_up now1 t in
  let stream := MkStreamAuthz (sz_capable stream) true in
  match msg with
  | AgentPolicy acks => (MkStreamAuthz acks true, t)
  | AuthorizationAck seq => (stream, (on_ack seq (sz_capable stream) now2 t).2)
  | ConnectorRevoked => (stream, (on_terminal SigRevoked t).2)
  | OtherBody => (stream, t)
  end.

Definition observe_status (status : Status) (t : AckTracker) : AckTracker :=
  match classify_status status with
  | ClsRevoked => (on_terminal SigRevoked t).2
  | ClsUnknownConnector => (on_terminal SigUnknownIdentity t).2
  | Unmarked _ => t
  end.

(** A health report is stamped when the transport takes it. *)
Definition stamp_send (heartbeat_seq : Z) (now : instant) (t : AckTracker) : AckTracker :=
  if heartbeat_seq =? 0 then t else record_sent heartbeat_seq now t.

(** ** Timing (control_stream.rs) *)

Definition HEALTH_INTERVAL_SECS : Z := 15.
Definition AUTHORIZATION_FRESHNESS : duration := HEALTH_INTERVAL_SECS * Second.
