(* ===== verification/AuthorizationFacts.v ===== *)
(** * What the serving-state machine guarantees

    Every call of the tracker is an event at a reading of the monotonic clock.
    [tracker_run] are the trackers that any sequence of events reaches; beside
    the tracker it keeps the acknowledgements accepted so far, newest first:
    the request, when it was sent, and when its acknowledgement was accepted. *)

From Stdlib Require Import ZArith Lia.
From S2P Require Import Prelude Authorization.
Open Scope Z_scope.

(** ** Events *)

Inductive tevent :=
| TExpire | TStreamUp | TStreamDown | TNextSeq | TReplacement
| TSent (seq : Z) | TAck (seq : Z) (capable : bool) | TTerminal (signal : TerminalSignal).
#[export] Instance tevent_eq_dec : EqDecision tevent.
Proof. solve_decision. Defined.

Definition tracker_step (e : tevent) (now : instant) (t : AckTracker) : AckTracker :=
  match e with
  | TExpire => expire now t
  | TStreamUp => stream_up now t
  | TStreamDown => stream_down now t
  | TNextSeq => (next_seq t).2
  | TReplacement => (seq_for_replacement t).2
  | TSent seq => record_sent seq now t
  | TAck seq capable => (on_ack seq capable now t).2
  | TTerminal signal => (on_terminal signal t).2
  end.

(** The request an event gets accepted, with its send time. *)
Definition accepts (e : tevent) (now : instant) (t : AckTracker) : option (Z * instant) :=
  match e with
  | TAck seq capable =>
      match (on_ack seq capable now t).1 with Ok _ => (λ s, (seq, s)) <$> sent t !! seq | Err _ => None end
  | _ => None
  end.

(** Only assigned numbers are sent, and fewer than 2^64 are ever assigned. *)
Definition event_ok (e : tevent) (t : AckTracker) : Prop :=
  match e with
  | TNextSeq | TReplacement => last_assigned t < 2 ^ 64 - 1
  | TSent seq => 0 <= seq <= last_assigned t
  | _ => True
  end.

Record acceptance := Acceptance { ax_seq : Z; ax_sent : instant; ax_at : instant }.
Definition log_accept (e : tevent) (now : instant) (t : AckTracker) (log : list acceptance) : list acceptance :=
  match accepts e now t with Some (k, s) => Acceptance k s now :: log | None => log end.

Inductive tracker_run (H : duration) : AckTracker → instant → list acceptance → Prop :=
| tr_new now : tracker_run H (new H) now []
| tr_step t now log e now' :
    tracker_run H t now log → now <= now' → event_ok e t →
    tracker_run H (tracker_step e now' t) now' (log_accept e now' t log).

(** ** The invariant *)

Record tracker_ok (H : duration) (t : AckTracker) (now : instant) (log : list acceptance) : Prop := TrackerOk {
  to_freshness : freshness t = H;
  to_published : publish t = snapshot t;
  to_open : is_open (state t) = true ↔ is_Some (deadline t);
  to_terminal s : terminal t = Some s → state t = terminal_state s;
  to_terminal_state : is_terminal (state t) = true → is_Some (terminal t);
  to_assigned : 0 <= highest_accepted t ∧ highest_accepted t <= last_assigned t < 2 ^ 64;
  to_sent k s : sent t !! k = Some s → s <= now ∧ 1 <= k <= last_assigned t;
  to_log : Forall (λ a, ax_sent a <= ax_at a <= now ∧ ax_at a < ax_sent a + H ∧ ax_seq a <= highest_accepted t) log;
  to_order : StronglySorted (λ a b, ax_seq b < ax_seq a) log;
  to_deadline d : deadline t = Some d →
    ∃ a, a ∈ log ∧ d = ax_sent a + H ∧ ∀ l, lost_at t = Some l → l <= ax_sent a;
  to_lost l : lost_at t = Some l → l <= now
}.

Lemma tracker_ok_later H t now log now' : now <= now' → tracker_ok H t now log → tracker_ok H t now' log.
Proof.
  intros Hle [? ? ? ? ? ? Hsent Hlog ? ? Hlost]. split; try done.
  - intros k s Hk. apply Hsent in Hk. lia.
  - eapply Forall_impl; [exact Hlog|]. simpl. lia.
  - intros l Hl. apply Hlost in Hl. lia.
Qed.

(** A change of state to a closed one, with the time of the loss. *)
Lemma close_ok H t now log to l :
  is_open to = false → is_terminal to = false → is_terminal (state t) = false → l <= now →
  tracker_ok H t now log → tracker_ok H (transition to (set_lost_at l t)) now log.
Proof.
  intros Ho Ht Hnt Hl [? ? ? Hterm ? ? ? ? ? ? ?].
  assert (terminal t = None) as Hn.
  { destruct (terminal t) as [s|]; [|done]. rewrite (Hterm s) in Hnt by done. by destruct s. }
  split; try reflexivity; simpl; rewrite ?Ho, ?Ht; try done.
  - intros s Hs. congruence.
  - by intros ? [= ->].
Qed.

Lemma expire_ok H t now log : tracker_ok H t now log → tracker_ok H (expire now t) now log.
Proof.
  intros Hok. unfold expire. destruct (is_open (state t)) eqn:Ho; [|done].
  destruct (deadline t) as [d|] eqn:Hd; [|done]. destruct (Z.leb_spec d now); [|done].
  apply close_ok; try done. by destruct (state t).
Qed.

(** A change between states that keeps the loss time. *)
Lemma move_ok H t now log to :
  is_open to = is_open (state t) → is_terminal to = false → is_terminal (state t) = false →
  tracker_ok H t now log → tracker_ok H (transition to t) now log.
Proof.
  intros Ho Ht Hnt [? ? Hopen Hterm ? ? ? ? ? Hdl ?].
  assert (terminal t = None) as Hn.
  { destruct (terminal t) as [s|]; [|done]. rewrite (Hterm s) in Hnt by done. by destruct s. }
  split; try reflexivity; simpl; rewrite ?Ho, ?Ht; try done.
  - destruct (is_open (state t)) eqn:E; [done|]. split; [done|by intros []].
  - intros s Hs. congruence.
  - destruct (is_open (state t)); [exact Hdl|done].
Qed.

Lemma expire_fields now t :
  freshness (expire now t) = freshness t ∧ last_assigned (expire now t) = last_assigned t ∧
  sent (expire now t) = sent t ∧ highest_accepted (expire now t) = highest_accepted t ∧
  terminal (expire now t) = terminal t.
Proof. unfold expire. repeat case_match; done. Qed.

Lemma seq_ok H t now log n :
  last_assigned t <= n < 2 ^ 64 → tracker_ok H t now log → tracker_ok H (set_last_assigned n t) now log.
Proof.
  intros Hn [? ? ? ? ? Has Hsent ? ? ? ?]. split; simpl; try done; [lia|].
  intros k s Hk. apply Hsent in Hk. lia.
Qed.

Lemma u64_succ_small n : 0 <= n < 2 ^ 64 - 1 → u64_succ n = n + 1.
Proof. intros. unfold u64_succ. apply Z.mod_small. lia. Qed.

Lemma next_seq_ok H t now log :
  last_assigned t < 2 ^ 64 - 1 → tracker_ok H t now log → tracker_ok H (next_seq t).2 now log.
Proof.
  intros Hn Hok. pose proof (to_assigned _ _ _ _ Hok). simpl. apply seq_ok; [|done].
  rewrite u64_succ_small; lia.
Qed.

(** The entries after a send: the first send of a number is kept, entries of
    the freshness or older go. *)
Lemma record_sent_lookup seq at_ t k s :
  seq ≠ 0 → sent (record_sent seq at_ t) !! k = Some s ↔
  at_ < s + freshness t ∧ (sent t !! k = Some s ∨ (k = seq ∧ s = at_ ∧ sent t !! k = None)).
Proof.
  intros Hs. unfold record_sent. apply Z.eqb_neq in Hs. rewrite Hs. simpl. rewrite map_lookup_filter_Some. simpl.
  destruct (sent t !! seq) as [s0|] eqn:E; [naive_solver|].
  destruct (decide (k = seq)) as [->|]; [rewrite lookup_insert_eq|rewrite lookup_insert_ne by done]; naive_solver.
Qed.

Lemma record_sent_ok H t now log seq :
  0 <= seq <= last_assigned t → tracker_ok H t now log → tracker_ok H (record_sent seq now t) now log.
Proof.
  intros Hseq Hok. destruct (decide (seq = 0)) as [->|Hz]; [done|].
  pose proof (record_sent_lookup seq now t) as Hl. destruct Hok as [? ? ? ? ? ? Hsent ? ? ? ?].
  assert (∀ k s, sent (record_sent seq now t) !! k = Some s → s <= now ∧ 1 <= k <= last_assigned t) as Hs.
  { intros k s (_ & [Hk|(-> & -> & _)])%Hl; [by apply Hsent|lia|done]. }
  clear Hl. unfold record_sent in *. apply Z.eqb_neq in Hz. rewrite Hz in *. by split.
Qed.

(** ** Acknowledgements *)

(** What acceptance needs, and what it does. *)
Lemma on_ack_inv seq capable now t r t' :
  on_ack seq capable now t = (r, t') →
  (t' = expire now t ∧ r ≠ Ok tt) ∨
  ∃ s, r = Ok tt ∧ capable = true ∧ terminal t = None ∧ highest_accepted t < seq ∧ sent t !! seq = Some s ∧
    now - s < freshness t ∧ 0 < freshness t ∧
    (∀ l, lost_at (expire now t) = Some l → l <= s) ∧
    t' = transition Serving
           (set_deadline (Some (match deadline (expire now t) with
                                | Some old => Z.max old (s + freshness t) | None => s + freshness t end))
              (set_sent (filter (λ kv : Z * instant, seq < kv.1) (sent t)) (set_accepted seq s (expire now t)))).
Proof.
  destruct (expire_fields now t) as (Hf & _ & Hs & Hh & Ht).
  unfold on_ack. rewrite Ht, Hh, Hs, Hf. destruct (terminal t); [intros [= <- <-]; by left|].
  destruct capable; simpl; [|intros [= <- <-]; by left].
  destruct (seq =? 0); [intros [= <- <-]; by left|].
  destruct (Z.leb_spec seq (highest_accepted t)); [intros [= <- <-]; by left|].
  destruct (sent t !! seq) as [s|]; [|intros [= <- <-]; by left].
  destruct (Z.leb_spec (freshness t) (Z.max 0 (now - s))); [intros [= <- <-]; by left|].
  destruct (match lost_at (expire now t) with Some lost => s <? lost | None => false end) eqn:Hl; [intros [= <- <-]; by left|].
  intros [= <- <-]. right. exists s. split_and!; try done; try lia.
  - intros l El. rewrite El in Hl. apply Z.ltb_ge in Hl. lia.
  - unfold set_accepted. simpl. by rewrite Hs, Hf.
Qed.

Lemma on_ack_ok H t now log seq capable :
  tracker_ok H t now log →
  tracker_ok H (tracker_step (TAck seq capable) now t) now (log_accept (TAck seq capable) now t log).
Proof.
  intros Hok. unfold log_accept. simpl. destruct (on_ack seq capable now t) as [r t'] eqn:Ha. simpl.
  pose proof (expire_ok _ _ _ _ Hok) as Hex. destruct (expire_fields now t) as (Hf & Hla & Hs & Hh & Ht).
  destruct (on_ack_inv _ _ _ _ _ _ Ha) as [[-> Hr]|(s & -> & -> & Hterm & Hhi & Hseq & Hage & Hpos & Hlost & ->)].
  { destruct r as [[]|e]; [done|]. exact Hex. }
  rewrite Hseq. simpl. destruct Hex as [Ef Epub Eopen Eterm Ets Eas Esent Elog Eord Edl Elost].
  rewrite Hs in Esent. rewrite Hh in Eas, Elog. rewrite Hla in Eas, Esent. rewrite Hf in Ef.
  split; try reflexivity; simpl; rewrite ?Hla, ?Hf, ?Ht; try done.
  - intros s' Hs'. congruence.
  - apply Esent in Hseq. lia.
  - intros k s' [Hk _]%map_lookup_filter_Some. by apply Esent.
  - constructor; simpl; [apply Esent in Hseq; lia|]. eapply Forall_impl; [exact Elog|]. simpl. lia.
  - constructor; [done|]. eapply Forall_impl; [exact Elog|]. simpl. lia.
  - intros d [= <-]. destruct (deadline (expire now t)) as [old|] eqn:Ho.
    + destruct (Z.max_spec old (s + freshness t)) as [[_ ->]|[_ ->]].
      * exists (Acceptance seq s now). split_and!; [by left|simpl; lia|done].
      * destruct (Edl old eq_refl) as (a & Hin & -> & Hl). exists a. split_and!; [by right|done|done].
    + exists (Acceptance seq s now). split_and!; [by left|simpl; lia|done].
Qed.

Lemma on_terminal_ok H t now log s : tracker_ok H t now log → tracker_ok H (on_terminal s t).2 now log.
Proof.
  intros Hok. unfold on_terminal. destruct (terminal t) eqn:Ht; [done|]. destruct Hok as [? ? ? ? ? ? ? ? ? ? ?].
  assert (is_open (terminal_state s) = false) as Ho by by destruct s.
  split; try reflexivity; simpl; rewrite ?Ho; try done.
  by intros ? [= ->].
Qed.

Lemma tracker_step_ok H t now log e :
  event_ok e t → tracker_ok H t now log → tracker_ok H (tracker_step e now t) now (log_accept e now t log).
Proof.
  intros He Hok. pose proof (expire_ok _ _ _ _ Hok) as Hex.
  destruct e as [| | | | |seq|seq capable|s]; try (unfold log_accept; simpl accepts; cbn iota beta).
  - done.
  - simpl. unfold stream_up. case_bool_decide as Hd; [|done].
    apply move_ok; rewrite ?Hd; try done.
  - simpl. unfold stream_down. destruct (state (expire now t)) eqn:Hd; try done.
    + apply move_ok; rewrite ?Hd; done.
    + apply close_ok; rewrite ?Hd; try done; lia.
  - by apply next_seq_ok.
  - simpl. unfold seq_for_replacement. destruct (_ <? _); [done|]. by apply next_seq_ok.
  - by apply record_sent_ok.
  - by apply on_ack_ok.
  - by apply on_terminal_ok.
Qed.

Lemma tracker_run_ok H t now log : tracker_run H t now log → tracker_ok H t now log.
Proof.
  induction 1 as [now|t now log e now' _ IH Hle He].
  - split; simpl; try done; try lia; constructor.
  - apply tracker_step_ok; [done|]. by eapply tracker_ok_later.
Qed.

(** ** Safety *)

Lemma closed_stays e now t :
  is_open (state t) = false → accepts e now t = None → event_ok e t →
  is_open (state (tracker_step e now t)) = false.
Proof.
  intros Hc Hn _. assert (expire now t = t) as Hex by (unfold expire; by rewrite Hc).
  destruct e as [| | | | |seq|seq capable|s]; simpl in *.
  - by rewrite Hex.
  - unfold stream_up. rewrite Hex. by case_bool_decide.
  - unfold stream_down. rewrite Hex. destruct (state t) eqn:E; simpl; rewrite ?E; done.
  - done.
  - unfold seq_for_replacement. by case_match.
  - unfold record_sent. by case_match.
  - destruct (on_ack seq capable now t) as [r t'] eqn:Ha. simpl in *.
    destruct (on_ack_inv _ _ _ _ _ _ Ha) as [[-> _]|(s & -> & _ & _ & _ & Hs & _)]; [by rewrite Hex|].
    by rewrite Hs in Hn.
  - unfold on_terminal. destruct (terminal t); [done|by destruct s].
Qed.

Lemma terminal_stays H t now log e now' s :
  tracker_ok H t now log → terminal t = Some s →
  terminal (tracker_step e now' t) = Some s ∧ state (tracker_step e now' t) = terminal_state s.
Proof.
  intros Hok Ht. pose proof (to_terminal _ _ _ _ Hok s Ht) as Hst.
  assert (expire now' t = t) as Hex by (unfold expire; rewrite Hst; by destruct s).
  destruct e as [| | | | |seq|seq capable|s']; simpl.
  - by rewrite Hex.
  - unfold stream_up. rewrite Hex. case_bool_decide as E; [|done]. rewrite Hst in E. by destruct s.
  - unfold stream_down. rewrite Hex, Hst. by destruct s.
  - done.
  - unfold seq_for_replacement. by case_match.
  - unfold record_sent. by case_match.
  - unfold on_ack. rewrite Hex. by rewrite Ht.
  - unfold on_terminal. by rewrite Ht.
Qed.

(** C11: Whatever events reach the tracker, in whatever order, the published
    state is the tracker's, and the data plane is open at a time only thanks to
    an accepted acknowledgement: of a request sent less than the freshness
    before that time and not before authorization was last lost, accepted
    while it was fresh, and with no terminal signal processed.  Numbers are
    accepted at most once and in increasing order, so no replayed or reordered
    acknowledgement extends anything.  A closed data plane opens only by
    accepting an acknowledgement, and a terminal signal closes it for good. *)
Theorem tracker_safe H t now log :
  tracker_run H t now log →
  publish t = snapshot t ∧
  (∀ at_, admits (publish t) at_ = true →
     terminal t = None ∧
     ∃ a, a ∈ log ∧ at_ < ax_sent a + H ∧ ax_sent a <= ax_at a < ax_sent a + H ∧
       ∀ l, lost_at t = Some l → l <= ax_sent a) ∧
  StronglySorted (λ a b, ax_seq b < ax_seq a) log ∧
  (∀ e now', event_ok e t → is_open (state t) = false → is_open (state (tracker_step e now' t)) = true →
     is_Some (accepts e now' t)) ∧
  (∀ e now' s, terminal t = Some s →
     terminal (tracker_step e now' t) = Some s ∧ state (tracker_step e now' t) = terminal_state s).
Proof.
  intros Hok%tracker_run_ok. split_and!.
  - apply Hok.
  - intros at_ Ha. rewrite (to_published _ _ _ _ Hok) in Ha. unfold admits, snapshot in Ha. simpl in Ha.
    apply andb_true_iff in Ha as [Ho Hd]. split.
    + destruct (terminal t) as [s|] eqn:Ht; [|done]. rewrite (to_terminal _ _ _ _ Hok s Ht) in Ho. by destruct s.
    + destruct (deadline t) as [d|] eqn:E; [|done]. apply Z.ltb_lt in Hd.
      destruct (to_deadline _ _ _ _ Hok d E) as (a & Hin & -> & Hl). exists a.
      pose proof (to_log _ _ _ _ Hok) as Hlog. rewrite Forall_forall in Hlog. specialize (Hlog a Hin).
      split_and!; try done; lia.
  - apply Hok.
  - intros e now' He Hc Ho. destruct (accepts e now' t) eqn:Ea; [by eexists|].
    rewrite (closed_stays e now' t) in Ho by done. done.
  - intros e now' s. by apply (terminal_stays H t now log).
Qed.

(** ** A connector at work *)

(** Run events at their times. *)
Definition run_events (es : list (instant * tevent)) (t : AckTracker) : AckTracker :=
  foldl (λ t e, tracker_step e.2 e.1 t) t es.

Fixpoint events_ok (es : list (instant * tevent)) (now : instant) (t : AckTracker) : Prop :=
  match es with
  | [] => True
  | (at_, e) :: es => now <= at_ ∧ event_ok e t ∧ events_ok es at_ (tracker_step e at_ t)
  end.

Lemma run_events_reach H es : ∀ t now log,
  tracker_run H t now log → events_ok es now t →
  ∃ log', tracker_run H (run_events es t) (default now (fst <$> last es)) log'.
Proof.
  induction es as [|[at_ e] es IH]; simpl; intros t now log Hr Hok; [by exists log|].
  destruct Hok as (Hle & He & Hes). destruct (IH _ at_ _ (tr_step H t now log e at_ Hr Hle He) Hes) as [log' Hl].
  exists log'. destruct es as [|x es]; [exact Hl|]. simpl in *.
  destruct (last (x :: es)) eqn:E; [exact Hl|]. by apply last_None in E.
Qed.

(** A request, its acknowledgement after another request, and the tracker. *)
Definition demo_session : list (instant * tevent) :=
  [(1, TStreamUp); (1, TNextSeq); (2, TSent 1); (3, TNextSeq); (4, TSent 2); (5, TAck 1 true)].

Lemma demo_session_run :
  ∃ log, tracker_run AUTHORIZATION_FRESHNESS (run_events demo_session (new AUTHORIZATION_FRESHNESS)) 5 log.
Proof.
  apply (run_events_reach AUTHORIZATION_FRESHNESS demo_session (new AUTHORIZATION_FRESHNESS) 0 []).
  - apply tr_new.
  - vm_compute. repeat split; discriminate.
Qed.

Lemma tracker_safe_witness :
  admits (publish (run_events demo_session (new AUTHORIZATION_FRESHNESS))) 6 = true ∧
  ∃ (log : list acceptance) a, a ∈ log ∧ 6 < ax_sent a + AUTHORIZATION_FRESHNESS.
Proof.
  split; [reflexivity|]. destruct demo_session_run as [log Hr].
  destruct (tracker_safe _ _ _ _ Hr) as (_ & Hadm & _). destruct (Hadm 6 eq_refl) as (_ & a & Hin & Ha & _).
  by exists log, a.
Defined.

(** ** Recovery *)

(** Events other than the loss of the stream, a terminal signal, or the
    acknowledgement of an older request. *)
Definition harmless (k : Z) (e : tevent) : Prop :=
  match e with
  | TStreamDown | TTerminal _ => False
  | TAck j _ => k <= j
  | _ => True
  end.

(** Request [k], sent at [t1], waits for its acknowledgement, or a request
    sent later was acknowledged already. *)
Record waiting (H k t1 t2 : Z) (t : AckTracker) : Prop := Waiting {
  wt_freshness : freshness t = H;
  wt_published : publish t = snapshot t;
  wt_terminal : terminal t = None;
  wt_lost l : lost_at t = Some l → l <= t1;
  wt_newer j s : k < j → sent t !! j = Some s → t1 <= s;
  wt_state :
    (highest_accepted t < k ∧ sent t !! k = Some t1 ∧
       (is_open (state t) = false ∨ ∃ d, deadline t = Some d ∧ t2 < d)) ∨
    (is_open (state t) = true ∧ ∃ d, deadline t = Some d ∧ t1 + H <= d)
}.

Lemma waiting_expire H k t1 t2 t now :
  waiting H k t1 t2 t → now <= t2 < t1 + H → expire now t = t.
Proof.
  intros [_ _ _ _ _ Hs] Hn. unfold expire. destruct (is_open (state t)) eqn:Ho; [|done].
  destruct Hs as [(_ & _ & [|(d & -> & Hd)])|(_ & d & -> & Hd)]; [done| |];
    (destruct (Z.leb_spec d now); [lia|done]).
Qed.

Lemma waiting_step H k t1 t2 t now e :
  0 < k → t1 <= now → now <= t2 < t1 + H → harmless k e → waiting H k t1 t2 t →
  waiting H k t1 t2 (tracker_step e now t).
Proof.
  intros Hk Ht1 Hn He Hw. pose proof (waiting_expire _ _ _ _ _ _ Hw Hn) as Hex.
  destruct Hw as [Hf Hp Ht Hl Hnew Hs]. destruct e as [| | | | |seq|seq capable|s]; try done; simpl.
  - rewrite Hex. by split.
  - unfold stream_up. rewrite Hex. case_bool_decide as Hd; [|by split].
    rewrite Hd in Hs. split; try done. simpl. destruct Hs as [(? & ? & _)|[? _]]; [|done]. left. auto.
  - unfold seq_for_replacement. case_match; by split.
  - destruct (decide (seq = 0)) as [->|Hz]; [by split|].
    pose proof (record_sent_lookup seq now t) as Hlk. split.
    1-4: unfold record_sent; by case_match.
    + intros j s Hj (_ & [Hs'|(-> & -> & _)])%Hlk; [by apply (Hnew j)|done|done].
    + destruct Hs as [(Hh & Hsk & Hst)|Hst]; [left|right]; last (unfold record_sent; by case_match).
      split; [unfold record_sent; by case_match|]. split; [|unfold record_sent; by case_match].
      apply Hlk; [done|]. rewrite Hf. split; [lia|by left].
  - simpl in He. destruct (on_ack seq capable now t) as [r t'] eqn:Ha. simpl.
    destruct (on_ack_inv _ _ _ _ _ _ Ha) as [[-> _]|(s & _ & _ & _ & Hhi & Hseq & _ & _ & Hlost & ->)]; rewrite Hex in *; [by split|].
    assert (is_open (state t) = true ∧ (∃ d, deadline t = Some d ∧ t1 + H <= d) ∨ t1 <= s) as Hd.
    { destruct (decide (seq = k)) as [->|].
      - destruct Hs as [(_ & Hsk & _)|?]; [right; simplify_eq; lia|by left].
      - right. apply (Hnew seq); [lia|done]. }
    split; simpl; try done.
    + intros j s' Hj [Hj' _]%map_lookup_filter_Some. by apply (Hnew j).
    + right. split; [done|]. eexists. split; [done|].
      destruct Hd as [(_ & d & -> & Hd)|Hd]; [lia|]. destruct (deadline t); lia.
Qed.

Lemma waiting_run H k t1 t2 es : ∀ t now,
  0 < k → t1 <= now → t2 < t1 + H → events_ok es now t → Forall (λ e, e.1 <= t2) es →
  Forall (λ e, harmless k e.2) es → waiting H k t1 t2 t → waiting H k t1 t2 (run_events es t).
Proof.
  induction es as [|[at_ e] es IH]; intros t now Hk Hn H2 Hok Hle Hh Hw; [done|].
  destruct Hok as (? & _ & Hok). apply Forall_cons in Hle as [? Hle]. apply Forall_cons in Hh as [? Hh].
  apply (IH _ at_); try done; [lia|]. apply waiting_step; simpl in *; try done; lia.
Qed.

Lemma waiting_start H t now log t1 t2 :
  tracker_ok H t now log → terminal t = None →
  is_open (state t) = false ∨ (∃ d, deadline t = Some d ∧ t2 < d) → now <= t1 → t1 <= t2 < t1 + H →
  let k := last_assigned t + 1 in waiting H k t1 t2 (record_sent k t1 (set_last_assigned k t)).
Proof.
  intros Hok Ht Hst Hn H2 k. pose proof (to_assigned _ _ _ _ Hok) as Has.
  assert (k ≠ 0) as Hk by lia. pose proof (record_sent_lookup k t1 (set_last_assigned k t)) as Hlk.
  assert (∀ j s, last_assigned t < j → sent t !! j = Some s → False) as Hno.
  { intros j s Hj Hs. apply (to_sent _ _ _ _ Hok) in Hs. lia. }
  split.
  - unfold record_sent. case_match; apply Hok.
  - unfold record_sent. case_match; apply Hok.
  - unfold record_sent. by case_match.
  - intros l Hl. transitivity now; [|done]. apply (to_lost _ _ _ _ Hok). revert Hl. unfold record_sent. by case_match.
  - intros j s Hj (_ & [Hs|(-> & -> & _)])%Hlk; [|lia|done]. destruct (Hno j s); [lia|done].
  - left. split; [unfold record_sent; case_match; simpl; lia|]. split; [|unfold record_sent; by case_match].
    apply Hlk; [done|]. simpl. rewrite (to_freshness _ _ _ _ Hok). split; [lia|]. right. split_and!; try done.
    destruct (sent t !! k) as [i|] eqn:E; [|done]. exfalso. apply (Hno k i); [lia|done].
Qed.

(** The acknowledgement of the waiting request opens, or the data plane is
    open already. *)
Lemma waiting_served H k t1 t2 t :
  0 < k → t1 <= t2 < t1 + H → waiting H k t1 t2 t →
  let served := tracker_step (TAck k true) t2 t in
  is_open (state served) = true ∧ publish served = snapshot served ∧
  ∃ d, deadline served = Some d ∧ t1 + H <= d.
Proof.
  intros Hk H2 Hw served.
  assert (waiting H k t1 t2 served) as Hws by (apply waiting_step; simpl; try done; lia).
  destruct (wt_state _ _ _ _ _ Hws) as [(Hhi & Hsk & _)|[Ho Hd]]; [|split_and!; try done; apply Hws].
  exfalso. unfold served in Hhi, Hsk. simpl in Hhi, Hsk. destruct (on_ack k true t2 t) as [r t'] eqn:Ha.
  pose proof (waiting_expire _ _ _ _ _ t2 Hw ltac:(lia)) as Hex.
  destruct (on_ack_inv _ _ _ _ _ _ Ha) as [[-> Hr]|(s & _ & _ & _ & _ & _ & _ & _ & _ & ->)]; [|simpl in Hhi; lia].
  simpl in *. rewrite Hex in *. revert Ha. unfold on_ack. rewrite Hex, (wt_terminal _ _ _ _ _ Hw), Hsk. simpl.
  rewrite (proj2 (Z.eqb_neq k 0)), (proj2 (Z.leb_gt k _)) by lia.
  rewrite (wt_freshness _ _ _ _ _ Hw), (proj2 (Z.leb_gt H _)) by lia.
  destruct (lost_at _) as [l|] eqn:El; [rewrite (proj2 (Z.ltb_ge t1 l)) by (apply (wt_lost _ _ _ _ _ Hw); done)|];
    intros [= <-]; done.
Qed.

(** A connector that is not serving, for whatever reason but a terminal
    signal, serves again as soon as a new request is acknowledged in time:
    between the request and its acknowledgement, less than the freshness later,
    any events may happen except the loss of the stream, a terminal signal, or
    the late acknowledgement of an older request.  It then serves until the
    freshness has passed since the request was sent.  The same holds for a
    connector that is serving and whose deadline the acknowledgement meets. *)
Theorem acknowledged_request_serves H t now log t1 t2 es :
  tracker_run H t now log → terminal t = None →
  is_open (state t) = false ∨ (∃ d, deadline t = Some d ∧ t2 < d) →
  last_assigned t < 2 ^ 64 - 1 → now <= t1 → t1 <= t2 < t1 + H →
  let '(k, t0) := next_seq t in
  let sent_ := record_sent k t1 t0 in
  events_ok es t1 sent_ → Forall (λ e, e.1 <= t2) es → Forall (λ e, harmless k e.2) es →
  let served := tracker_step (TAck k true) t2 (run_events es sent_) in
  is_open (state served) = true ∧ ∀ at_, at_ < t1 + H → admits (publish served) at_ = true.
Proof.
  intros Hok%tracker_run_ok Ht Hst Hlast Hn H2. pose proof (to_assigned _ _ _ _ Hok) as Has.
  unfold next_seq. cbv zeta. rewrite u64_succ_small by lia. intros Hev Hle Hh.
  set (k := last_assigned t + 1) in *. assert (0 < k) as Hk by lia.
  destruct (waiting_served H k t1 t2 (run_events es (record_sent k t1 (set_last_assigned k t))))
    as (Ho & Hp & d & Hd & Hle'); [done|done| |].
  { apply (waiting_run _ _ _ _ _ _ t1); try done; [lia|]. by eapply waiting_start. }
  set (served := tracker_step _ _ _) in *. clearbody served.
  split; [done|]. intros at_ Ha. rewrite Hp. unfold admits, snapshot. simpl. rewrite Ho, Hd. simpl. apply Z.ltb_lt. lia.
Qed.

Lemma acknowledged_request_serves_witness :
  let t := run_events [(1, TNextSeq); (2, TSent 1); (3, TAck 1 true); (2 + 15 * Second, TExpire)]
             (new AUTHORIZATION_FRESHNESS) in
  state t = Disabled ∧
  is_open (state (tracker_step (TAck 2 true) (4 + 16 * Second)
    (run_events [(3 + 16 * Second, TStreamUp)] (record_sent 2 (3 + 16 * Second) (next_seq t).2)))) = true.
Proof.
  split; [reflexivity|].
  destruct (run_events_reach AUTHORIZATION_FRESHNESS
    [(1, TNextSeq); (2, TSent 1); (3, TAck 1 true); (2 + 15 * Second, TExpire)]
    (new AUTHORIZATION_FRESHNESS) 0 [] (tr_new _ _) ltac:(vm_compute; repeat split; discriminate)) as [log Hr].
  apply (acknowledged_request_serves AUTHORIZATION_FRESHNESS _ _ log (3 + 16 * Second) (4 + 16 * Second)
    [(3 + 16 * Second, TStreamUp)] Hr); try reflexivity.
  - by left.
  - vm_compute. discriminate.
  - vm_compute. split; [discriminate|reflexivity].
  - vm_compute. repeat split; discriminate.
  - constructor; [vm_compute; discriminate|constructor].
  - constructor; [done|constructor].
Defined.

(** ** A request re-sent late *)

(** The sends of a request among the events. *)
Definition sends (k : Z) (es : list (instant * tevent)) : list instant :=
  omap (λ e, if bool_decide (e.2 = TSent k) then Some e.1 else None) es.

(** A replacement stream is opened while request 1 is outstanding, so its first
    report carries number 1 again; before it is sent, a freshness after the
    first send, request 2 goes out on the old stream. *)
Definition slow_replacement : list (instant * tevent) :=
  let H := AUTHORIZATION_FRESHNESS in
  [(0, TNextSeq); (0, TReplacement); (0, TSent 1); (H, TNextSeq); (H, TSent 2); (H, TSent 1); (H, TAck 1 true)].

(** The send time of a request is not always that of its first send.
    Sending another request drops entries as old as the freshness, so a request
    that is sent again on a slow replacement stream gets the later time: an
    acknowledgement that the connector would have refused as stale opens the
    data plane, for almost twice the freshness after the only request the
    acknowledgement can stand for was sent. *)
Theorem late_resend_moves_send_time :
  let H := AUTHORIZATION_FRESHNESS in
  let es := slow_replacement in
  events_ok es 0 (new H) ∧ sends 1 es = [0; H] ∧
  highest_accepted (run_events es (new H)) = 1 ∧
  latest_accepted_sent_at (run_events es (new H)) = Some H ∧
  admits (publish (run_events es (new H))) (2 * H - 1) = true ∧
  ∃ age, (on_ack 1 true H (run_events (take 3 es) (new H))).1 = Err (Stale age).
Proof. vm_compute. split_and!; try done; try (repeat split; discriminate). by eexists. Qed.
