(* ===== verification/ControlStream.v ===== *)
(** * The control stream, controller side
    (controller/internal/connector: authorization.go, control_stream.go,
    goodbye.go, disconnect_watcher.go, standing.go, stranded.go; the connector
    mutations of graph/resolvers/connector.resolvers.go)

    The connectors table with its revocation tombstones, which a trigger writes
    (migrations/041), the registry of live Control streams, and the handlers
    that authorize a connector.  Timestamps that only say when a row was last
    touched are left out, as are log lines and metrics; notifications are
    returned as the list of calls made. *)

From Stdlib Require Import ZArith Lia.
From S2P Require Import Prelude Sql GoText AclCompiler.
Open Scope Z_scope.

(** ** Tables *)

Record ConnectorRow := MkConnectorRow {
  cn_tenant : uuid; cn_network : uuid; cn_status : string; cn_jti : option string;
  cn_trust_domain : option string; cn_cert_serial : option string; cn_cert_not_after : option time;
  cn_last_heartbeat_at : option time; cn_version : option string; cn_hostname : option string;
  cn_public_ip : option string; cn_lan_addr : option string; cn_revoked_at : option time
}.
Record ShieldRec := MkShieldRec {
  sr_tenant : uuid; sr_connector : option uuid; sr_network : uuid; sr_name : string; sr_status : string
}.
Record ControlDB := MkControlDB {
  k_connectors : gmap uuid ConnectorRow;
  k_revocations : gmap uuid uuid; (* connector: tenant *)
  k_workspaces : gmap uuid (string * string); (* trust domain, status *)
  k_shields : gmap uuid ShieldRec
}.
Definition set_connectors (m : gmap uuid ConnectorRow) (s : ControlDB) : ControlDB :=
  MkControlDB m (k_revocations s) (k_workspaces s) (k_shields s).

Definition set_cn_status (st : string) (r : ConnectorRow) : ConnectorRow :=
  MkConnectorRow (cn_tenant r) (cn_network r) st (cn_jti r) (cn_trust_domain r) (cn_cert_serial r)
    (cn_cert_not_after r) (cn_last_heartbeat_at r) (cn_version r) (cn_hostname r) (cn_public_ip r)
    (cn_lan_addr r) (cn_revoked_at r).

(** A row that counts as revoked, by either marker (standing.go). *)
Definition Revoked (r : ConnectorRow) : bool :=
  (cn_status r ≟ "revoked") || bool_decide (is_Some (cn_revoked_at r)).

(** The trigger: a row stored as revoked leaves a tombstone. *)
Definition record_revocation (id : uuid) (r : ConnectorRow) (s : ControlDB) : ControlDB :=
  if Revoked r then
    MkControlDB (k_connectors s)
      (match k_revocations s !! id with Some _ => k_revocations s | None => <[id := cn_tenant r]> (k_revocations s) end)
      (k_workspaces s) (k_shields s)
  else s.
Definition store_connector (id : uuid) (r : ConnectorRow) (s : ControlDB) : ControlDB :=
  record_revocation id r (set_connectors (<[id := r]> (k_connectors s)) s).

(** [UPDATE connectors SET f WHERE id AND c RETURNING g]. *)
Definition update_connector {A} (id : uuid) (c : ConnectorRow → bool) (f : ConnectorRow → ConnectorRow)
    (g : ConnectorRow → A) : stmt ControlDB (option A) := exec (λ s,
  match k_connectors s !! id with
  | Some r => if c r then (Some (g r), store_connector id (f r) s) else (None, s)
  | None => (None, s)
  end).

(** A statement with text parameters. *)
Definition with_texts {A} (texts : list string) (f : stmt ControlDB A) : stmt ControlDB A := λ s,
  if forallb text_param_ok texts then f s else Err InvalidText.

(** ** The authorization contract (authorization.go) *)

Definition ConnectorStateMarkerKey : string := "zecurity-connector-state".
Definition ConnectorStateRevoked : string := "revoked".
Definition ConnectorStateUnknown : string := "unknown".

Inductive connectorAuthState := connectorStateAuthorized | connectorStateRevoked | connectorStateAbsent.
#[export] Instance connectorAuthState_eq_dec : EqDecision connectorAuthState.
Proof. solve_decision. Defined.

Inductive control_error :=
| NotRevocable | ShieldsAttached | ShieldsStranded | NotDeletable
| InvalidToken | MissingClaims | TokenUnreadable | TokenGone | TokenMismatch | InvalidCSR | WrongSPIFFE
| ConnectorNotFound | NotPending | TokenSuperseded | TenantMismatch | WorkspaceNotActive | SigningFailed | NoCACerts
| RowMoved | WrongKey | ConnectorIsRevoked.
Abbreviation controlM := (sqlM ControlDB control_error).

Definition tombstoned (id trustDomain : string) (s : ControlDB) : bool :=
  match k_revocations s !! id with
  | Some tenant => bool_decide (fst <$> k_workspaces s !! tenant = Some trustDomain)
  | None => false
  end.

(** The row is found by id and trust domain. *)
Definition connector_of (id trustDomain : string) (s : ControlDB) : option ConnectorRow :=
  match k_connectors s !! id with
  | Some r => if bool_decide (cn_trust_domain r = Some trustDomain) then Some r else None
  | None => None
  end.

Definition lookupConnector (connectorID trustDomain : string) : controlM (connectorAuthState * option ConnectorRow) :=
  let! rec := pool_stmt "lookup connector" (query (connector_of connectorID trustDomain)) in
  match rec with
  | None =>
      let! t := pool_stmt "lookup tombstone" (query (tombstoned connectorID trustDomain)) in
      ret (if t then connectorStateRevoked else connectorStateAbsent, None)
  | Some r => ret (if Revoked r then connectorStateRevoked else connectorStateAuthorized, Some r)
  end.

(** gRPC codes the handlers answer with. *)
Inductive code := PermissionDenied | NotFound | Unavailable | FailedPrecondition.
Record authzRejection := MkAuthzRejection { rj_code : code; rj_marker : option string }.

Definition rejectRevoked : authzRejection := MkAuthzRejection PermissionDenied (Some ConnectorStateRevoked).
Definition rejectUnknown : authzRejection := MkAuthzRejection NotFound (Some ConnectorStateUnknown).
Definition rejectUnavailable : authzRejection := MkAuthzRejection Unavailable None.
Definition rejectMissingSeq : authzRejection := MkAuthzRejection FailedPrecondition None.

(** [None]: the lookup failed. *)
Definition rejectionFor (state : option connectorAuthState) : authzRejection :=
  match state with
  | None => rejectUnavailable
  | Some connectorStateRevoked => rejectRevoked
  | Some connectorStateAbsent => rejectUnknown
  | Some connectorStateAuthorized => rejectUnavailable
  end.

Definition classifyRefusal (connectorID trustDomain : string) : controlM authzRejection :=
  let! r := attempt (lookupConnector connectorID trustDomain) in
  ret (rejectionFor (match r with Ok (st, _) => Some st | Err _ => None end)).

(** ** Streams *)

Inductive ctrl_msg :=
| MAgentPolicy (shield_renewal_window_secs : Z) (authorization_acks : bool)
| MPing
| MRelayList (version : Z)
| MAclSnapshot (snap : ACLSnapshot)
| MAuthorizationAck (seq : Z)
| MReEnroll
| MConnectorRevoked
| MOther. (* resource snapshots, instructions, revocation lists, scans *)

Definition connectorSendQueueSize : nat := 128.

Record connectorStreamClient := MkClient {
  cl_connector : uuid; cl_tenant : uuid; cl_trust_domain : string;
  outbound : list ctrl_msg; (* the mailbox, oldest first *)
  cl_revoked : bool;
  cl_terminal : bool; (* ConnectorRevoked waits in its slot *)
  terminalSent : bool;
  lastReEnrollAt : option time;
  presentedCertNotAfter : option time;
  relayListVersion : option Z (* of the list enqueued last *)
}.
Definition set_outbound (l : list ctrl_msg) (c : connectorStreamClient) : connectorStreamClient :=
  MkClient (cl_connector c) (cl_tenant c) (cl_trust_domain c) l (cl_revoked c) (cl_terminal c) (terminalSent c)
    (lastReEnrollAt c) (presentedCertNotAfter c) (relayListVersion c).
Definition set_reenroll (t : time) (c : connectorStreamClient) : connectorStreamClient :=
  MkClient (cl_connector c) (cl_tenant c) (cl_trust_domain c) (outbound c) (cl_revoked c) (cl_terminal c)
    (terminalSent c) (Some t) (presentedCertNotAfter c) (relayListVersion c).
Definition set_relay_version (v : Z) (c : connectorStreamClient) : connectorStreamClient :=
  MkClient (cl_connector c) (cl_tenant c) (cl_trust_domain c) (outbound c) (cl_revoked c) (cl_terminal c)
    (terminalSent c) (lastReEnrollAt c) (presentedCertNotAfter c) (Some v).
Definition set_revoked (terminal sent : bool) (c : connectorStreamClient) : connectorStreamClient :=
  MkClient (cl_connector c) (cl_tenant c) (cl_trust_domain c) (outbound c) true terminal sent
    (lastReEnrollAt c) (presentedCertNotAfter c) (relayListVersion c).

Definition new_client (id tenant trustDomain : string) (notAfter : option time) : connectorStreamClient :=
  MkClient id tenant trustDomain [] false false false None notAfter None.

(** A full mailbox fails fast. *)
Definition send (msg : ctrl_msg) (c : connectorStreamClient) : option connectorStreamClient :=
  if (length (outbound c) <? connectorSendQueueSize)%nat then Some (set_outbound (outbound c ++ [msg]) c) else None.

(** [None]: the stream carries a revocation, or its mailbox is full. *)
Definition sendAuthorizationAck (seq : Z) (c : connectorStreamClient) : option connectorStreamClient :=
  if cl_revoked c then None else send (MAuthorizationAck seq) c.

(** The slot of a stream that was not revoked is empty. *)
Definition markRevoked (c : connectorStreamClient) : bool * connectorStreamClient :=
  if cl_revoked c then (false, c) else (true, set_revoked true (terminalSent c) c).

Definition sendRelayList (version : Z) (onlyIfBehind : bool) (c : connectorStreamClient)
    : option bool * connectorStreamClient :=
  if onlyIfBehind && bool_decide (relayListVersion c = Some version) then (Some false, c)
  else match send (MRelayList version) c with
       | None => (None, c)
       | Some c => (Some true, set_relay_version version c)
       end.

(** One message of the writer: the terminal message goes first and ends it. *)
Definition runWriter_step (c : connectorStreamClient) : option (ctrl_msg * connectorStreamClient) :=
  if terminalSent c then None
  else if cl_terminal c then Some (MConnectorRevoked, set_revoked false true c)
  else match outbound c with
       | [] => None
       | msg :: rest => Some (msg, set_outbound rest c)
       end.

Definition agentPolicyMessage (shieldRenewalWindow : duration) : ctrl_msg :=
  MAgentPolicy (Z.max 0 (Z.quot shieldRenewalWindow Second)) true.

(** ** Renewal *)

Definition reEnrollResendInterval : duration := 10 * Minute.

Definition renewalExpiry (stored presented : option time) : option time :=
  match presented, stored with
  | None, _ => stored
  | Some p, None => Some p
  | Some p, Some s => if time_Before p s then Some p else Some s
  end.

Definition renewalDue (certNotAfter : option time) (now : time) (window : duration) : bool :=
  match certNotAfter with
  | None => false
  | Some t => negb (window <=? 0) && (time_Sub t now <? window)
  end.

Definition maybeSendReEnroll (window : duration) (certNotAfter : option time) (now : time)
    (c : connectorStreamClient) : bool * connectorStreamClient :=
  if negb (renewalDue certNotAfter now window) then (false, c)
  else if match lastReEnrollAt c with Some l => time_Sub now l <? reEnrollResendInterval | None => false end then (false, c)
  else match send MReEnroll c with
       | None => (false, c)
       | Some c => (true, set_reenroll now c)
       end.

(** ** The registry *)

(** Streams are named by their identity (the pointer). *)
Abbreviation sid := nat (only parsing).
Record ConnectorRegistry := MkRegistry {
  clients : gmap uuid sid;
  live : gmap uuid (gset sid);
  heap : gmap sid connectorStreamClient
}.
Definition NewConnectorRegistry : ConnectorRegistry := MkRegistry ∅ ∅ ∅.

Definition set_stream (i : sid) (c : connectorStreamClient) (r : ConnectorRegistry) : ConnectorRegistry :=
  MkRegistry (clients r) (live r) (<[i := c]> (heap r)).
Definition live_streams (id : uuid) (r : ConnectorRegistry) : gset sid := default ∅ (live r !! id).

Definition add (id : uuid) (i : sid) (r : ConnectorRegistry) : ConnectorRegistry :=
  MkRegistry (<[id := i]> (clients r)) (live r) (heap r).
Definition removeIfCurrent (id : uuid) (i : sid) (r : ConnectorRegistry) : bool * ConnectorRegistry :=
  if bool_decide (clients r !! id = Some i) then (true, MkRegistry (delete id (clients r)) (live r) (heap r))
  else (false, r).
Definition trackLive (id : uuid) (i : sid) (r : ConnectorRegistry) : ConnectorRegistry :=
  MkRegistry (clients r) (<[id := {[i]} ∪ live_streams id r]> (live r)) (heap r).
Definition untrackLive (id : uuid) (i : sid) (r : ConnectorRegistry) : ConnectorRegistry :=
  let set_ := live_streams id r ∖ {[i]} in
  MkRegistry (clients r) (if bool_decide (set_ = ∅) then delete id (live r) else <[id := set_]> (live r)) (heap r).

(** [ConnectorRevoked] on every live stream of the connector. *)
Definition mark_stream (h : gmap sid connectorStreamClient) (i : sid) : gmap sid connectorStreamClient :=
  alter (λ c, (markRevoked c).2) i h.
Definition SignalRevoked (id : uuid) (r : ConnectorRegistry) : ConnectorRegistry :=
  MkRegistry (clients r) (live r) (foldl mark_stream (heap r) (elements (live_streams id r))).

(** The streams of a workspace (acl_push.go). *)
Definition ClientsForWorkspace (ws : uuid) (r : ConnectorRegistry) : list sid :=
  omap (λ kv, match heap r !! kv.2 with
              | Some c => if cl_tenant c ≟ ws then Some kv.2 else None
              | None => None
              end) (map_to_list (clients r)).

(** ** Opening and closing a stream *)

Definition is_active (r : ConnectorRow) : bool := cn_status r ≟ "active".
Definition heartbeat (now : time) (r : ConnectorRow) : ConnectorRow :=
  MkConnectorRow (cn_tenant r) (cn_network r) "active" (cn_jti r) (cn_trust_domain r) (cn_cert_serial r)
    (cn_cert_not_after r) (Some now) (cn_version r) (cn_hostname r) (cn_public_ip r)
    (cn_lan_addr r) (cn_revoked_at r).

Definition activate_row (dbnow : time) (id : uuid) : stmt ControlDB (option bool) :=
  update_connector id (λ r, negb (Revoked r)) (heartbeat dbnow) (λ r, negb (is_active r)).

(** The registry after the update; a database error keeps the stream. *)
Definition after_activation (i : sid) (c : connectorStreamClient) (r : result (err control_error) (option bool))
    (reg : ConnectorRegistry) : ConnectorRegistry :=
  match r with
  | Ok None => reg
  | _ => trackLive (cl_connector c) i (add (cl_connector c) i (set_stream i c reg))
  end.

(** Under [lifecycleMu].  Answers whether the connector became active, or the
    refusal. *)
Definition activateStream (dbnow : time) (i : sid) (c : connectorStreamClient) (reg : ConnectorRegistry)
    : controlM ((bool + authzRejection) * ConnectorRegistry) :=
  let! r := attempt (pool_stmt "activate" (activate_row dbnow (cl_connector c))) in
  let reg := after_activation i c r reg in
  match r with
  | Ok None => let! rej := classifyRefusal (cl_connector c) (cl_trust_domain c) in ret (inr rej, reg)
  | Ok (Some becameActive) => ret (inl becameActive, reg)
  | Err _ => ret (inl false, reg)
  end.

Definition retire_row (id : uuid) : stmt ControlDB (option bool) :=
  update_connector id is_active (set_cn_status "disconnected") (λ _, true).

(** The registry without the stream, and whether it was the current one. *)
Definition drop_stream (i : sid) (c : connectorStreamClient) (reg : ConnectorRegistry) : bool * ConnectorRegistry :=
  removeIfCurrent (cl_connector c) i (untrackLive (cl_connector c) i reg).

(** Answers whether the stream was the current one and the connector became
    disconnected. *)
Definition retireStream (i : sid) (c : connectorStreamClient) (reg : ConnectorRegistry)
    : controlM ((bool * bool) * ConnectorRegistry) :=
  let '(current, reg) := drop_stream i c reg in
  if current then
    let! r := attempt (pool_stmt "retire" (retire_row (cl_connector c))) in
    ret ((true, match r with Ok (Some b) => b | _ => false end), reg)
  else ret ((false, false), reg).

(** What [Control] does before the message loop, with its notifications. *)
Inductive call := NotifyPolicyChange (ws : uuid) | NotifyTopologyChange (ws : uuid) (connectors : list uuid) | PushPeerLists (id : uuid).
Definition both_planes (ws id : uuid) : list call := [NotifyPolicyChange ws; NotifyTopologyChange ws [id]].

(** [inr]: the status the stream ends with. *)
Definition Control_open (dbnow : time) (i : sid) (connectorID trustDomain : string) (notAfter : option time)
    (reg : ConnectorRegistry) : controlM ((list call + authzRejection) * ConnectorRegistry) :=
  let! found := attempt (lookupConnector connectorID trustDomain) in
  match found with
  | Err _ => ret (inr rejectUnavailable, reg)
  | Ok (connectorStateAuthorized, Some r) =>
      let c := new_client connectorID (cn_tenant r) trustDomain notAfter in
      let! opened := activateStream dbnow i c reg in
      ret (match opened.1 with
           | inr rej => inr rej
           | inl becameActive => inl (if becameActive then both_planes (cn_tenant r) connectorID else [])
           end, opened.2)
  | Ok (st, _) => ret (inr (rejectionFor (Some st)), reg)
  end.

(** The first messages of a stream; [None] when the list of revoked shields
    could not be built or sent, which ends the stream. *)
Definition greet (shieldRenewalWindow : duration) (revokedShields : bool) (relayList : option Z)
    (c : connectorStreamClient) : option connectorStreamClient :=
  let c := default c (send (agentPolicyMessage shieldRenewalWindow) c) in
  let c := default c (send MPing c) in
  if negb revokedShields then None
  else match send MOther c with
       | None => None
       | Some c => Some (match relayList with Some v => (sendRelayList v false c).2 | None => c end)
       end.

(** What the deferred call of [Control] does when the stream ends. *)
Definition Control_close (i : sid) (c : connectorStreamClient) (reg : ConnectorRegistry)
    : controlM (list call * ConnectorRegistry) :=
  let! r := retireStream i c reg in
  let '((current, becameDisconnected), reg) := r in
  ret (if current && becameDisconnected then both_planes (cl_tenant c) (cl_connector c) else [], reg).

(** ** Health reports *)

Record ConnectorHealthReport := MkHealth {
  hr_Version : string; hr_Hostname : string; hr_PublicIp : string; hr_LanAddr : string;
  hr_AclVersion : Z; hr_RelayId : string; hr_HeartbeatSeq : Z
}.

Definition nullif_empty (s : string) : option string := if s ≟ "" then None else Some s.
Definition report_row (now : time) (h : ConnectorHealthReport) (r : ConnectorRow) : ConnectorRow :=
  MkConnectorRow (cn_tenant r) (cn_network r) "active" (cn_jti r) (cn_trust_domain r) (cn_cert_serial r)
    (cn_cert_not_after r) (Some now) (Some (hr_Version h)) (Some (hr_Hostname h)) (Some (hr_PublicIp h))
    (nullif_empty (hr_LanAddr h)) (cn_revoked_at r).

Definition health_guard (r : ConnectorRow) : bool :=
  negb (cn_status r ≟ "revoked") && negb (cn_status r ≟ "deleted") && bool_decide (cn_revoked_at r = None).

(** The guarded update: did the status or the address change, and the expiry
    of the stored certificate. *)
Definition health_update (dbnow : time) (id : uuid) (h : ConnectorHealthReport)
    : stmt ControlDB (option (bool * option time)) :=
  with_texts [hr_Version h; hr_Hostname h; hr_PublicIp h; hr_LanAddr h]
    (update_connector id health_guard (report_row dbnow h)
       (λ r, (negb (is_active r) || negb (default "" (cn_lan_addr r) ≟ hr_LanAddr h), cn_cert_not_after r))).

(** The heartbeat's claim about the relay the connector is attached to. *)
Inductive placement_answer := PlacementError | PlacementChanged (changed : bool).
Definition placement_calls (ws id : uuid) (a : option placement_answer) : list call :=
  match a with Some (PlacementChanged true) => [NotifyTopologyChange ws [id]] | _ => [] end.

(** [GetOrCompile] answered [snap]; [None] is an error. *)
Definition pushACLSnapshot (snap : option ACLSnapshot) (connectorVersion : Z) (c : connectorStreamClient)
    : option connectorStreamClient :=
  match snap with
  | None => None
  | Some snap =>
      if negb (connectorVersion =? 0) && (connectorVersion =? as_Version snap) then Some c
      else send (MAclSnapshot snap) c
  end.

(** The part of the handler after a row was returned: the renewal trigger, the
    push, and last the acknowledgement. *)
Definition health_finish (window : duration) (now : time) (h : ConnectorHealthReport) (certNotAfter : option time)
    (snap : option ACLSnapshot) (c : connectorStreamClient) : connectorStreamClient :=
  let c := (maybeSendReEnroll window (renewalExpiry certNotAfter (presentedCertNotAfter c)) now c).2 in
  match pushACLSnapshot snap (hr_AclVersion h) c with
  | None => c
  | Some c => default c (sendAuthorizationAck (hr_HeartbeatSeq h) c)
  end.

(** The stream goes on, with the calls made, or ends with a rejection. *)
Definition handleConnectorHealth (window : duration) (now dbnow : time) (h : ConnectorHealthReport)
    (placement : option placement_answer) (snap : option ACLSnapshot) (c : connectorStreamClient)
    : controlM ((list call + authzRejection) * connectorStreamClient) :=
  let id := cl_connector c in
  if hr_HeartbeatSeq h =? 0 then ret (inr rejectMissingSeq, c)
  else
    let! r := attempt (pool_stmt "health" (health_update dbnow id h)) in
    let placed := placement_calls (cl_tenant c) id placement in
    match r with
    | Ok None => let! rej := classifyRefusal id (cl_trust_domain c) in ret (inr rej, c)
    | Ok (Some (changed, certNotAfter)) =>
        ret (inl ((if changed then both_planes (cl_tenant c) id ++ [PushPeerLists id] else []) ++ placed),
             health_finish window now h certNotAfter snap c)
    | Err _ => ret (inl placed, c)
    end.

(** ** The proactive push (acl_push.go) *)

Definition push_one (snap : ACLSnapshot) (h : gmap sid connectorStreamClient) (i : sid) : gmap sid connectorStreamClient :=
  alter (λ c, default c (send (MAclSnapshot snap) c)) i h.
Definition pushOnce (ws : uuid) (snap : option ACLSnapshot) (r : ConnectorRegistry) : ConnectorRegistry :=
  match snap with
  | None => r
  | Some snap => MkRegistry (clients r) (live r) (foldl (push_one snap) (heap r) (ClientsForWorkspace ws r))
  end.

(** ** Administration *)

Definition serving_row (r : ConnectorRow) : bool :=
  ((cn_status r ≟ "active") || (cn_status r ≟ "disconnected")) && bool_decide (cn_revoked_at r = None).
Definition enrolled_shield (s : ShieldRec) : bool := (sr_status s ≟ "active") || (sr_status s ≟ "disconnected").

(** The shields that no other connector of their network could serve. *)
Definition StrandedShields (tenantID connectorID : uuid) (s : ControlDB) : list string :=
  merge_sort String.le (omap (λ kv : uuid * ShieldRec,
    let sh := kv.2 in
    if (sr_tenant sh ≟ tenantID) && bool_decide (sr_connector sh = Some connectorID) && enrolled_shield sh
       && negb (existsb (λ kc : uuid * ConnectorRow,
                  (cn_tenant kc.2 ≟ tenantID) && (cn_network kc.2 ≟ sr_network sh)
                  && negb (kc.1 ≟ connectorID) && serving_row kc.2) (map_to_list (k_connectors s)))
    then Some (sr_name sh) else None) (map_to_list (k_shields s))).

Definition revoke_row (dbnow : time) (tenantID id : uuid) : stmt ControlDB (option ()) :=
  update_connector id (λ r, (cn_tenant r ≟ tenantID) && serving_row r)
    (λ r, MkConnectorRow (cn_tenant r) (cn_network r) "revoked" (cn_jti r) (cn_trust_domain r) (cn_cert_serial r)
            (cn_cert_not_after r) (cn_last_heartbeat_at r) (cn_version r) (cn_hostname r) (cn_public_ip r)
            (cn_lan_addr r) (Some dbnow))
    (λ _, tt).

(** Up to the delivery of the revocation; the update has committed when the
    streams are told. *)
Definition RevokeConnector (dbnow : time) (tenantID id : uuid) (alsoRevokeShields : bool) (reg : ConnectorRegistry)
    : controlM (list call * ConnectorRegistry) :=
  let! stranded := pool_stmt "stranded shields" (query (StrandedShields tenantID id)) in
  if negb (bool_decide (stranded = [])) && negb alsoRevokeShields then fail ShieldsStranded
  else
    let! r := pool_stmt "revoke connector" (revoke_row dbnow tenantID id) in
    match r with
    | None => fail NotRevocable
    | Some _ => ret (both_planes tenantID id ++ [PushPeerLists id], SignalRevoked id reg)
    end.

Definition attached_shields (id : uuid) (s : ControlDB) : list (uuid * ShieldRec) :=
  filter (λ kv : uuid * ShieldRec, sr_connector kv.2 = Some id ∧ enrolled_shield kv.2 = true) (map_to_list (k_shields s)).

(** The shields that pointed to the row go with it. *)
Definition delete_row (tenantID id : uuid) : stmt ControlDB bool := exec (λ s,
  match k_connectors s !! id with
  | Some r =>
      if (cn_tenant r ≟ tenantID) && ((cn_status r ≟ "pending") || (cn_status r ≟ "revoked"))
         && bool_decide (attached_shields id s = [])
      then (true, MkControlDB (delete id (k_connectors s)) (k_revocations s) (k_workspaces s)
                    (filter (λ kv : uuid * ShieldRec, sr_connector kv.2 ≠ Some id) (k_shields s)))
      else (false, s)
  | None => (false, s)
  end).

Definition DeleteConnector (tenantID id : uuid) : controlM () :=
  let! deleted := pool_stmt "delete connector" (delete_row tenantID id) in
  if deleted then ret tt
  else
    let! attached := attempt (pool_stmt "count shields" (query (λ s,
      filter (λ kv : uuid * ShieldRec, sr_tenant kv.2 = tenantID) (attached_shields id s)))) in
    match attached with
    | Ok (_ :: _) => fail ShieldsAttached
    | _ => fail NotDeletable
    end.

(** Creating a connector reserves a pending row; the trigger refuses the
    identity of a revoked one. *)
Definition insert_connector (id tenantID network : uuid) : stmt ControlDB () := λ s,
  if bool_decide (is_Some (k_connectors s !! id)) || bool_decide (is_Some (k_revocations s !! id)) then Err UniqueViolation
  else if bool_decide (is_Some (k_workspaces s !! tenantID)) then
    Ok (tt, store_connector id (MkConnectorRow tenantID network "pending" None None None None None None None None None None) s)
  else Err ForeignKeyViolation.

Definition goodbye_row (id trustDomain : string) : stmt ControlDB (option uuid) :=
  update_connector id (λ r, bool_decide (cn_trust_domain r = Some trustDomain) && is_active r
                            && bool_decide (cn_revoked_at r = None))
    (set_cn_status "disconnected") cn_tenant.

Definition Goodbye (connectorID trustDomain : string) : controlM (list call) :=
  let! tenant := pool_stmt "goodbye" (goodbye_row connectorID trustDomain) in
  ret (match tenant with Some ws => both_planes ws connectorID | None => [] end).

(** The watcher: active connectors of active workspaces that went quiet. *)
Definition quiet_row (dbnow : time) (threshold : duration) (s : ControlDB) (r : ConnectorRow) : bool :=
  is_active r && match cn_last_heartbeat_at r with Some t => t <? dbnow - threshold | None => false end
  && bool_decide (snd <$> k_workspaces s !! cn_tenant r = Some "active").
Definition quiet_stmt (dbnow : time) (threshold : duration) : stmt ControlDB (list (uuid * uuid)) := exec (λ s,
  (omap (λ kv : uuid * ConnectorRow, if quiet_row dbnow threshold s kv.2 then Some (cn_tenant kv.2, kv.1) else None)
     (map_to_list (k_connectors s)),
   set_connectors ((λ r, if quiet_row dbnow threshold s r then set_cn_status "disconnected" r else r) <$> k_connectors s) s)).
Definition markDisconnected (dbnow : time) (threshold : duration) : controlM (list (uuid * uuid)) :=
  pool_stmt "mark disconnected" (quiet_stmt dbnow threshold).

(** ** Enrollment (enrollment.go, token_handler.go)

    JWT verification, the Valkey entry of a token, certificate requests and the
    signer are outside: their answers are arguments. *)

Record EnrollmentClaims := MkClaims {
  ec_jti : string; ec_ConnectorID : string; ec_WorkspaceID : string; ec_TrustDomain : string
}.
Record EnrollRequest := MkEnrollRequest {
  rq_claims : option EnrollmentClaims; (* VerifyEnrollmentToken *)
  rq_stored : option (option string); (* PeekEnrollmentJTI; None: the read failed *)
  rq_csr_ok : bool; (* parses, and its signature verifies *)
  rq_spiffe_ok : bool; (* carries the SPIFFE URI of the claims *)
  rq_signed : option (string * time); (* SignConnectorCert: serial, expiry *)
  rq_ca_certs : bool; (* loadCACerts *)
  rq_Hostname : string; rq_Version : string
}.

Definition pending_with (jti : string) (r : ConnectorRow) : bool :=
  (cn_status r ≟ "pending") && bool_decide (cn_jti r = Some jti).
Definition enroll_row (dbnow : time) (td serial : string) (notAfter : time) (host version : string) (r : ConnectorRow) : ConnectorRow :=
  MkConnectorRow (cn_tenant r) (cn_network r) "active" None (Some td) (Some serial) (Some notAfter)
    (Some dbnow) (Some version) (Some host) (cn_public_ip r) (cn_lan_addr r) (cn_revoked_at r).

Definition enrollmentClaimError {A} (id : uuid) : controlM A :=
  let! st := tx_stmt "load connector" (query (λ s, cn_status <$> k_connectors s !! id)) in
  match st with
  | None => fail ConnectorNotFound
  | Some st => if st ≟ "pending" then fail TokenSuperseded else fail NotPending
  end.

Definition claims_complete (c : EnrollmentClaims) : bool :=
  forallb (λ v, negb (v ≟ "")) [ec_jti c; ec_ConnectorID c; ec_WorkspaceID c; ec_TrustDomain c].

Definition enroll_stmt (dbnow : time) (c : EnrollmentClaims) (req : EnrollRequest) (serial : string) (notAfter : time)
    : stmt ControlDB (option ()) :=
  with_texts [rq_Hostname req; rq_Version req]
    (update_connector (ec_ConnectorID c) (pending_with (ec_jti c))
       (enroll_row dbnow (ec_TrustDomain c) serial notAfter (rq_Hostname req) (rq_Version req)) (λ _, tt)).

(** The transaction: claim the row, check the workspace, sign, activate. *)
Definition enroll_tx (dbnow : time) (c : EnrollmentClaims) (req : EnrollRequest) : controlM () :=
  let id := ec_ConnectorID c in
  let! tenant := tx_stmt "claim connector" (query (λ s,
    match k_connectors s !! id with
    | Some r => if pending_with (ec_jti c) r then Some (cn_tenant r) else None
    | None => None
    end)) in
  match tenant with
  | None => enrollmentClaimError id
  | Some tenant =>
      if negb (tenant ≟ ec_WorkspaceID c) then fail TenantMismatch
      else
        let! ws := tx_stmt "load workspace" (query (λ s, snd <$> k_workspaces s !! ec_WorkspaceID c)) in
        if negb (bool_decide (ws = Some "active")) then fail WorkspaceNotActive
        else match rq_signed req with
        | None => fail SigningFailed
        | Some (serial, notAfter) =>
            if negb (rq_ca_certs req) then fail NoCACerts
            else
              let! n := tx_stmt "update connector" (enroll_stmt dbnow c req serial notAfter) in
              match n with
              | None => fail RowMoved
              | Some _ => commit_tx "commit enrollment"
              end
        end
  end.

Definition Enroll (dbnow : time) (req : EnrollRequest) : controlM string :=
  match rq_claims req with
  | None => fail InvalidToken
  | Some c =>
      if negb (claims_complete c) then fail MissingClaims
      else match rq_stored req with
      | None => fail TokenUnreadable
      | Some None => fail TokenGone
      | Some (Some stored) =>
          if negb (stored ≟ ec_ConnectorID c) then fail TokenMismatch
          else if negb (rq_csr_ok req) then fail InvalidCSR
          else if negb (rq_spiffe_ok req) then fail WrongSPIFFE
          else with_tx "begin enrollment" (enroll_tx dbnow c req) ;;; ret (ec_ConnectorID c)
      end
  end.

(** A new token becomes the row's current one, only while it is pending. *)
Definition reissue_row (jti : string) (tenantID id : uuid) : stmt ControlDB (option (option string)) :=
  update_connector id (λ r, (cn_tenant r ≟ tenantID) && (cn_status r ≟ "pending"))
    (λ r, MkConnectorRow (cn_tenant r) (cn_network r) (cn_status r) (Some jti) (cn_trust_domain r) (cn_cert_serial r)
            (cn_cert_not_after r) (cn_last_heartbeat_at r) (cn_version r) (cn_hostname r) (cn_public_ip r)
            (cn_lan_addr r) (cn_revoked_at r))
    cn_jti.

(** Issue token [jti]; answers the token it supersedes. *)
Definition RegenerateToken (jti : string) (tenantID id : uuid) : controlM (option string) :=
  let! st := pool_stmt "load connector" (query (λ s,
    match k_connectors s !! id with
    | Some r => if cn_tenant r ≟ tenantID then Some (cn_status r) else None
    | None => None
    end)) in
  match st with
  | None => fail ConnectorNotFound
  | Some st =>
      if negb (st ≟ "pending") then fail NotPending
      else
        let! prev := pool_stmt "persist token jti" (reissue_row jti tenantID id) in
        match prev with
        | None => fail NotPending
        | Some prev => ret prev
        end
  end.

(** The update of a renewed certificate (enrollment.go). *)
Definition renew_row (serial : string) (notAfter : time) (tenantID id : uuid) : stmt ControlDB (option ()) :=
  update_connector id (λ r, (cn_tenant r ≟ tenantID) && negb (Revoked r))
    (λ r, MkConnectorRow (cn_tenant r) (cn_network r) (cn_status r) (cn_jti r) (cn_trust_domain r) (Some serial)
            (Some notAfter) (cn_last_heartbeat_at r) (cn_version r) (cn_hostname r) (cn_public_ip r)
            (cn_lan_addr r) (cn_revoked_at r))
    (λ _, tt).

(** [sameKey]: the request's key is that of the presented certificate. *)
Definition RenewCert (sameKey : bool) (signed : option (string * time)) (connectorID trustDomain : string) : controlM () :=
  let! rec := pool_stmt "load connector" (query (connector_of connectorID trustDomain)) in
  match rec with
  | None => fail ConnectorNotFound
  | Some r =>
      if Revoked r then fail ConnectorIsRevoked
      else if negb sameKey then fail WrongKey
      else match signed with
      | None => fail SigningFailed
      | Some (serial, notAfter) =>
          let! n := pool_stmt "update connector cert" (renew_row serial notAfter (cn_tenant r) connectorID) in
          match n with None => fail ConnectorIsRevoked | Some _ => ret tt end
      end
  end.
