(* ===== verification/ControlFacts.v ===== *)
(** * Revocation is final, and reaches every stream

    The tables keep a tombstone for every revoked identity, whatever operation
    runs and whatever statement fails; a health report is acknowledged only
    while the row is not revoked; and every live stream of a revoked connector
    is told. *)

From Stdlib Require Import ZArith Lia.
From S2P Require Import Prelude Sql GoText AclCompiler ControlStream.
Open Scope Z_scope.

(** ** The tables *)

(** A row is revoked exactly when its identity has a tombstone. *)
Definition tombs_ok (s : ControlDB) : Prop :=
  map_Forall (λ id r, Revoked r = true ↔ is_Some (k_revocations s !! id)) (k_connectors s).

(** Tombstones stay. *)
Definition tombs_kept (s s' : ControlDB) : Prop :=
  ∀ id, is_Some (k_revocations s !! id) → is_Some (k_revocations s' !! id).
#[export] Instance tombs_kept_preorder : PreOrder tombs_kept.
Proof. split; unfold tombs_kept; [auto|]. intros s1 s2 s3 H12 H23 id Hid. auto. Qed.

Definition tombs_step (s s' : ControlDB) : Prop := tombs_kept s s' ∧ tombs_ok s'.

Lemma store_tombs id r s :
  tombs_ok s → (is_Some (k_revocations s !! id) → Revoked r = true) →
  tombs_step s (store_connector id r s).
Proof.
  intros Hok Hr. unfold store_connector, record_revocation, tombs_step, tombs_kept, tombs_ok.
  destruct (Revoked r) eqn:Er; simpl.
  - assert (∀ i, is_Some (match k_revocations s !! id with
                          | Some _ => k_revocations s
                          | None => <[id := cn_tenant r]> (k_revocations s)
                          end !! i) ↔ i = id ∨ is_Some (k_revocations s !! i)) as Hi.
    { intros i. destruct (k_revocations s !! id) eqn:E.
      - split; [auto|]. intros [->|]; [by rewrite E|done].
      - rewrite lookup_insert_is_Some'. naive_solver. }
    split; [intros i; rewrite Hi; auto|].
    intros i r' Hi'. rewrite Hi. destruct (decide (i = id)) as [->|Hne].
    + rewrite lookup_insert_eq in Hi'. simplify_eq. naive_solver.
    + rewrite lookup_insert_ne in Hi' by done. rewrite (Hok i r' Hi'). split; [auto|]. by intros [?|?].
  - split; [done|]. intros i r' Hi'. destruct (decide (i = id)) as [->|Hne].
    + rewrite lookup_insert_eq in Hi'. simplify_eq. rewrite Er. split; [done|]. by intros Ht%Hr.
    + rewrite lookup_insert_ne in Hi' by done. by apply Hok.
Qed.

(** A statement, by what it does to the tombstones. *)
Definition stmt_tombs {A} (f : stmt ControlDB A) : Prop :=
  ∀ s a s', tombs_ok s → f s = Ok (a, s') → tombs_step s s'.

Lemma update_tombs {A} id c f (g : ConnectorRow → A) :
  (∀ r, c r = true → Revoked r = true → Revoked (f r) = true) → stmt_tombs (update_connector id c f g).
Proof.
  intros Hcf s a s' Hok. unfold update_connector, exec. intros [= Ha]. revert Ha.
  destruct (k_connectors s !! id) as [r|] eqn:Hr; [|by intros [= <- <-]; split].
  destruct (c r) eqn:Hc; intros [= <- <-]; [|by split].
  apply store_tombs; [done|]. intros Ht. apply Hcf; [done|]. by apply (Hok id r Hr).
Qed.

Lemma with_texts_tombs {A} l (f : stmt ControlDB A) : stmt_tombs f → stmt_tombs (with_texts l f).
Proof. intros Hf s a s' Hok. unfold with_texts. case_match; [by apply Hf|done]. Qed.

Lemma query_tombs {A} (f : ControlDB → A) : stmt_tombs (query f).
Proof. intros s a s' Hok [= <- <-]. by split. Qed.

Lemma Revoked_true r : Revoked r = true ↔ cn_status r = "revoked" ∨ is_Some (cn_revoked_at r).
Proof. unfold Revoked. rewrite orb_true_iff, !bool_decide_eq_true. done. Qed.
Lemma Revoked_false r : Revoked r = false ↔ cn_status r ≠ "revoked" ∧ cn_revoked_at r = None.
Proof. unfold Revoked. rewrite orb_false_iff, !bool_decide_eq_false, <-eq_None_not_Some. done. Qed.

(** A row with another status is revoked by its date, which no statement
    clears. *)
Lemma kept_revoked r r' st :
  cn_status r = st → st ≠ "revoked" → cn_revoked_at r' = cn_revoked_at r → Revoked r = true → Revoked r' = true.
Proof. rewrite !Revoked_true. intros <- Hne ->. naive_solver. Qed.

Lemma health_guard_live r : health_guard r = true → Revoked r = false.
Proof. unfold health_guard. intros. bool_simpl. by apply Revoked_false. Qed.
Lemma serving_live r : serving_row r = true → Revoked r = false.
Proof.
  unfold serving_row. rewrite andb_true_iff, orb_true_iff, !bool_decide_eq_true.
  intros [[Hs|Hs] Hr]; apply Revoked_false; rewrite Hs; done.
Qed.

Lemma activate_tombs dbnow id : stmt_tombs (activate_row dbnow id).
Proof. apply update_tombs. intros r Hc Hr. by rewrite Hr in Hc. Qed.
Lemma retire_tombs id : stmt_tombs (retire_row id).
Proof. apply update_tombs. unfold is_active. intros r Hc. bool_simpl. by apply (kept_revoked _ _ "active"). Qed.
Lemma goodbye_tombs id td : stmt_tombs (goodbye_row id td).
Proof. apply update_tombs. unfold is_active. intros r Hc. bool_simpl. by apply (kept_revoked _ _ "active"). Qed.
Lemma health_tombs dbnow id h : stmt_tombs (health_update dbnow id h).
Proof. apply with_texts_tombs, update_tombs. intros r Hc%health_guard_live. congruence. Qed.
Lemma revoke_tombs dbnow ten id : stmt_tombs (revoke_row dbnow ten id).
Proof. by apply update_tombs. Qed.
Lemma reissue_tombs jti ten id : stmt_tombs (reissue_row jti ten id).
Proof. by apply update_tombs. Qed.
Lemma renew_tombs serial na ten id : stmt_tombs (renew_row serial na ten id).
Proof. by apply update_tombs. Qed.
Lemma enroll_tombs dbnow c req serial na : stmt_tombs (enroll_stmt dbnow c req serial na).
Proof.
  apply with_texts_tombs, update_tombs. unfold pending_with. intros r Hc. bool_simpl. by apply (kept_revoked _ _ "pending").
Qed.

Lemma delete_tombs ten id : stmt_tombs (delete_row ten id).
Proof.
  intros s a s' Hok. unfold delete_row, exec. intros [= H]. revert H. repeat case_match; intros [= <- <-]; try by split.
  split; [by intros i|]. intros i r. simpl. rewrite lookup_delete_Some. intros [_ Hi]. by apply Hok.
Qed.

(** The identity of a revoked connector is not reused. *)
Lemma insert_tombs id ten net : stmt_tombs (insert_connector id ten net).
Proof.
  intros s a s' Hok. unfold insert_connector. repeat case_match; intros [= <- <-]. bool_simpl.
  apply store_tombs; [done|]. tauto.
Qed.

Lemma watch_tombs dbnow thr : stmt_tombs (quiet_stmt dbnow thr).
Proof.
  intros s a s' Hok [= <- <-]. split; [by intros i|]. intros i r. simpl. rewrite lookup_fmap_Some.
  intros (r0 & <- & Hr0). rewrite <-(Hok i r0 Hr0). case_match eqn:Hq; [|done].
  unfold quiet_row, is_active in Hq. bool_simpl. rewrite !Revoked_true. simpl.
  match goal with H : cn_status r0 = _ |- _ => rewrite H end. naive_solver.
Qed.

(** ** Every handler is made of these statements *)

(** A committed write of the control plane. *)
Inductive write : ControlDB → ControlDB → Prop :=
| w_activate dbnow id a s s' : activate_row dbnow id s = Ok (a, s') → write s s'
| w_retire id a s s' : retire_row id s = Ok (a, s') → write s s'
| w_health dbnow id h a s s' : health_update dbnow id h s = Ok (a, s') → write s s'
| w_revoke dbnow ten id a s s' : revoke_row dbnow ten id s = Ok (a, s') → write s s'
| w_delete ten id a s s' : delete_row ten id s = Ok (a, s') → write s s'
| w_insert id ten net a s s' : insert_connector id ten net s = Ok (a, s') → write s s'
| w_goodbye id td a s s' : goodbye_row id td s = Ok (a, s') → write s s'
| w_watch dbnow thr a s s' : quiet_stmt dbnow thr s = Ok (a, s') → write s s'
| w_enroll dbnow c req serial na a s s' : enroll_stmt dbnow c req serial na s = Ok (a, s') → write s s'
| w_reissue jti ten id a s s' : reissue_row jti ten id s = Ok (a, s') → write s s'
| w_renew serial na ten id a s s' : renew_row serial na ten id s = Ok (a, s') → write s s'.

Lemma write_tombs s s' : tombs_ok s → write s s' → tombs_step s s'.
Proof.
  intros Hok Hw. destruct Hw; [eapply activate_tombs|eapply retire_tombs|eapply health_tombs|eapply revoke_tombs
  |eapply delete_tombs|eapply insert_tombs|eapply goodbye_tombs|eapply watch_tombs|eapply enroll_tombs
  |eapply reissue_tombs|eapply renew_tombs]; eauto.
Qed.

Lemma writes_tombs s s' : rtc write s s' → tombs_ok s → tombs_step s s'.
Proof.
  induction 1 as [s|s1 s2 s3 Hw _ IH]; intros Hok; [by split|].
  destruct (write_tombs s1 s2 Hok Hw) as [Hk Hok2]. destruct (IH Hok2) as [Hk' ?]. split; [by etrans|done].
Qed.

(** What runs against the tables. *)
Inductive control_op :=
| OOpen (dbnow : time) (i : nat) (id td : string) (na : option time) (reg : ConnectorRegistry)
| OClose (i : nat) (c : connectorStreamClient) (reg : ConnectorRegistry)
| OHealth (window : duration) (now dbnow : time) (h : ConnectorHealthReport) (pl : option placement_answer)
    (snap : option ACLSnapshot) (c : connectorStreamClient)
| ORevoke (dbnow : time) (ten id : uuid) (also : bool) (reg : ConnectorRegistry)
| ODelete (ten id : uuid)
| OInsert (id ten net : uuid)
| OGoodbye (id td : string)
| OWatch (dbnow : time) (thr : duration)
| OEnroll (dbnow : time) (req : EnrollRequest)
| OReissue (jti : string) (ten id : uuid)
| ORenew (sameKey : bool) (signed : option (string * time)) (id td : string).

Definition control_run (op : control_op) : controlM () :=
  match op with
  | OOpen dbnow i id td na reg => Control_open dbnow i id td na reg ;;; ret tt
  | OClose i c reg => Control_close i c reg ;;; ret tt
  | OHealth window now dbnow h pl snap c => handleConnectorHealth window now dbnow h pl snap c ;;; ret tt
  | ORevoke dbnow ten id also reg => RevokeConnector dbnow ten id also reg ;;; ret tt
  | ODelete ten id => DeleteConnector ten id
  | OInsert id ten net => pool_stmt "insert connector" (insert_connector id ten net)
  | OGoodbye id td => Goodbye id td ;;; ret tt
  | OWatch dbnow thr => markDisconnected dbnow thr ;;; ret tt
  | OEnroll dbnow req => Enroll dbnow req ;;; ret tt
  | OReissue jti ten id => RegenerateToken jti ten id ;;; ret tt
  | ORenew sameKey signed id td => RenewCert sameKey signed id td
  end.

Ltac leaf := eauto using rtc_refl, rtc_once, write.

(** Whatever fails, the tables move by writes. *)
Lemma control_run_writes op s : wp (control_run op) s None (λ _ s' _, rtc write s s').
Proof.
  destruct op; simpl;
    unfold Control_open, Control_close, activateStream, retireStream, handleConnectorHealth, RevokeConnector, DeleteConnector,
      Goodbye, markDisconnected, Enroll, enroll_tx, enrollmentClaimError, RegenerateToken, RenewCert, classifyRefusal, lookupConnector;
    wp_go; leaf.
Qed.

(** A history: each operation with the statements of it that fail. *)
Definition control_runs (l : list (control_op * list fault)) (s : ControlDB) : ControlDB :=
  foldl (λ s opf, committed (control_run opf.1 (World s None opf.2)).2) s l.

Lemma control_runs_writes l s : rtc write s (control_runs l s).
Proof.
  revert s. induction l as [|[op fs] l IH]; intros s; simpl; [done|].
  etrans; [|apply IH]. pose proof (control_run_writes op s fs) as Hw. by destruct (control_run op _).
Qed.

Lemma tombstone_guards s id r :
  tombs_ok s → is_Some (k_revocations s !! id) → k_connectors s !! id = Some r → Revoked r = true.
Proof. intros Hok Ht Hr. by apply (Hok id r Hr). Qed.

(** revocation is permanent.  From any tables in which the revoked rows are
    the tombstoned ones, after any history of the control plane's handlers and
    any failures of their statements, a revoked connector's tombstone is still
    there, a row of its identity is still revoked, and the same consistency
    holds: nothing brings the connector back. *)
Theorem revocation_is_permanent l s id :
  tombs_ok s →
  (∃ r, k_connectors s !! id = Some r ∧ Revoked r = true) ∨ is_Some (k_revocations s !! id) →
  let s' := control_runs l s in
  tombs_ok s' ∧ is_Some (k_revocations s' !! id) ∧ ∀ r, k_connectors s' !! id = Some r → Revoked r = true.
Proof.
  intros Hok Hrev s'. destruct (writes_tombs s s' (control_runs_writes l s) Hok) as [Hk Hok'].
  assert (is_Some (k_revocations s' !! id)) as Ht.
  { apply Hk. destruct Hrev as [(r & Hr & Hrv)|]; [|done]. by apply (Hok id r Hr). }
  split; [done|]. split; [done|]. intros r. by apply tombstone_guards.
Qed.

(** ** Health reports *)

Lemma send_outbound msg c c' : send msg c = Some c' → outbound c' = outbound c ++ [msg] ∧ cl_revoked c' = cl_revoked c.
Proof. unfold send. case_match; [|done]. by intros [= <-]. Qed.

Lemma reenroll_outbound window na now c :
  let c' := (maybeSendReEnroll window na now c).2 in
  cl_revoked c' = cl_revoked c ∧ (outbound c' = outbound c ∨ outbound c' = outbound c ++ [MReEnroll]).
Proof.
  unfold maybeSendReEnroll. destruct (send MReEnroll c) as [c1|] eqn:Hs; [|repeat case_match; auto].
  apply send_outbound in Hs as [Hs Hr]. repeat case_match; simpl; rewrite ?Hs, ?Hr; auto.
Qed.

(** What the handler adds to the mailbox: the renewal request, the snapshot
    when the connector is behind, and the acknowledgement, in this order. *)
Lemma health_finish_adds window now h na snap c :
  let c' := health_finish window now h na snap c in
  ∃ pre, outbound c' = outbound c ++ pre ∧
    (∀ k, MAuthorizationAck k ∈ pre →
       k = hr_HeartbeatSeq h ∧ cl_revoked c = false ∧ last pre = Some (MAuthorizationAck k) ∧
       ∃ sn, snap = Some sn ∧ (MAclSnapshot sn ∈ pre ∨ hr_AclVersion h = as_Version sn)).
Proof.
  unfold health_finish. destruct (reenroll_outbound window (renewalExpiry na (presentedCertNotAfter c)) now c) as [Hr Ho].
  set (c1 := (maybeSendReEnroll _ _ _ _).2) in *. clearbody c1. simpl.
  assert (∃ pre1, outbound c1 = outbound c ++ pre1 ∧ ∀ k, MAuthorizationAck k ∉ pre1) as (pre1 & Ho1 & Hn1).
  { destruct Ho as [->| ->]; [exists []; rewrite app_nil_r|exists [MReEnroll]]; split; try done; intros k; set_solver. }
  clear Ho. unfold pushACLSnapshot. destruct snap as [sn|]; [|exists pre1; split; [done|]; naive_solver].
  destruct (negb (hr_AclVersion h =? 0) && (hr_AclVersion h =? as_Version sn)) eqn:Hv.
  - unfold sendAuthorizationAck. rewrite Hr. destruct (cl_revoked c) eqn:Hrev; simpl; [exists pre1; naive_solver|].
    destruct (send _ c1) as [c2|] eqn:Hs; simpl; [|exists pre1; naive_solver].
    apply send_outbound in Hs as [Hs _]. exists (pre1 ++ [MAuthorizationAck (hr_HeartbeatSeq h)]).
    split; [by rewrite Hs, Ho1, app_assoc|]. intros k. rewrite elem_of_app, list_elem_of_singleton.
    intros [?|[= ->]]; [by edestruct Hn1|]. rewrite last_snoc. bool_simpl. naive_solver.
  - destruct (send (MAclSnapshot sn) c1) as [c2|] eqn:Hs1; [|exists pre1; naive_solver].
    apply send_outbound in Hs1 as [Hs1 Hr2].
    assert (∀ k, MAuthorizationAck k ∉ pre1 ++ [MAclSnapshot sn]) as Hn2.
    { intros k. rewrite elem_of_app, list_elem_of_singleton. intros [?|?]; [by edestruct Hn1|done]. }
    unfold sendAuthorizationAck. rewrite Hr2, Hr.
    destruct (cl_revoked c) eqn:Hrev; simpl;
      [exists (pre1 ++ [MAclSnapshot sn]); split; [by rewrite Hs1, Ho1, app_assoc|by intros k ?%Hn2]|].
    destruct (send _ c2) as [c3|] eqn:Hs2; simpl;
      [|exists (pre1 ++ [MAclSnapshot sn]); split; [by rewrite Hs1, Ho1, app_assoc|by intros k ?%Hn2]].
    apply send_outbound in Hs2 as [Hs2 _].
    exists (pre1 ++ [MAclSnapshot sn; MAuthorizationAck (hr_HeartbeatSeq h)]).
    split; [by rewrite Hs2, Hs1, Ho1, <-!app_assoc|]. intros k. rewrite elem_of_app, !elem_of_cons.
    intros [?|[?|[[= ->]|?%elem_of_nil]]]; try done; [by edestruct Hn1|].
    split; [done|]. split; [done|]. split; [by rewrite last_app|].
    exists sn. split; [done|]. left. set_solver.
Qed.

Lemma send_room msg c : (length (outbound c) < connectorSendQueueSize)%nat → ∃ c', send msg c = Some c'.
Proof. intros H. unfold send. apply Nat.ltb_lt in H. rewrite H. eauto. Qed.

(** With room in the mailbox the acknowledgement is queued. *)
Lemma health_finish_acks window now h na sn c :
  cl_revoked c = false → (length (outbound c) + 3 <= connectorSendQueueSize)%nat →
  last (outbound (health_finish window now h na (Some sn) c)) = Some (MAuthorizationAck (hr_HeartbeatSeq h)).
Proof.
  intros Hrev Hroom. unfold health_finish.
  destruct (reenroll_outbound window (renewalExpiry na (presentedCertNotAfter c)) now c) as [Hr Ho].
  set (c1 := (maybeSendReEnroll _ _ _ _).2) in *. clearbody c1.
  assert (length (outbound c1) <= length (outbound c) + 1)%nat as Hl.
  { destruct Ho as [->| ->]; rewrite ?length_app; simpl; lia. }
  assert (∃ c2, pushACLSnapshot (Some sn) (hr_AclVersion h) c1 = Some c2 ∧ cl_revoked c2 = false ∧
            (length (outbound c2) <= length (outbound c1) + 1)%nat) as (c2 & -> & Hr2 & Hl2).
  { unfold pushACLSnapshot. case_match; [exists c1; split; [done|]; split; [congruence|lia]|].
    destruct (send_room (MAclSnapshot sn) c1) as [c2 Hs]; [lia|]. exists c2. split; [done|].
    apply send_outbound in Hs as [Hs ->]. rewrite Hs, length_app. simpl. split; [congruence|lia]. }
  unfold sendAuthorizationAck. rewrite Hr2.
  destruct (send_room (MAuthorizationAck (hr_HeartbeatSeq h)) c2) as [c3 Hs]; [lia|]. rewrite Hs. simpl.
  apply send_outbound in Hs as [-> _]. apply last_snoc.
Qed.

Lemma connector_of_lookup id td s r : connector_of id td s = Some r → k_connectors s !! id = Some r.
Proof. unfold connector_of. by repeat case_match; intros; simplify_eq. Qed.
Lemma tombstoned_is_Some id td s : tombstoned id td s = true → is_Some (k_revocations s !! id).
Proof. unfold tombstoned. case_match; naive_solver. Qed.

(** A refusal names the state of the connector only when it was read. *)
Lemma classifyRefusal_spec id td s :
  tombs_ok s →
  wp (classifyRefusal id td) s None (λ r s' _, s' = s ∧ ∃ rej, r = Ok rej ∧
    ((rej = rejectUnavailable) ∨ (rej = rejectRevoked ∧ is_Some (k_revocations s !! id)) ∨
     (rej = rejectUnknown ∧ connector_of id td s = None ∧ tombstoned id td s = false))).
Proof.
  intros Hok. unfold classifyRefusal, lookupConnector. wp_go; simpl; (split; [done|]); eexists; split; try done; auto.
  - destruct (Revoked _) eqn:Hr; [|auto]. right; left. split; [done|].
    by apply (Hok id c), Hr; apply (connector_of_lookup id td).
  - destruct (tombstoned id td s) eqn:Ht; simpl; [|auto]. right; left. split; [done|]. by eapply tombstoned_is_Some.
Qed.

Lemma health_update_inv dbnow id h s o s' :
  health_update dbnow id h s = Ok (o, s') →
  match o with
  | None => s' = s ∧ ∀ r, k_connectors s !! id = Some r → health_guard r = false
  | Some _ => ∃ r, k_connectors s !! id = Some r ∧ health_guard r = true ∧ s' = store_connector id (report_row dbnow h r) s
  end.
Proof.
  unfold health_update, with_texts, update_connector, exec. case_match; [|done]. intros [= Hu]. revert Hu.
  destruct (k_connectors s !! id) as [r|] eqn:Hr; [|by intros [= <- <-]]. case_match; intros [= <- <-]; [by exists r|].
  split; [done|]. by intros ? [= <-].
Qed.

(** What a health report may add to its stream's mailbox. *)
Definition acked (h : ConnectorHealthReport) (snap : option ACLSnapshot) (dbnow : time) (s s' : ControlDB)
    (c c' : connectorStreamClient) (k : Z) : Prop :=
  let id := cl_connector c in
  k = hr_HeartbeatSeq h ∧ k ≠ 0 ∧ cl_revoked c = false ∧ ¬ is_Some (k_revocations s !! id) ∧
  last (outbound c') = Some (MAuthorizationAck k) ∧
  (∃ sn, snap = Some sn ∧ (MAclSnapshot sn ∈ outbound c' ∨ hr_AclVersion h = as_Version sn)) ∧
  ∃ r, k_connectors s !! id = Some r ∧ s' = store_connector id (report_row dbnow h r) s.

Lemma health_reply_ok window now dbnow h pl snap c s :
  tombs_ok s →
  wp (handleConnectorHealth window now dbnow h pl snap c) s None (λ res s' _, ∃ out c', res = Ok (out, c') ∧
    (out = inr rejectMissingSeq ↔ hr_HeartbeatSeq h = 0) ∧
    (∀ k, MAuthorizationAck k ∈ outbound c' → MAuthorizationAck k ∈ outbound c ∨ acked h snap dbnow s s' c c' k) ∧
    (out = inr rejectRevoked → is_Some (k_revocations s !! cl_connector c)) ∧
    (out = inr rejectUnknown → connector_of (cl_connector c) (cl_trust_domain c) s = None ∧
                               tombstoned (cl_connector c) (cl_trust_domain c) s = false) ∧
    (is_Some (k_revocations s !! cl_connector c) → s' = s ∧ c' = c)).
Proof.
  intros Hok. unfold handleConnectorHealth. destruct (hr_HeartbeatSeq h =? 0) eqn:Hz; bool_simpl.
  { apply wp_ret. eexists _, c. naive_solver. }
  assert (∀ s', health_update dbnow (cl_connector c) h s = Ok (None, s') → s' = s) as Hnone by (by intros s' [-> _]%health_update_inv).
  assert (∀ o s', health_update dbnow (cl_connector c) h s = Ok (Some o, s') →
            ¬ is_Some (k_revocations s !! cl_connector c) ∧
            ∃ r, k_connectors s !! cl_connector c = Some r ∧ s' = store_connector (cl_connector c) (report_row dbnow h r) s) as Hsome.
  { intros o s' (r & Hr & Hg%health_guard_live & ->)%health_update_inv. split; [|eauto].
    intros Ht. by rewrite (tombstone_guards s (cl_connector c) r) in Hg. }
  assert (∀ s', (∃ o, health_update dbnow (cl_connector c) h s = Ok (o, s')) →
            is_Some (k_revocations s !! cl_connector c) → s' = s) as Hkeep.
  { intros s' [[o|] Hu]; [by apply Hsome in Hu as [? _]|intros _; by apply Hnone]. }
  wp_go; try (by eexists _, c; naive_solver).
  - destruct (health_finish_adds window now h o snap c) as (pre & Hout & Hpre).
    destruct (Hsome _ _ H) as [Hnt Hrow]. eexists _, _. split; [done|]. split; [done|].
    split; [|naive_solver]. intros k. rewrite Hout, elem_of_app. intros [?|Hk]; [by left|right].
    destruct (Hpre k Hk) as (-> & Hrv & Hlast & sn & -> & Hsn). unfold acked.
    rewrite Hout, last_app, Hlast. repeat split; auto. exists sn. split; [done|]. rewrite elem_of_app. tauto.
  - apply Hnone in H as ->. eapply wp_mono; [|by apply classifyRefusal_spec]. simpl. intros r c' wk' (-> & rej & -> & Hrej).
    apply wp_ret. eexists _, c. naive_solver.
Qed.

(** a health report is acknowledged exactly when it may be.  Whatever
    statements fail, the handler answers; the only acknowledgement it can queue
    is for this report's non-zero number, behind the access list the connector
    needs, on a stream that was not revoked, when the guarded update found the
    row of a connector that is not revoked; a rejection says "revoked" or
    "unknown" only when the tables say so, and a revoked connector's report
    changes neither tables nor stream.  With no failure, room in the mailbox
    and a live row, the acknowledgement is queued. *)
Theorem handleConnectorHealth_spec window now dbnow h pl snap c s :
  tombs_ok s →
  wp (handleConnectorHealth window now dbnow h pl snap c) s None (λ res s' _, ∃ out c', res = Ok (out, c') ∧
    (out = inr rejectMissingSeq ↔ hr_HeartbeatSeq h = 0) ∧
    (∀ k, MAuthorizationAck k ∈ outbound c' → MAuthorizationAck k ∈ outbound c ∨ acked h snap dbnow s s' c c' k) ∧
    (out = inr rejectRevoked → is_Some (k_revocations s !! cl_connector c)) ∧
    (out = inr rejectUnknown → connector_of (cl_connector c) (cl_trust_domain c) s = None ∧
                               tombstoned (cl_connector c) (cl_trust_domain c) s = false) ∧
    (is_Some (k_revocations s !! cl_connector c) → s' = s ∧ c' = c)) ∧
  (∀ r sn, k_connectors s !! cl_connector c = Some r → health_guard r = true → snap = Some sn →
     forallb text_param_ok [hr_Version h; hr_Hostname h; hr_PublicIp h; hr_LanAddr h] = true →
     hr_HeartbeatSeq h ≠ 0 → cl_revoked c = false → (length (outbound c) + 3 <= connectorSendQueueSize)%nat →
     ∃ calls c', run (handleConnectorHealth window now dbnow h pl snap c) s =
                   (Ok (inl calls, c'), store_connector (cl_connector c) (report_row dbnow h r) s) ∧
                 last (outbound c') = Some (MAuthorizationAck (hr_HeartbeatSeq h))).
Proof.
  intros Hok. split; [by apply health_reply_ok|]. intros r sn Hr Hg -> Htext Hz%Z.eqb_neq Hrev Hroom.
  eexists _, _. split; [|by apply health_finish_acks].
  assert (runs (attempt (pool_stmt "health" (health_update dbnow (cl_connector c) h)) : controlM _) s
            (Ok (Some (negb (is_active r) || negb (default "" (cn_lan_addr r) ≟ hr_LanAddr h), cn_cert_not_after r)))
            (store_connector (cl_connector c) (report_row dbnow h r) s)) as Hu.
  { unfold runs, attempt, pool_stmt. simpl. unfold health_update, with_texts. rewrite Htext.
    unfold update_connector, exec. by rewrite Hr, Hg. }
  apply runs_run. unfold handleConnectorHealth. rewrite Hz. eapply runs_bind; [apply Hu|apply runs_ret].
Qed.

(** ** A sample workspace *)

Definition sample_row : ConnectorRow :=
  MkConnectorRow "ws" "net" "active" None (Some "td") (Some "01") (Some 100000) (Some 0) None None None None None.
Definition sample_db : ControlDB := MkControlDB {["c1" := sample_row]} ∅ {["ws" := ("td", "active")]} ∅.
Lemma sample_db_ok : tombs_ok sample_db.
Proof. unfold tombs_ok, sample_db. simpl. apply map_Forall_singleton. split; [done|]. by intros [? ?]. Qed.

Definition sample_snapshot : ACLSnapshot := MkACLSnapshot "ws" 1 0 [] [] "" "" [].
Definition sample_report : ConnectorHealthReport := MkHealth "1" "host" "203.0.113.9" "10.0.0.2" 0 "" 1.

Lemma handleConnectorHealth_spec_witness :
  ∃ calls c' s', run (handleConnectorHealth 0 5 5 sample_report None (Some (sample_snapshot))
                        (new_client "c1" "ws" "td" None)) sample_db = (Ok (inl calls, c'), s') ∧
                 last (outbound c') = Some (MAuthorizationAck 1).
Proof.
  destruct (handleConnectorHealth_spec 0 5 5 sample_report None (Some (sample_snapshot))
              (new_client "c1" "ws" "td" None) sample_db sample_db_ok) as [_ H].
  destruct (H sample_row (sample_snapshot)) as (calls & c' & Hrun & Hl); [done..|vm_compute; lia|].
  by exists calls, c', (store_connector "c1" (report_row 5 sample_report sample_row) sample_db).
Defined.

Lemma revocation_is_permanent_witness :
  let s := (run (RevokeConnector 7 "ws" "c1" false NewConnectorRegistry) sample_db).2 in
  let s' := control_runs [(OHealth 0 8 8 sample_report None None (new_client "c1" "ws" "td" None), []);
                          (OOpen 9 1 "c1" "td" None NewConnectorRegistry, [Lost]); (ODelete "ws" "c1", [Lost]);
                          (OInsert "c1" "ws" "net", [])] s in
  tombs_ok s' ∧ is_Some (k_revocations s' !! "c1") ∧ ∀ r, k_connectors s' !! "c1" = Some r → Revoked r = true.
Proof.
  apply revocation_is_permanent; [|right; vm_compute; by eexists].
  apply (writes_tombs sample_db); [apply (control_runs_writes [(ORevoke 7 "ws" "c1" false NewConnectorRegistry, [])])|].
  apply sample_db_ok.
Defined.

(** ** Enrollment tokens *)

(** No row of the connector waits for the token. *)
Definition spent (jti : string) (id : uuid) (s : ControlDB) : Prop :=
  ∀ r, k_connectors s !! id = Some r → pending_with jti r = false.

Section token.
Context (jti : string) (id : uuid).

Lemma store_connectors i r s : k_connectors (store_connector i r s) = <[i := r]> (k_connectors s).
Proof. unfold store_connector, record_revocation. by case_match. Qed.

Lemma store_spent i r s : spent jti id s → (i = id → pending_with jti r = false) → spent jti id (store_connector i r s).
Proof.
  intros Hs Hr r'. rewrite store_connectors. destruct (decide (i = id)) as [->|?].
  - rewrite lookup_insert_eq. intros [= <-]. auto.
  - rewrite lookup_insert_ne by done. apply Hs.
Qed.

Lemma update_spent {A} i c f (g : ConnectorRow → A) :
  (∀ r, i = id → c r = true → pending_with jti r = false → pending_with jti (f r) = false) →
  stmt_preserves (spent jti id) (update_connector i c f g).
Proof.
  intros Hf s a s' Hs. unfold update_connector, exec. intros [= Hu]. revert Hu.
  destruct (k_connectors s !! i) as [r|] eqn:Hr; [|by intros [= _ <-]].
  destruct (c r) eqn:Hc; intros [= _ <-]; [|done]. apply store_spent; [done|]. intros ->. apply Hf; auto.
Qed.

Lemma with_texts_spent {A} l (f : stmt ControlDB A) :
  stmt_preserves (spent jti id) f → stmt_preserves (spent jti id) (with_texts l f).
Proof. intros Hf s a s' Hs. unfold with_texts. case_match; [by apply Hf|done]. Qed.

(** A row that is not pending waits for no token. *)
Lemma not_pending r : cn_status r ≠ "pending" → pending_with jti r = false.
Proof. intros Hr. unfold pending_with. by rewrite bool_decide_false. Qed.

Lemma activate_spent dbnow i : stmt_preserves (spent jti id) (activate_row dbnow i).
Proof. apply update_spent. intros. by apply not_pending. Qed.
Lemma retire_spent i : stmt_preserves (spent jti id) (retire_row i).
Proof. apply update_spent. intros. by apply not_pending. Qed.
Lemma health_spent dbnow i h : stmt_preserves (spent jti id) (health_update dbnow i h).
Proof. apply with_texts_spent, update_spent. intros. by apply not_pending. Qed.
Lemma revoke_spent dbnow ten i : stmt_preserves (spent jti id) (revoke_row dbnow ten i).
Proof. apply update_spent. intros. by apply not_pending. Qed.
Lemma goodbye_spent i td : stmt_preserves (spent jti id) (goodbye_row i td).
Proof. apply update_spent. intros. by apply not_pending. Qed.
Lemma enroll_spent dbnow c req serial na : stmt_preserves (spent jti id) (enroll_stmt dbnow c req serial na).
Proof. apply with_texts_spent, update_spent. intros. by apply not_pending. Qed.
Lemma renew_spent serial na ten i : stmt_preserves (spent jti id) (renew_row serial na ten i).
Proof. by apply update_spent. Qed.
Lemma reissue_spent j ten i : (j, i) ≠ (jti, id) → stmt_preserves (spent jti id) (reissue_row j ten i).
Proof.
  intros Hne. apply update_spent. intros r -> _ _. unfold pending_with. simpl.
  rewrite (bool_decide_false (Some j = Some jti)) by congruence. apply andb_false_r.
Qed.
Lemma delete_spent ten i : stmt_preserves (spent jti id) (delete_row ten i).
Proof.
  intros s a s' Hs. unfold delete_row, exec. intros [= H]. revert H. repeat case_match; intros [= <- <-]; try done.
  intros r. simpl. rewrite lookup_delete_Some. naive_solver.
Qed.
Lemma insert_spent i ten net : stmt_preserves (spent jti id) (insert_connector i ten net).
Proof.
  intros s a s' Hs. unfold insert_connector. repeat case_match; intros [= <- <-]. by apply store_spent.
Qed.
Lemma watch_spent dbnow thr : stmt_preserves (spent jti id) (quiet_stmt dbnow thr).
Proof.
  intros s a s' Hs [= <- <-] r. simpl. rewrite lookup_fmap_Some. intros (r0 & <- & Hr0).
  case_match; [by apply not_pending|by apply Hs].
Qed.

Lemma lookup_spent i td : preserves (spent jti id) (lookupConnector i td).
Proof. unfold lookupConnector. sql_solve. Qed.

#[local] Hint Resolve lookup_spent activate_spent retire_spent health_spent revoke_spent goodbye_spent enroll_spent renew_spent
  reissue_spent delete_spent insert_spent watch_spent : sql.

Definition reissues (op : control_op) : bool :=
  match op with OReissue j _ i => (j ≟ jti) && (i ≟ id) | _ => false end.

Lemma control_run_spent op : reissues op = false → preserves (spent jti id) (control_run op).
Proof.
  intros Hop. assert (∀ j ten i, op = OReissue j ten i → (j, i) ≠ (jti, id)) as Hne.
  { intros j ten i -> [= -> ->]. simpl in Hop. by rewrite !bool_decide_refl in Hop. }
  destruct op; simpl; clear Hop;
    try specialize (Hne _ _ _ eq_refl);
    unfold Control_open, Control_close, activateStream, retireStream, handleConnectorHealth, RevokeConnector, DeleteConnector,
      Goodbye, markDisconnected, Enroll, enroll_tx, enrollmentClaimError, RegenerateToken, RenewCert, classifyRefusal;
    sql_solve.
Qed.

Lemma control_runs_spent l s :
  forallb (λ opf, negb (reissues opf.1)) l = true → spent jti id s → spent jti id (control_runs l s).
Proof.
  revert s. induction l as [|[op fs] l IH]; intros s Hl Hs; simpl in *; [done|]. bool_simpl.
  apply IH; [done|]. apply (control_run_spent op); [done|]. by split.
Qed.
End token.

Lemma enroll_stmt_inv dbnow c req serial na s s' :
  enroll_stmt dbnow c req serial na s = Ok (Some tt, s') →
  ∃ row, k_connectors s !! ec_ConnectorID c = Some row ∧ pending_with (ec_jti c) row = true ∧
    s' = store_connector (ec_ConnectorID c)
           (enroll_row dbnow (ec_TrustDomain c) serial na (rq_Hostname req) (rq_Version req) row) s.
Proof.
  unfold enroll_stmt, with_texts, update_connector, exec. case_match; [|done]. intros [= Hu]. revert Hu.
  repeat case_match; intros [= <-]. eauto.
Qed.

(** A successful enrollment consumed the row that waited for the token. *)
Lemma Enroll_inv dbnow req c s :
  rq_claims req = Some c →
  wp (Enroll dbnow req) s None (λ r s' _,
    match r with
    | Ok id => id = ec_ConnectorID c ∧ claims_complete c = true ∧ ∃ row serial na,
        rq_signed req = Some (serial, na) ∧ k_connectors s !! id = Some row ∧ pending_with (ec_jti c) row = true ∧
        s' = store_connector id (enroll_row dbnow (ec_TrustDomain c) serial na (rq_Hostname req) (rq_Version req) row) s
    | Err e => reply_lost e = false → s' = s
    end).
Proof.
  intros Hc. unfold Enroll. rewrite Hc. wp_go; try done; bool_simpl.
  unfold enroll_tx, enrollmentClaimError. wp_go; try done.
  all: match goal with H : enroll_stmt _ _ _ _ _ _ = Ok (Some ?u, _) |- _ => destruct u; apply enroll_stmt_inv in H end.
  naive_solver.
Qed.

(** A token that no row waits for is refused. *)
Lemma Enroll_spent dbnow req c s :
  rq_claims req = Some c → spent (ec_jti c) (ec_ConnectorID c) s →
  wp (Enroll dbnow req) s None (λ r s' _, (∃ e, r = Err e) ∧ s' = s).
Proof.
  intros Hc Hs. unfold Enroll. rewrite Hc. wp_go; try naive_solver.
  assert (match k_connectors s !! ec_ConnectorID c with
          | Some r => if pending_with (ec_jti c) r then Some (cn_tenant r) else None
          | None => None
          end = None) as Hq.
  { destruct (k_connectors s !! _) as [row|] eqn:Hr; [|done]. by rewrite (Hs row Hr). }
  unfold enroll_tx, enrollmentClaimError. wp_go; eauto; congruence.
Qed.

(** an enrollment token works once.  When [Enroll] answers, the row waited
    for exactly this token and is now the enrolled one; after that, whatever
    else the control plane does short of issuing the same token id again for
    the connector, and whatever statements fail, presenting the token again is
    refused and leaves the tables alone. *)
Theorem enrollment_token_single_use dbnow req c s fs id :
  rq_claims req = Some c → (Enroll dbnow req (World s None fs)).1 = Ok id →
  let s1 := committed (Enroll dbnow req (World s None fs)).2 in
  (∃ row, k_connectors s !! ec_ConnectorID c = Some row ∧ pending_with (ec_jti c) row = true) ∧
  (∃ row, k_connectors s1 !! ec_ConnectorID c = Some row ∧ cn_status row = "active" ∧ cn_jti row = None ∧
          cn_trust_domain row = Some (ec_TrustDomain c)) ∧
  ∀ l dbnow' req' fs', rq_claims req' = Some c →
    forallb (λ opf, negb (reissues (ec_jti c) (ec_ConnectorID c) opf.1)) l = true →
    let s2 := control_runs l s1 in
    let again := Enroll dbnow' req' (World s2 None fs') in
    (∃ e, again.1 = Err e) ∧ committed again.2 = s2.
Proof.
  intros Hc Hok. pose proof (Enroll_inv dbnow req c s Hc fs) as He.
  destruct (Enroll dbnow req _) as [r w]. simpl in *. subst r.
  destruct He as (-> & _ & row & serial & na & _ & Hrow & Hp & Hs1). rewrite Hs1.
  set (row1 := enroll_row _ _ _ _ _ _ _). set (s1 := store_connector _ _ _).
  assert (k_connectors s1 !! ec_ConnectorID c = Some row1) as Hrow1 by (unfold s1; by rewrite store_connectors, lookup_insert_eq).
  split; [eauto|]. split; [by exists row1|]. intros l dbnow' req' fs' Hc' Hl.
  assert (spent (ec_jti c) (ec_ConnectorID c) (control_runs l s1)) as Hspent.
  { apply control_runs_spent; [done|]. intros r. rewrite Hrow1. intros [= <-]. by apply not_pending. }
  pose proof (Enroll_spent dbnow' req' c (control_runs l s1) Hc' Hspent fs') as He.
  by destruct (Enroll dbnow' req' _).
Qed.

Definition pending_db : ControlDB :=
  MkControlDB {["c1" := MkConnectorRow "ws" "net" "pending" (Some "j1") None None None None None None None None None]} ∅
    {["ws" := ("td", "active")]} ∅.
Definition sample_enroll : EnrollRequest :=
  MkEnrollRequest (Some (MkClaims "j1" "c1" "ws" "td")) (Some (Some "c1")) true true (Some ("01", 90)) true "host" "1".

Lemma enrollment_token_single_use_witness :
  let first := Enroll 5 sample_enroll (World pending_db None []) in
  first.1 = Ok "c1" ∧
  let s2 := control_runs [(OClose 1 (new_client "c1" "ws" "td" None) NewConnectorRegistry, []);
                          (OReissue "j2" "ws" "c1", [])] (committed first.2) in
  (∃ e, (Enroll 9 sample_enroll (World s2 None [])).1 = Err e).
Proof.
  split; [by vm_compute|].
  destruct (enrollment_token_single_use 5 sample_enroll (MkClaims "j1" "c1" "ws" "td") pending_db [] "c1")
    as (_ & _ & H); [done|by vm_compute|].
  by destruct (H [(OClose 1 (new_client "c1" "ws" "td" None) NewConnectorRegistry, []); (OReissue "j2" "ws" "c1", [])]
                 9 sample_enroll [] eq_refl eq_refl).
Defined.
