(* ===== verification/StreamSafety.v ===== *)
(** * Revocation and the live streams

    Streams open and close, handlers fill their mailboxes, writers drain them,
    and administrators revoke, all interleaved.  The activation of a stream is
    two steps, its guarded update and its registration, between which other
    writes of the tables can commit; [lifecycleMu] keeps the delivery of a
    revocation out of that window. *)

From Stdlib Require Import ZArith Lia.
From S2P Require Import Prelude Sql AclCompiler ControlStream ControlFacts.
Open Scope Z_scope.

(** ** Transitions *)

Record csys := CSys {
  cs_db : ControlDB;
  cs_reg : ConnectorRegistry;
  cs_lock : option (nat * connectorStreamClient * result (err control_error) (option bool)); (* [lifecycleMu] held by an activation after its update *)
  cs_signalled : gset uuid; (* ghost: connectors whose revocation was delivered *)
  cs_missed : gset nat (* ghost: streams kept although the update of their activation failed *)
}.

(** What the handlers and the writer of one stream do to it. *)
Inductive stream_event : connectorStreamClient → connectorStreamClient → Prop :=
| ev_send msg c c' : (∀ k, msg ≠ MAuthorizationAck k) → send msg c = Some c' → stream_event c c'
| ev_ack seq c c' : sendAuthorizationAck seq c = Some c' → stream_event c c'
| ev_reenroll window na now c : stream_event c (maybeSendReEnroll window na now c).2
| ev_relay v b c : stream_event c (sendRelayList v b c).2
| ev_health window now h na snap c : stream_event c (health_finish window now h na snap c)
| ev_write msg c c' : runWriter_step c = Some (msg, c') → stream_event c c'.

Inductive cstep : csys → csys → Prop :=
| c_write db db' reg lk sg ms : write db db' → cstep (CSys db reg lk sg ms) (CSys db' reg lk sg ms)
| c_activate db w reg sg ms dbnow i id ten td na fs r :
    i ∉ dom (heap reg) →
    pool_stmt "activate" (activate_row dbnow id) (World db None fs) = (r, w) →
    cstep (CSys db reg None sg ms) (CSys (committed w) reg (Some (i, new_client id ten td na, r)) sg ms)
| c_register db reg i c r sg ms :
    cstep (CSys db reg (Some (i, c, r)) sg ms)
          (CSys db (after_activation i c r reg) None sg (match r with Err _ => {[i]} ∪ ms | Ok _ => ms end))
| c_retire db reg i c sg ms :
    heap reg !! i = Some c → cstep (CSys db reg None sg ms) (CSys db (drop_stream i c reg).2 None sg ms)
| c_signal db reg id sg ms :
    is_Some (k_revocations db !! id) →
    cstep (CSys db reg None sg ms) (CSys db (SignalRevoked id reg) None ({[id]} ∪ sg) ms)
| c_stream db reg i c c' lk sg ms :
    heap reg !! i = Some c → stream_event c c' →
    cstep (CSys db reg lk sg ms) (CSys db (set_stream i c' reg) lk sg ms).

(** [activateStream] is the first two steps; [RevokeConnector] delivers only
    after its update committed. *)
Lemma activateStream_splits dbnow i c reg db fs o reg' w' :
  activateStream dbnow i c reg (World db None fs) = (Ok (o, reg'), w') →
  ∃ r w, pool_stmt "activate" (activate_row dbnow (cl_connector c)) (World db None fs) = (r, w) ∧
    reg' = after_activation i c r reg ∧ committed w' = committed w.
Proof.
  unfold activateStream, bind, attempt, ret. destruct (pool_stmt _ _ _) as [r w]. intros H. exists r, w. split; [done|].
  destruct r as [[b|]|e]; [by simplify_eq| |by simplify_eq]. revert H.
  assert (keeps (classifyRefusal (cl_connector c) (cl_trust_domain c))) as Hk.
  { unfold classifyRefusal, lookupConnector. apply keeps_bind; [|sql_solve]. apply keeps_attempt. sql_solve. }
  specialize (Hk w). destruct (classifyRefusal _ _ w) as [[rej|e] w1]; simpl in *; [|done]. intros H. simplify_eq. done.
Qed.

Lemma RevokeConnector_delivers dbnow ten id also reg s :
  tombs_ok s →
  wp (RevokeConnector dbnow ten id also reg) s None (λ r s' _,
    match r with
    | Ok (_, reg') => reg' = SignalRevoked id reg ∧ is_Some (k_revocations s' !! id)
    | Err _ => True
    end).
Proof.
  intros Hok. unfold RevokeConnector. wp_go; try done. split; [done|].
  match goal with H : revoke_row _ _ _ _ = _ |- _ => revert H end.
  unfold revoke_row, update_connector, exec. destruct (k_connectors s !! id) as [r|] eqn:Hr; [|done].
  case_match; [|done]. intros [= _ <-]. unfold store_connector, record_revocation. simpl.
  destruct (k_revocations s !! id) eqn:Ht; [by rewrite Ht|]. by rewrite lookup_insert_eq.
Qed.

(** ** One stream *)

(** A revoked stream has its message in the slot, or sent it. *)
Definition stream_wf (c : connectorStreamClient) : Prop :=
  cl_revoked c = cl_terminal c || terminalSent c.

Definition same_flags (c c' : connectorStreamClient) : Prop :=
  cl_connector c' = cl_connector c ∧ cl_revoked c' = cl_revoked c ∧ cl_terminal c' = cl_terminal c ∧ terminalSent c' = terminalSent c.
#[export] Instance same_flags_preorder : PreOrder same_flags.
Proof. split; unfold same_flags; [done|]. intros c1 c2 c3. intuition congruence. Qed.

Lemma send_flags msg c c' : send msg c = Some c' → same_flags c c'.
Proof. unfold send. case_match; [|done]. by intros [= <-]. Qed.
Lemma ack_flags seq c c' : sendAuthorizationAck seq c = Some c' → same_flags c c'.
Proof. unfold sendAuthorizationAck. case_match; [done|]. apply send_flags. Qed.
Lemma reenroll_flags window na now c : same_flags c (maybeSendReEnroll window na now c).2.
Proof.
  unfold maybeSendReEnroll. destruct (send MReEnroll c) as [c1|] eqn:Hs; [apply send_flags in Hs|]; repeat case_match; done.
Qed.
Lemma push_flags snap v c c' : pushACLSnapshot snap v c = Some c' → same_flags c c'.
Proof. unfold pushACLSnapshot. repeat case_match; try done; [by intros [= <-]|apply send_flags]. Qed.
Lemma health_finish_flags window now h na snap c : same_flags c (health_finish window now h na snap c).
Proof.
  unfold health_finish. etrans; [apply reenroll_flags|]. case_match eqn:Hp; [|done].
  etrans; [by eapply push_flags|]. destruct (sendAuthorizationAck _ _) eqn:Ha; [by eapply ack_flags|done].
Qed.

(** A stream event keeps the revocation. *)
Lemma event_wf c c' :
  stream_event c c' → stream_wf c → stream_wf c' ∧ cl_connector c' = cl_connector c ∧ cl_revoked c' = cl_revoked c.
Proof.
  assert (same_flags c c' → stream_wf c → stream_wf c' ∧ cl_connector c' = cl_connector c ∧ cl_revoked c' = cl_revoked c) as Hf.
  { unfold stream_wf. intros (-> & -> & -> & ->) ->. done. }
  intros He Hwf. destruct He; eauto using send_flags, ack_flags, reenroll_flags, health_finish_flags.
  - apply Hf; [|done]. unfold sendRelayList. case_match; [done|].
    destruct (send (MRelayList v) c) as [c1|] eqn:Hs; [by apply send_flags in Hs|done].
  - unfold runWriter_step, stream_wf in *. repeat case_match; simplify_eq/=; try done; by apply Hf.
Qed.

Lemma markRevoked_wf c :
  stream_wf c → stream_wf (markRevoked c).2 ∧ cl_connector (markRevoked c).2 = cl_connector c ∧ cl_revoked (markRevoked c).2 = true.
Proof. unfold markRevoked. intros Hwf. destruct (cl_revoked c) eqn:Hr; done. Qed.

(** ** The registry *)

Lemma signal_heap l h i :
  foldl mark_stream h l !! i = if decide (i ∈ l) then (λ c, (markRevoked c).2) <$> h !! i else h !! i.
Proof.
  revert h. induction l as [|j l IH]; intros h; simpl; [done|]. rewrite IH. unfold mark_stream.
  destruct (decide (i = j)) as [->|Hij].
  - rewrite lookup_alter_eq, (decide_True (P:=j ∈ j :: l)) by set_solver. case_decide; [|done].
    destruct (h !! j) as [c|]; simpl; [|done]. unfold markRevoked.
    destruct (cl_revoked c) eqn:Hr; simpl; by rewrite ?Hr.
  - rewrite lookup_alter_ne by done. repeat case_decide; set_solver.
Qed.

Lemma SignalRevoked_heap id reg i :
  heap (SignalRevoked id reg) !! i =
    if decide (i ∈ live_streams id reg) then (λ c, (markRevoked c).2) <$> heap reg !! i else heap reg !! i.
Proof. unfold SignalRevoked. simpl. rewrite signal_heap. repeat case_decide; set_solver. Qed.

Lemma track_live id i reg id' : live_streams id' (trackLive id i reg) = (if decide (id' = id) then {[i]} else ∅) ∪ live_streams id' reg.
Proof.
  unfold live_streams at 1, trackLive. simpl. case_decide as Hd; [subst|].
  - by rewrite lookup_insert_eq.
  - rewrite lookup_insert_ne by done. set_solver.
Qed.
Lemma untrack_live id i reg id' : live_streams id' (untrackLive id i reg) ⊆ live_streams id' reg.
Proof.
  unfold live_streams at 1, untrackLive. simpl. destruct (decide (id = id')) as [->|Hne].
  - case_bool_decide as Hb; [rewrite lookup_delete_eq; set_solver|]. rewrite lookup_insert_eq. simpl. set_solver.
  - case_bool_decide; [rewrite lookup_delete_ne by done|rewrite lookup_insert_ne by done]; done.
Qed.
Lemma drop_stream_reg i c reg :
  heap (drop_stream i c reg).2 = heap reg ∧ ∀ id, live_streams id (drop_stream i c reg).2 ⊆ live_streams id reg.
Proof. unfold drop_stream, removeIfCurrent. case_match; simpl; (split; [done|]); intros id; apply untrack_live. Qed.

(** ** The invariant *)

Record streams_ok (s : csys) : Prop := {
  so_tombs : tombs_ok (cs_db s);
  so_signalled id : id ∈ cs_signalled s → is_Some (k_revocations (cs_db s) !! id);
  so_wf i c : heap (cs_reg s) !! i = Some c → stream_wf c;
  so_live id i : i ∈ live_streams id (cs_reg s) → ∃ c, heap (cs_reg s) !! i = Some c ∧ cl_connector c = id;
  so_told id i c : id ∈ cs_signalled s → i ∈ live_streams id (cs_reg s) → i ∉ cs_missed s →
    heap (cs_reg s) !! i = Some c → cl_revoked c = true;
  so_lock i c r : cs_lock s = Some (i, c, r) →
    i ∉ dom (heap (cs_reg s)) ∧ stream_wf c ∧ (∀ b, r = Ok (Some b) → cl_connector c ∉ cs_signalled s)
}.

(** The guarded update finds a row that has no tombstone. *)
Lemma activate_inv dbnow id s fs b w :
  tombs_ok s → pool_stmt (E:=control_error) "activate" (activate_row dbnow id) (World s None fs) = (Ok (Some b), w) →
  ¬ is_Some (k_revocations s !! id).
Proof.
  intros Hok. unfold pool_stmt, activate_row, update_connector, exec. simpl.
  destruct (k_connectors s !! id) as [r|] eqn:Hr; [|by repeat case_match].
  destruct (Revoked r) eqn:Hrv; simpl; [by repeat case_match|]. intros _ Ht.
  by rewrite (tombstone_guards s id r) in Hrv.
Qed.

Lemma activate_writes dbnow id s fs r w :
  pool_stmt (E:=control_error) "activate" (activate_row dbnow id) (World s None fs) = (r, w) → rtc write s (committed w).
Proof.
  intros H. assert (wp (E:=control_error) (pool_stmt "activate" (activate_row dbnow id)) s None (λ _ s' _, rtc write s s')) as Hw.
  { wp_go; leaf. }
  specialize (Hw fs). by rewrite H in Hw.
Qed.

Lemma streams_db s db' :
  rtc write (cs_db s) db' → streams_ok s → streams_ok (CSys db' (cs_reg s) (cs_lock s) (cs_signalled s) (cs_missed s)).
Proof.
  intros Hw []. destruct (writes_tombs _ _ Hw) as [Hk Hok]; [done|]. constructor; simpl; eauto.
Qed.

Lemma streams_register db reg i c r sg ms :
  streams_ok (CSys db reg (Some (i, c, r)) sg ms) →
  streams_ok (CSys db (after_activation i c r reg) None sg (match r with Err _ => {[i]} ∪ ms | Ok _ => ms end)).
Proof.
  intros [Ht Hs Hwf Hl Htold Hlk]; simpl in *. destruct (Hlk i c r eq_refl) as (Hi & Hc & Hb). apply not_elem_of_dom in Hi.
  assert (r = Ok None ∨ r ≠ Ok None) as [->|Hr] by (destruct r as [[]|]; auto); [constructor; simpl; eauto; done|].
  replace (after_activation i c r reg) with (trackLive (cl_connector c) i (add (cl_connector c) i (set_stream i c reg)))
    by (destruct r as [[]|]; done).
  assert (∀ id j, j ∈ live_streams id reg → j ≠ i) as Hne.
  { intros id j Hj ->. destruct (Hl id i Hj) as (? & ? & ?). congruence. }
  constructor; simpl; [done..| | | |done].
  - intros j c' [[<- <-]|[_ Hj]]%lookup_insert_Some; eauto.
  - intros id j. rewrite track_live. intros [Hj|Hj]%elem_of_union.
    + case_decide; [|set_solver]. apply elem_of_singleton in Hj as ->. subst. exists c. by rewrite lookup_insert_eq.
    + rewrite lookup_insert_ne by (symmetry; eapply Hne; exact Hj). by apply Hl.
  - intros id j c' Hid. rewrite track_live. intros [Hj|Hj]%elem_of_union Hms.
    + case_decide; [|set_solver]. apply elem_of_singleton in Hj as ->. subst.
      destruct r as [[b|]|e]; [by edestruct (Hb b)|done|set_solver].
    + rewrite lookup_insert_ne by (symmetry; eapply Hne; exact Hj). eapply Htold; [done..|]. destruct r; set_solver.
Qed.

Lemma streams_signal db reg id sg ms :
  is_Some (k_revocations db !! id) → streams_ok (CSys db reg None sg ms) →
  streams_ok (CSys db (SignalRevoked id reg) None ({[id]} ∪ sg) ms).
Proof.
  intros Hid [Ht Hs Hwf Hl Htold Hlk]; simpl in *.
  constructor; cbn [cs_db cs_reg cs_lock cs_signalled cs_missed]; [done| | | | |done].
  - intros id'. rewrite elem_of_union, elem_of_singleton. intros [->|]; auto.
  - intros i c. rewrite SignalRevoked_heap. case_decide; [|apply Hwf].
    intros (c0 & Hc0 & ->)%fmap_Some. by apply markRevoked_wf, (Hwf i).
  - intros id' i Hi. destruct (Hl id' i Hi) as (c & Hc & Hcl). rewrite SignalRevoked_heap, Hc. simpl.
    case_decide; [|eauto]. eexists; split; [done|]. by destruct (markRevoked_wf c (Hwf i c Hc)) as (_ & -> & _).
  - intros id' i c Hid' Hi Hms. destruct (Hl id' i Hi) as (c0 & Hc0 & Hcl). rewrite SignalRevoked_heap, Hc0. simpl.
    destruct (markRevoked_wf c0 (Hwf i c0 Hc0)) as (_ & _ & Hrv).
    case_decide as Hd; intros [= <-]; [done|]. apply elem_of_union in Hid' as [->%elem_of_singleton|Hid']; [done|eauto].
Qed.

Lemma streams_stream db reg i c c' lk sg ms :
  heap reg !! i = Some c → stream_event c c' → streams_ok (CSys db reg lk sg ms) →
  streams_ok (CSys db (set_stream i c' reg) lk sg ms).
Proof.
  intros Hi He [Ht Hs Hwf Hl Htold Hlk]; simpl in *.
  destruct (event_wf c c' He (Hwf i c Hi)) as (Hwf' & Hcl & Hrv).
  constructor; simpl; [done..| | | |].
  - intros j cj [[<- <-]|[_ Hj]]%lookup_insert_Some; eauto.
  - intros id j Hj. destruct (Hl id j Hj) as (cj & Hcj & <-). destruct (decide (i = j)) as [->|?].
    + exists c'. rewrite lookup_insert_eq. split; [done|]. congruence.
    + exists cj. by rewrite lookup_insert_ne.
  - intros id j cj Hid Hj Hms [[<- <-]|[_ Hcj]]%lookup_insert_Some; [|eauto]. rewrite Hrv. eauto.
  - intros j cj r Hlk'. destruct (Hlk j cj r Hlk') as (Hj & ? & ?). split; [|done].
    rewrite dom_insert. apply elem_of_dom_2 in Hi. set_solver.
Qed.

Lemma cstep_ok s s' : streams_ok s → cstep s s' → streams_ok s'.
Proof.
  intros Hok Hst. destruct Hst as [db db' reg lk sg ms Hw|db w reg sg ms dbnow i id ten td na fs r Hi Hp|
    |db reg i c sg ms Hi|db reg id sg ms Hid|db reg i c c' lk sg ms Hi He].
  - by apply (streams_db (CSys db reg lk sg ms)); [apply rtc_once|].
  - pose proof (activate_writes _ _ _ _ _ _ Hp) as Hw. apply (streams_db (CSys db reg None sg ms) (committed w) Hw) in Hok as Hok'.
    destruct Hok as [Ht Hs ? ? ? ?], Hok'; simpl in *. constructor; simpl; eauto.
    intros j c r' [= -> <- ->]. split; [done|]. split; [done|]. intros b -> Hsg.
    by apply (activate_inv _ _ _ _ _ _ Ht Hp), Hs.
  - by apply streams_register.
  - destruct Hok as [Ht Hs Hwf Hl Htold Hlk]; simpl in *. destruct (drop_stream_reg i c reg) as [Hh Hd].
    constructor; simpl; rewrite ?Hh; try done; intros; set_solver.
  - by apply streams_signal.
  - by eapply streams_stream.
Qed.

Definition csys_init (db : ControlDB) : csys := CSys db NewConnectorRegistry None ∅ ∅.

Lemma csteps_ok db s : tombs_ok db → rtc cstep (csys_init db) s → streams_ok s.
Proof.
  intros Hdb Hs. assert (streams_ok (csys_init db)) as H0.
  { constructor; simpl; try done. }
  revert H0. generalize (csys_init db), Hs. clear db Hdb Hs. induction 1; eauto using cstep_ok.
Qed.


(** ** A run *)

Definition sample_client : connectorStreamClient := new_client "c1" "ws" "td" None.
Definition one_stream (r : result (err control_error) (option bool)) : ConnectorRegistry :=
  after_activation 1 sample_client r NewConnectorRegistry.
Definition activated_db : ControlDB := store_connector "c1" (heartbeat 3 sample_row) sample_db.
Definition revoked_db (db : ControlDB) : ControlDB :=
  match revoke_row 7 "ws" "c1" db with Ok (_, db') => db' | Err _ => db end.

(** A stream opens, the connector is revoked and the revocation delivered. *)
Lemma delivered_run :
  rtc cstep (csys_init sample_db)
    (CSys (revoked_db activated_db) (SignalRevoked "c1" (one_stream (Ok (Some false)))) None ({["c1"]} ∪ ∅) ∅).
Proof.
  eapply rtc_l.
  { by apply (c_activate sample_db (World activated_db None []) NewConnectorRegistry ∅ ∅ 3 1 "c1" "ws" "td" None [] (Ok (Some false))). }
  eapply rtc_l; [apply c_register|].
  eapply rtc_l; [apply (c_write _ (revoked_db activated_db)), (w_revoke 7 "ws" "c1" (Some tt)); by vm_compute|].
  eapply rtc_l; [|done]. apply c_signal. vm_compute. by eexists.
Qed.


(** A stream whose activation met a database error after the revocation was
    delivered stays live and is told nothing by it. *)
Lemma activation_error_hides_stream :
  ∃ s c, rtc cstep (csys_init sample_db) s ∧ "c1" ∈ cs_signalled s ∧ is_Some (k_revocations (cs_db s) !! "c1") ∧
    1%nat ∈ live_streams "c1" (cs_reg s) ∧ heap (cs_reg s) !! 1%nat = Some c ∧ cl_revoked c = false ∧ runWriter_step c = None.
Proof.
  set (e := Err (Sql "activate" ConnError) : result (err control_error) (option bool)).
  exists (CSys (revoked_db sample_db) (one_stream e) None ({["c1"]} ∪ ∅) ({[1%nat]} ∪ ∅)), sample_client. split.
  - eapply rtc_l; [apply (c_write _ (revoked_db sample_db)), (w_revoke 7 "ws" "c1" (Some tt)); by vm_compute|].
    eapply rtc_l; [apply (c_signal _ _ "c1"); vm_compute; by eexists|].
    eapply rtc_l.
    { by apply (c_activate (revoked_db sample_db) (World (revoked_db sample_db) None []) NewConnectorRegistry
                  ({["c1"]} ∪ ∅) ∅ 3 1 "c1" "ws" "td" None [Refused] e). }
    eapply rtc_l; [apply c_register|done].
  - split; [set_solver|]. split; [vm_compute; by eexists|]. by vm_compute.
Qed.
