(* ===== verification/Lease.v ===== *)
(** * From a revocation to a closed data plane

    The connector's serving state (connector/src/authorization.rs) and the
    controller's tables and health handler (connector/control_stream.go) put
    together: health reports and acknowledgements travel between them with any
    delay, duplication, reordering and loss, the database fails at will, and
    administrators revoke at any moment.  The connector's clock and the moment
    a write commits are read on one time line. *)

From Stdlib Require Import ZArith Lia.
From S2P Require Import Prelude Sql AclCompiler Authorization AuthorizationFacts ControlStream ControlFacts.
Open Scope Z_scope.

(** ** The system *)

Record lease := Lease {
  l_now : time;
  l_tracker : AckTracker;
  l_log : list acceptance; (* ghost: the acknowledgements accepted *)
  l_first : gmap Z time; (* ghost: when each report was first sent *)
  l_db : ControlDB;
  l_acks : gset Z; (* acknowledgements the controller queued, not yet read or still to be read again *)
  l_revoked : option time (* ghost: when the tombstone was committed *)
}.

Definition note_revoked (me : uuid) (now : time) (db : ControlDB) (r : option time) : option time :=
  match r with
  | Some _ => r
  | None => if bool_decide (is_Some (k_revocations db !! me)) then Some now else None
  end.

Definition first_send (k : Z) (now : time) (m : gmap Z time) : gmap Z time :=
  match m !! k with Some _ => m | None => <[k := now]> m end.

(** A report is sent again only while its first send is fresh. *)
Definition timely (H : duration) (k : Z) (now : time) (m : gmap Z time) : Prop :=
  ∀ f, m !! k = Some f → now < f + H.

Definition connector_event (e : tevent) : bool :=
  match e with TSent _ | TAck _ _ => false | _ => true end.

Inductive lstep (H : duration) (me : uuid) : lease → lease → Prop :=
| l_tick now now' t log fst db acks rv :
    now <= now' → lstep H me (Lease now t log fst db acks rv) (Lease now' t log fst db acks rv)
| l_event e now t log fst db acks rv :
    connector_event e = true → event_ok e t →
    lstep H me (Lease now t log fst db acks rv) (Lease now (tracker_step e now t) log fst db acks rv)
| l_send k now t log fst db acks rv :
    k ≠ 0 → event_ok (TSent k) t → timely H k now fst →
    lstep H me (Lease now t log fst db acks rv) (Lease now (stamp_send k now t) log (first_send k now fst) db acks rv)
| l_report window clk dbnow h pl snap c fs out c' w new now t log fst db acks rv :
    is_Some (fst !! hr_HeartbeatSeq h) → cl_connector c = me →
    handleConnectorHealth window clk dbnow h pl snap c (World db None fs) = (Ok (out, c'), w) →
    (∀ k, k ∈ new → MAuthorizationAck k ∈ outbound c' ∧ MAuthorizationAck k ∉ outbound c) →
    lstep H me (Lease now t log fst db acks rv)
      (Lease now t log fst (committed w) (new ∪ acks) (note_revoked me now (committed w) rv))
| l_ack k capable now t log fst db acks rv :
    k ∈ acks →
    lstep H me (Lease now t log fst db acks rv)
      (Lease now (on_ack k capable now t).2 (log_accept (TAck k capable) now t log) fst db acks rv)
| l_write db' now t log fst db acks rv :
    write db db' →
    lstep H me (Lease now t log fst db acks rv) (Lease now t log fst db' acks (note_revoked me now db' rv)).

Definition lease_init (H : duration) (db : ControlDB) : lease := Lease 0 (Authorization.new H) [] ∅ db ∅ None.

(** ** The invariant *)

Record lease_ok (H : duration) (me : uuid) (s : lease) : Prop := {
  lo_tracker : tracker_ok H (l_tracker s) (l_now s) (l_log s);
  lo_tombs : tombs_ok (l_db s);
  lo_revoked : is_Some (l_revoked s) ↔ is_Some (k_revocations (l_db s) !! me);
  lo_past k f : l_first s !! k = Some f → f <= l_now s;
  (* the entry of a number not yet accepted is its first send *)
  lo_sent k a : sent (l_tracker s) !! k = Some a → highest_accepted (l_tracker s) < k → l_first s !! k = Some a;
  lo_fresh k f : l_first s !! k = Some f → highest_accepted (l_tracker s) < k → l_now s < f + H →
    sent (l_tracker s) !! k = Some f;
  lo_acks k : k ∈ l_acks s → ∃ f, l_first s !! k = Some f ∧ ∀ r, l_revoked s = Some r → f <= r;
  lo_log a : a ∈ l_log s → ∀ r, l_revoked s = Some r → ax_sent a <= r
}.

Lemma event_fields e now t :
  connector_event e = true →
  sent (tracker_step e now t) = sent t ∧ highest_accepted (tracker_step e now t) = highest_accepted t ∧
  log_accept e now t = λ log, log.
Proof.
  destruct (expire_fields now t) as (_ & _ & Hs & Hh & _).
  destruct e; intros He; try done; simpl; (split; [|split; [|done]]);
    unfold stream_up, stream_down, seq_for_replacement, on_terminal; repeat case_match; simpl; done.
Qed.

Lemma note_revoked_spec me now db r0 :
  (is_Some r0 → is_Some (k_revocations db !! me)) →
  (is_Some (note_revoked me now db r0) ↔ is_Some (k_revocations db !! me)) ∧
  (∀ r, note_revoked me now db r0 = Some r → r0 = Some r ∨ (r0 = None ∧ r = now)).
Proof. unfold note_revoked. intros Hr. destruct r0; [naive_solver|]. case_bool_decide; naive_solver. Qed.

(** New tables: tombstones only appear. *)
Lemma db_ok H me now t log fst db db' acks rv :
  lease_ok H me (Lease now t log fst db acks rv) → rtc write db db' →
  lease_ok H me (Lease now t log fst db' acks (note_revoked me now db' rv)).
Proof.
  intros [Ht Hd Hr Hp Hs Hf Ha Hl] Hw; simpl in *. destruct (writes_tombs db db' Hw Hd) as [Hk Hd'].
  destruct (note_revoked_spec me now db' rv) as [Hn Hn']; [by intros ?%Hr%Hk|].
  constructor; simpl; try done.
  - intros k (f & Hf' & Hfr)%Ha. exists f. split; [done|]. intros r [?|[-> ->]]%Hn'; [by apply Hfr|by eapply Hp].
  - intros a Hal r [?|[-> ->]]%Hn'; [by eapply Hl|].
    pose proof (to_log _ _ _ _ Ht) as Hlog. rewrite Forall_forall in Hlog. destruct (Hlog a Hal). lia.
Qed.

Lemma send_ok H me k now t log fst db acks rv :
  k ≠ 0 → event_ok (TSent k) t → timely H k now fst →
  lease_ok H me (Lease now t log fst db acks rv) →
  lease_ok H me (Lease now (stamp_send k now t) log (first_send k now fst) db acks rv).
Proof.
  intros Hk He Htm [Ht Hd Hr Hp Hs Hf Ha Hl]; simpl in *.
  pose proof (record_sent_ok H t now log k He Ht) as Ht'. pose proof (to_freshness _ _ _ _ Ht) as Hfr.
  assert (stamp_send k now t = record_sent k now t) as -> by (unfold stamp_send; by rewrite (proj2 (Z.eqb_neq k 0))).
  assert (highest_accepted (record_sent k now t) = highest_accepted t) as Hh by (unfold record_sent; by case_match).
  assert (∀ k' f, fst !! k' = Some f → first_send k now fst !! k' = Some f) as Hmono.
  { intros k' f Hk'. unfold first_send. destruct (fst !! k) eqn:E; [done|]. rewrite lookup_insert_ne; congruence. }
  assert (∀ k' f, first_send k now fst !! k' = Some f → fst !! k' = Some f ∨ (k' = k ∧ fst !! k = None ∧ f = now)) as Hinv.
  { intros k' f. unfold first_send. destruct (fst !! k) eqn:E; [by left|]. rewrite lookup_insert_Some. naive_solver. }
  constructor; simpl; try done.
  - intros k' f [?|(-> & _ & ->)]%Hinv; [eauto|lia].
  - intros k' a. rewrite record_sent_lookup, Hh by done. intros [_ [Hk'|(-> & -> & Hn)]] Hhi; [eauto|].
    destruct (fst !! k) as [f|] eqn:E.
    + rewrite (Hf k f) in Hn by eauto. done.
    + unfold first_send. by rewrite E, lookup_insert_eq.
  - intros k' f Hk' Hhi Hnow. rewrite Hh in Hhi. rewrite record_sent_lookup, Hfr by done. split; [done|].
    apply Hinv in Hk' as [Hk'|(-> & Hn & ->)]; [left; eauto|]. right. split_and!; try done.
    destruct (sent t !! k) as [a|] eqn:E; [|done]. apply Hs in E; congruence.
  - intros k' (f & Hk' & Hfr')%Ha. exists f. auto.
Qed.

Lemma ack_ok H me k capable now t log fst db acks rv :
  k ∈ acks → lease_ok H me (Lease now t log fst db acks rv) →
  lease_ok H me (Lease now (on_ack k capable now t).2 (log_accept (TAck k capable) now t log) fst db acks rv).
Proof.
  intros Hk [Ht Hd Hr Hp Hs Hf Ha Hl]; simpl in *.
  pose proof (on_ack_ok H t now log k capable Ht) as Ht'. simpl in Ht'.
  destruct (expire_fields now t) as (_ & _ & Hes & Heh & _).
  destruct (on_ack k capable now t) as [r t'] eqn:Ho. simpl in *.
  destruct (on_ack_inv _ _ _ _ _ _ Ho) as [[-> Hrej]|(s & -> & -> & _ & Hhi & Hseq & _ & _ & _ & ->)].
  - assert (log_accept (TAck k capable) now t log = log) as Hlog.
    { unfold log_accept. simpl. rewrite Ho. by destruct r as [[]|]. }
    rewrite Hlog in *. constructor; simpl; rewrite ?Hes, ?Heh; done.
  - assert (log_accept (TAck k true) now t log = Acceptance k s now :: log) as Hlog.
    { unfold log_accept. simpl. by rewrite Ho, Hseq. }
    rewrite Hlog in *. constructor; simpl; try done.
    + intros k' a [Hk' ?]%map_lookup_filter_Some ?. apply Hs; [done|lia].
    + intros k' f Hk' Hlt Hnow. apply map_lookup_filter_Some. split; [apply Hf; [done|lia|done]|done].
    + intros a [->|Hin]%elem_of_cons r Hrv; [|by eapply Hl]. simpl.
      destruct (Ha k Hk) as (f & Hf' & Hfr). rewrite (Hs k s Hseq Hhi) in Hf'. simplify_eq. auto.
Qed.

Lemma health_writes window clk dbnow h pl snap c s :
  wp (handleConnectorHealth window clk dbnow h pl snap c) s None (λ _ s' _, rtc write s s').
Proof. unfold handleConnectorHealth, classifyRefusal, lookupConnector. wp_go; leaf. Qed.

(** The reports it acknowledges were sent before any revocation. *)
Lemma report_ok H me window clk dbnow h pl snap c fs out c' w new now t log fst db acks rv :
  is_Some (fst !! hr_HeartbeatSeq h) → cl_connector c = me →
  handleConnectorHealth window clk dbnow h pl snap c (World db None fs) = (Ok (out, c'), w) →
  (∀ k, k ∈ new → MAuthorizationAck k ∈ outbound c' ∧ MAuthorizationAck k ∉ outbound c) →
  lease_ok H me (Lease now t log fst db acks rv) →
  lease_ok H me (Lease now t log fst (committed w) (new ∪ acks) (note_revoked me now (committed w) rv)).
Proof.
  intros [f Hf] Hme Hrun Hnew Hok.
  pose proof (health_writes window clk dbnow h pl snap c db fs) as Hw. rewrite Hrun in Hw. simpl in Hw.
  pose proof (health_reply_ok window clk dbnow h pl snap c db (lo_tombs _ _ _ Hok) fs) as Hspec. rewrite Hrun in Hspec.
  destruct Hspec as (out' & c1 & [= <- <-] & _ & Hack & _).
  pose proof (lo_past _ _ _ Hok _ _ Hf) as Hpast. pose proof (lo_revoked _ _ _ Hok) as Hrv. simpl in *.
  destruct (note_revoked_spec me now (committed w) rv) as [_ Hn'].
  { intros Hr%Hrv. by apply (writes_tombs _ _ Hw (lo_tombs _ _ _ Hok)). }
  destruct (db_ok H me now t log fst db (committed w) acks rv Hok Hw) as [? ? ? ? ? ? Ha ?]. constructor; simpl in *; try done.
  intros k [Hk|Hk]%elem_of_union; [|by apply Ha]. destruct (Hnew k Hk) as [Hin Hout].
  destruct (Hack k Hin) as [?|(-> & _ & _ & Hnt & _)]; [done|]. exists f. split; [done|].
  intros r Hr. destruct (Hn' r Hr) as [->|[_ ->]]; [|done]. exfalso. apply Hnt. rewrite Hme. by apply Hrv.
Qed.

Lemma lstep_ok H me s s' : lstep H me s s' → lease_ok H me s → lease_ok H me s'.
Proof.
  intros Hst Hok. destruct Hst; [ | |by apply send_ok|by eapply report_ok|by apply ack_ok|].
  - destruct Hok as [Ht ? ? Hp Hs Hf ? ?]; simpl in *. constructor; simpl; try done.
    + by eapply tracker_ok_later.
    + intros k f Hk. apply Hp in Hk. lia.
    + intros k f Hk ? ?. apply Hf; [done..|lia].
  - destruct Hok as [Ht ? ? ? Hs Hf ? ?]; simpl in *.
    destruct (event_fields e now t) as (Es & Eh & El); [done|].
    pose proof (tracker_step_ok H t now log e) as Ht'. rewrite El in Ht'.
    constructor; simpl; rewrite ?Es, ?Eh; auto.
  - apply db_ok with db; [done|]. by apply rtc_once.
Qed.

Lemma lease_run_ok H me db s :
  tombs_ok db → k_revocations db !! me = None → rtc (lstep H me) (lease_init H db) s → lease_ok H me s.
Proof.
  intros Hdb Hme Hs. assert (lease_ok H me (lease_init H db)) as H0.
  { constructor; simpl; try done; [apply tracker_run_ok, tr_new|].
    rewrite Hme. by split; intros [? ?]. }
  revert H0. generalize (lease_init H db), Hs. clear Hs. induction 1; eauto using lstep_ok.
Qed.


(** ** A run: a report is acknowledged, then the connector is revoked *)

Definition sample_health : controlM ((list call + authzRejection) * connectorStreamClient) :=
  handleConnectorHealth 0 0 0 sample_report None (Some sample_snapshot) (new_client "c1" "ws" "td" None).
Definition reported_db : ControlDB := store_connector "c1" (report_row 0 sample_report sample_row) sample_db.
Definition after_revocation : ControlDB :=
  match revoke_row 5 "ws" "c1" reported_db with Ok (_, db) => db | Err _ => reported_db end.
Definition served_tracker (H : duration) : AckTracker :=
  (on_ack 1 true 0 (stamp_send 1 0 (next_seq (Authorization.new H)).2)).2.
Definition served_log (H : duration) : list acceptance :=
  log_accept (TAck 1 true) 0 (stamp_send 1 0 (next_seq (Authorization.new H)).2) [].
Definition revoked_lease (H : duration) : lease :=
  Lease 5 (served_tracker H) (served_log H) (first_send 1 0 ∅) after_revocation ({[1]} ∪ ∅) (Some 5).

Lemma revoked_lease_run : rtc (lstep AUTHORIZATION_FRESHNESS "c1") (lease_init AUTHORIZATION_FRESHNESS sample_db)
  (revoked_lease AUTHORIZATION_FRESHNESS).
Proof.
  set (H := AUTHORIZATION_FRESHNESS).
  eapply rtc_l; [by apply (l_event H "c1" TNextSeq)|].
  eapply rtc_l; [by apply (l_send H "c1" 1); [..|intros f Hf]|].
  eapply rtc_l.
  { apply (l_report H "c1" 0 0 0 sample_report None (Some sample_snapshot) (new_client "c1" "ws" "td" None) []
      (inl (default [] (match (run sample_health sample_db).1 with Ok (inl l, _) => Some l | _ => None end)))
      (default (new_client "c1" "ws" "td" None) (match (run sample_health sample_db).1 with Ok (_, c) => Some c | _ => None end))
      (World reported_db None []) {[1]}); [by eexists|done|by vm_compute|].
    intros k ->%elem_of_singleton. split; [|by intros ?%elem_of_nil].
    vm_compute. right. left. }
  eapply rtc_l; [apply (l_ack H "c1" 1 true); set_solver|].
  eapply rtc_l; [by apply (l_tick H "c1" 0 5)|].
  eapply rtc_l; [apply (l_write H "c1" after_revocation), (w_revoke 5 "ws" "c1" (Some tt)); by vm_compute|].
  by vm_compute.
Qed.

