(* ===== verification/NetTarget.v ===== *)
(** * Tunnel destinations (connector/src/name_target.rs)

    A destination is an IP literal, used as given, or a DNS name, which the
    connector resolves and filters.  Telling them apart is Rust's parser of
    [IpAddr], modelled after the standard library: greedy numbers, dotted IPv4,
    IPv6 groups with one [::] and an embedded IPv4 tail. *)

From Stdlib Require Import ZArith Lia Ascii.
From S2P Require Import Prelude GoText.
Open Scope Z_scope.

(** ** Addresses *)

Inductive IpAddr := V4 (a b c d : Z) | V6 (groups : list Z).
#[export] Instance IpAddr_eq_dec : EqDecision IpAddr.
Proof. solve_decision. Defined.

Definition to_digit (radix : Z) (c : ascii) : option Z :=
  let v := if in_range 48 57 c then code c - 48
           else if in_range 97 122 c then code c - 87
           else if in_range 65 90 c then code c - 55 else 99 in
  if v <? radix then Some v else None.

(** The digits at the front. *)
Fixpoint digits (radix : Z) (l : list ascii) : list Z * list ascii :=
  match l with
  | [] => ([], [])
  | c :: l' =>
      match to_digit radix c with
      | None => ([], l)
      | Some d => let '(ds, rest) := digits radix l' in (d :: ds, rest)
      end
  end.

Definition number (radix : Z) (max_digits : nat) (allow_zero_prefix : bool) (bound : Z) (ds : list Z) : option Z :=
  let v := foldl (λ a d, a * radix + d) 0 ds in
  if bool_decide (ds = []) then None
  else if (max_digits <? length ds)%nat then None
  else if negb allow_zero_prefix && bool_decide (head ds = Some 0) && (1 <? length ds)%nat then None
  else if v <=? bound then Some v else None.

Definition read_number (radix : Z) (max_digits : nat) (allow_zero_prefix : bool) (bound : Z) (l : list ascii)
    : option (Z * list ascii) :=
  let '(ds, rest) := digits radix l in
  (λ v, (v, rest)) <$> number radix max_digits allow_zero_prefix bound ds.

Definition read_given_char (c : ascii) (l : list ascii) : option (list ascii) :=
  match l with x :: l' => if x ≟ c then Some l' else None | [] => None end.
(** The separator stands before every element but the first. *)
Definition read_separator {A} (sep : ascii) (index : nat) (inner : list ascii → option A) (l : list ascii) : option A :=
  match index with
  | O => inner l
  | S _ => match read_given_char sep l with Some l' => inner l' | None => None end
  end.

Definition read_octet : list ascii → option (Z * list ascii) := read_number 10 3 false 255.
Definition read_ipv4_addr (l : list ascii) : option ((Z * Z * Z * Z) * list ascii) :=
  '(a, l) ← read_octet l;
  '(b, l) ← read_separator "."%char 1 read_octet l;
  '(c, l) ← read_separator "."%char 2 read_octet l;
  '(d, l) ← read_separator "."%char 3 read_octet l;
  Some ((a, b, c, d), l).

(** At most [n] groups, the first of them number [i]; an embedded IPv4 address
    takes two and ends them. *)
Fixpoint read_groups (i n : nat) (l : list ascii) : list Z * bool * list ascii :=
  match n with
  | O => ([], false, l)
  | S n' =>
      match (if (1 <=? n')%nat then read_separator ":"%char i read_ipv4_addr l else None) with
      | Some ((a, b, c, d), l') => ([a * 256 + b; c * 256 + d], true, l')
      | None =>
          match read_separator ":"%char i (read_number 16 4 true 65535) l with
          | None => ([], false, l)
          | Some (g, l') => let '(gs, v4, rest) := read_groups (S i) n' l' in (g :: gs, v4, rest)
          end
      end
  end.

Definition read_ipv6_addr (l : list ascii) : option (list Z * list ascii) :=
  let '(hd, v4, l) := read_groups 0 8 l in
  if (length hd =? 8)%nat then Some (hd, l)
  else if v4 then None
  else
    l ← read_given_char ":"%char l;
    l ← read_given_char ":"%char l;
    let '(tl, _, l) := read_groups 0 (8 - (length hd + 1)) l in
    Some (hd ++ replicate (8 - length hd - length tl) 0 ++ tl, l).

(** [destination.parse::<IpAddr>()]: all of the text is read. *)
Definition parse_ip (s : string) : option IpAddr :=
  match read_ipv4_addr (bytes s) with
  | Some ((a, b, c, d), rest) => if bool_decide (rest = []) then Some (V4 a b c d) else None
  | None =>
      match read_ipv6_addr (bytes s) with
      | Some (gs, rest) => if bool_decide (rest = []) then Some (V6 gs) else None
      | None => None
      end
  end.

(** [Ipv4Addr::to_string]. *)
Definition octet_text (n : Z) : list ascii :=
  (if n <? 100 then [] else [chr (48 + n / 100)]) ++
  (if n <? 10 then [] else [chr (48 + n / 10 mod 10)]) ++ [chr (48 + n mod 10)].
Definition ipv4_text (a b c d : Z) : list ascii :=
  octet_text a ++ "."%char :: octet_text b ++ "."%char :: octet_text c ++ "."%char :: octet_text d.

(** ** The filter *)

Definition is_name (destination : string) : bool := bool_decide (parse_ip destination = None).

Definition allowed_resolved (ip : IpAddr) : bool :=
  match ip with
  | V4 a b c d =>
      negb ((a =? 127) (* loopback *)
            || ((a =? 169) && (b =? 254)) (* link-local *)
            || ((a =? 0) && (b =? 0) && (c =? 0) && (d =? 0)) (* unspecified *)
            || ((224 <=? a) && (a <=? 239)) (* multicast *)
            || ((a =? 255) && (b =? 255) && (c =? 255) && (d =? 255)) (* broadcast *)
            || ((a =? 198) && ((b =? 18) || (b =? 19))))
  | V6 _ => false
  end.

Inductive ResolveError := Lookup | NoAllowedAddress (seen : list IpAddr).

Definition SocketAddr : Type := IpAddr * Z.
Fixpoint pick_allowed (seen : list IpAddr) (addrs : list SocketAddr) : result ResolveError SocketAddr :=
  match addrs with
  | [] => Err (NoAllowedAddress seen)
  | addr :: rest => if allowed_resolved addr.1 then Ok addr else pick_allowed (seen ++ [addr.1]) rest
  end.

(** [lookup]: the resolver's answer; [None] is an error. *)
Definition resolve_target (lookup : string → Z → option (list SocketAddr)) (destination : string) (port : Z)
    : result ResolveError SocketAddr :=
  match parse_ip destination with
  | Some ip => Ok (ip, port)
  | None =>
      match lookup destination port with
      | None => Err Lookup
      | Some addrs => pick_allowed [] addrs
      end
  end.

(** ** Facts *)

Lemma pick_allowed_spec addrs : ∀ seen,
  match pick_allowed seen addrs with
  | Ok addr => ∃ pre post, addrs = pre ++ addr :: post ∧ allowed_resolved addr.1 = true ∧
                           Forall (λ a : SocketAddr, allowed_resolved a.1 = false) pre
  | Err e => e = NoAllowedAddress (seen ++ addrs.*1) ∧ Forall (λ a : SocketAddr, allowed_resolved a.1 = false) addrs
  end.
Proof.
  induction addrs as [|addr addrs IH]; intros seen; simpl; [by rewrite app_nil_r|].
  destruct (allowed_resolved addr.1) eqn:Ha; [by exists [], addrs|].
  specialize (IH (seen ++ [addr.1])). destruct (pick_allowed _ addrs) as [r|e].
  - destruct IH as (pre & post & -> & Hr & Hp). exists (addr :: pre), post. by repeat constructor.
  - destruct IH as [-> Hf]. rewrite <-app_assoc. by split; [|constructor].
Qed.

(** Every text of an octet is read back. *)
Lemma octets_read :
  forallb (λ n : nat, bool_decide (number 10 3 false 255 (digits 10 (octet_text (Z.of_nat n))).1 = Some (Z.of_nat n))
                      && bool_decide ((digits 10 (octet_text (Z.of_nat n))).2 = [])) (seq 0 256) = true.
Proof. by vm_compute. Qed.

Lemma digits_app radix l1 l2 ds :
  digits radix l1 = (ds, []) → match l2 with [] => True | c :: _ => to_digit radix c = None end →
  digits radix (l1 ++ l2) = (ds, l2).
Proof.
  revert ds. induction l1 as [|c l1 IH]; simpl; intros ds Hd Hl2.
  - simplify_eq. destruct l2 as [|c l2]; [done|]. simpl. by rewrite Hl2.
  - destruct (to_digit radix c); [|done]. destruct (digits radix l1) as [ds1 r1]. simplify_eq/=.
    by rewrite (IH ds1).
Qed.

Lemma read_octet_text n rest :
  0 <= n <= 255 → match rest with [] => True | c :: _ => to_digit 10 c = None end →
  read_octet (octet_text n ++ rest) = Some (n, rest).
Proof.
  intros Hn Hr. pose proof octets_read as Ho. rewrite forallb_forall in Ho.
  specialize (Ho (Z.to_nat n)). rewrite Z2Nat.id, in_seq in Ho by lia. specialize (Ho ltac:(lia)). bool_simpl.
  unfold read_octet, read_number. destruct (digits 10 (octet_text n)) as [ds r] eqn:E. simpl in *. subst r.
  rewrite (digits_app 10 _ _ ds) by done. match goal with H : number _ _ _ _ _ = _ |- _ => by rewrite H end.
Qed.

Lemma ipv4_text_parses a b c d :
  0 <= a <= 255 → 0 <= b <= 255 → 0 <= c <= 255 → 0 <= d <= 255 →
  parse_ip (of_bytes (ipv4_text a b c d)) = Some (V4 a b c d).
Proof.
  intros. unfold parse_ip, read_ipv4_addr, ipv4_text. rewrite bytes_of_bytes.
  rewrite read_octet_text by done. simpl. rewrite read_octet_text by done. simpl.
  rewrite read_octet_text by done. simpl. rewrite <-(app_nil_r (octet_text d)), read_octet_text by done. done.
Qed.
