(* ===== verification/DataPlane.v ===== *)
(** * The connector's data plane (connector/src/policy/mod.rs,
      session_registry.rs, device_tunnel.rs, fail_closed.rs, crl.rs)

    The cached access list, the registry of open tunnels, the admission of a
    device's stream, and the enforcer that ends tunnels when authorization is
    lost.  The access list is the compiler's snapshot.  A cancellation token is
    a flag beside the session it belongs to; session ids are positions in the
    order of registration. *)

From Stdlib Require Import ZArith Lia.
From S2P Require Import Prelude Sql GoText AclCompiler Authorization NetTarget.
Open Scope Z_scope.

(** ** The policy cache (policy/mod.rs) *)

Definition PolicyCache : Type := option ACLSnapshot.
Record ResourceAcl := MkResourceAcl {
  ra_resource_id : string; ra_allowed_spiffe_ids : list string; ra_route_type : string; ra_shield_id : string
}.

Definition to_ascii_lowercase (s : string) : string := of_bytes (lower_ascii <$> bytes s).
Definition eq_ignore_ascii_case (s1 s2 : string) : bool := to_ascii_lowercase s1 ≟ to_ascii_lowercase s2.

Definition policy_new : PolicyCache := None.
Definition policy_update (snapshot : ACLSnapshot) (_ : PolicyCache) : PolicyCache := Some snapshot.
Definition policy_clear (_ : PolicyCache) : PolicyCache := None.

Definition find_entry_by_id (snapshot : ACLSnapshot) (resource_id : string) : option ACLEntry :=
  snd <$> list_find (λ e, ae_ResourceId e = resource_id) (as_Entries snapshot).

(** (spiffe_id, resource_id). *)
Definition SessionKey : Type := string * string.
Definition allow_set (snapshot : ACLSnapshot) : gset SessionKey :=
  list_to_set (as_Entries snapshot ≫= λ e, (λ sp, (sp, ae_ResourceId e)) <$> ae_AllowedSpiffeIds e).

Definition tuple_of (e : ACLEntry) : string * Z * string :=
  (ae_Address e, ae_Port e, to_ascii_lowercase (ae_Protocol e)).
Definition add_tuple (out : gmap string (gset (string * Z * string))) (e : ACLEntry) : gmap string (gset (string * Z * string)) :=
  <[ae_ResourceId e := {[tuple_of e]} ∪ default ∅ (out !! ae_ResourceId e)]> out.
Definition tuples_by_resource (snapshot : ACLSnapshot) : gmap string (gset (string * Z * string)) :=
  foldl add_tuple ∅ (as_Entries snapshot).

(** The pairs of an entry of the previous snapshot whose resource changed its
    tuples. *)
Definition moved_pairs (old_tuples new_tuples : gmap string (gset (string * Z * string))) (e : ACLEntry) : list SessionKey :=
  match old_tuples !! ae_ResourceId e, new_tuples !! ae_ResourceId e with
  | Some old, Some new => if bool_decide (old = new) then [] else (λ sp, (sp, ae_ResourceId e)) <$> ae_AllowedSpiffeIds e
  | _, _ => []
  end.
Definition update_and_revoked (snapshot : ACLSnapshot) (c : PolicyCache) : gset SessionKey * PolicyCache :=
  (match c with
   | Some previous =>
       (allow_set previous ∖ allow_set snapshot) ∪
       list_to_set (as_Entries previous ≫= moved_pairs (tuples_by_resource previous) (tuples_by_resource snapshot))
   | None => ∅
   end, Some snapshot).

Definition policy_version (c : PolicyCache) : Z := match c with Some s => as_Version s | None => 0 end.

Definition is_allowed (c : PolicyCache) (resource_id client_spiffe_id : string) : bool :=
  match c with
  | None => false
  | Some snapshot =>
      match find_entry_by_id snapshot resource_id with
      | None => false
      | Some e => negb (bool_decide (ae_AllowedSpiffeIds e = [])) && existsb (λ id, id ≟ client_spiffe_id) (ae_AllowedSpiffeIds e)
      end
  end.

Definition peers_of_connector (c : PolicyCache) (connector_id : string) : list (string * string) :=
  match c with
  | None => []
  | Some snapshot =>
      match list_find (λ rn, existsb (λ k, ac_ConnectorId k ≟ connector_id) (an_Connectors rn) = true) (as_RemoteNetworks snapshot) with
      | Some (_, rn) => (λ k, (ac_ConnectorId k, ac_ConnectorTunnelAddr k)) <$> an_Connectors rn
      | None => []
      end
  end.

(** [sort] then [dedup]. *)
Fixpoint dedup (l : list string) : list string :=
  match l with
  | x :: ((y :: _) as l') => if x ≟ y then dedup l' else x :: dedup l'
  | _ => l
  end.
Definition revoked_connector_ids (c : PolicyCache) : list string :=
  match c with
  | None => []
  | Some snapshot =>
      dedup (merge_sort String.le (filter (λ id, id ≠ "") (rk_ConnectorId <$> as_RevokedConnectors snapshot)))
  end.

Definition matches_tuple (address : string) (port : Z) (protocol : string) (e : ACLEntry) : bool :=
  (ae_Address e ≟ address) && (ae_Port e =? port) && eq_ignore_ascii_case (ae_Protocol e) protocol.
Definition resolve_resource (c : PolicyCache) (address : string) (port : Z) (protocol : string) : option ResourceAcl :=
  match c with
  | None => None
  | Some snapshot =>
      match list_find (λ e, matches_tuple address port protocol e = true) (as_Entries snapshot) with
      | Some (_, e) => Some (MkResourceAcl (ae_ResourceId e) (ae_AllowedSpiffeIds e) (ae_RouteType e) (ae_ShieldId e))
      | None => None
      end
  end.

(** ** Certificate revocation (crl.rs) *)

Inductive RevocationStatus := NotRevoked | CertRevoked | RevocationUnavailable.
Record CrlCache := MkCrlCache { crl_revoked : gset string; crl_next_update : Z }.
Definition crl_check (now : Z) (cache : option CrlCache) (serial : string) : RevocationStatus :=
  match cache with
  | Some c => if now <? crl_next_update c
              then (if bool_decide (serial ∈ crl_revoked c) then CertRevoked else NotRevoked)
              else RevocationUnavailable
  | None => RevocationUnavailable
  end.
Definition revocation_action (status : RevocationStatus) : option string :=
  match status with
  | NotRevoked => None
  | RevocationUnavailable => Some "certificate revocation state unavailable"
  | CertRevoked => Some "certificate revoked"
  end.

(** ** The session registry (session_registry.rs) *)

Inductive SessionTransport := Tcp | Quic | Relay.
Record Session := MkSession { ss_key : SessionKey; ss_transport : SessionTransport; ss_cancelled : bool }.

(** [inner] indexes the registered ids by key; a session keeps its token after
    it is deregistered. *)
Record SessionRegistry := MkSessionRegistry {
  inner : gmap SessionKey (gset nat);
  tokens : gmap nat Session;
  next_id : nat
}.
Definition registry_new : SessionRegistry := MkSessionRegistry ∅ ∅ 0.
Definition registered (key : SessionKey) (r : SessionRegistry) : gset nat := default ∅ (inner r !! key).

Definition register (key : SessionKey) (transport : SessionTransport) (r : SessionRegistry) : nat * SessionRegistry :=
  let id := next_id r in
  (id, MkSessionRegistry (<[key := {[id]} ∪ registered key r]> (inner r))
         (<[id := MkSession key transport false]> (tokens r)) (S id)).

Definition cancel_session (s : Session) : Session := MkSession (ss_key s) (ss_transport s) true.
Definition cancel_token (id : nat) (r : SessionRegistry) : SessionRegistry :=
  MkSessionRegistry (inner r) (alter cancel_session id (tokens r)) (next_id r).
Definition cancel_ids (ids : gset nat) (r : SessionRegistry) : SessionRegistry :=
  MkSessionRegistry (inner r)
    (map_imap (λ id s, Some (if bool_decide (id ∈ ids) then cancel_session s else s)) (tokens r)) (next_id r).
Definition cancel_all (key : SessionKey) (r : SessionRegistry) : SessionRegistry := cancel_ids (registered key r) r.
Definition every_session (r : SessionRegistry) : gset nat := ⋃ (map_to_list (inner r)).*2.
Definition cancel_every_session (r : SessionRegistry) : SessionRegistry := cancel_ids (every_session r) r.

(** The guard's drop. *)
Definition unregister (key : SessionKey) (id : nat) (r : SessionRegistry) : SessionRegistry :=
  match inner r !! key with
  | None => r
  | Some ids =>
      let ids := ids ∖ {[id]} in
      MkSessionRegistry (if bool_decide (ids = ∅) then delete key (inner r) else <[key := ids]> (inner r)) (tokens r) (next_id r)
  end.

(** ** Admission (device_tunnel.rs) *)

Record TunnelRequest := MkTunnelRequest { tq_destination : string; tq_port : Z; tq_protocol : string }.

(** The entry of the request's tuple, when it lists the client. *)
Definition decide_access (acl : PolicyCache) (client_spiffe_id : string) (req : TunnelRequest) : option ResourceAcl :=
  match resolve_resource acl (tq_destination req) (tq_port req) (tq_protocol req) with
  | Some e => if existsb (λ id, id ≟ client_spiffe_id) (ra_allowed_spiffe_ids e) then Some e else None
  | None => None
  end.

Definition session_transport (accept_transport : SessionTransport) (e : ResourceAcl) : SessionTransport :=
  if ra_route_type e ≟ "shield" then Relay else accept_transport.

Definition is_udp (protocol : string) : bool := to_ascii_lowercase protocol ≟ "udp".

(** The errors a [TunnelResponse] carries. *)
Inductive Refusal :=
| CertificateRefused (message : string)
| AccessDenied
| NameUnresolved
| MissingShieldId
| UnknownRouteType (route_type : string).

(** What a stream comes to: no answer at all, a refusal, or a tunnel. *)
Inductive Outcome :=
| Dropped
| Answered (error : Refusal)
| OpenShield (shield_id host : string) (port : Z) (protocol : string)
| RelayUdp (host : string) (port : Z)
| DialTcp (host : string) (port : Z).

Definition dial_host (lookup : string → Z → option (list SocketAddr)) (req : TunnelRequest) : option string :=
  if is_name (tq_destination req) then
    if is_udp (tq_protocol req) then None
    else match resolve_target lookup (tq_destination req) (tq_port req) with
         | Ok (V4 a b c d, _) => Some (of_bytes (ipv4_text a b c d))
         | _ => None
         end
  else Some (tq_destination req).

(** The routes, once the stream is admitted. *)
Definition route_tunnel (lookup : string → Z → option (list SocketAddr)) (e : ResourceAcl) (req : TunnelRequest) : Outcome :=
  match dial_host lookup req with
  | None => Answered NameUnresolved
  | Some host =>
      if ra_route_type e ≟ "shield" then
        if ra_shield_id e ≟ "" then Answered MissingShieldId
        else OpenShield (ra_shield_id e) host (tq_port req) (tq_protocol req)
      else if negb (ra_route_type e ≟ "connector") && negb (ra_route_type e ≟ "direct") then Answered (UnknownRouteType (ra_route_type e))
      else if is_udp (tq_protocol req) then RelayUdp (tq_destination req) (tq_port req)
      else DialTcp host (tq_port req)
  end.

(** [handle_stream], with what each of its reads found: the gate at its two
    checks, the revocation status, the request ([None] when it could not be
    read), and the access list when the request was decided and again after the
    registration.  A tunnel stays registered while it runs; every other end
    drops the guard. *)
Definition handle_stream (gate1 : bool) (crl : RevocationStatus) (request : option TunnelRequest) (acl1 : PolicyCache)
    (client_spiffe_id : string) (accept_transport : SessionTransport) (acl2 : PolicyCache) (gate2 : bool)
    (lookup : string → Z → option (list SocketAddr)) (r : SessionRegistry) : Outcome * SessionRegistry :=
  if negb gate1 then (Dropped, r)
  else match revocation_action crl with
  | Some message => (Answered (CertificateRefused message), r)
  | None =>
      match request with
      | None => (Dropped, r)
      | Some req =>
          match decide_access acl1 client_spiffe_id req with
          | None => (Answered AccessDenied, r)
          | Some e =>
              let key := (client_spiffe_id, ra_resource_id e) in
              let '(id, r) := register key (session_transport accept_transport e) r in
              let r := if is_allowed acl2 (ra_resource_id e) client_spiffe_id then r else cancel_token id r in
              if negb gate2 then (Dropped, unregister key id r)
              else match route_tunnel lookup e req with
                   | Answered err => (Answered err, unregister key id r)
                   | tunnel => (tunnel, r)
                   end
          end
      end
  end.

(** ** The access-list message (control_stream.rs) *)

Definition cancel_keys (keys : list SessionKey) (r : SessionRegistry) : SessionRegistry :=
  foldl (λ r k, cancel_all k r) r keys.
Definition on_acl_snapshot (snap : ACLSnapshot) (c : PolicyCache) (r : SessionRegistry) : PolicyCache * SessionRegistry :=
  let '(revoked, c) := update_and_revoked snap c in (c, cancel_keys (elements revoked) r).

(** ** The enforcer (fail_closed.rs) *)

Record FailClosed := MkFailClosed {
  seen_closures : Z; terminal_done : bool; shield_close_at : option instant; episode_closed : bool
}.
Inductive enforcement := CancelEverySession | CloseAllStreams | ClearPolicy.

(** One turn of the loop after reading [snap]: the new state and what it does,
    in order. *)
Definition fail_closed_turn (grace : duration) (now : instant) (snap : AuthzSnapshot) (fc : FailClosed)
    : FailClosed * list enforcement :=
  let lost := negb (sn_closures snap =? seen_closures fc) in
  let acts := if lost then [CancelEverySession] else [] in
  let seen := if lost then sn_closures snap else seen_closures fc in
  match sn_state snap with
  | Revoked | UnknownIdentity =>
      (MkFailClosed seen true None (episode_closed fc),
       acts ++ if terminal_done fc then [] else [CancelEverySession; CloseAllStreams; ClearPolicy])
  | Disabled | Recovering =>
      (MkFailClosed seen (terminal_done fc)
         (if bool_decide (shield_close_at fc = None) && negb (episode_closed fc) then Some (now + grace) else shield_close_at fc)
         (episode_closed fc), acts)
  | Serving | ServingDisconnected | Starting => (MkFailClosed seen (terminal_done fc) None false, acts)
  end.

(** The grace timer. *)
Definition fail_closed_timer (now : instant) (fc : FailClosed) : option (FailClosed * list enforcement) :=
  match shield_close_at fc with
  | Some t => if t <=? now then Some (MkFailClosed (seen_closures fc) (terminal_done fc) None true, [CloseAllStreams]) else None
  | None => None
  end.
