(* ===== verification/DataPlaneFacts.v ===== *)
(** * What the data plane admits

    The access-list difference, the admission of a stream, and both together
    with the compiler that produced the list. *)

From Stdlib Require Import ZArith Lia.
From S2P Require Import Prelude Sql GoText PolicyStore AclCompiler AclSound NetTarget DataPlane.
Open Scope Z_scope.

(** ** The access list *)

Definition lists (snap : ACLSnapshot) (key : SessionKey) : Prop :=
  ∃ e, e ∈ as_Entries snap ∧ ae_ResourceId e = key.2 ∧ key.1 ∈ ae_AllowedSpiffeIds e.
(** The tuples a resource is reachable on. *)
Definition reaches (snap : ACLSnapshot) (rid : string) (t : string * Z * string) : Prop :=
  ∃ e, e ∈ as_Entries snap ∧ ae_ResourceId e = rid ∧ tuple_of e = t.

Lemma allow_set_spec snap key : key ∈ allow_set snap ↔ lists snap key.
Proof.
  destruct key as [sp rid]. unfold allow_set, lists. rewrite elem_of_list_to_set, list_elem_of_bind. simpl. split.
  - intros (e & (sp' & [= -> ->] & Hsp)%list_elem_of_fmap & He). eauto.
  - intros (e & He & <- & Hsp). exists e. split; [|done]. apply list_elem_of_fmap. eauto.
Qed.

Lemma tuples_fold entries out rid t :
  t ∈ default ∅ (foldl add_tuple out entries !! rid) ↔
  t ∈ default ∅ (out !! rid) ∨ ∃ e, e ∈ entries ∧ ae_ResourceId e = rid ∧ tuple_of e = t.
Proof.
  revert out. induction entries as [|e entries IH]; intros out; simpl; [set_solver|]. rewrite IH, exists_elem_cons. unfold add_tuple.
  destruct (decide (ae_ResourceId e = rid)) as [<-|Hne].
  - rewrite lookup_insert_eq. simpl. set_solver.
  - rewrite lookup_insert_ne by done. naive_solver.
Qed.
Lemma tuples_spec snap rid t : t ∈ default ∅ (tuples_by_resource snap !! rid) ↔ reaches snap rid t.
Proof. unfold tuples_by_resource. rewrite tuples_fold, lookup_empty. unfold reaches. set_solver. Qed.

Lemma tuples_dom_fold entries out rid :
  is_Some (foldl add_tuple out entries !! rid) ↔
  is_Some (out !! rid) ∨ ∃ e, e ∈ entries ∧ ae_ResourceId e = rid.
Proof.
  revert out. induction entries as [|e entries IH]; intros out; simpl; [set_solver|]. unfold add_tuple in *.
  rewrite IH, exists_elem_cons, lookup_insert_is_Some'.
  naive_solver.
Qed.
Lemma tuples_dom snap rid : is_Some (tuples_by_resource snap !! rid) ↔ ∃ e, e ∈ as_Entries snap ∧ ae_ResourceId e = rid.
Proof. unfold tuples_by_resource. rewrite tuples_dom_fold, lookup_empty. split; [|auto]. intros [[]|]; done. Qed.

Lemma lists_dom snap sp rid : lists snap (sp, rid) → is_Some (tuples_by_resource snap !! rid).
Proof. intros (e & He & Hr & _). apply tuples_dom. eauto. Qed.

(** The resource is reachable on the same tuples in both. *)
Definition same_tuples (old new : ACLSnapshot) (rid : string) : Prop := ∀ t, reaches old rid t ↔ reaches new rid t.

Lemma same_tuples_eq old new rid T T' :
  tuples_by_resource old !! rid = Some T → tuples_by_resource new !! rid = Some T' → same_tuples old new rid ↔ T = T'.
Proof.
  intros HT HT'. unfold same_tuples. setoid_rewrite <-tuples_spec. rewrite HT, HT'. simpl. split; [|by intros ->].
  intros H. by apply set_eq.
Qed.

Lemma moved_spec old new e key :
  e ∈ as_Entries old →
  key ∈ moved_pairs (tuples_by_resource old) (tuples_by_resource new) e ↔
  ae_ResourceId e = key.2 ∧ key.1 ∈ ae_AllowedSpiffeIds e ∧ is_Some (tuples_by_resource new !! key.2) ∧ ¬ same_tuples old new key.2.
Proof.
  intros He. destruct key as [sp rid]. unfold moved_pairs. simpl.
  destruct (proj2 (tuples_dom old (ae_ResourceId e)) (ex_intro _ e (conj He eq_refl))) as [T HT]. rewrite HT.
  destruct (tuples_by_resource new !! ae_ResourceId e) as [T'|] eqn:HT'.
  - pose proof (same_tuples_eq old new _ _ _ HT HT') as Hs. case_bool_decide as Hb.
    + split; [by intros ?%elem_of_nil|]. intros (<- & _ & _ & []). by apply Hs.
    + rewrite list_elem_of_fmap. split.
      * intros (sp' & [= -> ->] & Hsp). rewrite HT', Hs. eauto.
      * intros (<- & Hsp & _). eauto.
  - split; [by intros ?%elem_of_nil|]. intros (<- & _ & Hn & _). rewrite HT' in Hn. by destruct Hn.
Qed.

(** Applying a new access list cancels exactly the sessions it must: a pair
    of identity and resource is torn down if and only if the previous list
    allowed it and either the new one does not, or the new one reaches the
    resource on other network tuples.  The first list tears nothing down. *)
Lemma update_and_revoked_spec snap c :
  let '(revoked, c') := update_and_revoked snap c in
  c' = Some snap ∧
  ∀ key, key ∈ revoked ↔ ∃ previous, c = Some previous ∧ lists previous key ∧
                         (¬ lists snap key ∨ ¬ same_tuples previous snap key.2).
Proof.
  unfold update_and_revoked. split; [done|]. intros key. destruct c as [old|]; [|set_solver].
  rewrite elem_of_union, elem_of_difference, !allow_set_spec, elem_of_list_to_set, list_elem_of_bind. split.
  - intros [[Ho Hn]|(e & Hm & He)]; [eauto|]. apply moved_spec in Hm as (Hr & Hsp & _ & Hs); [|done].
    exists old. split; [done|]. split; [by exists e|by right].
  - intros (previous & [= <-] & Hl & Hor). destruct (decide (key ∈ allow_set snap)) as [Hn|Hn]; rewrite allow_set_spec in Hn; [right|by left].
    destruct Hor as [?|Hs]; [done|]. destruct Hl as (e & He & Hr & Hsp). exists e. split; [|done].
    apply moved_spec; [done|]. split_and!; try done. destruct key. by eapply lists_dom.
Qed.

(** ** Admission *)

Lemma existsb_mem sp (l : list string) : existsb (λ id, id ≟ sp) l = true ↔ sp ∈ l.
Proof.
  rewrite existsb_exists. setoid_rewrite <-list_elem_of_In. setoid_rewrite bool_decide_eq_true. naive_solver.
Qed.

Lemma is_allowed_spec snap rid sp :
  is_allowed (Some snap) rid sp = true ↔ ∃ e, find_entry_by_id snap rid = Some e ∧ sp ∈ ae_AllowedSpiffeIds e.
Proof.
  unfold is_allowed. destruct (find_entry_by_id snap rid) as [e|]; [|naive_solver].
  rewrite andb_true_iff, existsb_mem, negb_true_iff, bool_decide_eq_false. split; [naive_solver|].
  intros (? & [= <-] & Hsp). split; [|done]. intros Hn. rewrite Hn in Hsp. by apply elem_of_nil in Hsp.
Qed.

Lemma find_entry_elem snap rid e : find_entry_by_id snap rid = Some e → e ∈ as_Entries snap ∧ ae_ResourceId e = rid.
Proof.
  unfold find_entry_by_id. intros ([i e'] & Hf & ->)%fmap_Some. apply list_find_Some in Hf as (Hi & Hr & _).
  by apply list_elem_of_lookup_2 in Hi.
Qed.

Lemma is_allowed_lists snap rid sp : is_allowed (Some snap) rid sp = true → lists snap (sp, rid).
Proof. intros (e & [He Hr]%find_entry_elem & Hsp)%is_allowed_spec. by exists e. Qed.

(** The first entry on the request's tuple decides. *)
Lemma decide_access_spec snap sp req e :
  decide_access (Some snap) sp req = Some e ↔
  ∃ i en, list_find (λ en, matches_tuple (tq_destination req) (tq_port req) (tq_protocol req) en = true) (as_Entries snap) = Some (i, en) ∧
    sp ∈ ae_AllowedSpiffeIds en ∧ e = MkResourceAcl (ae_ResourceId en) (ae_AllowedSpiffeIds en) (ae_RouteType en) (ae_ShieldId en).
Proof.
  unfold decide_access, resolve_resource. destruct (list_find _ _) as [[i en]|]; [|naive_solver]. simpl.
  destruct (existsb _ _) eqn:Hx.
  - apply existsb_mem in Hx. naive_solver.
  - split; [done|]. intros (? & ? & [= <- <-] & Hsp & _). apply existsb_mem in Hsp. congruence.
Qed.

Definition is_tunnel (o : Outcome) : bool :=
  match o with Dropped | Answered _ => false | _ => true end.

(** The session stands registered under the key and is not cancelled. *)
Definition stands (r : SessionRegistry) (key : SessionKey) (id : nat) : Prop :=
  id ∈ registered key r ∧ ∃ s, tokens r !! id = Some s ∧ ss_key s = key ∧ ss_cancelled s = false.

Lemma register_stands key tr r : stands (register key tr r).2 key (register key tr r).1.
Proof.
  unfold stands, register, registered. simpl. rewrite !lookup_insert_eq. simpl. split; [set_solver|].
  eexists. by split.
Qed.

(** The routes that carry traffic. *)
Definition routed (e : ResourceAcl) : bool :=
  if ra_route_type e ≟ "shield" then negb (ra_shield_id e ≟ "")
  else (ra_route_type e ≟ "connector") || (ra_route_type e ≟ "direct").

Lemma route_tunnel_tunnels lookup e req :
  is_tunnel (route_tunnel lookup e req) = true ↔ is_Some (dial_host lookup req) ∧ routed e = true.
Proof.
  unfold route_tunnel, routed. destruct (dial_host lookup req) as [host|]; [|split; [done|]; by intros [[? ?] _]].
  destruct (ra_route_type e ≟ "shield"), (ra_shield_id e ≟ ""), (ra_route_type e ≟ "connector"),
    (ra_route_type e ≟ "direct"), (is_udp (tq_protocol req)); simpl;
    (split; [by intros ?; split; [eexists|]|by intros [_ ?]]).
Qed.

Lemma revocation_action_none crl : revocation_action crl = None ↔ crl = NotRevoked.
Proof. by destruct crl. Qed.

Lemma handle_stream_tunnel gate1 crl request acl1 sp tr acl2 gate2 lookup r :
  is_tunnel (handle_stream gate1 crl request acl1 sp tr acl2 gate2 lookup r).1 = true ↔
  gate1 = true ∧ gate2 = true ∧ crl = NotRevoked ∧
  ∃ req e, request = Some req ∧ decide_access acl1 sp req = Some e ∧ is_Some (dial_host lookup req) ∧ routed e = true.
Proof.
  unfold handle_stream. destruct gate1; simpl; [|split; [done|]; by intros (? & _)].
  rewrite <-revocation_action_none. destruct (revocation_action crl); [split; [done|]; by intros (_ & _ & ? & _)|].
  destruct request as [req|]; [|split; [done|]; by intros (_ & _ & _ & ? & ? & ? & _)].
  destruct (decide_access acl1 sp req) as [e|] eqn:Hd; [|split; [done|]; intros (_ & _ & _ & ? & ? & [= <-] & ? & _); congruence].
  destruct gate2; simpl; [|split; [done|]; by intros (_ & ? & _)].
  pose proof (route_tunnel_tunnels lookup e req) as Hr. split.
  - intros Ht. split_and!; try done. exists req, e. split; [done|]. split; [done|]. apply Hr.
    by destruct (route_tunnel lookup e req).
  - intros (_ & _ & _ & req' & e' & [= <-] & He & Hrt). simplify_eq. apply Hr in Hrt. by destruct (route_tunnel lookup e req).
Qed.

(** The registry of a tunnel: the new session, unless the second look at the
    list cancelled it. *)
Lemma handle_stream_session gate1 crl req acl1 sp tr acl2 gate2 lookup r e :
  decide_access acl1 sp req = Some e → is_allowed acl2 (ra_resource_id e) sp = true →
  is_tunnel (handle_stream gate1 crl (Some req) acl1 sp tr acl2 gate2 lookup r).1 = true →
  stands (handle_stream gate1 crl (Some req) acl1 sp tr acl2 gate2 lookup r).2 (sp, ra_resource_id e) (next_id r).
Proof.
  intros Hd Hal Ht. apply handle_stream_tunnel in Ht as Hc. destruct Hc as (-> & -> & -> & req' & e' & [= <-] & He & Hrt).
  simplify_eq. unfold handle_stream. simpl. rewrite Hd, Hal. simpl.
  apply route_tunnel_tunnels in Hrt. destruct (route_tunnel lookup e req); try done; apply register_stands.
Qed.

Section order.
Context `{RowOrder}.

(** An entry carries its resource's address. *)
Lemma compiled_entry_resource ws db now acl e :
  compiled_from ws db now acl → e ∈ as_Entries (ca_Snapshot acl) →
  ∃ res, resources db !! ae_ResourceId e = Some res ∧ rs_tenant res = ws ∧
    ae_Address e = rs_host res ∧ ae_Port e = rs_port_from res ∧ ae_Protocol e = rs_protocol res.
Proof.
  intros (c & Hc & -> & _) (key & -> & Hk)%list_elem_of_fmap. pose proof (collect_rules_spec _ _ _ Hc) as Hcl.
  rewrite merge_sort_Permutation in Hk. apply list_elem_of_fmap in Hk as ([k l] & -> & Hk%elem_of_map_to_list).
  assert (is_Some (col_groups c !! k)) as [[? [=]]|(rule & Hrule & Hkey)]%(cl_keys _ _ _ Hcl) by eauto.
  pose proof (entry_entry_key ws db now c k) as Hek. unfold entry_key in Hek.
  apply list_elem_of_filter in Hrule as [_ Hrule]. apply rules_elem in Hrule as (i & ar & Hi & Hrow).
  apply compiler_row_spec in Hrow as (r & g & name & Hr & Hg & Hw & He & Ht & Hgw & Hrn & Hst & ->).
  simpl in *. set (e := entry ws db now c k) in *. clearbody e. subst k. unfold rule_key in Hek. simpl in Hek.
  exists r. injection Hek as -> -> -> ->. done.
Qed.

(** One entry per resource. *)
Lemma compiled_entry_unique ws db now acl e e' :
  compiled_from ws db now acl → e ∈ as_Entries (ca_Snapshot acl) → e' ∈ as_Entries (ca_Snapshot acl) →
  ae_ResourceId e = ae_ResourceId e' → e = e'.
Proof.
  intros Hcf He He' Hrid.
  destruct (compiled_entry_resource _ _ _ _ _ Hcf He) as (res & Hres & _ & Ha & Hp & Hq).
  destruct (compiled_entry_resource _ _ _ _ _ Hcf He') as (res' & Hres' & _ & Ha' & Hp' & Hq').
  rewrite Hrid in Hres. simplify_eq. assert (entry_key e = entry_key e') as Hk by (unfold entry_key; congruence).
  destruct (compiled_keys _ _ _ _ Hcf) as [_ Hnd].
  apply list_elem_of_lookup in He as [i Hi], He' as [j Hj].
  assert (i = j) as <-; [|congruence]. apply (NoDup_lookup _ _ _ (entry_key e) Hnd); rewrite list_lookup_fmap, ?Hi, ?Hj; simpl; congruence.
Qed.

(** The resource answers on the request's address. *)
Definition on_tuple (res : ResourceRec) (req : TunnelRequest) : bool :=
  (rs_host res ≟ tq_destination req) && (rs_port_from res =? tq_port req)
  && eq_ignore_ascii_case (rs_protocol res) (tq_protocol req).

Lemma compiled_tuple ws db now acl req e res :
  compiled_from ws db now acl → e ∈ as_Entries (ca_Snapshot acl) → resources db !! ae_ResourceId e = Some res →
  matches_tuple (tq_destination req) (tq_port req) (tq_protocol req) e = on_tuple res req.
Proof.
  intros Hcf He Hres. destruct (compiled_entry_resource _ _ _ _ _ Hcf He) as (res1 & Hres1 & _ & Ha & Hpt & Hq).
  simplify_eq. unfold matches_tuple, on_tuple. by rewrite Ha, Hpt, Hq.
Qed.

Lemma compiled_allows ws db now acl e sp :
  compiled_from ws db now acl → e ∈ as_Entries (ca_Snapshot acl) → sp ∈ ae_AllowedSpiffeIds e →
  is_allowed (Some (ca_Snapshot acl)) (ae_ResourceId e) sp = true.
Proof.
  intros Hcf He Hsp. apply is_allowed_spec.
  destruct (find_entry_by_id (ca_Snapshot acl) (ae_ResourceId e)) as [e'|] eqn:Hf.
  - apply find_entry_elem in Hf as Hf'. destruct Hf' as [He' Hrid].
    rewrite (compiled_entry_unique _ _ _ _ _ _ Hcf He' He Hrid). eauto.
  - unfold find_entry_by_id in Hf. apply fmap_None, list_find_None in Hf. rewrite Forall_forall in Hf. by edestruct Hf.
Qed.
End order.


(** ** Witnesses and consequences *)

Definition demo_request : TunnelRequest := MkTunnelRequest "10.0.0.5" 5432 "TCP".
Definition no_lookup : string → Z → option (list SocketAddr) := λ _ _, None.


(** Two offices use the same private address.  Ann may reach the database of
    the first, Bob that of the second. *)
Definition net_policy : PolicyDB :=
  MkPolicyDB
    {["g1" := MkGroupRow "ws" "one" None 0 0 "manual" None None; "g2" := MkGroupRow "ws" "two" None 0 0 "manual" None None]}
    {[("g1", "ann"); ("g2", "bob")]}
    {["a1" := MkAccessRuleRow "ws" "r1" "g1" true 0 0; "a2" := MkAccessRuleRow "ws" "r2" "g2" true 0 0]}
    {["r1" := MkResourceRec "ws" "db one" "10.0.0.5" 5432 "tcp" None "unprotected" "rn1" None;
      "r2" := MkResourceRec "ws" "db two" "10.0.0.5" 5432 "tcp" None "unprotected" "rn2" None]}
    {["rn1" := ("ws", "office one"); "rn2" := ("ws", "office two")]} ∅ ∅ {["ws" := "ws.zecurity.in"]}
    {["ann" := ("ws", "active"); "bob" := ("ws", "active")]}
    {[("ws", "ann") := "active"; ("ws", "bob") := "active"]}
    {["d1" := MkDeviceRec "ann" "ws" (Some "spiffe://ws/client/d1") None;
      "d2" := MkDeviceRec "bob" "ws" (Some "spiffe://ws/client/d2") None]}
    ∅ ∅ ∅ ∅ ∅ ∅ ∅ ∅.
Definition net_compile : policyM CompiledACL := CompileACLSnapshot (H:=scan_order) Some Some 0 0 (λ _, 1) "ws".
Definition net_acl : CompiledACL :=
  match run net_compile net_policy with
  | (Ok acl, _) => acl
  | _ => MkCompiledACL (MkACLSnapshot "" 0 0 [] [] "" "" []) 0
  end.

Lemma net_grants rid sp : grants net_acl rid sp ↔ may_access "ws" net_policy 0 rid sp.
Proof.
  destruct (compile_runs (H:=scan_order) Some Some 0 0 (λ _, 1) "ws" "ws" net_policy eq_refl eq_refl) as [acl Hacl].
  { unfold statuses_checked. apply map_Forall_insert_2; [simpl; set_solver|]. apply map_Forall_singleton. simpl. set_solver. }
  pose proof (compile_wp (H:=scan_order) Some Some 0 0 (λ _, 1) "ws" "ws" net_policy eq_refl eq_refl []) as Hwp.
  unfold runs in Hacl. rewrite Hacl in Hwp. destruct Hwp as [_ Hwp]. specialize (Hwp acl eq_refl).
  assert (net_acl = acl) as ->; [|by apply (compiled_grants (H:=scan_order))].
  unfold net_acl, net_compile, run. by rewrite Hacl.
Qed.

Lemma net_entries : as_Entries (ca_Snapshot net_acl) =
  [MkACLEntry "r1" "db one" "10.0.0.5" 5432 "tcp" ["spiffe://ws/client/d1"] "connector" "" "rn1" "";
   MkACLEntry "r2" "db two" "10.0.0.5" 5432 "tcp" ["spiffe://ws/client/d2"] "connector" "" "rn2" ""].
Proof. by vm_compute. Qed.

(** an address used in two networks of a workspace crosses them.  The
    connectors of both networks get the same access list and match a request
    by address, port and protocol only, so the entry of the first network's
    resource decides for both: at the second network's connector the device
    allowed there is denied, and a device allowed only in the first network is
    let through to the second network's host. *)
Theorem same_address_crosses_networks transport lookup r :
  let acl := Some (ca_Snapshot net_acl) in
  let req := MkTunnelRequest "10.0.0.5" 5432 "tcp" in
  (rs_remote_network <$> resources net_policy !! "r1") ≠ (rs_remote_network <$> resources net_policy !! "r2") ∧
  may_access "ws" net_policy 0 "r2" "spiffe://ws/client/d2" ∧
  ¬ may_access "ws" net_policy 0 "r2" "spiffe://ws/client/d1" ∧
  (handle_stream true NotRevoked (Some req) acl "spiffe://ws/client/d2" transport acl true lookup r).1 = Answered AccessDenied ∧
  (handle_stream true NotRevoked (Some req) acl "spiffe://ws/client/d1" transport acl true lookup r).1 = DialTcp "10.0.0.5" 5432.
Proof.
  simpl. split; [done|]. rewrite <-!net_grants. unfold handle_stream, decide_access, resolve_resource, grants.
  simpl. rewrite net_entries. split_and!; [| |done..].
  - eexists. split; [right; left|]. split; [done|]. by apply list_elem_of_singleton.
  - intros (e & He & Hr & Hsp). repeat (apply elem_of_cons in He as [->|He]; [try done; by apply list_elem_of_singleton in Hsp|]).
    by apply elem_of_nil in He.
Qed.

(** The API offers the protocol "any"; no request matches an entry with it. *)
Lemma any_protocol_matches_no_tunnel address port e protocol :
  ae_Protocol e = "any" → to_ascii_lowercase protocol = "tcp" ∨ to_ascii_lowercase protocol = "udp" →
  matches_tuple address port protocol e = false.
Proof.
  intros He Hp. unfold matches_tuple, eq_ignore_ascii_case. rewrite He.
  rewrite (bool_decide_false (to_ascii_lowercase "any" = _)); [apply andb_false_r|].
  destruct Hp as [-> | ->]; by vm_compute.
Qed.

(** ** Names *)

Definition octet (n : Z) : Prop := 0 <= n <= 255.
Definition addr_wf (a : SocketAddr) : Prop :=
  match a.1 with V4 a b c d => octet a ∧ octet b ∧ octet c ∧ octet d | V6 _ => True end.

(** a destination given by name is dialled only as an address the filter
    allows.  When a request for a name gets as far as a host to dial, it is not
    UDP, the host is the text of the first allowed address the resolver
    returned, read back to that very address, and so an IP literal: neither
    loopback, link-local, multicast, broadcast, unspecified, in the range of
    the client's fake addresses, nor IPv6.  Without an allowed address there is
    no host. *)
Theorem names_dial_allowed_addresses lookup req host :
  is_name (tq_destination req) = true →
  (∀ addrs, lookup (tq_destination req) (tq_port req) = Some addrs → Forall addr_wf addrs) →
  dial_host lookup req = Some host →
  is_udp (tq_protocol req) = false ∧ is_name host = false ∧
  ∃ pre ip port post, lookup (tq_destination req) (tq_port req) = Some (pre ++ (ip, port) :: post) ∧
    parse_ip host = Some ip ∧ allowed_resolved ip = true ∧
    Forall (λ a : SocketAddr, allowed_resolved a.1 = false) pre.
Proof.
  unfold dial_host, resolve_target. intros Hn Hwf. rewrite Hn. destruct (is_udp (tq_protocol req)); [done|].
  unfold is_name in Hn. apply bool_decide_eq_true in Hn. rewrite Hn.
  destruct (lookup _ _) as [addrs|]; [|done]. specialize (Hwf addrs eq_refl).
  pose proof (pick_allowed_spec addrs []) as Hp. destruct (pick_allowed [] addrs) as [[ip port]|]; [|done].
  destruct Hp as (pre & post & -> & Hal & Hpre). destruct ip as [a b c d|]; [|done]. intros [= <-].
  apply Forall_app in Hwf as [_ Hwf]. apply Forall_cons_1 in Hwf as [(Ha & Hb & Hc & Hd) _]. simpl in *.
  pose proof (ipv4_text_parses a b c d Ha Hb Hc Hd) as Hparse.
  split; [done|]. split; [unfold is_name; rewrite bool_decide_eq_false; congruence|].
  exists pre, (V4 a b c d), port, post. done.
Qed.

Definition demo_lookup : string → Z → option (list SocketAddr) :=
  λ _ p, Some [(V6 [0; 0; 0; 0; 0; 0; 0; 1], p); (V4 127 0 0 1, p); (V4 10 1 2 30, p)].
Lemma names_dial_allowed_addresses_witness :
  dial_host demo_lookup (MkTunnelRequest "db.internal" 443 "tcp") = Some "10.1.2.30" ∧ is_name "10.1.2.30" = false.
Proof.
  split; [by vm_compute|].
  apply (names_dial_allowed_addresses demo_lookup (MkTunnelRequest "db.internal" 443 "tcp")); [by vm_compute| |by vm_compute].
  intros addrs [= <-]. repeat constructor; simpl; lia.
Defined.
