(* ===== verification/DataPlaneSafety.v ===== *)
(** * Sessions, policy and the serving state

    Streams are admitted while access lists are replaced, sessions cancelled,
    the serving state opens and closes, and the enforcer follows it.  Every
    task is cut at the points where it takes a lock: a handler into its
    decision, registration, second look and second gate check; an access-list
    message into the replacement and one cancellation per key; a sweep of the
    registry into one cancellation per session. *)

From Stdlib Require Import ZArith Lia.
From S2P Require Import Prelude Sql AclCompiler Authorization AuthorizationFacts NetTarget DataPlane DataPlaneFacts.
Open Scope Z_scope.

(** ** Transitions *)

Inductive phase := Decided | Registered (id : nat) | Checked (id : nat) | Running (id : nat) (epoch : Z).
Record handler := MkHandler {
  hd_spiffe : string; hd_req : TunnelRequest; hd_entry : ResourceAcl; hd_phase : phase;
  hd_stale : bool (* ghost: the list was replaced between the decision and the registration *)
}.
Definition hd_key (h : handler) : SessionKey := (hd_spiffe h, ra_resource_id (hd_entry h)).
Definition set_phase (p : phase) (h : handler) : handler := MkHandler (hd_spiffe h) (hd_req h) (hd_entry h) p (hd_stale h).
Definition set_stale (h : handler) : handler :=
  match hd_phase h with
  | Decided => MkHandler (hd_spiffe h) (hd_req h) (hd_entry h) Decided true
  | _ => h
  end.
Definition phase_id (p : phase) : option nat :=
  match p with Decided => None | Registered i | Checked i | Running i _ => Some i end.

Record dsys := DSys {
  d_now : time;
  d_tracker : AckTracker;
  d_policy : PolicyCache;
  d_reg : SessionRegistry;
  d_pending : list SessionKey; (* keys an access-list message still has to cancel *)
  d_fc : FailClosed;
  d_todo : list enforcement; (* what the enforcer's turn still has to do *)
  d_sweep : option (gset nat); (* sessions the sweep under way still has to visit *)
  d_handlers : gmap nat handler
}.

Definition end_handler (h : handler) (r : SessionRegistry) : SessionRegistry :=
  match phase_id (hd_phase h) with Some i => unregister (hd_key h) i r | None => r end.

Inductive dstep (grace : duration) : dsys → dsys → Prop :=
| d_clock now now' t c r pd fc td sw hs :
    now <= now' → dstep grace (DSys now t c r pd fc td sw hs) (DSys now' t c r pd fc td sw hs)
| d_serving e now t c r pd fc td sw hs :
    event_ok e t → closures t < 2 ^ 64 - 1 →
    dstep grace (DSys now t c r pd fc td sw hs) (DSys now (tracker_step e now t) c r pd fc td sw hs)
| d_decide i sp req e now t c r pd fc td sw hs :
    hs !! i = None → decide_access c sp req = Some e →
    dstep grace (DSys now t c r pd fc td sw hs)
      (DSys now t c r pd fc td sw (<[i := MkHandler sp req e Decided false]> hs))
| d_register i h tr now t c r pd fc td sw hs :
    hs !! i = Some h → hd_phase h = Decided →
    dstep grace (DSys now t c r pd fc td sw hs)
      (DSys now t c (register (hd_key h) (session_transport tr (hd_entry h)) r).2 pd fc td sw
         (<[i := set_phase (Registered (register (hd_key h) (session_transport tr (hd_entry h)) r).1) h]> hs))
| d_recheck i h id now t c r pd fc td sw hs :
    hs !! i = Some h → hd_phase h = Registered id →
    dstep grace (DSys now t c r pd fc td sw hs)
      (DSys now t c (if is_allowed c (ra_resource_id (hd_entry h)) (hd_spiffe h) then r else cancel_token id r)
         pd fc td sw (<[i := set_phase (Checked id) h]> hs))
| d_admit i h id now t c r pd fc td sw hs :
    hs !! i = Some h → hd_phase h = Checked id → admits (publish t) now = true →
    dstep grace (DSys now t c r pd fc td sw hs)
      (DSys now t c r pd fc td sw (<[i := set_phase (Running id (closures t)) h]> hs))
| d_end i h now t c r pd fc td sw hs :
    hs !! i = Some h →
    dstep grace (DSys now t c r pd fc td sw hs) (DSys now t c (end_handler h r) pd fc td sw (delete i hs))
| d_acl snap now t c r pd fc td sw hs :
    dstep grace (DSys now t c r pd fc td sw hs)
      (DSys now t (update_and_revoked snap c).2 r (elements (update_and_revoked snap c).1 ++ pd) fc td sw (set_stale <$> hs))
| d_cancel key pd1 pd2 now t c r fc td sw hs :
    dstep grace (DSys now t c r (pd1 ++ key :: pd2) fc td sw hs) (DSys now t c (cancel_all key r) (pd1 ++ pd2) fc td sw hs)
| d_turn now t c r pd fc hs :
    dstep grace (DSys now t c r pd fc [] None hs)
      (DSys now t c r pd (fail_closed_turn grace now (publish t) fc).1 (fail_closed_turn grace now (publish t) fc).2 None hs)
| d_timer fc' acts now t c r pd fc hs :
    fail_closed_timer now fc = Some (fc', acts) →
    dstep grace (DSys now t c r pd fc [] None hs) (DSys now t c r pd fc' acts None hs)
| d_sweep_start now t c r pd fc td hs :
    dstep grace (DSys now t c r pd fc (CancelEverySession :: td) None hs)
      (DSys now t c r pd fc (CancelEverySession :: td) (Some (every_session r)) hs)
| d_sweep_cancel id now t c r pd fc td sw hs :
    dstep grace (DSys now t c r pd fc td (Some sw) hs) (DSys now t c (cancel_token id r) pd fc td (Some (sw ∖ {[id]})) hs)
| d_sweep_gone id now t c r pd fc td sw hs :
    id ∉ every_session r →
    dstep grace (DSys now t c r pd fc td (Some sw) hs) (DSys now t c r pd fc td (Some (sw ∖ {[id]})) hs)
| d_sweep_end now t c r pd fc td hs :
    dstep grace (DSys now t c r pd fc (CancelEverySession :: td) (Some ∅) hs) (DSys now t c r pd fc td None hs)
| d_close now t c r pd fc td hs :
    dstep grace (DSys now t c r pd fc (CloseAllStreams :: td) None hs) (DSys now t c r pd fc td None hs)
| d_clear now t c r pd fc td hs :
    dstep grace (DSys now t c r pd fc (ClearPolicy :: td) None hs)
      (DSys now t (policy_clear c) r pd fc td None (set_stale <$> hs)).

Definition dsys_init (H : duration) : dsys :=
  DSys 0 (new H) policy_new registry_new [] (MkFailClosed 0 false None false) [] None ∅.

(** ** The registry *)

(** The session's token is not cancelled. *)
Definition alive (r : SessionRegistry) (id : nat) : Prop := ∃ s, tokens r !! id = Some s ∧ ss_cancelled s = false.

Lemma alive_cancel_token j r id : alive (cancel_token j r) id ↔ alive r id ∧ id ≠ j.
Proof.
  unfold alive, cancel_token. simpl. destruct (decide (id = j)) as [->|Hne].
  - rewrite lookup_alter_eq. destruct (tokens r !! j); simpl; naive_solver.
  - rewrite lookup_alter_ne by done. naive_solver.
Qed.
Lemma alive_cancel_all key r id : alive (cancel_all key r) id ↔ alive r id ∧ id ∉ registered key r.
Proof.
  unfold alive, cancel_all, cancel_ids. simpl. rewrite map_lookup_imap.
  destruct (tokens r !! id) as [s|]; simpl; [|naive_solver]. case_bool_decide; naive_solver.
Qed.
Lemma alive_register key tr r id :
  alive (register key tr r).2 id ↔ id = next_id r ∨ (id ≠ next_id r ∧ alive r id).
Proof.
  unfold alive, register. simpl. destruct (decide (id = next_id r)) as [->|Hne].
  - rewrite lookup_insert_eq. naive_solver.
  - rewrite lookup_insert_ne by done. naive_solver.
Qed.
Lemma alive_unregister key j r id : alive (unregister key j r) id ↔ alive r id.
Proof. unfold unregister. by case_match. Qed.

Lemma registered_register key tr r k :
  registered k (register key tr r).2 = (if decide (k = key) then {[next_id r]} else ∅) ∪ registered k r.
Proof.
  unfold registered at 1, register. simpl. case_decide as Hd; [subst; by rewrite lookup_insert_eq|].
  rewrite lookup_insert_ne by done. unfold registered. set_solver.
Qed.
Lemma registered_unregister key j r k id :
  id ∈ registered k r → (k, id) ≠ (key, j) → id ∈ registered k (unregister key j r).
Proof.
  unfold unregister, registered. intros Hid Hne. destruct (inner r !! key) as [ids|] eqn:Hk; [|done]. simpl.
  destruct (decide (k = key)) as [->|Hkk].
  - rewrite Hk in Hid. simpl in Hid. assert (id ≠ j) by congruence. case_bool_decide as Hb; [set_solver|].
    rewrite lookup_insert_eq. simpl. set_solver.
  - case_bool_decide; [rewrite lookup_delete_ne by done|rewrite lookup_insert_ne by done]; done.
Qed.
Lemma every_session_spec r id : id ∈ every_session r ↔ ∃ key, id ∈ registered key r.
Proof.
  unfold every_session, registered. rewrite elem_of_union_list. split.
  - intros (ids & ([k ids'] & -> & Hk%elem_of_map_to_list)%list_elem_of_fmap & Hid). exists k. by rewrite Hk.
  - intros [k Hid]. destruct (inner r !! k) as [ids|] eqn:Hk; [|set_solver]. exists ids. split; [|done].
    apply list_elem_of_fmap. exists (k, ids). by rewrite elem_of_map_to_list.
Qed.

#[local] Arguments register : simpl never.
#[local] Arguments update_and_revoked : simpl never.
#[local] Arguments fail_closed_turn : simpl never.

Lemma register_id key tr r : (register key tr r).1 = next_id r ∧ next_id (register key tr r).2 = S (next_id r).
Proof. done. Qed.

(** Handlers hold the sessions they registered, each its own. *)
Record reg_ok (r : SessionRegistry) (hs : gmap nat handler) : Prop := {
  rg_id i h id : hs !! i = Some h → phase_id (hd_phase h) = Some id →
    id ∈ registered (hd_key h) r ∧ (id < next_id r)%nat;
  rg_inj i j h h' id : hs !! i = Some h → hs !! j = Some h' →
    phase_id (hd_phase h) = Some id → phase_id (hd_phase h') = Some id → i = j
}.

(** Handlers changed without touching the ids they hold. *)
Lemma reg_ok_same r hs hs' :
  (∀ i h', hs' !! i = Some h' → phase_id (hd_phase h') = None ∨
     ∃ h, hs !! i = Some h ∧ hd_key h' = hd_key h ∧ phase_id (hd_phase h') = phase_id (hd_phase h)) →
  reg_ok r hs → reg_ok r hs'.
Proof.
  intros Hsame [Hid Hinj]. split.
  - intros i h' id Hi Hp. destruct (Hsame i h' Hi) as [?|(h & Hh & -> & He)]; [congruence|]. apply (Hid i h id); congruence.
  - intros i j h h' id Hi Hj Hp Hp'. destruct (Hsame i h Hi) as [?|(h1 & Hh1 & _ & He1)]; [congruence|].
    destruct (Hsame j h' Hj) as [?|(h2 & Hh2 & _ & He2)]; [congruence|]. eapply (Hinj i j h1 h2 id); congruence.
Qed.
Lemma reg_ok_registry r r' hs :
  (∀ k, registered k r' = registered k r) → next_id r' = next_id r → reg_ok r hs → reg_ok r' hs.
Proof. intros Hr Hn [Hid Hinj]. split; [|done]. intros i h id. rewrite Hr, Hn. apply Hid. Qed.

Lemma set_stale_same h : hd_key (set_stale h) = hd_key h ∧ hd_phase (set_stale h) = hd_phase h.
Proof. unfold set_stale. destruct h as [? ? ? [] ?]; done. Qed.

Lemma dstep_reg_ok grace s s' : dstep grace s s' → reg_ok (d_reg s) (d_handlers s) → reg_ok (d_reg s') (d_handlers s').
Proof.
  intros Hst Hok. destruct Hst; cbn [d_reg d_handlers] in *; try done.
  - eapply reg_ok_same; [|done]. intros j h' [[<- <-]|[_ Hj]]%lookup_insert_Some; [by left|right; eauto].
  - destruct Hok as [Hid Hinj]. split.
    + intros j h' id Hj Hp. rewrite registered_register. simpl.
      apply lookup_insert_Some in Hj as [[<- <-]|[_ Hj]].
      * simpl in Hp. simplify_eq. rewrite decide_True by done. split; [set_solver|]. simpl. lia.
      * destruct (Hid j h' id Hj Hp). split; [set_solver|]. simpl. lia.
    + intros j j' h1 h2 id Hj Hj' Hp Hp'.
      apply lookup_insert_Some in Hj as [[<- <-]|[_ Hj]], Hj' as [[<- <-]|[_ Hj']]; try done; simpl in *; simplify_eq.
      * destruct (Hid _ _ _ Hj' Hp'). lia.
      * destruct (Hid _ _ _ Hj Hp). lia.
      * by eapply Hinj.
  - apply (reg_ok_registry r); [by case_match..|]. eapply reg_ok_same; [|done].
    intros j h' [[<- <-]|[_ Hj]]%lookup_insert_Some; right; eauto. exists h. split_and!; try done. by rewrite H0.
  - eapply reg_ok_same; [|done]. intros j h' [[<- <-]|[_ Hj]]%lookup_insert_Some; right; eauto.
    exists h. split_and!; try done. by rewrite H0.
  - destruct Hok as [Hid Hinj]. split.
    + intros j h' id [Hne Hj]%lookup_delete_Some Hp. destruct (Hid j h' id Hj Hp) as [Hr Hn].
      unfold end_handler. destruct (phase_id (hd_phase h)) as [id0|] eqn:Hp0; [|done].
      split; [|unfold unregister; by case_match]. apply registered_unregister; [done|].
      intros Heq. injection Heq as _ _ ->. apply Hne. by eapply Hinj.
    + intros j j' h1 h2 id [_ Hj]%lookup_delete_Some [_ Hj']%lookup_delete_Some. by eapply Hinj.
  - eapply reg_ok_same; [|done]. intros j h' (h & <- & Hj)%lookup_fmap_Some. right. exists h.
    destruct (set_stale_same h) as [Hk ->]. by split_and!.
  - by apply (reg_ok_registry r).
  - by apply (reg_ok_registry r).
  - eapply reg_ok_same; [|done]. intros j h' (h & <- & Hj)%lookup_fmap_Some. right. exists h.
    destruct (set_stale_same h) as [Hk ->]. by split_and!.
Qed.

(** ** The serving state *)

(** One closure at most, and only of an open state; without one an open state
    stays open. *)
Definition closes (t t' : AckTracker) : Prop :=
  (closures t' = closures t ∧ (is_open (state t) = true → is_open (state t') = true)) ∨
  (closures t' = closures t + 1 ∧ is_open (state t) = true).

Lemma transition_closes to t : 0 <= closures t < 2 ^ 64 - 1 → closes t (transition to t).
Proof.
  intros Hc. unfold closes, transition. simpl. destruct (is_open (state t)) eqn:Ho; simpl; [|by left].
  destruct (is_open to); simpl; [by left|right]. by rewrite u64_succ_small.
Qed.

(** The expiry, then a change of state: of a closed state, when it expired. *)
Lemma expire_closes now t :
  0 <= closures t < 2 ^ 64 - 1 →
  expire now t = t ∨ (is_open (state t) = true ∧ closures (expire now t) = closures t + 1 ∧ state (expire now t) = Disabled).
Proof.
  intros Hc. unfold expire. destruct (is_open (state t)) eqn:Ho; [|by left]. destruct (deadline t) as [d|]; [|by left].
  destruct (d <=? now); [right|by left]. unfold transition. simpl. rewrite Ho. simpl. by rewrite u64_succ_small.
Qed.

Lemma expire_then to now t u :
  0 <= closures t < 2 ^ 64 - 1 →
  state u = state (expire now t) → closures u = closures (expire now t) → closes t (transition to u).
Proof.
  intros Hc Hs Hcl. destruct (expire_closes now t Hc) as [E|(Ho & Hc1 & Hd)].
  - rewrite E in *. destruct (transition_closes to u) as [|]; [lia| |]; unfold closes in *; rewrite ?Hs, ?Hcl in *; auto.
  - right. split; [|done]. unfold transition. simpl. rewrite Hs, Hd. simpl. lia.
Qed.
Lemma expire_alone now t : 0 <= closures t < 2 ^ 64 - 1 → closes t (expire now t).
Proof. intros Hc. destruct (expire_closes now t Hc) as [->|(Ho & ? & _)]; [by left|by right]. Qed.

Lemma step_closes e now t : 0 <= closures t < 2 ^ 64 - 1 → closes t (tracker_step e now t).
Proof.
  intros Hc. destruct e as [| | | | |seq|seq capable|sg]; simpl.
  - by apply expire_alone.
  - unfold stream_up. case_match; [by eapply expire_then|by apply expire_alone].
  - unfold stream_down. destruct (state (expire now t)) eqn:Hs; try by apply expire_alone.
    + by eapply expire_then.
    + by eapply expire_then.
  - by left.
  - unfold seq_for_replacement. case_match; by left.
  - unfold record_sent. case_match; by left.
  - destruct (on_ack seq capable now t) as [r t'] eqn:Ha. simpl.
    destruct (on_ack_inv _ _ _ _ _ _ Ha) as [[-> _]|(s & _ & _ & _ & _ & _ & _ & _ & _ & ->)]; [by apply expire_alone|].
    by eapply expire_then.
  - unfold on_terminal. destruct (terminal t); [by left|]. apply (transition_closes (terminal_state sg) (set_terminal sg t)). done.
Qed.

(** ** The enforcer follows *)

Definition enforcements : list (list enforcement) :=
  [[]; [CancelEverySession]; [CloseAllStreams];
   [CancelEverySession; CancelEverySession; CloseAllStreams; ClearPolicy];
   [CancelEverySession; CloseAllStreams; ClearPolicy]; [CloseAllStreams; ClearPolicy]; [ClearPolicy]].

Definition swept (td : list enforcement) (sw : option (gset nat)) (id : nat) : Prop :=
  match sw with Some ids => id ∈ ids | None => CancelEverySession ∈ td end.

Definition gate_ok (t : AckTracker) (r : SessionRegistry) (fc : FailClosed) (td : list enforcement) (sw : option (gset nat))
    (h : handler) : Prop :=
  match hd_phase h with
  | Running id ep =>
      ep <= closures t ∧ (ep = closures t → is_open (state t) = true) ∧
      (alive r id → seen_closures fc <= ep ∨ swept td sw id)
  | _ => True
  end.

Record gates_ok (H : duration) (s : dsys) : Prop := {
  gt_tracker : ∃ log, tracker_ok H (d_tracker s) (d_now s) log;
  gt_closures : 0 <= closures (d_tracker s);
  gt_seen : seen_closures (d_fc s) <= closures (d_tracker s);
  gt_todo : d_todo s ∈ enforcements;
  gt_clear : ClearPolicy ∈ d_todo s → is_terminal (state (d_tracker s)) = true ∧ seen_closures (d_fc s) = closures (d_tracker s);
  gt_sweep ids : d_sweep s = Some ids → head (d_todo s) = Some CancelEverySession;
  gt_handlers : map_Forall (λ _, gate_ok (d_tracker s) (d_reg s) (d_fc s) (d_todo s) (d_sweep s)) (d_handlers s)
}.

Lemma gate_ok_mono t r r' fc td sw h h' :
  hd_phase h' = hd_phase h → (∀ id, phase_id (hd_phase h) = Some id → alive r' id → alive r id) →
  gate_ok t r fc td sw h → gate_ok t r' fc td sw h'.
Proof. unfold gate_ok. intros -> Hal. destruct (hd_phase h); try done. intros (? & ? & ?). eauto 10. Qed.

Lemma gates_ok_registry H now t c c' r r' pd pd' fc td sw hs hs' :
  (∀ i h', hs' !! i = Some h' → gate_ok t r' fc td sw h' ∨ ∃ h, hs !! i = Some h ∧ hd_phase h' = hd_phase h) →
  (∀ i h id, hs !! i = Some h → phase_id (hd_phase h) = Some id → alive r' id → alive r id) →
  gates_ok H (DSys now t c r pd fc td sw hs) → gates_ok H (DSys now t c' r' pd' fc td sw hs').
Proof.
  intros Hh Hal [? ? ? ? ? ? Hf]; simpl in *. constructor; simpl; try done.
  intros i h' Hi. destruct (Hh i h' Hi) as [?|(h & Hj & Hp)]; [done|].
  eapply gate_ok_mono; [exact Hp|intros id; apply (Hal i h id Hj)|]. by apply (Hf i).
Qed.

Lemma gates_serving H e now t c r pd fc td sw hs :
  event_ok e t → closures t < 2 ^ 64 - 1 →
  gates_ok H (DSys now t c r pd fc td sw hs) → gates_ok H (DSys now (tracker_step e now t) c r pd fc td sw hs).
Proof.
  intros He Hc [[log Ht] Hcl Hse Htd Hclr Hsw Hf]; simpl in *.
  pose proof (step_closes e now t (conj Hcl Hc)) as Hcs. constructor; simpl; try done.
  - exists (log_accept e now t log). by apply tracker_step_ok.
  - destruct Hcs as [[-> _]|[-> _]]; lia.
  - destruct Hcs as [[-> _]|[-> _]]; lia.
  - intros [Hterm Hseen]%Hclr. destruct (to_terminal_state _ _ _ _ Ht Hterm) as [sg Hsg].
    destruct (terminal_stays _ _ _ _ e now sg Ht Hsg) as [_ ->]. split; [by destruct sg|].
    destruct Hcs as [[-> _]|[_ Ho]]; [done|]. by destruct (state t).
  - intros i h Hi. specialize (Hf i h Hi). unfold gate_ok in *. destruct (hd_phase h); try done.
    destruct Hf as (Hle & Hop & Hal). destruct Hcs as [[-> Hs]|[-> _]]; split_and!; try done; try lia; auto.
Qed.

Lemma turn_spec grace now snap fc :
  let '(fc', acts) := fail_closed_turn grace now snap fc in
  seen_closures fc' = sn_closures snap ∧ acts ∈ enforcements ∧
  (sn_closures snap = seen_closures fc ∨ CancelEverySession ∈ acts) ∧
  (ClearPolicy ∈ acts → is_terminal (sn_state snap) = true).
Proof.
  unfold fail_closed_turn. destruct (Z.eqb_spec (sn_closures snap) (seen_closures fc)) as [E|E], (sn_state snap); simpl;
    try rewrite E; (split; [try done; congruence|]); destruct (terminal_done fc); simpl;
    (split; [unfold enforcements; rewrite !elem_of_cons; tauto|]); (split; [rewrite ?elem_of_cons; tauto|]);
    rewrite ?elem_of_cons, ?elem_of_nil; try done; intuition discriminate.
Qed.

Lemma gates_turn H grace now t c r pd fc hs :
  gates_ok H (DSys now t c r pd fc [] None hs) →
  gates_ok H (DSys now t c r pd (fail_closed_turn grace now (publish t) fc).1 (fail_closed_turn grace now (publish t) fc).2 None hs).
Proof.
  intros [[log Ht] Hcl Hse Htd Hclr Hsw Hf]; simpl in *. pose proof (turn_spec grace now (publish t) fc) as Hturn.
  rewrite (to_published _ _ _ _ Ht) in *. destruct (fail_closed_turn _ _ _ _) as [fc' acts]. simpl in *.
  destruct Hturn as (Hs & Ha & Hor & Hterm). constructor; simpl; try done; [by exists log|lia|by split; [auto|]|].
  intros i h Hi. specialize (Hf i h Hi). unfold gate_ok in *. destruct (hd_phase h) as [| | |id ep]; try done. simpl in *.
  destruct Hf as (Hle & Hop & Hal). split; [done|]. split; [done|]. intros [?|?%elem_of_nil]%Hal; [|done].
  destruct Hor as [E|?]; [left; lia|by right].
Qed.

(** What the enforcer does next. *)
Lemma enforcements_tail a td : a :: td ∈ enforcements → td ∈ enforcements ∧ (a = ClearPolicy → td = []).
Proof.
  unfold enforcements. rewrite !elem_of_cons, elem_of_nil. intros Hin.
  split; [|intros ->]; repeat (destruct Hin as [Hin|Hin]; [simplify_eq; tauto|]); done.
Qed.

(** A step of the enforcer that keeps what it has seen: the sessions it still
    has to visit stay so, or were cancelled. *)
Lemma gates_enforcer H now t c c' r r' pd fc fc' td td' sw sw' hs hs' :
  gates_ok H (DSys now t c r pd fc td sw hs) → seen_closures fc' = seen_closures fc →
  td' ∈ enforcements → (ClearPolicy ∈ td' → ClearPolicy ∈ td) → (is_Some sw' → head td' = Some CancelEverySession) →
  (∀ i h', hs' !! i = Some h' → ∃ h, hs !! i = Some h ∧ hd_phase h' = hd_phase h) →
  (∀ i h id, hs !! i = Some h → phase_id (hd_phase h) = Some id → alive r' id →
     alive r id ∧ (swept td sw id → swept td' sw' id)) →
  gates_ok H (DSys now t c' r' pd fc' td' sw' hs').
Proof.
  intros [? ? ? ? ? ? Hf] Hse Htd Hclr Hhd Hhs Hal; simpl in *. constructor; simpl; rewrite ?Hse; eauto.
  intros i h' Hi. destruct (Hhs i h' Hi) as (h & Hj & Hp). specialize (Hf i h Hj). unfold gate_ok in *. rewrite Hp, Hse.
  specialize (Hal i h). destruct (hd_phase h) as [| | |id ep]; try done. destruct Hf as (? & ? & Hs).
  split_and!; try done. intros Ha. destruct (Hal id Hj eq_refl Ha) as [[?|?]%Hs Hsw]; auto.
Qed.

Lemma dstep_gates H grace s s' :
  dstep grace s s' → reg_ok (d_reg s) (d_handlers s) → gates_ok H s → gates_ok H s'.
Proof.
  intros Hst Hreg Hok.
  destruct Hst as [now now' t c r pd fc td sw hs Hle|e now t c r pd fc td sw hs He Hc|i sp req e now t c r pd fc td sw hs Hi Hd
    |i h tr now t c r pd fc td sw hs Hi Hp|i h id now t c r pd fc td sw hs Hi Hp|i h id now t c r pd fc td sw hs Hi Hp Ha
    |i h now t c r pd fc td sw hs Hi|snap now t c r pd fc td sw hs|key pd1 pd2 now t c r fc td sw hs|now t c r pd fc hs
    |fc' acts now t c r pd fc hs Htm|now t c r pd fc td hs|id now t c r pd fc td sw hs|id now t c r pd fc td sw hs Hid
    |now t c r pd fc td hs|now t c r pd fc td hs|now t c r pd fc td hs]; cbn [d_reg d_handlers] in Hreg.
  - destruct Hok as [[log Ht] ? ? ? ? ? ?]; simpl in *. constructor; simpl; try done. exists log. by eapply tracker_ok_later.
  - by apply gates_serving.
  - eapply gates_ok_registry; [| |exact Hok]; [|done].
    intros j h' [[<- <-]|[_ Hj]]%lookup_insert_Some; [by left|right; eauto].
  - eapply gates_ok_registry; [| |exact Hok].
    + intros j h' [[<- <-]|[_ Hj]]%lookup_insert_Some; [by left|right; eauto].
    + intros j h' id Hj Hid. rewrite alive_register. destruct (rg_id _ _ Hreg j h' id Hj Hid). intros [->|[_ ?]]; [lia|done].
  - eapply gates_ok_registry; [| |exact Hok].
    + intros j h' [[<- <-]|[_ Hj]]%lookup_insert_Some; [by left|right; eauto].
    + intros j h' id' _ _. case_match; [done|]. by rewrite alive_cancel_token; intros [? _].
  - eapply gates_ok_registry; [| |exact Hok]; [|done]. destruct Hok as [[log Ht] ? Hse ? ? ? ?]; simpl in *.
    intros j h' [[<- <-]|[_ Hj]]%lookup_insert_Some; [left|right; eauto]. unfold gate_ok. simpl. split; [lia|]. split; [|auto].
    rewrite (to_published _ _ _ _ Ht) in Ha. unfold admits, snapshot in Ha. simpl in Ha. by bool_simpl.
  - eapply gates_ok_registry; [| |exact Hok].
    + intros j h' [_ Hj]%lookup_delete_Some. right; eauto.
    + intros j h' id _ _. unfold end_handler. case_match; [by rewrite alive_unregister|done].
  - eapply gates_ok_registry; [| |exact Hok]; [|done].
    intros j h' (h & <- & Hj)%lookup_fmap_Some. right. exists h. split; [done|]. apply set_stale_same.
  - eapply gates_ok_registry; [| |exact Hok]; [right; eauto|]. intros j h' id _ _. by rewrite alive_cancel_all; intros [? _].
  - by apply gates_turn.
  - unfold fail_closed_timer in Htm. destruct (shield_close_at fc) as [a|]; [|done]. destruct (a <=? now); [|done].
    simplify_eq/=. eapply gates_enforcer; [exact Hok|done| | |by intros []|eauto| ].
    + unfold enforcements. rewrite !elem_of_cons. tauto.
    + by intros [?|?]%elem_of_cons.
    + intros i h id _ _ ?. split; [done|]. by intros ?%elem_of_nil.
  - eapply gates_enforcer; [exact Hok|done|apply Hok|done|done|eauto| ]. intros i h id Hi Hp ?. split; [done|]. intros _.
    apply every_session_spec. exists (hd_key h). by apply (rg_id _ _ Hreg i h id Hi).
  - eapply gates_enforcer; [exact Hok|done|apply Hok|done|intros _; by eapply (gt_sweep _ _ Hok)|eauto| ].
    intros i h id' _ _. rewrite alive_cancel_token. intros [? ?]. split; [done|]. simpl. set_solver.
  - eapply gates_enforcer; [exact Hok|done|apply Hok|done|intros _; by eapply (gt_sweep _ _ Hok)|eauto| ].
    intros i h id' Hi Hp ?. split; [done|]. simpl. rewrite elem_of_difference, elem_of_singleton. intros ?. split; [done|].
    intros ->. apply Hid, every_session_spec. exists (hd_key h). by apply (rg_id _ _ Hreg i h id Hi).
  - eapply gates_enforcer; [exact Hok|done|by apply (enforcements_tail CancelEverySession), Hok|by right|by intros []|eauto| ].
    intros i h id _ _ ?. split; [done|]. simpl. by intros ?%elem_of_empty.
  - eapply gates_enforcer; [exact Hok|done|by apply (enforcements_tail CloseAllStreams), Hok|by right|by intros []|eauto| ].
    intros i h id _ _ ?. split; [done|]. simpl. by intros [?|?]%elem_of_cons.
  - eapply gates_enforcer; [exact Hok|done|by apply (enforcements_tail ClearPolicy), Hok|by right|by intros []| | ].
    + intros j h' (h & <- & Hj)%lookup_fmap_Some. exists h. split; [done|]. apply set_stale_same.
    + intros i h id _ _ ?. split; [done|]. simpl. by intros [?|?]%elem_of_cons.
Qed.

(** ** Sessions follow the access list *)

Definition req_tuple (req : TunnelRequest) : string * Z * string :=
  (tq_destination req, tq_port req, to_ascii_lowercase (tq_protocol req)).

(** The list allows the session's pair, on its tuple unless the list changed
    between decision and registration; or its cancellation is on the way. *)
Definition authorised (c : PolicyCache) (pd : list SessionKey) (h : handler) : Prop :=
  hd_key h ∈ pd ∨
  ∃ snap, c = Some snap ∧ lists snap (hd_key h) ∧
    (hd_stale h = false → reaches snap (ra_resource_id (hd_entry h)) (req_tuple (hd_req h))).

Definition policy_ok (t : AckTracker) (c : PolicyCache) (pd : list SessionKey) (r : SessionRegistry) (h : handler) : Prop :=
  match hd_phase h with
  | Decided => hd_stale h = false → decide_access c (hd_spiffe h) (hd_req h) = Some (hd_entry h)
  | Registered id => alive r id → hd_stale h = true ∨ authorised c pd h ∨ is_terminal (state t) = true
  | Checked id => alive r id → authorised c pd h ∨ is_terminal (state t) = true
  | Running id _ => alive r id → authorised c pd h
  end.

Lemma decided_authorised c pd h :
  decide_access c (hd_spiffe h) (hd_req h) = Some (hd_entry h) → authorised c pd h.
Proof.
  destruct c as [snap|]; [|done]. intros (i & en & (Hi & Hm & _)%list_find_Some & Hsp & He)%decide_access_spec.
  right. exists snap. split; [done|]. apply list_elem_of_lookup_2 in Hi. unfold lists, reaches, hd_key. rewrite He. simpl.
  split; [by exists en|]. intros _. exists en. split; [done|]. split; [done|].
  unfold matches_tuple, eq_ignore_ascii_case in Hm. bool_simpl. unfold tuple_of, req_tuple. congruence.
Qed.

(** Replacing the list: who loses the pair or the tuple is cancelled. *)
Lemma authorised_update snap c pd h :
  authorised c pd h → authorised (update_and_revoked snap c).2 (elements (update_and_revoked snap c).1 ++ pd) h.
Proof.
  pose proof (update_and_revoked_spec snap c) as Hu. destruct (update_and_revoked snap c) as [rv c'].
  destruct Hu as [-> Hrv]. simpl. intros [Hpd|(old & -> & Hl & Ht)]; [left; apply elem_of_app; by right|].
  destruct (decide (hd_key h ∈ rv)) as [Hin|Hin]; [left; apply elem_of_app; left; by apply elem_of_elements|].
  right. exists snap. split; [done|]. rewrite Hrv in Hin.
  destruct (decide (hd_key h ∈ allow_set snap)) as [Hn|Hn]; rewrite allow_set_spec in Hn; [|by destruct Hin; eauto].
  split; [done|]. intros Hst. set (rid := ra_resource_id (hd_entry h)) in *.
  destruct (lists_dom _ _ _ Hl) as [T HT], (lists_dom _ _ _ Hn) as [T' HT']. fold rid in HT, HT'.
  destruct (decide (T = T')) as [E%(same_tuples_eq old snap rid T T' HT HT')|E]; [by apply E, Ht|].
  destruct Hin. exists old. split; [done|]. split; [done|]. right. by intros ?%(same_tuples_eq old snap rid T T' HT HT').
Qed.

(** Less alive, the same list. *)
Lemma policy_ok_mono t t' c pd r r' h :
  (∀ id, phase_id (hd_phase h) = Some id → alive r' id → alive r id) →
  (is_terminal (state t) = true → is_terminal (state t') = true) →
  policy_ok t c pd r h → policy_ok t' c pd r' h.
Proof. unfold policy_ok. intros Hal Ht. destruct (hd_phase h); naive_solver. Qed.

Lemma policy_acl snap t c pd r h :
  policy_ok t c pd r h →
  policy_ok t (update_and_revoked snap c).2 (elements (update_and_revoked snap c).1 ++ pd) r (set_stale h).
Proof.
  pose proof (authorised_update snap c pd h) as Hu.
  unfold policy_ok, set_stale. destruct (hd_phase h) eqn:Hp; simpl; rewrite ?Hp; [done|..]; tauto.
Qed.

(** The cancelled key: its sessions are not alive any more. *)
Lemma policy_cancel key pd1 pd2 t c r h :
  (∀ id, phase_id (hd_phase h) = Some id → id ∈ registered (hd_key h) r) →
  policy_ok t c (pd1 ++ key :: pd2) r h → policy_ok t c (pd1 ++ pd2) (cancel_all key r) h.
Proof.
  intros Hid. assert (∀ id, phase_id (hd_phase h) = Some id → alive (cancel_all key r) id →
    alive r id ∧ (authorised c (pd1 ++ key :: pd2) h → authorised c (pd1 ++ pd2) h)) as Hau.
  { intros id Hp. rewrite alive_cancel_all. intros [Ha Hn]. split; [done|]. intros [Hin|?]; [left|by right].
    assert (hd_key h ≠ key) by (intros <-; by apply Hn, Hid). set_solver. }
  unfold policy_ok. destruct (hd_phase h) as [|id|id|id ep]; [done|..]; intros Hok Ha; destruct (Hau id eq_refl Ha); naive_solver.
Qed.

Definition policies_ok (s : dsys) : Prop :=
  map_Forall (λ _, policy_ok (d_tracker s) (d_policy s) (d_pending s) (d_reg s)) (d_handlers s).

(** The phases of an admission. *)
Lemma policy_registered t c pd r h tr :
  hd_phase h = Decided → policy_ok t c pd r h →
  policy_ok t c pd (register (hd_key h) tr r).2 (set_phase (Registered (register (hd_key h) tr r).1) h).
Proof.
  unfold policy_ok. intros -> Hok. simpl. intros _. destruct (hd_stale h) eqn:Hst; [by left|right; left].
  by apply (decided_authorised c pd h), Hok.
Qed.
Lemma policy_checked t c pd r h id :
  hd_phase h = Registered id → policy_ok t c pd r h →
  policy_ok t c pd (if is_allowed c (ra_resource_id (hd_entry h)) (hd_spiffe h) then r else cancel_token id r) (set_phase (Checked id) h).
Proof.
  unfold policy_ok. intros -> Hok. simpl. destruct (is_allowed _ _ _) eqn:Hal; [|by rewrite alive_cancel_token; intros []].
  intros Ha. destruct (Hok Ha) as [Hst|?]; [|done]. left. right.
  destruct c as [snap|]; [|done]. exists snap. split; [done|]. split; [by apply is_allowed_lists|]. simpl. congruence.
Qed.
Lemma policy_running H now t log c pd r h id :
  tracker_ok H t now log → admits (publish t) now = true →
  hd_phase h = Checked id → policy_ok t c pd r h → policy_ok t c pd r (set_phase (Running id (closures t)) h).
Proof.
  intros Ht Ha. unfold policy_ok. intros -> Hok. simpl. intros Hal. destruct (Hok Hal) as [|Hterm]; [done|].
  rewrite (to_published _ _ _ _ Ht) in Ha. unfold admits, snapshot in Ha. simpl in Ha. bool_simpl. by destruct (state t).
Qed.

(** When the list is cleared no session runs any more. *)
Lemma policy_clear_ok H now t c pd r fc td hs i h :
  gates_ok H (DSys now t c r pd fc (ClearPolicy :: td) None hs) → hs !! i = Some h →
  policy_ok t c pd r h → policy_ok t (policy_clear c) pd r (set_stale h).
Proof.
  intros [_ _ _ Htd Hclr _ Hf] Hi Hok; simpl in *. specialize (Hf i h Hi). apply enforcements_tail in Htd as [_ Htd].
  specialize (Htd eq_refl) as ->.
  destruct Hclr as [Hterm Hseen]; [by left|]. unfold policy_ok, gate_ok, set_stale in *.
  destruct (hd_phase h) as [|id|id|id ep] eqn:Hp; simpl; rewrite ?Hp; [done|auto..].
  destruct Hf as (Hle & Hop & Hs). intros Ha. exfalso.
  destruct (Hs Ha) as [?|[?|?%elem_of_nil]%elem_of_cons]; [|done..].
  assert (is_open (state t) = true) as Ho by (apply Hop; lia). by destruct (state t).
Qed.

Lemma dstep_policy H grace s s' :
  dstep grace s s' → reg_ok (d_reg s) (d_handlers s) → gates_ok H s → policies_ok s → policies_ok s'.
Proof.
  intros Hst Hreg Hg Hok. unfold policies_ok in *.
  destruct Hst; cbn [d_tracker d_policy d_pending d_reg d_handlers] in *; try exact Hok.
  - destruct Hg as [[log Ht] _ _ _ _ _ _]; simpl in *. intros i h Hi. apply (policy_ok_mono t _ c pd r r); [done| |by apply (Hok i)].
    intros Hterm. destruct (to_terminal_state _ _ _ _ Ht Hterm) as [sg Hsg].
    destruct (terminal_stays _ _ _ _ e now sg Ht Hsg) as [_ ->]. by destruct sg.
  - apply map_Forall_insert_2; [|done]. by intros _.
  - apply map_Forall_insert_2; [by apply policy_registered, (Hok i)|]. intros j h' Hj.
    apply (policy_ok_mono t t c pd r); [|done|by apply (Hok j)]. intros id Hid. rewrite alive_register.
    destruct (rg_id _ _ Hreg j h' id Hj Hid). intros [->|[_ ?]]; [lia|done].
  - apply map_Forall_insert_2; [by apply policy_checked, (Hok i)|]. intros j h' Hj.
    apply (policy_ok_mono t t c pd r); [|done|by apply (Hok j)]. intros id' _. case_match; [done|].
    rewrite alive_cancel_token. by intros [].
  - destruct Hg as [[log Ht] _ _ _ _ _ _]. apply map_Forall_insert_2; [|done]. eapply policy_running; eauto.
  - apply map_Forall_delete. intros j h' Hj. apply (policy_ok_mono t t c pd r); [|done|by apply (Hok j)].
    intros id _. unfold end_handler. case_match; [by rewrite alive_unregister|done].
  - intros j h' (h & <- & Hj)%lookup_fmap_Some. by apply policy_acl, (Hok j).
  - intros j h Hj. apply policy_cancel; [|by apply (Hok j)]. intros id Hid. by apply (rg_id _ _ Hreg j h id).
  - intros j h Hj. apply (policy_ok_mono t t c pd r); [|done|by apply (Hok j)]. intros id' _. rewrite alive_cancel_token. by intros [].
  - intros j h' (h & <- & Hj)%lookup_fmap_Some. eapply policy_clear_ok; eauto.
Qed.

Lemma dsys_run_ok H grace s :
  rtc (dstep grace) (dsys_init H) s → reg_ok (d_reg s) (d_handlers s) ∧ gates_ok H s ∧ policies_ok s.
Proof.
  intros Hs. assert (reg_ok (d_reg (dsys_init H)) (d_handlers (dsys_init H)) ∧ gates_ok H (dsys_init H) ∧ policies_ok (dsys_init H)) as H0.
  { split; [by split|]. split; [|done]. constructor; simpl; try done; [|by left|by intros ?%elem_of_nil].
    exists []. apply tracker_run_ok, tr_new. }
  revert H0. generalize (dsys_init H), Hs. clear Hs. induction 1 as [|s1 s2 s3 Hst _ IH]; [done|].
  intros (Hr & Hg & Hp). apply IH. split; [by eapply dstep_reg_ok|]. split; [by eapply dstep_gates|by eapply dstep_policy].
Qed.


(** C12: a connector that is not authorized carries nothing.  When the enforcer
    has nothing left to do and has seen the last loss of authorization, and the
    connector is not serving, every tunnel that passed admission is cancelled;
    and a tunnel that is not cancelled was admitted since that loss.  Brief
    losses that ended before the enforcer looked count too. *)
Theorem closed_connector_carries_nothing H grace s i h id ep :
  rtc (dstep grace) (dsys_init H) s → d_handlers s !! i = Some h → hd_phase h = Running id ep →
  d_todo s = [] → d_sweep s = None → seen_closures (d_fc s) = sn_closures (publish (d_tracker s)) →
  (alive (d_reg s) id → ep = closures (d_tracker s) ∧ is_open (state (d_tracker s)) = true) ∧
  (is_open (sn_state (publish (d_tracker s))) = false → ¬ alive (d_reg s) id).
Proof.
  intros Hs Hi Hp Htd Hsw Hseen. destruct (dsys_run_ok H grace s Hs) as (_ & [[log Ht] _ _ _ _ _ Hf] & _).
  specialize (Hf i h Hi). unfold gate_ok in Hf. rewrite Hp, Htd, Hsw in Hf. destruct Hf as (Hle & Hop & Hal).
  rewrite (to_published _ _ _ _ Ht) in *. simpl in *.
  assert (alive (d_reg s) id → ep = closures (d_tracker s)) as He.
  { intros [?|?%elem_of_nil]%Hal; [lia|done]. }
  split; [auto|]. intros Hc Ha. rewrite (Hop (He Ha)) in Hc. done.
Qed.

(** ** Runs *)

Definition dp_H : duration := 100.
Definition dp_entry (port : Z) : ACLEntry := MkACLEntry "r" "db" "10.0.0.5" port "tcp" ["d1"] "connector" "" "rn" "".
Definition dp_snap (v port : Z) : ACLSnapshot := MkACLSnapshot "ws" v 0 [dp_entry port] [] "" "" [].
Definition dp_req : TunnelRequest := MkTunnelRequest "10.0.0.5" 22 "tcp".
Definition dp_acl : ResourceAcl := MkResourceAcl "r" ["d1"] "connector" "".
Definition dp_fc0 : FailClosed := MkFailClosed 0 false None false.
Definition dp_served : AckTracker := run_events [(0, TNextSeq); (0, TSent 1); (0, TAck 1 true)] (new dp_H).
Definition dp_hd (p : phase) (stale : bool) : handler := MkHandler "d1" dp_req dp_acl p stale.
Definition dp_reg1 : SessionRegistry := (register ("d1", "r") Tcp registry_new).2.

Lemma demo_serving c r pd hs :
  rtc (dstep 30) (DSys 0 (new dp_H) c r pd dp_fc0 [] None hs) (DSys 0 dp_served c r pd dp_fc0 [] None hs).
Proof.
  eapply rtc_l; [by apply (d_serving 30 TNextSeq)|]. eapply rtc_l; [by apply (d_serving 30 (TSent 1))|].
  eapply rtc_l; [by apply (d_serving 30 (TAck 1 true))|done].
Qed.

(** Admission of the request, from its decision on. *)
Lemma demo_admission c stale :
  is_allowed c "r" "d1" = true →
  rtc (dstep 30) (DSys 0 dp_served c registry_new [] dp_fc0 [] None {[0%nat := dp_hd Decided stale]})
    (DSys 0 dp_served c dp_reg1 [] dp_fc0 [] None {[0%nat := dp_hd (Running 0 0) stale]}).
Proof.
  intros Hal. eapply rtc_l.
  { by apply (d_register 30 0 (dp_hd Decided stale) Tcp). }
  rewrite insert_singleton_eq. eapply rtc_l.
  { apply (d_recheck 30 0 (dp_hd (Registered 0) stale) 0); [by rewrite lookup_singleton_eq|done]. }
  rewrite insert_singleton_eq. simpl. rewrite Hal. eapply rtc_l.
  { apply (d_admit 30 0 (dp_hd (Checked 0) stale) 0); [by rewrite lookup_singleton_eq|done|by vm_compute]. }
  by rewrite insert_singleton_eq.
Qed.

(** A tunnel is admitted under the first list. *)
Lemma demo_running :
  rtc (dstep 30) (dsys_init dp_H)
    (DSys 0 dp_served (Some (dp_snap 1 22)) dp_reg1 [] dp_fc0 [] None {[0%nat := dp_hd (Running 0 0) false]}).
Proof.
  eapply rtc_l; [apply (d_acl 30 (dp_snap 1 22))|]. etrans; [apply demo_serving|].
  eapply rtc_l; [by apply (d_decide 30 0 "d1" dp_req dp_acl)|]. by apply demo_admission.
Qed.


(** The connector is revoked and the enforcer takes a turn. *)
Definition dp_revoked : AckTracker := tracker_step (TTerminal SigRevoked) 0 dp_served.
Definition dp_done : FailClosed := (fail_closed_turn 30 0 (publish dp_revoked) dp_fc0).1.
Lemma demo_closed :
  rtc (dstep 30) (dsys_init dp_H)
    (DSys 0 dp_revoked (policy_clear (Some (dp_snap 1 22))) (cancel_token 0 dp_reg1) [] dp_done [] None
       (set_stale <$> {[0%nat := dp_hd (Running 0 0) false]})).
Proof.
  etrans; [apply demo_running|]. eapply rtc_l; [by apply (d_serving 30 (TTerminal SigRevoked))|].
  eapply rtc_l; [apply d_turn|].
  replace (fail_closed_turn 30 0 (publish (tracker_step (TTerminal SigRevoked) 0 dp_served)) dp_fc0).2
    with [CancelEverySession; CancelEverySession; CloseAllStreams; ClearPolicy] by (by vm_compute).
  eapply rtc_l; [apply d_sweep_start|]. eapply rtc_l; [apply (d_sweep_cancel 30 0)|].
  replace (every_session dp_reg1 ∖ {[0%nat]}) with (∅ : gset nat) by (by vm_compute).
  eapply rtc_l; [apply d_sweep_end|]. eapply rtc_l; [apply d_sweep_start|].
  eapply rtc_l; [apply (d_sweep_cancel 30 0)|].
  replace (every_session (cancel_token 0 dp_reg1) ∖ {[0%nat]}) with (∅ : gset nat) by (by vm_compute).
  replace (cancel_token 0 (cancel_token 0 dp_reg1)) with (cancel_token 0 dp_reg1) by (by vm_compute).
  eapply rtc_l; [apply d_sweep_end|]. eapply rtc_l; [apply d_close|]. eapply rtc_l; [apply d_clear|done].
Qed.

Lemma closed_connector_carries_nothing_witness :
  is_open (sn_state (publish dp_revoked)) = false ∧ ¬ alive (cancel_token 0 dp_reg1) 0.
Proof.
  split; [done|].
  by apply (closed_connector_carries_nothing dp_H 30 _ 0 (dp_hd (Running 0 0) false) 0 0 demo_closed).
Defined.

(** the second look at the list misses a changed tuple.  A list that moves
    a resource to another port, arriving between a request's decision and its
    registration, cancels the pair before the session exists; the second look
    asks for identity and resource only and finds them allowed.  The tunnel
    runs, not cancelled and with no cancellation to come, to a tuple that the
    list in force authorises for nobody. *)
Theorem stale_tuple_session :
  ∃ s h snap, rtc (dstep 30) (dsys_init dp_H) s ∧ d_handlers s !! 0%nat = Some h ∧ hd_phase h = Running 0 0 ∧
    alive (d_reg s) 0 ∧ d_pending s = [] ∧ d_policy s = Some snap ∧
    ∀ e, e ∈ as_Entries snap → tuple_of e ≠ req_tuple (hd_req h).
Proof.
  exists (DSys 0 dp_served (Some (dp_snap 2 2222)) dp_reg1 [] dp_fc0 [] None {[0%nat := dp_hd (Running 0 0) true]}),
    (dp_hd (Running 0 0) true), (dp_snap 2 2222). split.
  - eapply rtc_l; [apply (d_acl 30 (dp_snap 1 22))|]. etrans; [apply demo_serving|].
    eapply rtc_l; [by apply (d_decide 30 0 "d1" dp_req dp_acl)|].
    eapply rtc_l; [apply (d_acl 30 (dp_snap 2 2222))|].
    replace (elements (update_and_revoked (dp_snap 2 2222) (update_and_revoked (dp_snap 1 22) policy_new).2).1 ++
      elements (update_and_revoked (dp_snap 1 22) policy_new).1 ++ []) with ([] ++ [("d1", "r")]) by (by vm_compute).
    eapply rtc_l; [apply (d_cancel 30 ("d1", "r") [] [])|].
    replace (cancel_all ("d1", "r") registry_new) with registry_new by (by vm_compute).
    replace (set_stale <$> _) with ({[0%nat := dp_hd Decided true]} : gmap nat handler) by (by vm_compute).
    by apply demo_admission.
  - split; [done|]. split; [done|]. split; [by eexists|]. split; [done|]. split; [done|].
    by intros e ->%list_elem_of_singleton.
Qed.
