(* ===== verification/ResourceHost.v ===== *)
(** * Resource hosts (controller/internal/resource/store.go)

    The host of a resource is an IPv4 address or a DNS name; [NormalizeHost]
    decides which and fixes its stored form.  Go's [netip.ParseAddr] is modelled
    after the standard library; of an IPv6 address the code only asks whether it
    is one.  The agents read a stored host with Rust's parser (file
    [NetTarget]). *)

From Stdlib Require Import ZArith Lia Ascii.
From S2P Require Import Prelude GoText NetTarget.
Open Scope Z_scope.

(** ** [netip.ParseAddr] *)

Definition dot : ascii := "."%char.
Definition hyphen : ascii := "-"%char.
Definition is_digit : ascii → bool := in_range 48 57.

(** The loop of [parseIPv4Fields]: [val] and [digLen] of the current octet, and
    the octets before it. *)
Fixpoint parseIPv4Fields (val digLen : Z) (fields : list Z) (l : list ascii) : option (list Z) :=
  match l with
  | [] => if (length fields <? 3)%nat then None else Some (fields ++ [val])
  | c :: rest =>
      if is_digit c then
        if (digLen =? 1) && (val =? 0) then None
        else
          let val := val * 10 + (code c - 48) in
          if 255 <? val then None else parseIPv4Fields val (digLen + 1) fields rest
      else if c ≟ dot then
        if (digLen =? 0) || bool_decide (rest = []) then None
        else if (length fields =? 3)%nat then None
        else parseIPv4Fields 0 0 (fields ++ [val]) rest
      else None
  end.
Definition parseIPv4 (l : list ascii) : option (list Z) := parseIPv4Fields 0 0 [] l.

(** The groups of [parseIPv6]: [n] of the eight are left, and an ellipsis was
    read or not.  The answer: the groups left and the ellipsis at the end. *)
Fixpoint ipv6_groups (n : nat) (ellipsis : bool) (s : list ascii) : option (nat * bool) :=
  match n with
  | O => if bool_decide (s = []) then Some (O, ellipsis) else None
  | S n' =>
      let '(ds, rest) := digits 16 s in
      if (4 <? length ds)%nat || bool_decide (ds = []) then None
      else
        match rest with
        | [] => Some (n', ellipsis)
        | c :: rest' =>
            if c ≟ dot then
              if negb ellipsis && negb (n =? 2)%nat then None
              else if (n <? 2)%nat then None
              else match parseIPv4 s with Some _ => Some (n - 2, ellipsis)%nat | None => None end
            else if negb (c ≟ colon) then None
            else match rest' with
                 | [] => None
                 | c' :: rest'' =>
                     if c' ≟ colon then
                       if ellipsis then None
                       else if bool_decide (rest'' = []) then Some (n', true)
                       else ipv6_groups n' true rest''
                     else ipv6_groups n' ellipsis rest'
                 end
        end
  end.

Definition parseIPv6 (l : list ascii) : bool :=
  let '(s, zone) := match cut_on "%"%char l with Some (s, z) => (s, Some z) | None => (l, None) end in
  if bool_decide (zone = Some []) then false
  else
    let '(ellipsis, s) := match s with
                          | c :: c' :: s' => if (c ≟ colon) && (c' ≟ colon) then (true, s') else (false, s)
                          | _ => (false, s)
                          end in
    if ellipsis && bool_decide (s = []) then true
    else match ipv6_groups 8 ellipsis s with
         | Some (missing, ellipsis) => Bool.eqb ellipsis (0 <? missing)%nat
         | None => false
         end.

Inductive netip_addr := Addr4 (octets : list Z) | Addr16.

(** The first dot, colon or percent sign decides. *)
Definition addr_marker (c : ascii) : bool := (c ≟ dot) || (c ≟ colon) || (c ≟ "%"%char).
Definition ParseAddr (l : list ascii) : option netip_addr :=
  match list_find (λ c, addr_marker c = true) l with
  | Some (_, c) =>
      if c ≟ dot then Addr4 <$> parseIPv4 l
      else if c ≟ colon then (if parseIPv6 l then Some Addr16 else None)
      else None
  | None => None
  end.

(** ** [NormalizeHost] *)

Inductive HostKind := HostIPv4 | HostName.
#[export] Instance HostKind_eq_dec : EqDecision HostKind.
Proof. solve_decision. Defined.

Definition label_char (c : ascii) : bool := in_range 97 122 c || is_digit c || (c ≟ hyphen).
Definition label_ok (l : list ascii) : bool :=
  negb (bool_decide (l = [])) && (length l <=? 63)%nat &&
  negb (bool_decide (head l = Some hyphen)) && negb (bool_decide (last l = Some hyphen)) &&
  forallb label_char l.

Definition trim_suffix_dot (l : list ascii) : list ascii :=
  if bool_decide (last l = Some dot) then removelast l else l.

(** [None] is [ErrInvalidHost]. *)
Definition normalize_name (h : list ascii) : option (list ascii) :=
  let name := to_lower (trim_suffix_dot h) in
  let labels := split_on dot name in
  if bool_decide (name = []) || (253 <? length name)%nat then None
  else if (length labels <? 2)%nat then None
  else if negb (forallb label_ok labels) then None
  else if negb (existsb (in_range 97 122) (default [] (last labels))) then None
  else Some name.

Definition NormalizeHost (host : string) : option (string * HostKind) :=
  let h := bytes (TrimSpace host) in
  match ParseAddr h with
  | Some (Addr4 [a; b; c; d]) =>
      if (bool_decide ([a; b; c; d] = [0; 0; 0; 0]) (* unspecified *)
          || ((224 <=? a) && (a <=? 239)) (* multicast *)
          || bool_decide ([a; b; c; d] = [255; 255; 255; 255]))
      then None else Some (of_bytes (ipv4_text a b c d), HostIPv4)
  | Some _ => None
  | None => (λ name, (of_bytes name, HostName)) <$> normalize_name h
  end.

(** [^[0-9.]+$], in Go and in SQL. *)
Definition ipv4HostPattern (l : list ascii) : bool :=
  negb (bool_decide (l = [])) && forallb (λ c, is_digit c || (c ≟ dot)) l.
Definition IsNameHost (host : string) : bool := negb (ipv4HostPattern (bytes host)).

(** ** Facts *)

Example host_examples :
  NormalizeHost " 10.0.0.5 " = Some ("10.0.0.5", HostIPv4) ∧
  NormalizeHost "DB.Internal.example.com." = Some ("db.internal.example.com", HostName) ∧
  NormalizeHost "10.0.0.05" = None ∧ NormalizeHost "10.0.0.5." = None ∧
  NormalizeHost "::ffff:10.0.0.5" = None ∧ NormalizeHost "fe80::1%eth0" = None ∧
  NormalizeHost "224.0.0.1" = None ∧ NormalizeHost "localhost" = None ∧
  NormalizeHost "-a.example" = None ∧ NormalizeHost "a.b1" = Some ("a.b1", HostName).
Proof. by vm_compute. Qed.

Example addr_examples :
  ParseAddr (bytes "::") = Some Addr16 ∧ ParseAddr (bytes "1:2:3:4:5:6:7:8") = Some Addr16 ∧
  ParseAddr (bytes "1::8") = Some Addr16 ∧ ParseAddr (bytes "1:2:3:4:5:6:7::8") = None ∧
  ParseAddr (bytes "64:ff9b::10.0.0.1") = Some Addr16 ∧ ParseAddr (bytes "1:2:3:4:5:6:1.2.3.4") = Some Addr16 ∧
  ParseAddr (bytes "1:2:3:4:5:1.2.3.4") = None ∧ ParseAddr (bytes "fe80::1%") = None ∧
  ParseAddr (bytes "1:2:3:4:5:6:7::") = Some Addr16 ∧ ParseAddr (bytes "12345::") = None.
Proof. by vm_compute. Qed.

(** *** Text without white space is trimmed to itself *)

Definition visible (c : ascii) : bool := in_range 33 126 c.

Lemma visible_starts_no_space encs l :
  forallb (λ e, match e with c :: _ => negb (visible c) | [] => false end) encs = true →
  match l with c :: _ => visible c = true | [] => True end → strip_one encs l = None.
Proof.
  intros He Hl. unfold strip_one. induction encs as [|e encs IH]; [done|].
  simpl in He. apply andb_prop in He as [He Hes]. destruct e as [|c e]; [done|].
  assert (strip_prefix (c :: e) l = None) as Hs.
  { destruct l as [|c' l]; simpl; [done|]. case_bool_decide; [|done]. subst. by rewrite Hl in He. }
  cbn -[strip_prefix]. rewrite Hs. by apply IH.
Qed.

Lemma trim_left_fuel_visible encs n l :
  forallb (λ e, match e with c :: _ => negb (visible c) | [] => false end) encs = true →
  Forall (λ c, visible c = true) l → trim_left_fuel encs n l = l.
Proof.
  intros He Hl. destruct n; [done|]. simpl. rewrite visible_starts_no_space; [done|done|].
  by destruct Hl.
Qed.

Lemma TrimSpace_visible l : Forall (λ c, visible c = true) l → bytes (TrimSpace (of_bytes l)) = l.
Proof.
  intros Hl. unfold TrimSpace, trim_right, trim_left. rewrite !bytes_of_bytes.
  rewrite (trim_left_fuel_visible space_encodings) by (done || by vm_compute).
  rewrite trim_left_fuel_visible; [apply reverse_involutive|by vm_compute|by apply Forall_reverse].
Qed.

(** *** IPv4 *)

Lemma parseIPv4Fields_chars l val digLen fields os :
  parseIPv4Fields val digLen fields l = Some os → forallb (λ c, is_digit c || (c ≟ dot)) l = true.
Proof.
  revert val digLen fields. induction l as [|c l IH]; [done|]. intros val digLen fields. simpl.
  destruct (is_digit c); simpl.
  - repeat (case_match; [done|]). eauto.
  - case_bool_decide; [|done]. repeat (case_match; [done|]). eauto.
Qed.

Definition octet (n : Z) : Prop := 0 <= n <= 255.

Lemma parseIPv4Fields_octets l val digLen fields os :
  parseIPv4Fields val digLen fields l = Some os →
  octet val → Forall octet fields → (length fields <= 3)%nat → Forall octet os ∧ length os = 4%nat.
Proof.
  revert val digLen fields. induction l as [|c l IH]; intros val digLen fields; simpl.
  - case_match eqn:E; [done|]. intros [= <-] Hv Hf Hl. apply Nat.ltb_ge in E.
    rewrite length_app. simpl. split; [|lia]. by rewrite Forall_app, Forall_singleton.
  - destruct (is_digit c) eqn:Hd.
    + case_match; [done|]. case_match eqn:E; [done|]. intros Hp Hv Hf Hl. eapply IH; eauto.
      unfold is_digit, in_range in Hd. unfold octet in *. bool_simpl. lia.
    + case_bool_decide; [|done]. case_match; [done|]. case_match eqn:E; [done|]. intros Hp Hv Hf Hl.
      apply Nat.eqb_neq in E. eapply IH; eauto; [by unfold octet; lia| |].
      * by rewrite Forall_app, Forall_singleton.
      * rewrite length_app. simpl. lia.
Qed.

Lemma parseIPv4_four l os : parseIPv4 l = Some os → ∃ a b c d, os = [a; b; c; d] ∧ octet a ∧ octet b ∧ octet c ∧ octet d.
Proof.
  intros H. apply parseIPv4Fields_octets in H as [Ho Hl]; [|by unfold octet; lia|done|simpl; lia].
  destruct os as [|a [|b [|c [|d [|]]]]]; try done. repeat (apply Forall_cons in Ho as [? Ho]). naive_solver.
Qed.

Lemma code_chr n : 0 <= n <= 255 → code (chr n) = n.
Proof.
  intros Hn. unfold code, chr. rewrite N_ascii_embedding; [lia|]. lia.
Qed.

Lemma parse_digit d val digLen fields rest :
  0 <= d <= 9 → 0 <= val → val * 10 + d <= 255 → ¬ (digLen = 1 ∧ val = 0) →
  parseIPv4Fields val digLen fields (chr (48 + d) :: rest) = parseIPv4Fields (val * 10 + d) (digLen + 1) fields rest.
Proof.
  intros Hd Hv Hb Hz. simpl. unfold is_digit, in_range. rewrite code_chr by lia.
  replace (48 <=? 48 + d) with true by lia. replace (48 + d <=? 57) with true by lia. simpl.
  replace ((digLen =? 1) && (val =? 0)) with false by lia.
  replace (255 <? val * 10 + (48 + d - 48)) with false by lia. f_equal. lia.
Qed.

(** The text of an octet, then the end or a dot. *)
Lemma parse_octet_text n fields rest :
  octet n → ∃ k, 1 <= k ∧ parseIPv4Fields 0 0 fields (octet_text n ++ rest) = parseIPv4Fields n k fields rest.
Proof.
  intros [H0 H1]. pose proof (Z.div_mod n 10 ltac:(lia)). pose proof (Z.mod_pos_bound n 10 ltac:(lia)).
  pose proof (Z.div_mod (n / 10) 10 ltac:(lia)). pose proof (Z.mod_pos_bound (n / 10) 10 ltac:(lia)).
  pose proof (Z.div_div n 10 10 ltac:(lia) ltac:(lia)) as Hdd. change (10 * 10) with 100 in Hdd.
  unfold octet_text. destruct (Z.ltb_spec n 100); destruct (Z.ltb_spec n 10); try lia.
  - exists 1. split; [lia|]. cbn [app]. rewrite parse_digit by lia. f_equal; lia.
  - exists 2. split; [lia|]. cbn [app]. rewrite !parse_digit by lia. f_equal; lia.
  - exists 3. split; [lia|]. cbn [app]. rewrite !parse_digit by lia. f_equal; lia.
Qed.

Lemma parse_dot val digLen fields rest :
  1 <= digLen → (length fields < 3)%nat → rest ≠ [] →
  parseIPv4Fields val digLen fields (dot :: rest) = parseIPv4Fields 0 0 (fields ++ [val]) rest.
Proof.
  intros Hd Hl Hr. cbn [parseIPv4Fields]. change (is_digit dot) with false.
  rewrite bool_decide_true, (bool_decide_false (rest = [])) by done.
  replace (digLen =? 0) with false by lia. destruct (Nat.eqb_spec (length fields) 3); [lia|]. done.
Qed.

Lemma octet_text_cons n : ∃ c l, octet_text n = c :: l.
Proof. unfold octet_text. repeat case_match; simpl; eauto. Qed.

Lemma parse_octet_dot n m fields rest :
  octet n → (length fields < 3)%nat →
  parseIPv4Fields 0 0 fields (octet_text n ++ dot :: octet_text m ++ rest) =
  parseIPv4Fields 0 0 (fields ++ [n]) (octet_text m ++ rest).
Proof.
  intros Hn Hl. destruct (parse_octet_text n fields (dot :: octet_text m ++ rest) Hn) as (k & Hk & ->).
  destruct (octet_text_cons m) as (c & l & ->). by apply parse_dot.
Qed.

Lemma parseIPv4_text a b c d :
  octet a → octet b → octet c → octet d → parseIPv4 (ipv4_text a b c d) = Some [a; b; c; d].
Proof.
  intros Ha Hb Hc Hd. unfold parseIPv4, ipv4_text. fold dot.
  rewrite parse_octet_dot by (done || simpl; lia). simpl.
  rewrite parse_octet_dot by (done || simpl; lia). simpl.
  rewrite <-(app_nil_r (octet_text d)).
  rewrite parse_octet_dot by (done || simpl; lia). simpl.
  destruct (parse_octet_text d [a; b; c] [] Hd) as (k & _ & ->). done.
Qed.

Definition host_char (c : ascii) : bool := is_digit c || (c ≟ dot).

Lemma octet_text_digits n : octet n → forallb is_digit (octet_text n) = true.
Proof.
  intros [H0 H1]. pose proof (Z.mod_pos_bound n 10 ltac:(lia)). pose proof (Z.mod_pos_bound (n / 10) 10 ltac:(lia)).
  assert (∀ d, 0 <= d <= 9 → is_digit (chr (48 + d)) = true) as Hd.
  { intros d Hd. unfold is_digit, in_range. rewrite code_chr by lia. lia. }
  pose proof (Z.div_le_upper_bound n 100 9 ltac:(lia) ltac:(lia)). pose proof (Z.div_pos n 100 ltac:(lia) ltac:(lia)).
  unfold octet_text. repeat case_match; simpl; by rewrite !Hd by lia.
Qed.

Lemma digits_host_chars l : forallb is_digit l = true → forallb host_char l = true.
Proof.
  rewrite !forallb_forall. intros H c Hc. unfold host_char. by rewrite H.
Qed.

Lemma ipv4_text_chars a b c d :
  octet a → octet b → octet c → octet d → forallb host_char (ipv4_text a b c d) = true.
Proof.
  intros. unfold ipv4_text. rewrite !forallb_app. simpl. rewrite !forallb_app. simpl. rewrite !forallb_app. simpl.
  by rewrite !digits_host_chars by by apply octet_text_digits.
Qed.

Lemma host_char_visible c : host_char c = true → visible c = true.
Proof.
  unfold host_char, is_digit, visible, in_range. case_bool_decide; [by subst|]. rewrite orb_false_r. lia.
Qed.

Lemma find_marker_host_chars l i c :
  forallb host_char l = true → list_find (λ c, addr_marker c = true) l = Some (i, c) → c = dot.
Proof.
  rewrite forallb_forall. intros Hl (Hi & Hm & _)%list_find_Some.
  apply list_elem_of_lookup_2, list_elem_of_In, Hl in Hi.
  unfold addr_marker, host_char, is_digit, in_range in *. repeat case_bool_decide; subst; done.
Qed.

Lemma ParseAddr_text a b c d :
  octet a → octet b → octet c → octet d → ParseAddr (ipv4_text a b c d) = Some (Addr4 [a; b; c; d]).
Proof.
  intros Ha Hb Hc Hd. unfold ParseAddr.
  destruct (list_find _ (ipv4_text a b c d)) as [[i m]|] eqn:E.
  - apply find_marker_host_chars in E as ->; [|by apply ipv4_text_chars].
    rewrite bool_decide_true by done. by rewrite parseIPv4_text.
  - exfalso. apply list_find_None in E. rewrite Forall_forall in E. apply (E dot); [|done].
    unfold ipv4_text. fold dot. set_solver.
Qed.

Lemma ParseAddr_4 l os : ParseAddr l = Some (Addr4 os) → parseIPv4 l = Some os.
Proof.
  unfold ParseAddr. intros H. repeat case_match; try done. by apply fmap_Some in H as (? & ? & [= ->]).
Qed.

(** *** Names *)

Lemma split_on_elem sep l lbl c : lbl ∈ split_on sep l → c ∈ lbl → c ∈ l.
Proof.
  revert lbl. induction l as [|x l IH]; intros lbl; simpl.
  - rewrite list_elem_of_singleton. by intros -> ?%elem_of_nil.
  - case_bool_decide; [|destruct (split_on sep l) as [|p ps] eqn:E].
    + rewrite elem_of_cons. intros [->|Hl]; [by intros ?%elem_of_nil|]. intros. right. eauto.
    + rewrite list_elem_of_singleton. intros -> ->%list_elem_of_singleton. left.
    + rewrite elem_of_cons. intros [->|Hl] Hc.
      * apply elem_of_cons in Hc as [->|Hc]; [left|]. right. eapply IH; [left|done].
      * right. eapply IH; [right|]; done.
Qed.

Lemma split_on_nonempty sep l : split_on sep l ≠ [].
Proof. destruct l as [|x l]; simpl; [done|]. case_bool_decide; [done|]. by destruct (split_on sep l). Qed.

Lemma split_on_cover sep l c : c ∈ l → c = sep ∨ ∃ lbl, lbl ∈ split_on sep l ∧ c ∈ lbl.
Proof.
  induction l as [|x l IH]; [by intros ?%elem_of_nil|]. intros Hc. simpl.
  apply elem_of_cons in Hc as [->|Hc].
  - case_bool_decide; [by left|]. right.
    destruct (split_on sep l) as [|p ps]; eexists; split; left.
  - destruct (IH Hc) as [->|(lbl & Hl & Hcl)]; [by left|]. right. case_bool_decide.
    + exists lbl. split; [by right|done].
    + destruct (split_on sep l) as [|p ps]; [by apply elem_of_nil in Hl|].
      apply elem_of_cons in Hl as [->|Hl].
      * exists (x :: p). split; [left|by right].
      * exists lbl. split; [by right|done].
Qed.

Lemma split_on_snoc sep l : split_on sep (l ++ [sep]) = split_on sep l ++ [[]].
Proof.
  induction l as [|x l IH]; simpl; [by rewrite bool_decide_true by done|]. rewrite IH. case_bool_decide; [done|].
  destruct (split_on sep l) eqn:E; [by apply split_on_nonempty in E|done].
Qed.

Lemma to_lower_id l : Forall (λ c, code c < 128 ∧ lower_ascii c = c) l → to_lower l = l.
Proof.
  induction 1 as [|c l [Hc Hl] _ IH]; [done|].
  assert (to_lower (c :: l) = lower_ascii c :: to_lower l) as ->; [|by rewrite Hl, IH].
  destruct l as [|c1 [|c2 l]]; simpl; [done| |].
  - by replace (code c =? 196) with false by lia.
  - replace (code c =? 196) with false by lia. by replace (code c =? 226) with false by lia.
Qed.

Definition name_char (c : ascii) : bool := label_char c || (c ≟ dot).

(** What a normalised name is made of. *)
Definition name_form (n : list ascii) : Prop :=
  (0 < length n <= 253)%nat ∧ (2 <= length (split_on dot n))%nat ∧
  forallb label_ok (split_on dot n) = true ∧
  existsb (in_range 97 122) (default [] (last (split_on dot n))) = true.

Lemma normalize_name_form h n : normalize_name h = Some n → name_form n.
Proof.
  unfold normalize_name, name_form. intros H. repeat (case_match; [done|]). simplify_eq. bool_simpl.
  repeat match goal with
         | E : negb _ = false |- _ => apply negb_false_iff in E
         | E : (_ <? _)%nat = false |- _ => apply Nat.ltb_ge in E
         end.
  repeat split; try done. destruct (to_lower _); simpl; [done|lia].
Qed.

Lemma name_chars n : name_form n → forallb name_char n = true.
Proof.
  intros (_ & _ & Hl & _). rewrite forallb_forall in *. intros c Hc%list_elem_of_In. unfold name_char.
  destruct (split_on_cover dot n c Hc) as [->|(lbl & Hlbl%list_elem_of_In & Hcl%list_elem_of_In)]; [done|].
  specialize (Hl lbl Hlbl). unfold label_ok in Hl. repeat (apply andb_prop in Hl as [Hl ?]).
  match goal with H : forallb label_char lbl = true |- _ => rewrite forallb_forall in H; by rewrite H end.
Qed.

Lemma name_letter n : name_form n → ∃ c, c ∈ n ∧ in_range 97 122 c = true.
Proof.
  intros (_ & _ & _ & He). apply existsb_exists in He as (c & Hc%list_elem_of_In & Hr). exists c. split; [|done].
  destruct (last (split_on dot n)) as [lbl|] eqn:E; simpl in Hc; [|by apply elem_of_nil in Hc].
  apply last_Some_elem_of in E. by eapply split_on_elem.
Qed.

Lemma name_no_final_dot n : name_form n → last n ≠ Some dot.
Proof.
  intros (_ & _ & _ & He) Hl. apply last_Some in Hl as [l ->]. rewrite split_on_snoc, last_snoc in He. done.
Qed.

Lemma letter_not_host_char c : in_range 97 122 c = true → host_char c = false.
Proof. unfold host_char, is_digit, in_range. case_bool_decide; [by subst|]. rewrite orb_false_r. lia. Qed.

Lemma name_not_ipv4 n : name_form n → forallb host_char n = false.
Proof.
  intros (c & Hc%list_elem_of_In & Hr)%name_letter. apply not_true_iff_false. rewrite forallb_forall.
  intros H. specialize (H c Hc). by rewrite letter_not_host_char in H.
Qed.

Lemma name_char_cases c : name_char c = true → in_range 97 122 c = true ∨ is_digit c = true ∨ c = hyphen ∨ c = dot.
Proof. unfold name_char, label_char. repeat (rewrite orb_true_iff || rewrite bool_decide_eq_true). tauto. Qed.

Lemma name_char_lower c : name_char c = true → code c < 128 ∧ lower_ascii c = c ∧ visible c = true.
Proof.
  intros [H|[H|[->| ->]]]%name_char_cases; [| |by vm_compute|by vm_compute];
    unfold visible, lower_ascii, is_digit, in_range in *.
  - replace ((65 <=? code c) && (code c <=? 90)) with false by lia. repeat split; lia.
  - replace ((65 <=? code c) && (code c <=? 90)) with false by lia. repeat split; lia.
Qed.

Lemma ParseAddr_name n : name_form n → ParseAddr n = None.
Proof.
  intros Hn. unfold ParseAddr. destruct (list_find _ n) as [[i c]|] eqn:E; [|done].
  apply list_find_Some in E as (Hi & Hm & _). apply list_elem_of_lookup_2, list_elem_of_In in Hi.
  pose proof (name_chars n Hn) as Hc. rewrite forallb_forall in Hc. specialize (Hc c Hi).
  assert (c = dot) as ->.
  { unfold addr_marker in Hm. destruct (name_char_cases c Hc) as [H|[H|[->| ->]]]; [| |done|done];
      unfold is_digit, in_range in H; repeat case_bool_decide; subst; done. }
  rewrite bool_decide_true by done. destruct (parseIPv4 n) eqn:Hp; [|done].
  apply parseIPv4Fields_chars in Hp. by rewrite name_not_ipv4 in Hp.
Qed.

Lemma normalize_name_id n : name_form n → normalize_name n = Some n.
Proof.
  intros Hn. pose proof (name_no_final_dot n Hn) as Hd. unfold normalize_name, trim_suffix_dot.
  rewrite (bool_decide_false (last n = Some dot)) by done. rewrite to_lower_id.
  - destruct Hn as ([H0 H1] & H2 & -> & ->). rewrite bool_decide_false by (by intros ->; simpl in *; lia).
    destruct (Nat.ltb_spec 253 (length n)); [lia|]. destruct (Nat.ltb_spec (length (split_on dot n)) 2); [lia|]. done.
  - rewrite Forall_forall. intros c Hc%list_elem_of_In. pose proof (name_chars n Hn) as Hcs.
    rewrite forallb_forall in Hcs. specialize (Hcs c Hc). by apply name_char_lower in Hcs as (? & ? & _).
Qed.

Lemma name_visible n : name_form n → Forall (λ c, visible c = true) n.
Proof.
  intros Hn. rewrite Forall_forall. intros c Hc%list_elem_of_In. pose proof (name_chars n Hn) as Hcs.
  rewrite forallb_forall in Hcs. by apply Hcs, name_char_lower in Hc as (_ & _ & ?).
Qed.

(** *** What the agents make of a stored host *)

Lemma digits_split radix l ds rest :
  digits radix l = (ds, rest) → ∃ pre, l = pre ++ rest ∧ Forall (λ c, is_Some (to_digit radix c)) pre.
Proof.
  revert ds. induction l as [|c l IH]; intros ds; simpl.
  - intros [= <- <-]. by exists [].
  - destruct (to_digit radix c) as [d|] eqn:Hd; [|by intros [= <- <-]; exists []].
    destruct (digits radix l) as [ds' r] eqn:E. intros [= <- <-].
    destruct (IH _ eq_refl) as (pre & -> & Hp). exists (c :: pre). split; [done|]. by constructor.
Qed.

Lemma read_number_split radix m z b l v rest :
  read_number radix m z b l = Some (v, rest) → ∃ pre, l = pre ++ rest ∧ Forall (λ c, is_Some (to_digit radix c)) pre.
Proof.
  unfold read_number. destruct (digits radix l) as [ds r] eqn:E. intros (? & _ & [= _ ->])%fmap_Some.
  by eapply digits_split.
Qed.

Lemma to_digit_10 c : is_Some (to_digit 10 c) → is_digit c = true.
Proof.
  unfold to_digit, is_digit, in_range. intros [d H]. repeat case_match; try done; lia.
Qed.

Lemma read_octet_host l v rest :
  read_octet l = Some (v, rest) → forallb host_char rest = true → forallb host_char l = true.
Proof.
  intros (pre & -> & Hp)%read_number_split Hr. rewrite forallb_app, Hr, andb_true_r. apply digits_host_chars.
  rewrite forallb_forall. intros c Hc%list_elem_of_In. rewrite Forall_forall in Hp. by apply to_digit_10, Hp.
Qed.

Lemma read_separated_octet_host i l v rest :
  read_separator dot (S i) read_octet l = Some (v, rest) →
  forallb host_char rest = true → forallb host_char l = true.
Proof.
  simpl. destruct l as [|c l]; simpl; [done|]. case_bool_decide; [|done]. subst c. intros H Hr.
  by apply (read_octet_host _ _ _ H).
Qed.

Lemma read_ipv4_host l q : read_ipv4_addr l = Some (q, []) → forallb host_char l = true.
Proof.
  unfold read_ipv4_addr. fold dot. intros H.
  apply bind_Some in H as ([a l1] & H1 & H). apply bind_Some in H as ([b l2] & H2 & H).
  apply bind_Some in H as ([c l3] & H3 & H). apply bind_Some in H as ([d l4] & H4 & [= _ ->]).
  eapply read_octet_host, read_separated_octet_host, read_separated_octet_host, read_separated_octet_host; eauto.
Qed.

Lemma no_colon_no_separator {A} i (inner : list ascii → option A) l :
  colon ∉ l → read_separator colon (S i) inner l = None.
Proof. intros Hl. simpl. destruct l as [|c l]; simpl; [done|]. case_bool_decide; [|done]. set_solver. Qed.

Lemma read_groups_no_colon i n l : colon ∉ l → read_groups (S i) n l = ([], false, l).
Proof.
  intros Hl. destruct n as [|n]; [done|]. cbn [read_groups]. fold colon.
  rewrite !no_colon_no_separator by done. by destruct (1 <=? n)%nat.
Qed.

Lemma read_ipv6_colon l r : read_ipv6_addr l = Some r → colon ∈ l.
Proof.
  intros H. apply dec_stable. intros Hl. unfold read_ipv6_addr in H.
  assert (∀ rest, colon ∉ rest → read_given_char colon rest = None) as Hn.
  { intros [|c rest] Hr; simpl; [done|]. case_bool_decide; [set_solver|done]. }
  remember 7%nat as seven eqn:E7. replace 8%nat with (S seven) in H by lia. cbn [read_groups read_separator] in H.
  replace (1 <=? seven)%nat with true in H by (by subst).
  destruct (read_ipv4_addr l) as [[[[[a b] c] d] l']|]; [by subst|].
  destruct (read_number 16 4 true 65535 l) as [[g l']|] eqn:En.
  - apply read_number_split in En as (pre & -> & _). assert (colon ∉ l') by set_solver.
    rewrite read_groups_no_colon in H by done. cbn in H. fold colon in H. subst seven. by rewrite Hn in H.
  - cbn in H. fold colon in H. subst seven. by rewrite Hn in H.
Qed.

Lemma parse_ip_name n : name_form n → parse_ip (of_bytes n) = None.
Proof.
  intros Hn. unfold parse_ip. rewrite bytes_of_bytes.
  destruct (read_ipv4_addr n) as [[[[[a b] c] d] rest]|] eqn:E4.
  - case_bool_decide; [|done]. subst. apply read_ipv4_host in E4. by rewrite name_not_ipv4 in E4.
  - destruct (read_ipv6_addr n) as [[gs rest]|] eqn:E6; [|done]. exfalso.
    apply read_ipv6_colon, list_elem_of_In in E6. pose proof (name_chars n Hn) as Hc.
    rewrite forallb_forall in Hc. by specialize (Hc _ E6).
Qed.

Lemma ipv4HostPattern_text a b c d :
  octet a → octet b → octet c → octet d → ipv4HostPattern (ipv4_text a b c d) = true.
Proof.
  intros. unfold ipv4HostPattern. rewrite bool_decide_false; [by apply ipv4_text_chars|].
  unfold ipv4_text. by destruct (octet_text_cons a) as (x & l & ->).
Qed.

(** What is known of a normalised host. *)
Definition canonical (v : string) (k : HostKind) : Prop :=
  NormalizeHost v = Some (v, k) ∧
  IsNameHost v = bool_decide (k = HostName) ∧
  match k with
  | HostIPv4 => ∃ a b c d, v = of_bytes (ipv4_text a b c d) ∧ parse_ip v = Some (V4 a b c d)
  | HostName => is_name v = true
  end.

Lemma normalized_canonical host v k : NormalizeHost host = Some (v, k) → canonical v k.
Proof.
  unfold canonical, NormalizeHost at 1. destruct (ParseAddr (bytes (TrimSpace host))) as [[os|]|] eqn:E.
  - apply ParseAddr_4 in E as Hp.
    destruct (parseIPv4_four _ _ Hp) as (a & b & c & d & -> & Ha & Hb & Hc & Hd). case_match eqn:Hr; [done|].
    intros [= <- <-]. split; [|split].
    + unfold NormalizeHost. rewrite TrimSpace_visible, ParseAddr_text by
        (done || by apply Forall_forall; intros x Hx%list_elem_of_In; apply host_char_visible;
                 revert x Hx; apply forallb_forall, ipv4_text_chars). by rewrite Hr.
    + unfold IsNameHost. by rewrite bytes_of_bytes, ipv4HostPattern_text.
    + exists a, b, c, d. split; [done|]. by apply ipv4_text_parses.
  - done.
  - intros (n & Hn%normalize_name_form & [= -> ->])%fmap_Some. split; [|split].
    + unfold NormalizeHost. rewrite TrimSpace_visible by by apply name_visible.
      by rewrite ParseAddr_name, normalize_name_id by done.
    + unfold IsNameHost, ipv4HostPattern. rewrite bytes_of_bytes. fold host_char.
      change (forallb (λ c, is_digit c || (c ≟ dot)) n) with (forallb host_char n).
      by rewrite name_not_ipv4, andb_false_r.
    + unfold is_name. by rewrite parse_ip_name, bool_decide_true by done.
Qed.

(** C39: a normalised host is canonical.  Normalising it again returns it with
    the same kind; the pattern by which Go and SQL tell names from addresses
    agrees with the kind; an address is the text of four octets, which Rust's
    parser in the agents reads back as that address; and no agent takes a name
    for an address. *)
Theorem NormalizeHost_canonical host v k :
  NormalizeHost host = Some (v, k) →
  NormalizeHost v = Some (v, k) ∧
  IsNameHost v = bool_decide (k = HostName) ∧
  match k with
  | HostIPv4 => ∃ a b c d, v = of_bytes (ipv4_text a b c d) ∧ parse_ip v = Some (V4 a b c d)
  | HostName => is_name v = true
  end.
Proof. apply normalized_canonical. Qed.

Lemma normalized_TrimSpace host v k : NormalizeHost host = Some (v, k) → TrimSpace v = v.
Proof.
  unfold NormalizeHost. intros E. rewrite <-(of_bytes_bytes (TrimSpace v)).
  destruct (ParseAddr (bytes (TrimSpace host))) as [[os|]|] eqn:Ea; [|done|].
  - apply ParseAddr_4, parseIPv4_four in Ea as (a & b & c & d & -> & Ha & Hb & Hc & Hd). case_match; [done|].
    simplify_eq. rewrite TrimSpace_visible; [done|]. apply Forall_forall. intros x Hx%list_elem_of_In.
    apply host_char_visible. revert x Hx. by apply forallb_forall, ipv4_text_chars.
  - apply fmap_Some in E as (n & Hn%normalize_name_form & [= -> ->]).
    by rewrite TrimSpace_visible by by apply name_visible.
Qed.

Lemma NormalizeHost_canonical_witness :
  NormalizeHost " DB.Example.com. " = Some ("db.example.com", HostName) ∧
  NormalizeHost "db.example.com" = Some ("db.example.com", HostName) ∧
  IsNameHost "db.example.com" = true ∧ is_name "db.example.com" = true.
Proof.
  split; [by vm_compute|].
  apply (NormalizeHost_canonical " DB.Example.com. " "db.example.com" HostName). by vm_compute.
Defined.
