(* ===== verification/ResourceStore.v ===== *)
(** * Protected resources (controller/internal/resource/store.go,
    controller/internal/shield/heartbeat.go,
    controller/internal/connector/resource_set.go)

    The resources table with its life cycle (unprotected, protecting to apply or
    to remove, protected, failed, deleting), the shields that enforce it, the
    acknowledgements that move it, and the desired-state snapshot of a shield
    with its generation.  The policy column, which a trigger fills, belongs to
    file [ResourcePolicy]; access rules of a deleted resource to [PolicyStore].
    [uuid.Parse], the database's reading of a uuid, SHA-256 in hexadecimal, and
    the row order of a query without ORDER BY are parameters. *)

From Stdlib Require Import ZArith Lia.
From stdpp Require Import pretty.
From S2P Require Import Prelude Sql GoText NetTarget ResourceHost.
Open Scope Z_scope.

(** ** Tables *)

Record ResRow := MkResRow {
  r_tenant : uuid; r_network : uuid; r_shield : option uuid; r_name : string; r_description : option string;
  r_protocol : string; r_host : string; r_port_from : Z; r_port_to : Z;
  r_status : string; r_action : string; r_error : option string;
  r_applied_at : option time; r_verified_at : option time; r_created_at : time; r_updated_at : time
}.

Record ShieldRow := MkShieldRow {
  sd_tenant : uuid; sd_network : uuid; sd_connector : uuid; sd_name : string; sd_status : string;
  sd_lan_ip : option string; sd_version : option string; sd_heartbeat_at : option time; sd_created_at : time;
  sd_generation : Z; sd_fingerprint : string
}.

Record ResDB := MkResDB {
  t_resources : gmap uuid ResRow;
  t_shields : gmap uuid ShieldRow;
  t_networks : gmap uuid (uuid * string); (* tenant, name *)
  t_connectors : gmap uuid (uuid * uuid * string); (* tenant, network, status *)
  t_workspaces : gmap uuid (option string) (* trust domain *)
}.

Definition set_resources (m : gmap uuid ResRow) (s : ResDB) : ResDB :=
  MkResDB m (t_shields s) (t_networks s) (t_connectors s) (t_workspaces s).
Definition set_shields (m : gmap uuid ShieldRow) (s : ResDB) : ResDB :=
  MkResDB (t_resources s) m (t_networks s) (t_connectors s) (t_workspaces s).

(** The columns an operation writes. *)
Definition set_state (status action : string) (r : ResRow) : ResRow :=
  MkResRow (r_tenant r) (r_network r) (r_shield r) (r_name r) (r_description r) (r_protocol r) (r_host r)
    (r_port_from r) (r_port_to r) status action (r_error r) (r_applied_at r) (r_verified_at r)
    (r_created_at r) (r_updated_at r).
Definition set_error (e : option string) (r : ResRow) : ResRow :=
  MkResRow (r_tenant r) (r_network r) (r_shield r) (r_name r) (r_description r) (r_protocol r) (r_host r)
    (r_port_from r) (r_port_to r) (r_status r) (r_action r) e (r_applied_at r) (r_verified_at r)
    (r_created_at r) (r_updated_at r).
Definition set_shield (sid : option uuid) (r : ResRow) : ResRow :=
  MkResRow (r_tenant r) (r_network r) sid (r_name r) (r_description r) (r_protocol r) (r_host r)
    (r_port_from r) (r_port_to r) (r_status r) (r_action r) (r_error r) (r_applied_at r) (r_verified_at r)
    (r_created_at r) (r_updated_at r).
Definition set_host (h : string) (r : ResRow) : ResRow :=
  MkResRow (r_tenant r) (r_network r) (r_shield r) (r_name r) (r_description r) (r_protocol r) h
    (r_port_from r) (r_port_to r) (r_status r) (r_action r) (r_error r) (r_applied_at r) (r_verified_at r)
    (r_created_at r) (r_updated_at r).
Definition touch (now : time) (r : ResRow) : ResRow :=
  MkResRow (r_tenant r) (r_network r) (r_shield r) (r_name r) (r_description r) (r_protocol r) (r_host r)
    (r_port_from r) (r_port_to r) (r_status r) (r_action r) (r_error r) (r_applied_at r) (r_verified_at r)
    (r_created_at r) now.

(** The CHECK constraints of the table. *)
Definition resource_statuses : list string :=
  ["pending"; "protecting"; "protected"; "unprotected"; "failed"; "deleting"].
Definition row_check (r : ResRow) : bool :=
  bool_decide (r_protocol r ∈ ["tcp"; "udp"; "any"]) && bool_decide (r_status r ∈ resource_statuses) &&
  bool_decide (r_action r ∈ ["apply"; "remove"]) &&
  (1 <=? r_port_from r) && (r_port_from r <=? 65535) && (1 <=? r_port_to r) && (r_port_to r <=? 65535) &&
  (r_port_from r <=? r_port_to r).

(** UNIQUE (tenant_id, remote_network_id, host, name), against the other rows. *)
Definition same_key (r1 r2 : ResRow) : Prop :=
  r_tenant r1 = r_tenant r2 ∧ r_network r1 = r_network r2 ∧ r_host r1 = r_host r2 ∧ r_name r1 = r_name r2.
#[export] Instance same_key_dec r1 r2 : Decision (same_key r1 r2).
Proof. unfold same_key. apply _. Defined.
Definition key_taken (id : uuid) (r : ResRow) (s : ResDB) : bool :=
  bool_decide (map_Exists (λ i r', i ≠ id ∧ same_key r r') (t_resources s)).

(** The foreign keys: network and shield of the same workspace. *)
Definition refs_ok (r : ResRow) (s : ResDB) : bool :=
  bool_decide (fst <$> t_networks s !! r_network r = Some (r_tenant r)) &&
  match r_shield r with
  | Some sid => bool_decide (sd_tenant <$> t_shields s !! sid = Some (r_tenant r))
  | None => true
  end.

(** Store a row, with the constraints of the table. *)
Definition store_row (id : uuid) (r : ResRow) (s : ResDB) : result sql_error ResDB :=
  if negb (row_check r) then Err CheckViolation
  else if negb (refs_ok r s) then Err ForeignKeyViolation
  else if key_taken id r s then Err UniqueViolation
  else Ok (set_resources (<[id := r]> (t_resources s)) s).

(** [UPDATE resources SET f WHERE id AND c RETURNING g]. *)
Definition update_resource {A} (id : uuid) (c : ResRow → bool) (f : ResRow → ResRow) (g : ResRow → A)
    : stmt ResDB (option A) := λ s,
  match t_resources s !! id with
  | Some r =>
      if c r then match store_row id (f r) s with Ok s' => Ok (Some (g r), s') | Err e => Err e end
      else Ok (None, s)
  | None => Ok (None, s)
  end.

(** [DELETE FROM resources WHERE id AND c]; true if a row went. *)
Definition delete_resource (id : uuid) (c : ResRow → bool) : stmt ResDB bool := λ s,
  match t_resources s !! id with
  | Some r => if c r then Ok (true, set_resources (delete id (t_resources s)) s) else Ok (false, s)
  | None => Ok (false, s)
  end.

Inductive resource_error :=
| ErrNoMatchingShield | ErrRemoteNetworkNotFound | ErrResourceNotFound | ErrUnprotectNotPossible
| ErrDeleteNotPossible | ErrDeleteNeedsUnprotect | ErrInvalidHost | ErrNameNeedsTCP | ErrNameProtectedMove
| ErrNameCollision | ErrResourceBusy | ErrProtectNoShield | ErrProtectNameNeedsShield
| ErrMissingResource (id : uuid) | ErrShieldRow | ErrNoTrustDomain.
Abbreviation resM A := (sqlM ResDB resource_error A).

(** ** Rows as they are read *)

(** The host a shield is told to protect. *)
Definition shieldHostSQL (r : ResRow) (s : option ShieldRow) : string :=
  if ipv4HostPattern (bytes (r_host r)) then r_host r
  else match s ≫= sd_lan_ip with
       | Some ip => if ip ≟ "" then r_host r else ip
       | None => r_host r
       end.
Definition bound_shield (s : ResDB) (r : ResRow) : option ShieldRow := r_shield r ≫= λ sid, t_shields s !! sid.

Record Row := MkRow {
  row_ID : uuid; row_Name : string; row_Description : option string; row_Host : string; row_Protocol : string;
  row_PortFrom : Z; row_PortTo : Z; row_Status : string; row_PendingAction : string;
  row_ErrorMessage : option string; row_AppliedAt : option time; row_LastVerifiedAt : option time;
  row_CreatedAt : time; row_ShieldID : string; row_ConnectorID : string; row_ShieldName : option string;
  row_ShieldStatus : option string; row_RemoteNetworkID : uuid; row_NetworkName : string; row_ShieldHost : string
}.

(** [resourceSelectCols] over [resourceJoins]. *)
Definition scanRow (s : ResDB) (id : uuid) (r : ResRow) : Row :=
  let sh := bound_shield s r in
  MkRow id (r_name r) (r_description r) (r_host r) (r_protocol r) (r_port_from r) (r_port_to r)
    (r_status r) (r_action r) (r_error r) (r_applied_at r) (r_verified_at r) (r_created_at r)
    (default "" (r_shield r)) (from_option sd_connector "" sh) (sd_name <$> sh) (sd_status <$> sh)
    (r_network r)
    (match t_networks s !! r_network r with
     | Some (tenant, name) => if tenant ≟ r_tenant r then name else ""
     | None => ""
     end)
    (shieldHostSQL r sh).

Record PendingRow := MkPendingRow {
  p_ID : uuid; p_Host : string; p_Protocol : string; p_PortFrom : Z; p_PortTo : Z; p_Action : string
}.
#[export] Instance PendingRow_eq_dec : EqDecision PendingRow.
Proof. solve_decision. Defined.
Definition pending_row (s : ResDB) (id : uuid) (r : ResRow) : PendingRow :=
  MkPendingRow id (shieldHostSQL r (bound_shield s r)) (r_protocol r) (r_port_from r) (r_port_to r) (r_action r).

(** The states in which a shield holds, or is to hold, the rule. *)
Definition enforced (r : ResRow) : bool :=
  (r_status r ≟ "protected") || (r_status r ≟ "failed") || ((r_status r ≟ "protecting") && (r_action r ≟ "apply")).
Definition being_removed (r : ResRow) : bool :=
  ((r_status r ≟ "protecting") && (r_action r ≟ "remove")) || (r_status r ≟ "deleting").
Definition connectorRouted (status : string) : bool := (status ≟ "pending") || (status ≟ "unprotected").

(** The shield is revoked, or there is none. *)
Definition shield_gone (s : ResDB) (r : ResRow) : bool :=
  from_option sd_status "revoked" (bound_shield s r) ≟ "revoked".

(** ** Operations *)

Section store.
Context (parse pg_uuid : string → option uuid) (sha256_hex : string → string) `{RowOrder}.

Definition with_id {A} (raw : string) (k : uuid → stmt ResDB A) : stmt ResDB A := λ s,
  match pg_uuid raw with Some id => k id s | None => Err InvalidText end.
Definition with_texts {A} (texts : list string) (f : stmt ResDB A) : stmt ResDB A := λ s,
  if forallb text_param_ok texts then f s else Err InvalidText.

Definition isResourceID (id : string) : bool := bool_decide (is_Some (parse id)).

(** The rows of a query. *)
Definition rows_where {A} (c : ResRow → bool) (f : uuid → ResRow → A) (s : ResDB) : list A :=
  ord (omap (λ kv, if c kv.2 then Some (f kv.1 kv.2) else None) (map_to_list (t_resources s))).

Definition AutoMatchShield (host : string) (tenant : uuid) (network : string) : resM uuid :=
  let! found := pool_stmt "auto-match shield" (with_texts [host] (with_id network (λ net,
    query (λ s, head (ord (omap (λ kv : uuid * ShieldRow,
      if (sd_lan_ip kv.2 ≟ Some host) && (sd_tenant kv.2 ≟ tenant) && (sd_network kv.2 ≟ net)
         && (sd_status kv.2 ≟ "active")
      then Some kv.1 else None) (map_to_list (t_shields s)))))))) in
  match found with Some sid => ret sid | None => fail ErrNoMatchingShield end.

Definition GetByID (tenant : uuid) (id : string) : resM Row :=
  if negb (isResourceID id) then fail ErrResourceNotFound
  else
    let! found := pool_stmt "get resource" (with_id id (λ rid, query (λ s,
      match t_resources s !! rid with
      | Some r => if r_tenant r ≟ tenant then Some (scanRow s rid r) else None
      | None => None
      end))) in
    match found with Some row => ret row | None => fail ErrResourceNotFound end.

(** ORDER BY created_at DESC. *)
Definition newest_first (l : list Row) : list Row := merge_sort (rel_on (flip Z.le) row_CreatedAt) l.

Definition GetByRemoteNetwork (tenant : uuid) (network : string) : resM (list Row) :=
  pool_stmt "list resources" (with_id network (λ net, query (λ s,
    newest_first (rows_where (λ r, (r_network r ≟ net) && (r_tenant r ≟ tenant)) (scanRow s) s)))).
Definition GetAll (tenant : uuid) : resM (list Row) :=
  pool_stmt "list all resources" (query (λ s, newest_first (rows_where (λ r, r_tenant r ≟ tenant) (scanRow s) s))).

Fixpoint pick_rows (byID : gmap uuid Row) (ids : list uuid) : result resource_error (list Row) :=
  match ids with
  | [] => Ok []
  | id :: ids =>
      match byID !! id with
      | None => Err (ErrMissingResource id)
      | Some row => let? rows := pick_rows byID ids in Ok (row :: rows)
      end
  end.
Definition GetByIDs (tenant : uuid) (ids : list uuid) : resM (list Row) :=
  if bool_decide (ids = []) then ret []
  else
    let! loaded := pool_stmt "get resources by IDs" (query (λ s,
      ord (omap (λ kv, if (r_tenant kv.2 ≟ tenant) && bool_decide (kv.1 ∈ ids) then Some (scanRow s kv.1 kv.2) else None)
             (map_to_list (t_resources s))))) in
    match pick_rows (list_to_map ((λ row, (row_ID row, row)) <$> reverse loaded)) ids with
    | Ok rows => ret rows
    | Err e => fail e
    end.

(** *** Create *)

Definition name_clash (tenant : uuid) (host network excludeID : string) (portFrom portTo : Z) (s : ResDB) : bool :=
  bool_decide (map_Exists (λ i r, r_tenant r = tenant ∧ r_host r = host ∧ r_network r ≠ network ∧ i ≠ excludeID ∧
                                  r_port_from r <= portTo ∧ portFrom <= r_port_to r) (t_resources s)).

(** The advisory lock, then the check. *)
Definition checkNameCollision (tenant : uuid) (host network excludeID : string) (portFrom portTo : Z) : resM () :=
  tx_stmt "check name collision: lock" (with_texts [host] (query (λ _, tt))) ;;;
  let! clash := tx_stmt "check name collision"
    (with_texts [host; network; excludeID] (query (name_clash tenant host network excludeID portFrom portTo))) in
  if clash then fail ErrNameCollision else ret tt.

Record CreateInput := MkCreateInput {
  ci_RemoteNetworkID : string; ci_Name : string; ci_Description : option string; ci_Host : string;
  ci_Protocol : string; ci_PortFrom : Z; ci_PortTo : Z
}.

(** INSERT ... SELECT from the network of the tenant; [None]: no such network.
    A port outside its CHECK may already be refused by the driver. *)
Definition insert_resource (now : time) (id tenant : uuid) (shield : option uuid) (host : string) (input : CreateInput)
    : stmt ResDB (option uuid) :=
  with_texts ([ci_Name input; ci_Protocol input; host] ++ option_list (ci_Description input))
    (with_id (ci_RemoteNetworkID input) (λ net s,
      match t_networks s !! net with
      | Some (owner, _) =>
          if owner ≟ tenant then
            let r := MkResRow tenant net shield (ci_Name input) (ci_Description input) (ci_Protocol input) host
                       (ci_PortFrom input) (ci_PortTo input) "unprotected" "remove" None None None now now in
            if bool_decide (is_Some (t_resources s !! id)) then Err UniqueViolation
            else match store_row id r s with Ok s' => Ok (Some id, s') | Err e => Err e end
          else Ok (None, s)
      | None => Ok (None, s)
      end)).

(** The transaction: the collision check for a name, then the insert. *)
Definition create_tx (now : time) (id tenant : uuid) (shield : option uuid) (host : string) (kind : HostKind)
    (input : CreateInput) : resM () :=
  with_tx "create resource" (
    (if kind ≟ HostName
     then checkNameCollision tenant host (ci_RemoteNetworkID input) "" (ci_PortFrom input) (ci_PortTo input)
     else ret tt) ;;;
    let! created := tx_stmt "create resource" (insert_resource now id tenant shield host input) in
    match created with
    | None => fail ErrRemoteNetworkNotFound
    | Some _ => commit_tx "create resource: commit"
    end).

(** [id]: the generated primary key. *)
Definition Create (now : time) (id tenant : uuid) (input : CreateInput) : resM Row :=
  match NormalizeHost (ci_Host input) with
  | None => fail ErrInvalidHost
  | Some (host, kind) =>
      if (kind ≟ HostName) && negb (ci_Protocol input ≟ "tcp") then fail ErrNameNeedsTCP
      else if negb (bool_decide (is_Some (parse (ci_RemoteNetworkID input)))) then fail ErrRemoteNetworkNotFound
      else
        let! shield :=
          match kind with
          | HostIPv4 =>
              let! found := attempt (AutoMatchShield host tenant (ci_RemoteNetworkID input)) in
              match found with
              | Ok sid => ret (if sid ≟ "" then None else Some sid)
              | Err (App ErrNoMatchingShield) => ret None
              | Err e => raise e
              end
          | HostName => ret None
          end in
        create_tx now id tenant shield host kind input ;;;
        GetByID tenant id
  end.

(** *** What a shield is to enforce *)

Definition pending_for (sid : uuid) (s : ResDB) : list PendingRow :=
  rows_where (λ r, (r_shield r ≟ Some sid) && ((r_status r ≟ "protecting") || (r_status r ≟ "deleting")))
    (pending_row s) s.
Definition GetPendingForShield (shieldID : string) : resM (list PendingRow) :=
  pool_stmt "get pending resources" (with_id shieldID (λ sid, query (pending_for sid))).

Definition desiredForShield (sid : uuid) (s : ResDB) : list PendingRow :=
  rows_where (λ r, (r_shield r ≟ Some sid) && enforced r) (pending_row s) s.
Definition GetDesiredForShield (shieldID : string) : resM (list PendingRow) :=
  pool_stmt "get desired resources" (with_id shieldID (λ sid, query (desiredForShield sid))).

Definition GetDeletingForShield (shieldID : string) : resM (list uuid) :=
  pool_stmt "get deleting resources" (with_id shieldID (λ sid, query (λ s,
    rows_where (λ r, (r_shield r ≟ Some sid) && (r_status r ≟ "deleting")) (λ id _, id) s))).

(** One line of the hashed text. *)
Definition desired_line (r : PendingRow) : string :=
  p_ID r +:+ "|" +:+ p_Host r +:+ "|" +:+ p_Protocol r +:+ "|" +:+
  pretty (p_PortFrom r) +:+ "|" +:+ pretty (p_PortTo r) +:+ String (chr 10) EmptyString.
Definition desired_text (rows : list PendingRow) : string :=
  foldr (λ r acc, desired_line r +:+ acc) "" (merge_sort (rel_on String.le p_ID) rows).
Definition fingerprintDesired (rows : list PendingRow) : string := sha256_hex (desired_text rows).

(** [gen++] on an int64. *)
Definition int64 (z : Z) : Z := (z + 2 ^ 63) mod 2 ^ 64 - 2 ^ 63.
(** [uint64(gen)]. *)
Definition uint64 (z : Z) : Z := z mod 2 ^ 64.

Definition set_snapshot (gen : Z) (fp : string) (sh : ShieldRow) : ShieldRow :=
  MkShieldRow (sd_tenant sh) (sd_network sh) (sd_connector sh) (sd_name sh) (sd_status sh) (sd_lan_ip sh)
    (sd_version sh) (sd_heartbeat_at sh) (sd_created_at sh) gen fp.
Definition bump_generation (sid : uuid) (gen : Z) (fp : string) (s : ResDB) : ResDB :=
  set_shields (alter (set_snapshot gen fp) sid (t_shields s)) s.

Record SnapshotResult := MkSnapshotResult { sn_Generation : Z; sn_Resources : list PendingRow }.

Definition BuildShieldSnapshot (shieldID : string) : resM SnapshotResult :=
  with_tx "snapshot tx" (
    let! found := tx_stmt "lock shield for snapshot" (with_id shieldID (λ sid, query (λ s,
      (λ sh, (sid, sd_generation sh, sd_fingerprint sh)) <$> t_shields s !! sid))) in
    match found with
    | None => fail ErrShieldRow
    | Some (sid, gen, storedFP) =>
        let! desired := tx_stmt "get desired resources" (query (desiredForShield sid)) in
        let fp := fingerprintDesired desired in
        let! gen' :=
          if fp ≟ storedFP then ret gen
          else
            let gen' := int64 (gen + 1) in
            tx_stmt "bump snapshot generation" (exec (λ s, (tt, bump_generation sid gen' fp s))) ;;; ret gen' in
        commit_tx "commit snapshot tx" ;;;
        ret (MkSnapshotResult (uint64 gen') desired)
    end).

(** What the shield sees of a row ([ResourceInstruction]). *)
Record ResourceInstruction := MkInstruction {
  in_ResourceId : string; in_Host : string; in_Protocol : string; in_PortFrom : Z; in_PortTo : Z; in_Action : string
}.
#[export] Instance ResourceInstruction_eq_dec : EqDecision ResourceInstruction.
Proof. solve_decision. Defined.
Definition int32 (z : Z) : Z := (z + 2 ^ 31) mod 2 ^ 32 - 2 ^ 31.
Definition instruction (action : string) (r : PendingRow) : ResourceInstruction :=
  MkInstruction (p_ID r) (p_Host r) (p_Protocol r) (int32 (p_PortFrom r)) (int32 (p_PortTo r)) action.

Record ResourceSetPayload := MkPayload {
  pl_trust_domain : string; pl_shield_id : string; pl_generation : Z;
  pl_resources : list ResourceInstruction; pl_removes : list ResourceInstruction
}.
#[export] Instance ResourceSetPayload_eq_dec : EqDecision ResourceSetPayload.
Proof. solve_decision. Defined.

(** The removes of the signed set, ORDER BY r.id. *)
Definition removes_for (sid : uuid) (s : ResDB) : list PendingRow :=
  merge_sort (rel_on String.le p_ID)
    (rows_where (λ r, (r_shield r ≟ Some sid) && being_removed r) (pending_row s) s).

(** The payload that [signResourceSet] signs. *)
Definition signResourceSet (shieldID : string) (generation : Z) (resources : list ResourceInstruction)
    : resM ResourceSetPayload :=
  let! found := pool_stmt "resource set: load shield" (with_id shieldID (λ sid, query (λ s,
    match t_shields s !! sid with
    | Some sh => default "" <$> t_workspaces s !! sd_tenant sh
    | None => None
    end))) in
  match found with
  | None => fail ErrShieldRow
  | Some trustDomain =>
      if trustDomain ≟ "" then fail ErrNoTrustDomain
      else
        let! removes := pool_stmt "resource set: removes" (with_id shieldID (λ sid, query (removes_for sid))) in
        ret (MkPayload trustDomain shieldID generation resources (instruction "remove" <$> removes))
  end.

(** [buildSnapshotMsg]: the two statements of the snapshot message, whose signed
    set is left out when it cannot be made. *)
Definition buildSnapshotMsg (shieldID : string) : resM (SnapshotResult * option ResourceSetPayload) :=
  let! snap := BuildShieldSnapshot shieldID in
  let! signed := attempt (signResourceSet shieldID (sn_Generation snap) (instruction "" <$> sn_Resources snap)) in
  ret (snap, match signed with Ok p => Some p | Err _ => None end).

(** *** Update *)

Record UpdateInput := MkUpdateInput {
  ui_RemoteNetworkID : option string; ui_Name : option string; ui_Description : option string;
  ui_Host : option string; ui_Protocol : option string; ui_PortFrom : option Z; ui_PortTo : option Z
}.
Record UpdateResult := MkUpdateResult {
  ur_Row : Row; ur_Moved : bool; ur_ShieldPushes : list (uuid * uuid) (* connector, shield *)
}.

Definition changedStr (input : option string) (cur : string) (trim : bool) : bool :=
  match input with
  | None => false
  | Some v => negb ((if trim then TrimSpace v else v) ≟ cur)
  end.
Definition changedInt (input : option Z) (cur : Z) : bool :=
  match input with None => false | Some v => negb (v =? cur) end.

Definition ACLRelevantUpdate (input : UpdateInput) : bool :=
  bool_decide (is_Some (ui_Name input)) || bool_decide (is_Some (ui_Host input)) ||
  bool_decide (is_Some (ui_Protocol input)) || bool_decide (is_Some (ui_PortFrom input)) ||
  bool_decide (is_Some (ui_RemoteNetworkID input)).

(** The columns of the UPDATE; [net]: the new network as the database reads it. *)
Definition update_row (now : time) (input : UpdateInput) (net : uuid) (shield : option uuid) (reprotect : bool)
    (r : ResRow) : ResRow :=
  MkResRow (r_tenant r) net shield (default (r_name r) (ui_Name input))
    (match ui_Description input with Some d => Some d | None => r_description r end)
    (default (r_protocol r) (ui_Protocol input)) (from_option TrimSpace (r_host r) (ui_Host input))
    (default (r_port_from r) (ui_PortFrom input)) (default (r_port_to r) (ui_PortTo input))
    (if reprotect then "protecting" else r_status r) (if reprotect then "apply" else r_action r)
    (if reprotect then None else r_error r)
    (r_applied_at r) (r_verified_at r) (r_created_at r) now.

(** The active shield on a host, oldest first. *)
Definition active_shield_on (tenant : uuid) (network host : string) (s : ResDB) : option (uuid * uuid) :=
  head (merge_sort (λ a b : uuid * uuid * time, a.2 <= b.2)
    (ord (omap (λ kv : uuid * ShieldRow,
      if (sd_tenant kv.2 ≟ tenant) && (sd_network kv.2 ≟ network) && (sd_lan_ip kv.2 ≟ Some host)
         && (sd_status kv.2 ≟ "active")
      then Some (kv.1, sd_connector kv.2, sd_created_at kv.2) else None)
      (map_to_list (t_shields s))))) ≫= λ t, Some t.1.

(** The refusals that the resulting values decide, before the collision check. *)
Definition update_refused (r : ResRow) (finalHost finalNetwork finalProtocol : string) : option resource_error :=
  if IsNameHost finalHost && negb (finalProtocol ≟ "tcp") then Some ErrNameNeedsTCP
  else if IsNameHost finalHost && enforced r && negb (finalNetwork ≟ r_network r) then Some ErrNameProtectedMove
  else None.

Definition update_shieldChanged (input : UpdateInput) (r : ResRow) (finalHost : string) : bool :=
  (changedStr (ui_Host input) (r_host r) true && negb (IsNameHost finalHost)) ||
  changedStr (ui_RemoteNetworkID input) (r_network r) false || changedStr (ui_Protocol input) (r_protocol r) false ||
  changedInt (ui_PortFrom input) (r_port_from r) || changedInt (ui_PortTo input) (r_port_to r).

(** A new network must belong to the tenant. *)
Definition check_network (tenant : uuid) (network : option string) : resM () :=
  match network with
  | None => ret tt
  | Some raw =>
      if negb (bool_decide (is_Some (parse raw))) then fail ErrRemoteNetworkNotFound
      else
        let! owned := tx_stmt "update resource: check remote network" (with_id raw (λ net, query (λ s,
          bool_decide (fst <$> t_networks s !! net = Some tenant)))) in
        if owned then ret tt else fail ErrRemoteNetworkNotFound
  end.

(** The shield an enforced resource moves to, if it moves. *)
Definition match_shield (tenant : uuid) (r : ResRow) (newHost newNetwork : string) (finalIsName : bool)
    : resM (option (uuid * uuid)) :=
  if enforced r && negb finalIsName && (negb (newHost ≟ r_host r) || negb (newNetwork ≟ r_network r)) then
    let! found := tx_stmt "update resource: match shield"
      (with_texts [newHost; newNetwork] (query (active_shield_on tenant newNetwork newHost))) in
    match found with
    | None => fail ErrNoMatchingShield
    | Some (sid, cid) => ret (if r_shield r ≟ Some sid then None else Some (sid, cid))
    end
  else ret None.

Definition update_stmt (now : time) (id tenant : uuid) (input : UpdateInput) (moved : option uuid) (reprotect : bool)
    : stmt ResDB (option ()) :=
  with_texts (option_list (ui_Name input) ++ option_list (ui_Description input) ++ option_list (ui_Host input) ++
              option_list (ui_Protocol input))
    (λ s, match from_option (λ raw, Some <$> pg_uuid raw) (Some None) (ui_RemoteNetworkID input) with
          | None => Err InvalidText
          | Some net =>
              update_resource id (λ r, r_tenant r ≟ tenant)
                (λ r, update_row now input (default (r_network r) net)
                        (match moved with Some sid => Some sid | None => r_shield r end) reprotect r)
                (λ _, tt) s
          end).

(** The body of the transaction: the moved shield with its connector, and the
    pushes. *)
Definition update_tx (now : time) (tenant : uuid) (id : string) (input : UpdateInput)
    : resM (bool * list (uuid * uuid)) :=
  let! found := tx_stmt "update resource" (with_id id (λ rid, query (λ s,
    match t_resources s !! rid with
    | Some r => if r_tenant r ≟ tenant then Some (rid, r, sd_connector <$> bound_shield s r) else None
    | None => None
    end))) in
  match found with
  | None => fail ErrResourceNotFound
  | Some (rid, r, connector) =>
      let finalHost := default (r_host r) (ui_Host input) in
      let finalNetwork := default (r_network r) (ui_RemoteNetworkID input) in
      let finalProtocol := default (r_protocol r) (ui_Protocol input) in
      let finalIsName := IsNameHost finalHost in
      match update_refused r finalHost finalNetwork finalProtocol with
      | Some e => fail e
      | None =>
          (if finalIsName
           then checkNameCollision tenant finalHost finalNetwork id
                  (default (r_port_from r) (ui_PortFrom input)) (default (r_port_to r) (ui_PortTo input))
           else ret tt) ;;;
          let shieldChanged := update_shieldChanged input r finalHost in
          if shieldChanged && being_removed r then fail ErrResourceBusy
          else
            check_network tenant (ui_RemoteNetworkID input) ;;;
            let! moved := match_shield tenant r (from_option TrimSpace (r_host r) (ui_Host input)) finalNetwork finalIsName in
            let reprotect := enforced r && shieldChanged in
            let pushes := (match moved with Some (sid, cid) => [(cid, sid)] | None => [] end) ++
              (if reprotect then
                 match r_shield r, connector with Some sid, Some cid => [(cid, sid)] | _, _ => [] end
               else []) in
            tx_stmt "update resource" (update_stmt now rid tenant input (fst <$> moved) reprotect) ;;;
            commit_tx "update resource: commit" ;;;
            ret (bool_decide (is_Some moved), pushes)
      end
  end.

Definition normalize_input (input : UpdateInput) : option UpdateInput :=
  match ui_Host input with
  | None => Some input
  | Some h =>
      (λ v : string * HostKind, MkUpdateInput (ui_RemoteNetworkID input) (ui_Name input) (ui_Description input)
        (Some v.1) (ui_Protocol input) (ui_PortFrom input) (ui_PortTo input)) <$> NormalizeHost h
  end.

Definition Update (now : time) (tenant : uuid) (id : string) (input : UpdateInput) : resM UpdateResult :=
  if negb (isResourceID id) then fail ErrResourceNotFound
  else match normalize_input input with
       | None => fail ErrInvalidHost
       | Some input =>
           let! done := with_tx "update resource" (update_tx now tenant id input) in
           let! row := GetByID tenant id in
           ret (MkUpdateResult row done.1 done.2)
       end.

(** *** The life cycle *)

(** The shield that MarkProtecting picks: the bound one if it qualifies. *)
Definition candidates (tenant : uuid) (chosen : string) (r : ResRow) (s : ResDB) : list uuid :=
  omap (λ kv : uuid * ShieldRow,
    if (sd_tenant kv.2 ≟ r_tenant r) && (sd_network kv.2 ≟ r_network r) && (sd_status kv.2 ≟ "active") &&
       (if ipv4HostPattern (bytes (r_host r))
        then (sd_lan_ip kv.2 ≟ Some (r_host r)) && ((chosen ≟ "") || (kv.1 ≟ chosen))
        else kv.1 ≟ chosen)
    then Some kv.1 else None) (map_to_list (t_shields s)).
Definition candidate (tenant : uuid) (chosen : string) (r : ResRow) (s : ResDB) : option uuid :=
  if (r_tenant r ≟ tenant) && bool_decide (r_status r ∈ ["pending"; "failed"; "unprotected"]) then
    let cs := ord (candidates tenant chosen r s) in
    if existsb (λ c, Some c ≟ r_shield r) cs then r_shield r else head cs
  else None.

Definition protect_row (now : time) (sid : uuid) (r : ResRow) : ResRow :=
  touch now (set_error None (set_state "protecting" "apply" (set_shield (Some sid) r))).

Definition MarkProtecting (now : time) (tenant : uuid) (id chosen : string) : resM Row :=
  if negb (isResourceID id) then fail ErrProtectNoShield
  else if negb (chosen ≟ "") && negb (isResourceID chosen) then fail ErrProtectNoShield
  else
    let! found := pool_stmt "protect resource" (with_texts [chosen] (with_id id (λ rid s,
      match t_resources s !! rid ≫= λ r, candidate tenant chosen r s with
      | Some sid => update_resource rid (λ _, true) (protect_row now sid) (λ _, tt) s
      | None => Ok (None, s)
      end))) in
    match found with
    | Some _ => GetByID tenant id
    | None =>
        if chosen ≟ "" then
          let! host := attempt (pool_stmt "host" (with_id id (λ rid, query (λ s,
            match t_resources s !! rid with
            | Some r => if r_tenant r ≟ tenant then Some (r_host r) else None
            | None => None
            end)))) in
          match host with
          | Ok (Some h) => fail (if IsNameHost h then ErrProtectNameNeedsShield else ErrProtectNoShield)
          | _ => fail ErrProtectNoShield
          end
        else fail ErrProtectNoShield
    end.

Definition MarkUnprotecting (now : time) (tenant : uuid) (id : string) : resM Row :=
  if negb (isResourceID id) then fail ErrUnprotectNotPossible
  else
    let! found := pool_stmt "unprotect resource" (with_id id (λ rid s,
      update_resource rid (λ r, (r_tenant r ≟ tenant) && (r_status r ≟ "protected"))
        (λ r, touch now (set_state (if shield_gone s r then "unprotected" else "protecting") "remove" r)) (λ _, tt) s)) in
    match found with Some _ => GetByID tenant id | None => fail ErrUnprotectNotPossible end.

Definition MarkDeleting (now : time) (tenant : uuid) (id : string) : resM Row :=
  if negb (isResourceID id) then fail ErrDeleteNotPossible
  else
    let! found := pool_stmt "mark deleting" (with_id id (λ rid,
      update_resource rid (λ r, (r_tenant r ≟ tenant) && ((r_status r ≟ "protected") || (r_status r ≟ "failed")))
        (λ r, touch now (set_state "deleting" "remove" r)) (λ _, tt))) in
    match found with Some _ => GetByID tenant id | None => fail ErrDeleteNotPossible end.

Definition DeleteRow (tenant : uuid) (id : string) : resM () :=
  if negb (isResourceID id) then fail ErrDeleteNeedsUnprotect
  else
    let! gone := pool_stmt "delete resource" (with_id id (λ rid,
      delete_resource rid (λ r, (r_tenant r ≟ tenant) && connectorRouted (r_status r)))) in
    if gone then ret tt else fail ErrDeleteNeedsUnprotect.

Definition DeleteIfShieldGone (tenant : uuid) (id : string) : resM bool :=
  pool_stmt "delete resource (shield gone)" (with_id id (λ rid s,
    delete_resource rid (λ r, (r_tenant r ≟ tenant) &&
      ((r_status r ≟ "protected") || (r_status r ≟ "failed") || (r_status r ≟ "deleting")) && shield_gone s r) s)).

Definition ForceDeleteRow (tenant : uuid) (id : string) : resM bool :=
  pool_stmt "force delete resource" (with_id id (λ rid, delete_resource rid (λ r, r_tenant r ≟ tenant))).

Record ReapedTombstone := MkReaped { rt_ID : uuid; rt_TenantID : uuid; rt_ShieldID : string; rt_ConnectorID : string }.

Definition stale_tombstone (now : time) (olderThan : duration) (r : ResRow) : bool :=
  (r_status r ≟ "deleting") && time_Before (r_updated_at r) (now - olderThan).
Definition ReapStaleTombstones (now : time) (olderThan : duration) : resM (list ReapedTombstone) :=
  pool_stmt "reap stale tombstones" (exec (λ s,
    (rows_where (stale_tombstone now olderThan)
       (λ id r, MkReaped id (r_tenant r) (default "" (r_shield r)) (from_option sd_connector "" (bound_shield s r))) s,
     set_resources (filter (λ kv, stale_tombstone now olderThan kv.2 = false) (t_resources s)) s))).

(** One tick of [RunTombstoneSweeper]: the tombstones handed to [onReaped]. *)
Definition sweep_tick (now : time) (grace : duration) : resM (list ReapedTombstone) :=
  let! reaped := attempt (ReapStaleTombstones now grace) in
  ret (match reaped with Ok l => l | Err _ => [] end).

Definition ReapTombstone (tenant : uuid) (shieldID resourceID : string) : resM bool :=
  pool_stmt "reap tombstone" (with_id shieldID (λ sid, with_id resourceID (λ rid,
    delete_resource rid (λ r, (r_tenant r ≟ tenant) && (r_shield r ≟ Some sid) && (r_status r ≟ "deleting"))))).

(** *** Acknowledgements *)

Record Ack := MkAck {
  a_ResourceID : string; a_Status : string; a_Error : string; a_VerifiedAt : Z; a_ShieldID : string;
  a_Host : string; a_Protocol : string; a_PortFrom : Z; a_PortTo : Z
}.

(** [to_timestamp]: the seconds a timestamp can hold. *)
Definition to_timestamp (secs : Z) : option time :=
  if (-210866803200 <=? secs) && (secs <? 9224318016000) then Some ((secs + unixToInternal) * Second) else None.

Definition ack_guard (s : ResDB) (ack : Ack) (r : ResRow) : bool :=
  let status := a_Status ack in
  negb (r_status r ≟ "deleting") &&
  negb ((r_status r ≟ "protecting") && (r_action r ≟ "remove") && negb (status ≟ "unprotected")) &&
  (negb (status ≟ "unprotected") || ((r_status r ≟ "protecting") && (r_action r ≟ "remove"))) &&
  (r_shield r ≟ Some (a_ShieldID ack)) &&
  (negb ((status ≟ "protected") || (status ≟ "failed")) ||
   ((shieldHostSQL r (t_shields s !! a_ShieldID ack) ≟ a_Host ack) && (r_protocol r ≟ a_Protocol ack) &&
    (r_port_from r =? a_PortFrom ack) && (r_port_to r =? a_PortTo ack))).

Definition ack_row (now verified : time) (ack : Ack) (r : ResRow) : ResRow :=
  MkResRow (r_tenant r) (r_network r) (r_shield r) (r_name r) (r_description r) (r_protocol r) (r_host r)
    (r_port_from r) (r_port_to r) (a_Status ack) (r_action r)
    (if a_Error ack ≟ "" then None else Some (a_Error ack))
    (match r_applied_at r with
     | None => if a_Status ack ≟ "protected" then Some now else None
     | Some t => Some t
     end) (Some verified) (r_created_at r) now.

(** [true]: the ACL compiler's output changed. *)
Definition RecordAck (now : time) (tenant : uuid) (ack : Ack) : resM bool :=
  let! reaped :=
    if a_Status ack ≟ "unprotected" then
      pool_stmt "record ack (reap)" (with_texts [a_ShieldID ack] (with_id (a_ResourceID ack) (λ rid,
        delete_resource rid (λ r, (r_tenant r ≟ tenant) && (r_status r ≟ "deleting") && (r_shield r ≟ Some (a_ShieldID ack))))))
    else ret false in
  if reaped then ret true
  else
    let! old := pool_stmt "record ack"
      (with_texts [a_Status ack; a_Error ack; a_ShieldID ack; a_Host ack; a_Protocol ack]
        (with_id (a_ResourceID ack) (λ rid s,
          match to_timestamp (a_VerifiedAt ack) with
          | None => Err InvalidText
          | Some verified =>
              update_resource rid (λ r, (r_tenant r ≟ tenant) && ack_guard s ack r) (ack_row now verified ack) r_status s
          end))) in
    ret (match old with
         | None => false
         | Some oldStatus => negb (Bool.eqb (connectorRouted oldStatus) (connectorRouted (a_Status ack)))
         end).

(** [handleResourceAcks]: whether the policy is notified. *)
Fixpoint handleResourceAcks (now : time) (tenant : uuid) (acks : list Ack) : resM bool :=
  match acks with
  | [] => ret false
  | ack :: acks =>
      let! changed := attempt (RecordAck now tenant ack) in
      let! rest := handleResourceAcks now tenant acks in
      ret ((match changed with Ok b => b | Err _ => false end) || rest)
  end.

(** *** Shield health *)

Definition null_if_empty (s : string) : option string := if s ≟ "" then None else Some s.
Definition health_row (connector : uuid) (status version : string) (lanIP : option string) (at_ : time) (sh : ShieldRow)
    : ShieldRow :=
  MkShieldRow (sd_tenant sh) (sd_network sh) connector (sd_name sh) status lanIP (Some version) (Some at_)
    (sd_created_at sh) (sd_generation sh) (sd_fingerprint sh).
Definition shield_statuses : list string := ["pending"; "active"; "disconnected"; "revoked"].

(** The hosts that followed the old LAN address follow the new one. *)
Definition sync_hosts (sid : uuid) (oldIP newIP : option string) (m : gmap uuid ResRow) : gmap uuid ResRow :=
  match oldIP, newIP with
  | Some old, Some new => (λ r, if (r_shield r ≟ Some sid) && (r_host r ≟ old) then set_host new r else r) <$> m
  | _, _ => m
  end.
Definition keys_distinct (m : gmap uuid ResRow) : Prop :=
  map_Forall (λ i r, map_Forall (λ j r', i = j ∨ ¬ same_key r r') m) m.

(** [Some (connectorChanged, lanIPChanged)]: the row was updated. *)
Definition health_stmt (shieldID connectorID status version lanIP : string) (lastHeartbeat : Z)
    : stmt ResDB (option (bool * bool)) :=
  with_texts [status; version; lanIP] (with_id shieldID (λ sid, with_id connectorID (λ cid s,
    match to_timestamp lastHeartbeat with
    | None => Err InvalidText
    | Some hb =>
        match t_shields s !! sid, t_connectors s !! cid with
        | Some sh, Some (ctenant, cnetwork, cstatus) =>
            if (ctenant ≟ sd_tenant sh) && (cnetwork ≟ sd_network sh) && (cstatus ≟ "active") &&
               negb (sd_status sh ≟ "revoked") then
              let ip := null_if_empty lanIP in
              let moved := negb (sd_lan_ip sh ≟ ip) in
              let resources := if moved then sync_hosts sid (sd_lan_ip sh) ip (t_resources s) else t_resources s in
              if negb (bool_decide (status ∈ shield_statuses)) then Err CheckViolation
              else if negb (bool_decide (keys_distinct resources)) then Err UniqueViolation
              else Ok (Some (negb (sd_connector sh ≟ cid), moved),
                       set_resources resources (set_shields (<[sid := health_row cid status version ip hb sh]> (t_shields s)) s))
            else Ok (None, s)
        | _, _ => Ok (None, s)
        end
    end))).

Definition UpdateShieldHealth (shieldID connectorID status version lanIP : string) (lastHeartbeat : Z)
    : resM (bool * bool) :=
  let! found := pool_stmt "shield health" (health_stmt shieldID connectorID status version lanIP lastHeartbeat) in
  match found with Some changed => ret changed | None => ret (false, false) end.
End store.
