(* ===== verification/ResourceFacts.v ===== *)
(** * Protected resources: what every operation does to the tables

    Each operation of [ResourceStore], under every schedule of failing
    statements, leaves the tables as they were or applies one of the writes of
    [effect].  From it: the tables stay well formed, protection is withdrawn
    only by an administrator, names stay distinct across networks, and the ACL
    compiler is told of every acknowledgement that matters to it. *)

From Stdlib Require Import ZArith Lia.
From S2P Require Import Prelude Sql GoText NetTarget ResourceHost ResourceStore.
Open Scope Z_scope.
Set Default Proof Using "Type".

Inductive res_op :=
| OpCreate (now : time) (id tenant : uuid) (input : CreateInput)
| OpUpdate (now : time) (tenant : uuid) (id : string) (input : UpdateInput)
| OpProtect (now : time) (tenant : uuid) (id chosen : string)
| OpUnprotect (now : time) (tenant : uuid) (id : string)
| OpMarkDeleting (now : time) (tenant : uuid) (id : string)
| OpDeleteRow (tenant : uuid) (id : string)
| OpDeleteIfShieldGone (tenant : uuid) (id : string)
| OpForceDelete (tenant : uuid) (id : string)
| OpSweep (now : time) (grace : duration)
| OpReap (tenant : uuid) (shieldID resourceID : string)
| OpAcks (now : time) (tenant : uuid) (acks : list Ack)
| OpSnapshot (shieldID : string)
| OpHealth (shieldID connectorID status version lanIP : string) (lastHeartbeat : Z).

Section facts.
Context (parse pg_uuid : string → option uuid) (sha256_hex : string → string) `{RowOrder}.
Implicit Types (s : ResDB) (r : ResRow) (op : res_op).

Definition run_op op : resM () :=
  match op with
  | OpCreate now id tenant input => Create parse pg_uuid now id tenant input ;;; ret tt
  | OpUpdate now tenant id input => Update parse pg_uuid now tenant id input ;;; ret tt
  | OpProtect now tenant id chosen => MarkProtecting parse pg_uuid now tenant id chosen ;;; ret tt
  | OpUnprotect now tenant id => MarkUnprotecting parse pg_uuid now tenant id ;;; ret tt
  | OpMarkDeleting now tenant id => MarkDeleting parse pg_uuid now tenant id ;;; ret tt
  | OpDeleteRow tenant id => DeleteRow parse pg_uuid tenant id
  | OpDeleteIfShieldGone tenant id => DeleteIfShieldGone pg_uuid tenant id ;;; ret tt
  | OpForceDelete tenant id => ForceDeleteRow pg_uuid tenant id ;;; ret tt
  | OpSweep now grace => sweep_tick now grace ;;; ret tt
  | OpReap tenant shieldID resourceID => ReapTombstone pg_uuid tenant shieldID resourceID ;;; ret tt
  | OpAcks now tenant acks => handleResourceAcks pg_uuid now tenant acks ;;; ret tt
  | OpSnapshot shieldID => buildSnapshotMsg pg_uuid sha256_hex shieldID ;;; ret tt
  | OpHealth shieldID connectorID status version lanIP hb =>
      UpdateShieldHealth pg_uuid shieldID connectorID status version lanIP hb ;;; ret tt
  end.

(** ** Writes *)

(** A row is replaced, within the constraints of the table. *)
Definition replaces s (id : uuid) r r' s' : Prop := t_resources s !! id = Some r ∧ store_row id r' s = Ok s'.
Definition removes s (id : uuid) r s' : Prop :=
  t_resources s !! id = Some r ∧ s' = set_resources (delete id (t_resources s)) s.

Inductive ack_write (now : time) (tenant : uuid) (ack : Ack) s : ResDB → Prop :=
| aw_reap id r s' :
    pg_uuid (a_ResourceID ack) = Some id → a_Status ack = "unprotected" →
    r_tenant r = tenant → r_status r = "deleting" → r_shield r = Some (a_ShieldID ack) →
    removes s id r s' → ack_write now tenant ack s s'
| aw_record id r verified s' :
    pg_uuid (a_ResourceID ack) = Some id → r_tenant r = tenant → ack_guard s ack r = true →
    replaces s id r (ack_row now verified ack r) s' → ack_write now tenant ack s s'.

(** The name rules that an insert or update has checked. *)
Definition name_checked s (id tenant : uuid) (host network exclude protocol : string) (pf pt : Z) : Prop :=
  IsNameHost host = true → protocol = "tcp" ∧ name_clash tenant host network exclude pf pt s = false.

(** The new values lead to another host or network. *)
Definition moves r (host network : string) : Prop := host ≠ r_host r ∨ network ≠ r_network r.

Inductive effect : res_op → ResDB → ResDB → Prop :=
| ef_none op s : effect op s s
| ef_create now id tenant input host kind net shield s s' :
    NormalizeHost (ci_Host input) = Some (host, kind) →
    pg_uuid (ci_RemoteNetworkID input) = Some net →
    name_checked s id tenant host (ci_RemoteNetworkID input) "" (ci_Protocol input) (ci_PortFrom input) (ci_PortTo input) →
    t_resources s !! id = None →
    store_row id (MkResRow tenant net shield (ci_Name input) (ci_Description input) (ci_Protocol input) host
                    (ci_PortFrom input) (ci_PortTo input) "unprotected" "remove" None None None now now) s = Ok s' →
    effect (OpCreate now id tenant input) s s'
| ef_update now tenant raw input input' id r net shield s s' :
    normalize_input input = Some input' → pg_uuid raw = Some id → r_tenant r = tenant →
    name_checked s id tenant (default (r_host r) (ui_Host input')) (default (r_network r) (ui_RemoteNetworkID input')) raw
      (default (r_protocol r) (ui_Protocol input')) (default (r_port_from r) (ui_PortFrom input'))
      (default (r_port_to r) (ui_PortTo input')) →
    (update_shieldChanged input' r (default (r_host r) (ui_Host input')) = true → being_removed r = false) →
    match ui_RemoteNetworkID input' with None => net = r_network r | Some n => pg_uuid n = Some net end →
    (shield = r_shield r ∨ enforced r = true ∧ ∃ sid, shield = Some sid ∧ ∃ cid,
       active_shield_on tenant (default (r_network r) (ui_RemoteNetworkID input'))
         (from_option TrimSpace (r_host r) (ui_Host input')) s = Some (sid, cid) ∧
       moves r (from_option TrimSpace (r_host r) (ui_Host input')) (default (r_network r) (ui_RemoteNetworkID input'))) →
    replaces s id r (update_row now input' net shield
      (enforced r && update_shieldChanged input' r (default (r_host r) (ui_Host input'))) r) s' →
    effect (OpUpdate now tenant raw input) s s'
| ef_protect now tenant raw chosen id sid r s s' :
    pg_uuid raw = Some id → candidate tenant chosen r s = Some sid →
    replaces s id r (protect_row now sid r) s' → effect (OpProtect now tenant raw chosen) s s'
| ef_unprotect now tenant raw id r s s' :
    pg_uuid raw = Some id → r_tenant r = tenant → r_status r = "protected" →
    replaces s id r (touch now (set_state (if shield_gone s r then "unprotected" else "protecting") "remove" r)) s' →
    effect (OpUnprotect now tenant raw) s s'
| ef_mark_deleting now tenant raw id r s s' :
    pg_uuid raw = Some id → r_tenant r = tenant → r_status r = "protected" ∨ r_status r = "failed" →
    replaces s id r (touch now (set_state "deleting" "remove" r)) s' →
    effect (OpMarkDeleting now tenant raw) s s'
| ef_delete tenant raw id r s s' :
    pg_uuid raw = Some id → r_tenant r = tenant → connectorRouted (r_status r) = true →
    removes s id r s' → effect (OpDeleteRow tenant raw) s s'
| ef_delete_gone tenant raw id r s s' :
    pg_uuid raw = Some id → r_tenant r = tenant → shield_gone s r = true →
    removes s id r s' → effect (OpDeleteIfShieldGone tenant raw) s s'
| ef_force tenant raw id r s s' :
    pg_uuid raw = Some id → r_tenant r = tenant → removes s id r s' → effect (OpForceDelete tenant raw) s s'
| ef_sweep now grace s :
    effect (OpSweep now grace) s
      (set_resources (filter (λ kv, stale_tombstone now grace kv.2 = false) (t_resources s)) s)
| ef_reap tenant rawsid raw id sid r s s' :
    pg_uuid raw = Some id → pg_uuid rawsid = Some sid → r_tenant r = tenant → r_shield r = Some sid →
    r_status r = "deleting" → removes s id r s' → effect (OpReap tenant rawsid raw) s s'
| ef_acks now tenant acks s s' :
    rtc (λ s s', ∃ ack, ack ∈ acks ∧ ack_write now tenant ack s s') s s' → effect (OpAcks now tenant acks) s s'
| ef_snapshot raw sid sh s :
    pg_uuid raw = Some sid → t_shields s !! sid = Some sh →
    fingerprintDesired sha256_hex (desiredForShield sid s) ≠ sd_fingerprint sh →
    effect (OpSnapshot raw) s
      (bump_generation sid (int64 (sd_generation sh + 1)) (fingerprintDesired sha256_hex (desiredForShield sid s)) s)
| ef_health rawsid rawcid status version lanIP hb a s s' :
    health_stmt pg_uuid rawsid rawcid status version lanIP hb s = Ok (Some a, s') →
    effect (OpHealth rawsid rawcid status version lanIP hb) s s'.

(** *** Statements *)

Lemma with_id_inv {A} raw (k : uuid → stmt ResDB A) s a s' :
  with_id pg_uuid raw k s = Ok (a, s') → ∃ id, pg_uuid raw = Some id ∧ k id s = Ok (a, s').
Proof. unfold with_id. destruct (pg_uuid raw) as [id|]; [by exists id|done]. Qed.
Lemma with_texts_inv {A} l (f : stmt ResDB A) s x : with_texts l f s = Ok x → f s = Ok x.
Proof. unfold with_texts. by case_match. Qed.
Lemma update_resource_inv {A} id c f (g : ResRow → A) s a s' :
  update_resource id c f g s = Ok (a, s') →
  (a = None ∧ s' = s) ∨ ∃ r, a = Some (g r) ∧ c r = true ∧ replaces s id r (f r) s'.
Proof.
  clear parse pg_uuid sha256_hex. unfold update_resource, replaces. destruct (t_resources s !! id) as [r|]; [|naive_solver].
  destruct (c r) eqn:Hc; [|naive_solver]. destruct (store_row id (f r) s) eqn:E; naive_solver.
Qed.
Lemma delete_resource_inv id c s a s' :
  delete_resource id c s = Ok (a, s') → (a = false ∧ s' = s) ∨ ∃ r, a = true ∧ c r = true ∧ removes s id r s'.
Proof.
  clear parse pg_uuid sha256_hex. unfold delete_resource, removes. destruct (t_resources s !! id) as [r|]; [|naive_solver].
  destruct (c r) eqn:Hc; naive_solver.
Qed.
Lemma read_with_id {A} raw (f : uuid → ResDB → A) s a s' :
  with_id pg_uuid raw (λ id, query (f id)) s = Ok (a, s') → s' = s ∧ ∃ id, pg_uuid raw = Some id ∧ a = f id s.
Proof. intros (id & ? & [= <- <-])%with_id_inv. eauto. Qed.

(** Reads leave the tables. *)
Lemma wp_GetByID tenant id s wk (Q : ResDB → Prop) : Q s → wp (GetByID parse pg_uuid tenant id) s wk (λ _ s' _, Q s').
Proof.
  intros HQ. unfold GetByID. wp_go; try done;
    repeat match goal with E : with_id _ _ _ _ = Ok _ |- _ => apply read_with_id in E as [-> _] end; done.
Qed.
Lemma wp_AutoMatchShield host tenant network s wk (Q : result (err resource_error) uuid → ResDB → option ResDB → Prop) :
  (∀ x, Q x s wk) → wp (AutoMatchShield pg_uuid host tenant network) s wk Q.
Proof.
  intros HQ. unfold AutoMatchShield. wp_go; try done;
    repeat match goal with
           | E : with_texts _ _ _ = Ok _ |- _ => apply with_texts_inv in E
           | E : with_id _ _ _ _ = Ok _ |- _ => apply read_with_id in E as [-> _]
           end; done.
Qed.
(** Open the statement behind a successful write. *)
Ltac stmt_inv :=
  repeat match goal with
  | E : with_texts _ _ _ = Ok _ |- _ => apply with_texts_inv in E
  | E : with_id _ _ _ _ = Ok _ |- _ => apply with_id_inv in E as (? & ? & ?)
  | E : update_resource _ _ _ _ _ = Ok _ |- _ => apply update_resource_inv in E as [[? ->]|(? & ? & ? & ?)]
  | E : delete_resource _ _ _ = Ok _ |- _ => apply delete_resource_inv in E as [[? ->]|(? & ? & ? & ?)]
  | E : exec _ _ = Ok _ |- _ => unfold exec in E; simplify_eq
  end; simplify_eq/=; bool_simpl.

(** The leaves of a single-statement operation. *)
Ltac op_leaf :=
  try apply wp_GetByID; stmt_inv; try done;
  repeat match goal with E : _ ∨ _ |- _ => destruct E; bool_simpl end; subst; eauto using effect.

Lemma lifecycle_effect op s :
  match op with OpUnprotect _ _ _ | OpMarkDeleting _ _ _ | OpDeleteRow _ _ | OpDeleteIfShieldGone _ _
              | OpForceDelete _ _ | OpSweep _ _ | OpReap _ _ _ => True | _ => False end →
  wp (run_op op) s None (λ _ s' _, effect op s s').
Proof.
  destruct op; simpl; try done; intros _; try apply wp_forget;
    unfold MarkUnprotecting, MarkDeleting, DeleteRow, DeleteIfShieldGone, ForceDeleteRow, sweep_tick,
      ReapStaleTombstones, ReapTombstone; wp_go; op_leaf.
Qed.
Lemma protect_effect now tenant raw chosen s :
  wp (run_op (OpProtect now tenant raw chosen)) s None (λ _ s' _, effect (OpProtect now tenant raw chosen) s s').
Proof.
  simpl. apply wp_forget. unfold MarkProtecting.
  assert (∀ a s', with_texts [chosen] (with_id pg_uuid raw (λ rid s,
      match t_resources s !! rid ≫= λ r, candidate tenant chosen r s with
      | Some sid => update_resource rid (λ _, true) (protect_row now sid) (λ _, tt) s
      | None => Ok (None, s)
      end)) s = Ok (a, s') → effect (OpProtect now tenant raw chosen) s s') as Hs.
  { intros a s' E. stmt_inv. destruct (t_resources s !! _ ≫= _) as [sid|] eqn:Hc; simplify_eq/=; [|constructor].
    apply bind_Some in Hc as (r & Hr & Hc). stmt_inv; [constructor|].
    match goal with E : replaces _ _ _ _ _ |- _ => destruct E as [Hr' Hst] end. rewrite Hr in Hr'. simplify_eq.
    eapply ef_protect; [done|done|by split]. }
  wp_go; try apply wp_GetByID; try done; try (by constructor); eauto;
    repeat match goal with
           | E : with_id _ _ (λ rid, query _) _ = Ok _ |- _ => apply read_with_id in E as [-> _]
           end; eauto.
Qed.

Lemma RecordAck_write now tenant ack s :
  wp (RecordAck pg_uuid now tenant ack) s None (λ _ s' wk, wk = None ∧ (s' = s ∨ ack_write now tenant ack s s')).
Proof.
  unfold RecordAck. wp_go; stmt_inv; auto; try (by split; [|right; eapply aw_reap]); (split; [done|]);
    repeat (case_match; try done; stmt_inv); auto; by right; eapply aw_record.
Qed.

Lemma acks_effect now tenant acks s :
  wp (handleResourceAcks pg_uuid now tenant acks) s None
    (λ _ s' _, rtc (λ s s', ∃ ack, ack ∈ acks ∧ ack_write now tenant ack s s') s s').
Proof.
  revert s. induction acks as [|ack acks IH]; intros s; simpl; [by apply wp_ret|].
  apply wp_bind, wp_attempt. eapply wp_mono; [|apply RecordAck_write]. intros x s1 wk [-> Hs1]. cbn beta iota.
  apply wp_bind. eapply wp_mono; [|apply IH]. intros y s2 wk2 Hs2.
  assert (rtc (λ s s', ∃ a, a ∈ ack :: acks ∧ ack_write now tenant a s s') s s2).
  { assert (rtc (λ s s', ∃ a, a ∈ ack :: acks ∧ ack_write now tenant a s s') s1 s2) as Hr.
    { eapply rtc_subrel; [|exact Hs2]. intros ? ? (a & Ha & ?). exists a. split; [by right|done]. }
    destruct Hs1 as [->|Hw]; [done|]. eapply rtc_l; [|done]. exists ack. split; [left|done]. }
  destruct y; [by apply wp_ret|done].
Qed.

Lemma snapshot_effect raw s :
  wp (buildSnapshotMsg pg_uuid sha256_hex raw) s None (λ _ s' _, effect (OpSnapshot raw) s s').
Proof.
  unfold buildSnapshotMsg, BuildShieldSnapshot, signResourceSet.
  wp_go; repeat match goal with
                | E : with_id _ _ (λ rid, query _) _ = Ok _ |- _ => apply read_with_id in E as [-> ?]
                end; stmt_inv; eauto using effect.
  all: match goal with E : ∃ _, _ |- _ => destruct E as (sid & ? & (sh & ? & [= -> -> ->])%eq_sym%fmap_Some) end;
    by eapply ef_snapshot.
Qed.

Lemma health_effect rawsid rawcid status version lanIP hb s :
  wp (run_op (OpHealth rawsid rawcid status version lanIP hb)) s None
    (λ _ s' _, effect (OpHealth rawsid rawcid status version lanIP hb) s s').
Proof.
  simpl. apply wp_forget. unfold UpdateShieldHealth.
  assert (∀ a s', health_stmt pg_uuid rawsid rawcid status version lanIP hb s = Ok (a, s') →
                  effect (OpHealth rawsid rawcid status version lanIP hb) s s') as Hs.
  { intros [a|] s' E; [by eapply ef_health|]. unfold health_stmt in E. stmt_inv.
    repeat (case_match; simplify_eq/=; try done); constructor. }
  wp_go; eauto using effect.
Qed.

(** The collision check: what it has seen when it passes. *)
Lemma wp_checkNameCollision tenant host network exclude pf pt c s (Q : result (err resource_error) () → ResDB → option ResDB → Prop) :
  (∀ e, Q (Err e) c (Some s)) →
  (name_clash tenant host network exclude pf pt s = false → Q (Ok tt) c (Some s)) →
  wp (checkNameCollision tenant host network exclude pf pt) c (Some s) Q.
Proof.
  intros He Ho. unfold checkNameCollision. wp_go; auto; stmt_inv; unfold query in *; simplify_eq; auto.
Qed.

Lemma insert_effect now id tenant shield host kind input s x s' :
  NormalizeHost (ci_Host input) = Some (host, kind) →
  name_checked s id tenant host (ci_RemoteNetworkID input) "" (ci_Protocol input) (ci_PortFrom input) (ci_PortTo input) →
  insert_resource pg_uuid now id tenant shield host input s = Ok (Some x, s') →
  effect (OpCreate now id tenant input) s s'.
Proof.
  intros Hn Hc E. unfold insert_resource in E. stmt_inv. repeat (case_match; simplify_eq/=; try done).
  bool_simpl. subst. eapply ef_create; eauto. by apply eq_None_not_Some.
Qed.

Lemma create_effect now id tenant input s :
  wp (run_op (OpCreate now id tenant input)) s None (λ _ s' _, effect (OpCreate now id tenant input) s s').
Proof.
  simpl. apply wp_forget. unfold Create.
  destruct (NormalizeHost (ci_Host input)) as [[host kind]|] eqn:Hn; [|apply wp_fail; constructor].
  destruct (normalized_canonical _ _ _ Hn) as (_ & Hk & _).
  destruct ((kind ≟ HostName) && negb (ci_Protocol input ≟ "tcp")) eqn:Htcp; [apply wp_fail; constructor|].
  destruct (negb (bool_decide (is_Some (parse (ci_RemoteNetworkID input))))); [apply wp_fail; constructor|].
  assert (∀ shield, wp (create_tx pg_uuid now id tenant shield host kind input ;;; GetByID parse pg_uuid tenant id) s None
      (λ _ s' _, effect (OpCreate now id tenant input) s s')) as Htx.
  { intros shield. unfold create_tx. apply wp_bind, wp_with_tx; [constructor|]. apply wp_bind.
    assert (name_checked s id tenant host (ci_RemoteNetworkID input) "" (ci_Protocol input) (ci_PortFrom input) (ci_PortTo input) →
      wp (let! created := tx_stmt "create resource" (insert_resource pg_uuid now id tenant shield host input) in
          match created with
          | None => fail ErrRemoteNetworkNotFound
          | Some _ => commit_tx "create resource: commit"
          end) s (Some s)
        (λ x s' _, match x with
                   | Ok _ => wp (GetByID parse pg_uuid tenant id) s' None (λ _ s'' _, effect (OpCreate now id tenant input) s s'')
                   | Err _ => effect (OpCreate now id tenant input) s s'
                   end)) as Hbody.
    { intros Hc. wp_go; try apply wp_GetByID; eauto using effect, insert_effect. }
    destruct kind; simpl.
    - apply wp_ret, Hbody. intros Hname. by rewrite Hk in Hname.
    - apply wp_checkNameCollision; [intros; constructor|]. intros Hclash. apply Hbody. intros _. simpl in Htcp.
      bool_simpl. done. }
  destruct kind.
  - apply wp_bind, wp_bind, wp_attempt, wp_AutoMatchShield. intros [sid|[l e|e]]; cbn beta iota.
    + apply wp_ret, Htx.
    + apply wp_raise. constructor.
    + destruct e; (apply wp_ret, Htx || (apply wp_raise; constructor)).
  - apply wp_bind, wp_ret, Htx.
Qed.
Lemma wp_check_network tenant network c s (Q : result (err resource_error) () → ResDB → option ResDB → Prop) :
  (∀ e, Q (Err e) c (Some s)) → Q (Ok tt) c (Some s) → wp (check_network parse pg_uuid tenant network) c (Some s) Q.
Proof.
  intros He Ho. unfold check_network. wp_go; auto;
    match goal with E : with_id _ _ _ _ = Ok _ |- _ => apply read_with_id in E as [-> _] end; auto.
Qed.

(** The shield of an enforced resource that moves is the active one on its new
    host. *)
Lemma wp_match_shield tenant r host network isName c s
    (Q : result (err resource_error) (option (uuid * uuid)) → ResDB → option ResDB → Prop) :
  (∀ e, Q (Err e) c (Some s)) →
  (∀ moved, match moved with
            | None => True
            | Some (sid, cid) => enforced r = true ∧ active_shield_on tenant network host s = Some (sid, cid) ∧ moves r host network
            end → Q (Ok moved) c (Some s)) →
  wp (match_shield tenant r host network isName) c (Some s) Q.
Proof.
  intros He Ho. unfold match_shield.
  destruct (enforced r && _ && _) eqn:Hm; [|by apply wp_ret, Ho]. bool_simpl.
  wp_go; auto; stmt_inv; unfold query in *; simplify_eq; auto. apply Ho. case_match eqn:E; [|done].
  destruct (r_shield r ≟ _); [done|]. simplify_eq. split_and!; [done..|]. unfold moves.
  match goal with E : _ ∨ _ |- _ => destruct E; bool_simpl; auto end.
Qed.

Lemma update_stmt_replaces now id tenant input moved reprotect s a s' :
  update_stmt pg_uuid now id tenant input moved reprotect s = Ok (a, s') →
  s' = s ∨ ∃ r net, r_tenant r = tenant ∧
    match ui_RemoteNetworkID input with None => net = r_network r | Some n => pg_uuid n = Some net end ∧
    replaces s id r (update_row now input net (match moved with Some sid => Some sid | None => r_shield r end) reprotect r) s'.
Proof.
  unfold update_stmt. intros E. apply with_texts_inv in E.
  destruct (ui_RemoteNetworkID input) as [raw|]; simpl in E.
  - destruct (pg_uuid raw) as [net|] eqn:Hraw; simpl in E; [|done]. stmt_inv; [by left|]. right. eauto.
  - stmt_inv; [by left|]. right. eauto.
Qed.

Lemma update_refused_names r host network protocol :
  update_refused r host network protocol = None → IsNameHost host = true → protocol = "tcp".
Proof. unfold update_refused. intros E Hn. rewrite Hn in E. simpl in E. by repeat case_bool_decide. Qed.

Lemma update_effect now tenant raw input s :
  wp (Update parse pg_uuid now tenant raw input) s None (λ _ s' _, effect (OpUpdate now tenant raw input) s s').
Proof.
  unfold Update. destruct (negb _); [apply wp_fail; constructor|].
  destruct (normalize_input input) as [input'|] eqn:Hi; [|apply wp_fail; constructor].
  apply wp_bind, wp_with_tx; [constructor|].
  eapply (wp_mono _ _ _ (λ _ s' _, effect (OpUpdate now tenant raw input) s s')).
  { intros [x|e] s' wk Hs'; [|done]. apply wp_bind.
    eapply (wp_mono _ _ _ (λ _ s'' _, effect (OpUpdate now tenant raw input) s s'')); [|by apply wp_GetByID].
    intros [row|e] s'' wk' Hs''; [by apply wp_ret|done]. }
  unfold update_tx. apply wp_bind, wp_tx_stmt; [constructor|]. intros found s1 Hf.
  apply read_with_id in Hf as [-> (id & Hid & ->)].
  destruct (t_resources s !! id) as [r|] eqn:Hr; [|apply wp_fail; constructor].
  destruct (r_tenant r ≟ tenant) eqn:Ht; [|apply wp_fail; constructor].
  set (finalHost := default (r_host r) (ui_Host input')).
  set (finalNetwork := default (r_network r) (ui_RemoteNetworkID input')).
  destruct (update_refused r finalHost finalNetwork _) eqn:Href; [apply wp_fail; constructor|].
  apply wp_bind.
  assert (name_checked s id tenant finalHost finalNetwork raw (default (r_protocol r) (ui_Protocol input'))
            (default (r_port_from r) (ui_PortFrom input')) (default (r_port_to r) (ui_PortTo input')) →
    wp (let shieldChanged := update_shieldChanged input' r finalHost in
        if shieldChanged && being_removed r then fail ErrResourceBusy
        else
          check_network parse pg_uuid tenant (ui_RemoteNetworkID input') ;;;
          let! moved := match_shield tenant r (from_option TrimSpace (r_host r) (ui_Host input')) finalNetwork (IsNameHost finalHost) in
          let reprotect := enforced r && shieldChanged in
          let pushes := (match moved with Some (sid, cid) => [(cid, sid)] | None => [] end) ++
            (if reprotect then
               match r_shield r, (sd_connector <$> bound_shield s r) with Some sid, Some cid => [(cid, sid)] | _, _ => [] end
             else []) in
          tx_stmt "update resource" (update_stmt pg_uuid now id tenant input' (fst <$> moved) reprotect) ;;;
          commit_tx "update resource: commit" ;;;
          ret (bool_decide (is_Some moved), pushes)) s (Some s) (λ _ s' _, effect (OpUpdate now tenant raw input) s s')) as Hbody.
  { intros Hc. cbv zeta. destruct (update_shieldChanged input' r finalHost && being_removed r) eqn:Hb; [apply wp_fail; constructor|].
    apply wp_bind, wp_check_network; [constructor|].
    apply wp_bind, wp_match_shield; [constructor|]. intros moved Hm.
    apply wp_bind, wp_tx_stmt; [constructor|]. intros a s2 Hu.
    assert (effect (OpUpdate now tenant raw input) s s2) as He.
    { destruct (update_stmt_replaces _ _ _ _ _ _ _ _ _ Hu) as [->|(r' & net & Ht' & Hnet & [Hr' Hst])]; [constructor|].
      rewrite Hr in Hr'. simplify_eq.
      apply (ef_update now _ raw input input' id r' net (match fst <$> moved with Some sid => Some sid | None => r_shield r' end));
        [done|done|done|done| |done| |].
      - intros Hsc. fold finalHost in Hsc. rewrite Hsc in Hb. simpl in Hb. by destruct (being_removed r').
      - destruct moved as [[sid cid]|]; simpl; [right|by left]. destruct Hm as (He & Ha & Hmv). split; [done|].
        exists sid. split; [done|]. by exists cid.
      - by split. }
    wp_go; (done || constructor). }
  destruct (IsNameHost finalHost) eqn:Hname.
  - apply wp_checkNameCollision; [constructor|]. intros Hclash. apply Hbody. intros _. split; [|done].
    eapply update_refused_names; eauto.
  - apply wp_ret, Hbody. unfold name_checked. by rewrite Hname.
Qed.

(** Whatever fails, an operation does nothing or one of its writes. *)
Lemma run_op_effect op s : wp (run_op op) s None (λ _ s' _, effect op s s').
Proof.
  destruct op; try by apply lifecycle_effect.
  - apply create_effect.
  - simpl. apply wp_forget, update_effect.
  - apply protect_effect.
  - simpl. apply wp_forget. eapply wp_mono; [|apply acks_effect]. intros. by constructor.
  - simpl. apply wp_forget, snapshot_effect.
  - apply health_effect.
Qed.

(** A history: each operation with the statements of it that fail. *)
Definition res_runs (l : list (res_op * list fault)) s : ResDB :=
  foldl (λ s opf, committed (run_op opf.1 (World s None opf.2)).2) s l.

Lemma run_op_committed op fs s : effect op s (committed (run_op op (World s None fs)).2).
Proof. pose proof (run_op_effect op s fs) as Hw. by destruct (run_op op _). Qed.

(** An invariant of the effects holds after every history. *)
Lemma res_runs_inv (I : ResDB → Prop) (P : res_op → Prop) l s :
  (∀ op s s', P op → I s → effect op s s' → I s') → Forall (λ opf, P opf.1) l → I s → I (res_runs l s).
Proof.
  intros Hstep. revert s. induction l as [|[op fs] l IH]; intros s Hl HI; [done|]. simpl.
  apply Forall_cons in Hl as [Hop Hl]. apply IH; [done|]. eapply Hstep; [done|done|]. apply run_op_committed.
Qed.
End facts.
