(* ===== verification/ResourceSafety.v ===== *)
(** * Protected resources: invariants

    The tables stay well formed; protection is withdrawn only by an
    administrator; DNS names stay distinct across networks also when saves
    interleave; and the ACL compiler is told of every acknowledgement that
    changes a route. *)

From Stdlib Require Import ZArith Lia.
From S2P Require Import Prelude Sql GoText NetTarget ResourceHost ResourceStore ResourceFacts.
Open Scope Z_scope.
Set Default Proof Using "Type".

(** ** Well-formed tables *)

Definition db_wf (s : ResDB) : Prop :=
  map_Forall (λ _ r, row_check r = true ∧ refs_ok r s = true) (t_resources s) ∧ keys_distinct (t_resources s).

Lemma store_row_inv id r s s' :
  store_row id r s = Ok s' →
  s' = set_resources (<[id := r]> (t_resources s)) s ∧ row_check r = true ∧ refs_ok r s = true ∧
  ∀ i r', i ≠ id → t_resources s !! i = Some r' → ¬ same_key r r'.
Proof.
  unfold store_row, key_taken. intros E. repeat (case_match; try done). simplify_eq. bool_simpl. split_and!; try done.
  intros i r' Hi Hr' Hk. match goal with N : ¬ map_Exists _ _ |- _ => apply N end. exists i, r'. done.
Qed.

Lemma same_key_sym r1 r2 : same_key r1 r2 → same_key r2 r1.
Proof. unfold same_key. naive_solver. Qed.

Lemma store_row_wf id r s s' : db_wf s → store_row id r s = Ok s' → db_wf s'.
Proof.
  intros [Hrows Hkeys] (-> & Hc & Hr & Hk)%store_row_inv. split; simpl.
  - apply map_Forall_insert_2; [done|]. eapply map_Forall_impl; [exact Hrows|]. done.
  - intros i ri Hi j rj Hj. destruct (decide (i = j)) as [|Hij]; [by left|]. right.
    rewrite lookup_insert in Hi, Hj. repeat case_decide; simplify_eq.
    + intros Hs%same_key_sym. by apply (Hk i ri) in Hs.
    + by apply (Hk j rj).
    + by destruct (Hkeys i ri Hi j rj Hj).
Qed.

(** Fewer rows over the same references. *)
Lemma shrink_wf m s : m ⊆ t_resources s → db_wf s → db_wf (set_resources m s).
Proof.
  intros Hm [Hrows Hkeys]. split; simpl.
  - intros i r Hi. apply (Hrows i r). by eapply lookup_weaken.
  - intros i ri Hi j rj Hj. eapply (Hkeys i ri); by eapply lookup_weaken.
Qed.

(** Shields keep their workspace. *)
Definition same_tenants (s s' : ResDB) : Prop :=
  t_networks s' = t_networks s ∧ ∀ sid, sd_tenant <$> t_shields s' !! sid = sd_tenant <$> t_shields s !! sid.
Lemma refs_ok_tenants r s s' : same_tenants s s' → refs_ok r s' = refs_ok r s.
Proof. intros [Hn Hs]. unfold refs_ok. rewrite Hn. destruct (r_shield r) as [sid|]; [|done]. by rewrite Hs. Qed.
Lemma tenants_wf s s' : same_tenants s s' → t_resources s' = t_resources s → db_wf s → db_wf s'.
Proof.
  intros Ht Hr [Hrows Hkeys]. split; rewrite Hr; [|done]. eapply map_Forall_impl; [exact Hrows|].
  intros i r [? ?]. split; [done|]. by rewrite (refs_ok_tenants r s s').
Qed.

Section safety.
Context (parse pg_uuid : string → option uuid) (sha256_hex : string → string) `{RowOrder}.
Abbreviation effect := (effect pg_uuid sha256_hex).
Abbreviation run_op := (run_op parse pg_uuid sha256_hex).
Abbreviation res_runs := (res_runs parse pg_uuid sha256_hex).

(** What a heartbeat does. *)
Lemma health_stmt_inv rawsid rawcid status version lanIP hb s a s' :
  health_stmt pg_uuid rawsid rawcid status version lanIP hb s = Ok (Some a, s') →
  ∃ sid cid sh t, t_shields s !! sid = Some sh ∧
    let ip := null_if_empty lanIP in
    let resources := if negb (sd_lan_ip sh ≟ ip) then sync_hosts sid (sd_lan_ip sh) ip (t_resources s) else t_resources s in
    keys_distinct resources ∧
    s' = set_resources resources (set_shields (<[sid := health_row cid status version ip t sh]> (t_shields s)) s).
Proof.
  unfold health_stmt. intros E%with_texts_inv.
  apply with_id_inv in E as (sid & _ & E). apply with_id_inv in E as (cid & _ & E).
  destruct (to_timestamp hb) as [t|]; [|done]. destruct (t_shields s !! sid) as [sh|] eqn:Hsh; [|done].
  destruct (t_connectors s !! cid) as [[[ct cn] cs]|]; [|done].
  destruct ((ct ≟ sd_tenant sh) && _ && _ && _); [|done].
  destruct (negb (bool_decide (status ∈ shield_statuses))); [done|].
  destruct (negb (bool_decide (keys_distinct _))) eqn:Hk; [done|]. simplify_eq/=. bool_simpl.
  exists sid, cid, sh, t. done.
Qed.

Definition rehost (sid : uuid) (oldIP newIP : option string) (r : ResRow) : ResRow :=
  match oldIP, newIP with
  | Some old, Some new => if (r_shield r ≟ Some sid) && (r_host r ≟ old) then set_host new r else r
  | _, _ => r
  end.
Lemma sync_hosts_lookup sid oldIP newIP m i :
  sync_hosts sid oldIP newIP m !! i = rehost sid oldIP newIP <$> m !! i.
Proof.
  unfold sync_hosts, rehost. destruct oldIP as [old|], newIP as [new|]; try by destruct (m !! i).
  by rewrite lookup_fmap.
Qed.
Lemma synced_lookup (b : bool) sid oldIP newIP m i r' :
  (if b then sync_hosts sid oldIP newIP m else m) !! i = Some r' →
  ∃ r, m !! i = Some r ∧ (r' = r ∨ r' = rehost sid oldIP newIP r).
Proof.
  destruct b; [|eauto]. rewrite sync_hosts_lookup. intros (r & Hr & ->)%fmap_Some. eauto.
Qed.

Lemma ack_write_wf now tenant ack s s' : db_wf s → ack_write pg_uuid now tenant ack s s' → db_wf s'.
Proof.
  intros Hwf []; repeat match goal with E : replaces _ _ _ _ _ |- _ => destruct E | E : removes _ _ _ _ |- _ => destruct E end.
  - subst. apply shrink_wf; [apply delete_subseteq|done].
  - by eapply store_row_wf.
Qed.

Lemma effect_wf op s s' : db_wf s → effect op s s' → db_wf s'.
Proof.
  intros Hwf He. destruct He;
    repeat match goal with E : replaces _ _ _ _ _ |- _ => destruct E | E : removes _ _ _ _ |- _ => destruct E end;
    subst; eauto using store_row_wf;
    try (apply shrink_wf; [apply delete_subseteq || apply map_filter_subseteq|done]).
  - match goal with E : rtc _ _ _ |- _ => induction E as [|? ? ? (ack & _ & Hw)] end; eauto using ack_write_wf.
  - apply (tenants_wf s); [|done|done]. split; [done|]. intros i. simpl.
    destruct (decide (i = sid)) as [->|]; [|by rewrite lookup_alter_ne].
    rewrite lookup_alter_eq. by destruct (t_shields s !! sid).
  - match goal with E : health_stmt _ _ _ _ _ _ _ _ = _ |- _ =>
      apply health_stmt_inv in E as (sid & cid & sh & t & Hsh & Hk & ->) end.
    assert (same_tenants s (set_resources
      (if negb (sd_lan_ip sh ≟ null_if_empty lanIP) then sync_hosts sid (sd_lan_ip sh) (null_if_empty lanIP) (t_resources s)
       else t_resources s)
      (set_shields (<[sid := health_row cid status version (null_if_empty lanIP) t sh]> (t_shields s)) s))) as Ht.
    { split; [done|]. intros i. simpl. destruct (decide (i = sid)) as [->|]; [|by rewrite lookup_insert_ne].
      by rewrite lookup_insert_eq, Hsh. }
    split; [|done]. intros i r' Hr'. rewrite (refs_ok_tenants r' s) by done.
    apply synced_lookup in Hr' as (r & Hr & Hc). destruct Hwf as [Hrows _]. destruct (Hrows i r Hr) as [Hrc Hrf].
    destruct Hc as [->| ->]; [done|]. unfold rehost. by repeat case_match.
Qed.
(** ** Protection *)

Lemma replaces_lookup s i r r' s' id :
  replaces s i r r' s' → t_resources s' !! id = if decide (i = id) then Some r' else t_resources s !! id.
Proof. intros [_ (-> & _)%store_row_inv]. simpl. by rewrite lookup_insert. Qed.
Lemma removes_lookup s i r s' id :
  removes s i r s' → t_resources s' !! id = if decide (i = id) then None else t_resources s !! id.
Proof. intros [_ ->]. simpl. by rewrite lookup_delete. Qed.

(** The statuses a shield reports (shield/src/resources.rs). *)
Definition reported (status : string) : Prop := status = "protected" ∨ status = "failed" ∨ status = "unprotected".
Definition honest (op : res_op) : Prop :=
  match op with OpAcks _ _ acks => Forall (λ a, reported (a_Status a)) acks | _ => True end.

(** The operations by which an administrator of the workspace gives up the
    protection of a resource. *)
Definition withdraws (op : res_op) (tenant id : uuid) : Prop :=
  match op with
  | OpUnprotect _ t raw | OpMarkDeleting _ t raw | OpDeleteIfShieldGone t raw | OpForceDelete t raw =>
      t = tenant ∧ pg_uuid raw = Some id
  | _ => False
  end.

Definition protected_by (s : ResDB) (tenant id : uuid) : Prop :=
  ∃ r, t_resources s !! id = Some r ∧ r_tenant r = tenant ∧ enforced r = true.

Lemma replaces_protected s i r r' s' tenant id :
  replaces s i r r' s' → r_tenant r' = r_tenant r → (i = id → r_tenant r = tenant → enforced r = true → enforced r' = true) →
  protected_by s tenant id → protected_by s' tenant id.
Proof.
  intros Hr Ht He (r0 & Hr0 & Ht0 & He0). unfold protected_by. rewrite (replaces_lookup _ _ _ _ _ id Hr).
  case_decide as Hi; [|eauto]. destruct Hr as [Hl _]. subst i. rewrite Hl in Hr0. simplify_eq. eauto.
Qed.
Lemma removes_protected s i r s' tenant id :
  removes s i r s' → (i = id → r_tenant r = tenant → enforced r = false) → protected_by s tenant id → protected_by s' tenant id.
Proof.
  intros Hr He (r0 & Hr0 & Ht0 & He0). unfold protected_by. rewrite (removes_lookup _ _ _ _ id Hr).
  case_decide as Hi; [|eauto]. destruct Hr as [Hl _]. subst i. rewrite Hl in Hr0. simplify_eq. by rewrite He in He0.
Qed.

Lemma deleting_not_enforced r : r_status r = "deleting" → enforced r = false.
Proof. unfold enforced. by intros ->. Qed.
Lemma routed_not_enforced r : connectorRouted (r_status r) = true → enforced r = false.
Proof. unfold connectorRouted, enforced. intros [|]%orb_true_iff; bool_simpl; by rewrite H0. Qed.

Lemma ack_write_protected now tenant ack s s' t id :
  reported (a_Status ack) → ack_write pg_uuid now tenant ack s s' → protected_by s t id → protected_by s' t id.
Proof.
  intros Hrep [i r s1 _ _ _ Hd _ Hr|i r verified s1 _ _ Hg Hr].
  - eapply removes_protected; [done|]. intros _ _. by apply deleting_not_enforced.
  - eapply replaces_protected; [done|done|]. intros _ _ He. unfold ack_guard in Hg. bool_simpl.
    unfold enforced. simpl. destruct Hrep as [Es|[Es|Es]]; rewrite Es in *; [done|done|].
    match goal with E : negb _ = true ∨ _ |- _ => destruct E as [E|E]; [done|] end. bool_simpl.
    unfold enforced in He. repeat match goal with E : r_status r = _ |- _ => rewrite E in He end.
    repeat match goal with E : r_action r = _ |- _ => rewrite E in He end. done.
Qed.

Lemma effect_protected op s s' tenant id :
  honest op → effect op s s' → ¬ withdraws op tenant id → protected_by s tenant id → protected_by s' tenant id.
Proof.
  intros Ho He Hw Hp. destruct He; simpl in *; try done;
    repeat match goal with
           | E : replaces _ _ _ _ _ |- _ =>
               eapply replaces_protected; [exact E|done| |done]; intros ? ? Hen; subst; try (by exfalso; apply Hw)
           | E : removes _ _ _ _ |- _ =>
               eapply removes_protected; [exact E| |done]; intros; subst; try (by exfalso; apply Hw)
           end; auto using deleting_not_enforced, routed_not_enforced.
  - (* create *) destruct Hp as (r0 & Hr0 & ?). exists r0. split; [|done].
    match goal with E : store_row _ _ _ = _ |- _ => apply store_row_inv in E as (-> & _) end. simpl.
    rewrite lookup_insert_ne; [done|]. intros ->. by simplify_eq.
  - rewrite Hen. by destruct (update_shieldChanged _ _ _).
  - (* sweep *) destruct Hp as (r0 & Hr0 & ? & Hen). exists r0. split; [|done]. simpl.
    apply map_lookup_filter_Some. split; [done|]. unfold stale_tombstone. simpl.
    destruct (r_status r0 ≟ "deleting") eqn:Hd; [|done]. bool_simpl. by rewrite deleting_not_enforced in Hen.
  - match goal with E : rtc _ _ _ |- _ => induction E as [|? ? ? (ack & Ha & Hx)] end; [done|].
    rewrite Forall_forall in Ho. eauto using ack_write_protected.
  - match goal with E : health_stmt _ _ _ _ _ _ _ _ = _ |- _ =>
      apply health_stmt_inv in E as (sid & cid & sh & t & Hsh & Hk & ->) end.
    destruct Hp as (r0 & Hr0 & ? & Hen). unfold protected_by. simpl.
    destruct (negb _); [|eauto]. rewrite sync_hosts_lookup, Hr0. eexists. split; [done|].
    unfold rehost. by repeat case_match.
Qed.

(** *** What an acknowledgement may claim *)

(** An update that keeps the references and the key is accepted. *)
Lemma store_row_ok id r r' s :
  db_wf s → t_resources s !! id = Some r → row_check r' = true →
  (r_tenant r', r_network r', r_shield r', r_host r', r_name r') = (r_tenant r, r_network r, r_shield r, r_host r, r_name r) →
  store_row id r' s = Ok (set_resources (<[id := r']> (t_resources s)) s).
Proof.
  intros [Hrows Hkeys] Hr Hc E. injection E as Et En Es Eh Em. destruct (Hrows id r Hr) as [_ Hrf].
  unfold store_row. rewrite Hc. simpl.
  assert (refs_ok r' s = refs_ok r s) as -> by (unfold refs_ok; by rewrite Et, En, Es). rewrite Hrf. simpl.
  assert (key_taken id r' s = false) as ->; [|done].
  unfold key_taken. apply bool_decide_eq_false. intros (i & r0 & Hi & Hne & Hk).
  destruct (Hkeys id r Hr i r0 Hi) as [->|Hk']; [done|]. apply Hk'. unfold same_key in *. by rewrite <-Et, <-En, <-Eh, <-Em.
Qed.

Definition ack_texts_ok (ack : Ack) : Prop :=
  forallb text_param_ok [a_Status ack; a_Error ack; a_ShieldID ack; a_Host ack; a_Protocol ack] = true.

(** an acknowledgement can claim a status that no shield reports.  For every
    enforced resource, an acknowledgement in the name of its shield with the
    status "pending" is recorded, reports a change of route, and leaves the
    resource routed past its shield; one with "deleting" is recorded too, and
    then an "unprotected" one deletes the resource.  The guards of the statement
    only know the three statuses of the shields, and the table's CHECK accepts
    the others. *)
Theorem ack_status_unchecked (s : ResDB) (tenant id sid : uuid) (r : ResRow) (now verified : time) (ack : Ack) :
  db_wf s → t_resources s !! id = Some r → r_tenant r = tenant → enforced r = true → r_shield r = Some sid →
  pg_uuid (a_ResourceID ack) = Some id → a_ShieldID ack = sid → ack_texts_ok ack →
  to_timestamp (a_VerifiedAt ack) = Some verified →
  a_Status ack = "pending" ∨ a_Status ack = "deleting" →
  let s' := set_resources (<[id := ack_row now verified ack r]> (t_resources s)) s in
  run (RecordAck pg_uuid now tenant ack) s =
    (Ok (bool_decide (a_Status ack = "pending")), s') ∧
  enforced (ack_row now verified ack r) = false ∧
  (a_Status ack = "deleting" → ∀ ack', a_ResourceID ack' = a_ResourceID ack → a_ShieldID ack' = sid →
     a_Status ack' = "unprotected" → text_param_ok sid = true →
     run (RecordAck pg_uuid now tenant ack') s' = (Ok true, set_resources (delete id (t_resources s)) s)).
Proof.
  clear parse sha256_hex. intros Hwf Hr Ht He Hs Hid Hsid Htx Hts Hst s'.
  assert (connectorRouted (r_status r) = false) as Hroute.
  { destruct (connectorRouted (r_status r)) eqn:E; [|done]. by rewrite routed_not_enforced in He. }
  assert (r_status r ≠ "deleting") as Hnd by (intros E; by rewrite deleting_not_enforced in He).
  assert (negb ((r_status r ≟ "protecting") && (r_action r ≟ "remove")) = true) as Hnr.
  { apply negb_true_iff, not_true_iff_false. intros E. bool_simpl. unfold enforced in He.
    repeat match goal with E : r_status r = _ |- _ => rewrite E in He end.
    by repeat match goal with E : r_action r = _ |- _ => rewrite E in He end. }
  assert (row_check (ack_row now verified ack r) = true) as Hck.
  { destruct Hwf as [Hrows _]. destruct (Hrows id r Hr) as [Hc _]. unfold row_check in *. simpl.
    destruct Hst as [-> | ->]; bool_simpl; rewrite !bool_decide_true by (done || set_solver); simpl; lia. }
  assert (ack_guard s ack r = true) as Hg.
  { unfold ack_guard. rewrite Hs, Hsid. rewrite (bool_decide_false (r_status r = "deleting")) by done.
    rewrite (bool_decide_true (Some sid = Some sid)) by done.
    apply negb_true_iff in Hnr. destruct Hst as [-> | ->]; by rewrite Hnr. }
  split_and!.
  - unfold RecordAck, run, bind, ret, pool_stmt. simpl.
    rewrite (bool_decide_false (a_Status ack = "unprotected")) by (by destruct Hst as [-> | ->]). simpl.
    unfold with_texts, with_id. rewrite Htx, Hid, Hts. unfold update_resource. rewrite Hr, Ht, bool_decide_true, Hg by done.
    simpl. rewrite (store_row_ok id r) by done. simpl. rewrite Hroute. by destruct Hst as [-> | ->].
  - unfold enforced. simpl. by destruct Hst as [-> | ->].
  - intros Hdel ack' Eid Esid Est Htxt. unfold RecordAck, run, bind, ret, pool_stmt. simpl. rewrite Est. simpl.
    unfold with_texts, with_id. simpl. rewrite Eid, Esid, Hid, Htxt. simpl. unfold delete_resource, s'. simpl.
    rewrite lookup_insert_eq. simpl. rewrite Ht, Hs, Hdel, !bool_decide_true by done. simpl.
    by rewrite delete_insert_eq.
Qed.

(** ** Names *)

(** Two resources that a client could confuse: one name, overlapping ports. *)
Definition confusable (r r' : ResRow) : Prop :=
  r_tenant r' = r_tenant r ∧ r_host r' = r_host r ∧ r_port_from r' <= r_port_to r ∧ r_port_from r <= r_port_to r'.
#[export] Instance confusable_dec r r' : Decision (confusable r r').
Proof. unfold confusable. apply _. Defined.
Definition names_ok (s : ResDB) : Prop :=
  (∀ i r, t_resources s !! i = Some r → IsNameHost (r_host r) = true → r_protocol r = "tcp") ∧
  ∀ i j r r', i ≠ j → t_resources s !! i = Some r → t_resources s !! j = Some r' →
    IsNameHost (r_host r) = true → confusable r r' → r_network r' = r_network r.

(** The columns that names are about. *)
Definition identity (r : ResRow) := (r_tenant r, r_host r, r_network r, r_protocol r, r_port_from r, r_port_to r).

(** No row with a name is new or changed. *)
Definition names_kept (s s' : ResDB) : Prop :=
  ∀ i r', t_resources s' !! i = Some r' → IsNameHost (r_host r') = true →
    ∃ r, t_resources s !! i = Some r ∧ identity r = identity r'.
#[export] Instance names_kept_preorder : PreOrder names_kept.
Proof.
  split; unfold names_kept; [eauto|]. intros s1 s2 s3 H12 H23 i r' Hr' Hn.
  destruct (H23 i r' Hr' Hn) as (r & Hr & Hi). destruct (H12 i r Hr) as (r0 & Hr0 & Hi0); [by injection Hi as _ -> _ _ _ _|].
  exists r0. split; [done|]. by rewrite Hi0.
Qed.
Lemma names_kept_ok s s' : names_kept s s' → names_ok s → names_ok s'.
Proof.
  intros Hk [Htcp Hn]. split.
  - intros i r' Hr' Hname. destruct (Hk i r' Hr' Hname) as (r & Hr & Hi). injection Hi as _ Hh _ Hp _ _.
    rewrite <-Hp. apply (Htcp i r Hr). by rewrite Hh.
  - intros i j r r' Hij Hr Hr' Hname (Ht & Hh & Hp1 & Hp2).
    destruct (Hk i r Hr Hname) as (r0 & Hr0 & Hi0). destruct (Hk j r' Hr') as (r0' & Hr0' & Hi0'); [by rewrite Hh|].
    injection Hi0 as Ht0 Hh0 Hn0 _ Hf0 Hto0. injection Hi0' as Ht0' Hh0' Hn0' _ Hf0' Hto0'.
    rewrite <-Hn0, <-Hn0'. apply (Hn i j r0 r0'); try done; [by rewrite Hh0|].
    unfold confusable. split_and!; congruence || lia.
Qed.

Lemma name_clash_false tenant host network exclude pf pt s :
  name_clash tenant host network exclude pf pt s = false ↔
  ∀ i r, t_resources s !! i = Some r → r_tenant r = tenant → r_host r = host → i ≠ exclude →
    r_port_from r <= pt → pf <= r_port_to r → r_network r = network.
Proof.
  unfold name_clash. rewrite bool_decide_eq_false. split.
  - intros Hn i r Hr Ht Hh Hi Hp1 Hp2. apply dec_stable. intros Hne. apply Hn. by exists i, r.
  - intros Hall (i & r & Hr & Ht & Hh & Hne & Hi & Hp1 & Hp2). by eapply Hne, Hall.
Qed.

Lemma names_kept_clash s s' tenant host network exclude pf pt :
  names_kept s s' → IsNameHost host = true →
  name_clash tenant host network exclude pf pt s = false → name_clash tenant host network exclude pf pt s' = false.
Proof.
  rewrite !name_clash_false. intros Hk Hname Hn i r' Hr' Ht Hh Hi Hp1 Hp2.
  destruct (Hk i r' Hr') as (r & Hr & Hid); [by rewrite Hh|]. injection Hid as Ht' Hh' Hn' _ Hf Hto.
  rewrite <-Hn'. apply (Hn i r); try done; congruence || lia.
Qed.

Lemma replaces_names s i r r' s' : replaces s i r r' s' → identity r' = identity r → names_kept s s'.
Proof.
  intros Hr Hi j r0 Hr0 _. rewrite (replaces_lookup _ _ _ _ _ j Hr) in Hr0. case_decide; [|eauto].
  destruct Hr as [Hl _]. subst j. injection Hr0 as <-. by exists r.
Qed.
Lemma store_other_names s i r' s' : store_row i r' s = Ok s' → IsNameHost (r_host r') = false → names_kept s s'.
Proof.
  intros (-> & _)%store_row_inv Hn j r0. simpl. rewrite lookup_insert. case_decide; [|eauto].
  intros [= <-] Hname. by rewrite Hn in Hname.
Qed.
Lemma shrink_names m s : m ⊆ t_resources s → names_kept s (set_resources m s).
Proof. intros Hm i r Hi _. exists r. split; [by eapply lookup_weaken|done]. Qed.

(** Does the operation store a row whose host is a name? *)
Definition saves_name (op : res_op) (s : ResDB) : bool :=
  match op with
  | OpCreate _ _ _ input => match NormalizeHost (ci_Host input) with Some (_, HostName) => true | _ => false end
  | OpUpdate _ _ raw input =>
      match normalize_input input, pg_uuid raw ≫= λ id, t_resources s !! id with
      | Some input', Some r => IsNameHost (default (r_host r) (ui_Host input'))
      | _, _ => false
      end
  | _ => false
  end.

(** Generated keys are canonical, and a shield reports an address. *)
Definition op_ok (op : res_op) : Prop :=
  match op with
  | OpCreate _ id _ _ => pg_uuid id = Some id
  | OpHealth _ _ _ _ lanIP _ => lanIP = "" ∨ IsNameHost lanIP = false
  | _ => True
  end.

Lemma normalized_input_host input input' h :
  normalize_input input = Some input' → ui_Host input' = Some h → TrimSpace h = h.
Proof.
  unfold normalize_input. destruct (ui_Host input) as [h0|] eqn:E.
  - intros ([v k] & Hn & ->)%fmap_Some. simpl. intros [= <-]. by eapply normalized_TrimSpace.
  - intros [= <-]. by rewrite E.
Qed.

Lemma effect_names op s s' : op_ok op → saves_name op s = false → effect op s s' → names_kept s s'.
Proof.
  intros Hop Hs He. destruct He; simpl in *;
    repeat match goal with E : removes _ _ _ _ |- _ => destruct E as [_ ->] end;
    try (by eapply replaces_names); try (apply shrink_names; apply delete_subseteq || apply map_filter_subseteq);
    try reflexivity.
  - eapply store_other_names; [done|]. simpl.
    match goal with E : NormalizeHost _ = Some _ |- _ => rewrite E in Hs; apply normalized_canonical in E as (_ & -> & _) end.
    by destruct kind.
  - match goal with E : replaces _ _ _ _ _ |- _ => destruct E as [Hr Hst] end.
    repeat match goal with
           | E : normalize_input _ = Some _ |- _ => rewrite E in Hs
           | E : pg_uuid _ = Some id |- _ => rewrite E in Hs
           end. simpl in Hs. rewrite Hr in Hs. eapply store_other_names; [done|]. simpl.
    destruct (ui_Host input') as [h|] eqn:Eh; simpl in *; [|done]. by rewrite (normalized_input_host input input' h).
  - match goal with E : rtc _ _ _ |- _ => induction E as [|s1 s2 s3 (ack & Ha & Hx) _ IH] end; [done|]. etrans; [|done].
    destruct Hx as [? ? ? ? ? ? ? ? [_ ->]|? ? ? ? ? ? ? Hr]; [apply shrink_names, delete_subseteq|by eapply replaces_names].
  - intros i r Hr _. by exists r.
  - match goal with E : health_stmt _ _ _ _ _ _ _ _ = _ |- _ =>
      apply health_stmt_inv in E as (sid & cid & sh & t & Hsh & Hk & ->) end.
    intros i r' Hr' Hname. simpl in Hr'. apply synced_lookup in Hr' as (r & Hr & [->| ->]); [by exists r|].
    unfold rehost, null_if_empty in *. exists r. split; [done|].
    destruct (sd_lan_ip sh), (lanIP ≟ "") eqn:El; try done.
    destruct ((r_shield r ≟ Some sid) && _); [|done]. bool_simpl. simpl in Hname. destruct Hop as [->|Hop]; [done|].
    by rewrite Hop in Hname.
Qed.
(** *** Saves that interleave

    A save of a name takes the advisory lock on workspace and name, checks for a
    collision, and stores its row at its commit, which releases the lock.  Other
    operations run in between. *)

Record save := MkSave {
  sv_id : uuid; sv_tenant : uuid; sv_host : string; sv_network : uuid; sv_from : Z; sv_to : Z;
  sv_rawNetwork : string; sv_exclude : string
}.
Definition stores (sv : save) (r : ResRow) : Prop :=
  identity r = (sv_tenant sv, sv_host sv, sv_network sv, "tcp", sv_from sv, sv_to sv).
Definition save_ok (sv : save) : Prop :=
  IsNameHost (sv_host sv) = true ∧
  (pg_uuid (sv_rawNetwork sv) = Some (sv_network sv) ∨
   sv_rawNetwork sv = sv_network sv ∧ pg_uuid (sv_network sv) = Some (sv_network sv)) ∧
  (sv_exclude sv = "" ∧ pg_uuid (sv_id sv) = Some (sv_id sv) ∨ pg_uuid (sv_exclude sv) = Some (sv_id sv)).
Definition clash (sv : save) (s : ResDB) : bool :=
  name_clash (sv_tenant sv) (sv_host sv) (sv_rawNetwork sv) (sv_exclude sv) (sv_from sv) (sv_to sv) s.

Record saving := MkSaving { n_db : ResDB; n_sessions : gmap nat (save * bool) (* checked *) }.
Definition lock_free (tenant : uuid) (host : string) (c : saving) : Prop :=
  ∀ k sv b, n_sessions c !! k = Some (sv, b) → (sv_tenant sv, sv_host sv) ≠ (tenant, host).

Inductive nstep : saving → saving → Prop :=
| n_lock c k sv :
    n_sessions c !! k = None → save_ok sv → lock_free (sv_tenant sv) (sv_host sv) c →
    nstep c (MkSaving (n_db c) (<[k := (sv, false)]> (n_sessions c)))
| n_check c k sv :
    n_sessions c !! k = Some (sv, false) → clash sv (n_db c) = false →
    nstep c (MkSaving (n_db c) (<[k := (sv, true)]> (n_sessions c)))
| n_commit c k sv r s' :
    n_sessions c !! k = Some (sv, true) → stores sv r → store_row (sv_id sv) r (n_db c) = Ok s' →
    nstep c (MkSaving s' (delete k (n_sessions c)))
| n_rollback c k : nstep c (MkSaving (n_db c) (delete k (n_sessions c)))
| n_other c op s' :
    op_ok op → saves_name op (n_db c) = false → effect op (n_db c) s' → nstep c (MkSaving s' (n_sessions c)).

Definition canonical_ids (s : ResDB) : Prop :=
  map_Forall (λ i r, pg_uuid i = Some i ∧ pg_uuid (r_network r) = Some (r_network r)) (t_resources s).

(** The code's saves of names are such transactions. *)
Lemma effect_save op s s' :
  canonical_ids s → op_ok op → saves_name op s = true → effect op s s' →
  rtc nstep (MkSaving s ∅) (MkSaving s' ∅).
Proof.
  intros Hcan Hop Hs He.
  assert (∀ sv r, save_ok sv → clash sv s = false → stores sv r → store_row (sv_id sv) r s = Ok s' →
            rtc nstep (MkSaving s ∅) (MkSaving s' ∅)) as Hrun.
  { intros sv r Hok Hc Hst Hsr.
    eapply rtc_l; [apply (n_lock (MkSaving s ∅) 0%nat sv); [done|done|by intros k ? ? ?]|]. simpl.
    eapply rtc_l; [eapply (n_check _ 0%nat sv); [simpl; by rewrite lookup_insert_eq|done]|]. simpl.
    eapply rtc_l; [eapply (n_commit _ 0%nat sv); [simpl; by rewrite lookup_insert_eq|done|done]|]. simpl.
    by rewrite insert_insert_eq, delete_insert_id. }
  destruct He; simpl in Hs; try done.
  - match goal with E : NormalizeHost _ = _ |- _ => rewrite E in Hs; apply normalized_canonical in E as (_ & Hk & _) end.
    destruct kind; [done|]. match goal with E : name_checked _ _ _ _ _ _ _ _ _ |- _ => destruct (E Hk) as [Htcp Hc] end.
    eapply (Hrun (MkSave id tenant host net (ci_PortFrom input) (ci_PortTo input) (ci_RemoteNetworkID input) "")); try done.
    + split_and!; simpl; auto.
    + unfold stores, identity. simpl. by rewrite Htcp.
  - match goal with E : replaces _ _ _ _ _ |- _ => destruct E as [Hr Hst] end.
    repeat match goal with
           | E : normalize_input _ = Some _ |- _ => rewrite E in Hs
           | E : pg_uuid _ = Some id |- _ => rewrite E in Hs
           end. simpl in Hs. rewrite Hr in Hs.
    match goal with E : name_checked _ _ _ _ _ _ _ _ _ |- _ => destruct (E Hs) as [Htcp Hc] end.
    eapply (Hrun (MkSave id tenant (default (r_host r) (ui_Host input')) net _ _
                    (default (r_network r) (ui_RemoteNetworkID input')) raw)); try done.
    + split_and!; simpl; [done| |by right]. destruct (ui_RemoteNetworkID input'); simpl; [by left|right].
      subst net. by destruct (Hcan id r Hr).
    + unfold stores, identity. simpl. rewrite Htcp. subst tenant. do 5 f_equal.
      destruct (ui_Host input') as [h|] eqn:Eh; simpl; [|done]. by eapply normalized_input_host.
Qed.
(** The database prints a uuid in the form it reads back, and reads none from
    the empty text. *)
Hypothesis pg_uuid_canonical : ∀ raw id, pg_uuid raw = Some id → pg_uuid id = Some id.
Hypothesis pg_uuid_empty : pg_uuid "" = None.

Lemma store_canonical i r s s' :
  store_row i r s = Ok s' → pg_uuid i = Some i → pg_uuid (r_network r) = Some (r_network r) →
  canonical_ids s → canonical_ids s'.
Proof using Type. intros (-> & _)%store_row_inv Hi Hn Hc. by apply map_Forall_insert_2. Qed.
Lemma replaces_canonical s i r r' s' :
  replaces s i r r' s' → (r_network r' = r_network r ∨ pg_uuid (r_network r') = Some (r_network r')) →
  canonical_ids s → canonical_ids s'.
Proof using Type.
  intros [Hl Hst] Hn Hc. destruct (Hc i r Hl) as [Hi Hnet]. eapply store_canonical; eauto.
  by destruct Hn as [->|?].
Qed.
Lemma shrink_canonical m s : m ⊆ t_resources s → canonical_ids s → canonical_ids (set_resources m s).
Proof using Type. intros Hm Hc i r Hi. apply (Hc i r). by eapply lookup_weaken. Qed.

Lemma effect_canonical op s s' : op_ok op → effect op s s' → canonical_ids s → canonical_ids s'.
Proof using pg_uuid_canonical.
  intros Hop He Hc. destruct He; simpl in *;
    repeat match goal with E : removes _ _ _ _ |- _ => destruct E as [_ ->] end;
    try (by eapply replaces_canonical; eauto);
    try (apply shrink_canonical; [apply delete_subseteq || apply map_filter_subseteq|done]); try done.
  - eapply store_canonical; eauto.
  - eapply replaces_canonical; [done| |done]. simpl. destruct (ui_RemoteNetworkID input'); [right|by left]. eauto.
  - match goal with E : rtc _ _ _ |- _ => induction E as [|s1 s2 s3 (ack & Ha & Hx) _ IH] end; [done|]. apply IH.
    destruct Hx as [? ? ? ? ? ? ? ? [_ ->]|? ? ? ? ? ? ? Hr];
      [by apply shrink_canonical; [apply delete_subseteq|]|eapply replaces_canonical; eauto].
  - match goal with E : health_stmt _ _ _ _ _ _ _ _ = _ |- _ =>
      apply health_stmt_inv in E as (sid & cid & sh & t & Hsh & Hk & ->) end.
    intros i r' Hr'. simpl in Hr'. apply synced_lookup in Hr' as (r & Hr & [->| ->]); [by apply Hc|].
    destruct (Hc i r Hr) as [? ?]. split; [done|]. unfold rehost. by repeat case_match.
Qed.

(** A checked save commits. *)
Lemma commit_names sv r s s' :
  save_ok sv → stores sv r → clash sv s = false → canonical_ids s → names_ok s →
  store_row (sv_id sv) r s = Ok s' → names_ok s'.
Proof using pg_uuid_canonical pg_uuid_empty.
  intros (Hname & Hnet & Hex) Hst Hcl Hc [Htcp Hn] (-> & _)%store_row_inv.
  injection Hst as Et Eh En Ep Ef Eto. unfold clash in Hcl. rewrite name_clash_false in Hcl.
  assert (∀ j r', j ≠ sv_id sv → t_resources s !! j = Some r' → confusable r r' → r_network r' = r_network r) as Hnew.
  { intros j r' Hj Hr' (Ht & Hh & Hp1 & Hp2). destruct (Hc j r' Hr') as [Hcj Hcn].
    assert (r_network r' = sv_rawNetwork sv) as Er.
    { apply (Hcl j r' Hr'); try congruence; try lia. intros ->. destruct Hex as [[He _]|He]; [|congruence].
      rewrite He in *. congruence. }
    rewrite En, Er. destruct Hnet as [Hnet|[Hnet _]]; [|done]. rewrite Er in Hcn. congruence. }
  split; simpl.
  - intros i r0. rewrite lookup_insert. case_decide; [by intros [= <-]|]. apply Htcp.
  - intros i j r0 r0' Hij. rewrite !lookup_insert. do 2 case_decide; [congruence| | |by apply Hn].
    + intros [= <-] Hr0' _ Hcf. by apply (Hnew j).
    + intros Hr0 [= <-] _ (Ht & Hh & Hp1 & Hp2). symmetry. apply (Hnew i); [done|done|].
      unfold confusable. split_and!; congruence || lia.
Qed.

Definition saving_ok (c : saving) : Prop :=
  names_ok (n_db c) ∧ canonical_ids (n_db c) ∧
  (∀ k sv b, n_sessions c !! k = Some (sv, b) → save_ok sv ∧ (b = true → clash sv (n_db c) = false)) ∧
  (∀ k k' sv sv' b b', k ≠ k' → n_sessions c !! k = Some (sv, b) → n_sessions c !! k' = Some (sv', b') →
     (sv_tenant sv, sv_host sv) ≠ (sv_tenant sv', sv_host sv')).

(** A stored row of another workspace or name is no clash. *)
Lemma clash_other sv sv' r s s' :
  (sv_tenant sv, sv_host sv) ≠ (sv_tenant sv', sv_host sv') → stores sv r →
  store_row (sv_id sv) r s = Ok s' → clash sv' s = false → clash sv' s' = false.
Proof using Type.
  unfold clash. rewrite !name_clash_false. intros Hne Hst (-> & _)%store_row_inv Hcl i r0. simpl.
  rewrite lookup_insert. case_decide; [|by apply Hcl]. intros [= <-] Ht Hh.
  injection Hst as Et Eh _ _ _ _. exfalso. apply Hne. congruence.
Qed.

Lemma nstep_ok c c' : nstep c c' → saving_ok c → saving_ok c'.
Proof using pg_uuid_canonical pg_uuid_empty.
  intros Hs (Hn & Hc & Hse & Hd). unfold saving_ok. destruct Hs as [c k sv Hk Hok Hfree|c k sv Hk Hcl|c k sv r s' Hk Hst Hsr|c k|c op s' Hop Hsv He]; simpl.
  - split_and!; [done|done| |].
    + intros k0 sv0 b0. rewrite lookup_insert. case_decide; [by intros [= <- <-]|]. apply Hse.
    + intros k1 k2 sv1 sv2 b1 b2 Hne. rewrite !lookup_insert. do 2 case_decide; [congruence| | |by apply Hd].
      * intros [= <- <-] Hb E. by apply (Hfree k2 sv2 b2).
      * intros Ha [= <- <-]. by apply (Hfree k1 sv1 b1).
  - destruct (Hse k sv false Hk) as [Hok _]. split_and!; [done|done| |].
    + intros k0 sv0 b0. rewrite lookup_insert. case_decide; [by intros [= <- <-]|]. apply Hse.
    + intros k1 k2 sv1 sv2 b1 b2 Hne. rewrite !lookup_insert. do 2 case_decide; [congruence| | |by apply Hd].
      * intros [= <- <-] Hb. subst. by apply (Hd k1 k2 sv sv2 false b2).
      * intros Ha [= <- <-]. subst. by apply (Hd k1 k2 sv1 sv b1 false).
  - destruct (Hse k sv true Hk) as [Hok Hcl]. specialize (Hcl eq_refl). split_and!.
    + by eapply commit_names.
    + injection Hst as _ _ En _ _ _. destruct Hok as (_ & Hnet & Hex). eapply store_canonical; [done| | |done].
      * destruct Hex as [[_ ?]|?]; eauto.
      * rewrite En. destruct Hnet as [?|[_ ?]]; eauto.
    + intros k0 sv0 b0 Hk0. apply lookup_delete_Some in Hk0 as [Hne Hk0]. destruct (Hse _ _ _ Hk0) as [Hok0 Hcl0].
      split; [done|]. intros ->. apply (clash_other sv sv0 r (n_db c)); [|done|done|by apply Hcl0].
      by apply (Hd k k0 sv sv0 true true).
    + intros k1 k2 sv1 sv2 b1 b2 Hne [_ Ha]%lookup_delete_Some [_ Hb]%lookup_delete_Some.
      by apply (Hd k1 k2 sv1 sv2 b1 b2).
  - split_and!; [done|done| |].
    + intros k0 sv0 b0 [_ Hk0]%lookup_delete_Some. by apply (Hse k0 sv0 b0).
    + intros k1 k2 sv1 sv2 b1 b2 Hne [_ Ha]%lookup_delete_Some [_ Hb]%lookup_delete_Some.
      by apply (Hd k1 k2 sv1 sv2 b1 b2).
  - split_and!; [|by eapply effect_canonical| |done].
    + eapply names_kept_ok; [by eapply effect_names|done].
    + intros k0 sv0 b0 Hk0. destruct (Hse _ _ _ Hk0) as [Hok0 Hcl0]. split; [done|]. intros ->.
      unfold clash in *. destruct Hok0 as [? _]. eapply names_kept_clash; eauto. by eapply effect_names.
Qed.

End safety.

(** ** Instances *)

Module Demo.
Definition read_uuid (raw : string) : option uuid := if raw ≟ "" then None else Some raw.
Definition ssh : ResRow :=
  MkResRow "ws" "lan" (Some "shield") "ssh" None "tcp" "10.0.0.5" 22 22 "protected" "apply" None (Some 1) (Some 1) 0 0.
Definition wiki : ResRow :=
  MkResRow "ws" "lan" None "wiki" None "tcp" "wiki.corp.example" 443 443 "unprotected" "remove" None None None 0 0.
Definition db : ResDB :=
  MkResDB {[ "r1" := ssh; "r2" := wiki ]}
    {[ "shield" := MkShieldRow "ws" "lan" "conn" "s1" "active" (Some "10.0.0.5") None None 0 1 "" ]}
    {[ "lan" := ("ws", "LAN"); "dmz" := ("ws", "DMZ") ]} {[ "conn" := ("ws", "lan", "active") ]} {[ "ws" := Some "ws.example" ]}.
Definition ack (status : string) : Ack := MkAck "r1" status "" 1700000000 "shield" "10.0.0.5" "tcp" 22 22.
Definition move_port : UpdateInput := MkUpdateInput None None None None None (Some 2222) (Some 2222).

Lemma db_is_wf : db_wf db.
Proof.
  split.
  - unfold db. simpl. rewrite !map_Forall_insert by done. split_and!; try by vm_compute. apply map_Forall_singleton. by vm_compute.
  - unfold keys_distinct. apply (bool_decide_unpack _). by vm_compute.
Qed.

Lemma db_names : names_ok db ∧ canonical_ids read_uuid db.
Proof.
  assert (map_Forall (λ i r, (IsNameHost (r_host r) = true → r_protocol r = "tcp") ∧
    map_Forall (λ j r', i ≠ j → IsNameHost (r_host r) = true → confusable r r' → r_network r' = r_network r)
      (t_resources db)) (t_resources db)) as Hall by (apply (bool_decide_unpack _); by vm_compute).
  split; [split|].
  - intros i r Hr. by apply (Hall i r).
  - intros i j r r' Hij Hr Hr'. by apply (proj2 (Hall i r Hr) j r').
  - apply (bool_decide_unpack _). by vm_compute.
Qed.


Lemma ack_status_unchecked_witness :
  run (RecordAck read_uuid 5 "ws" (ack "pending")) db =
    (Ok true, set_resources (<["r1" := ack_row 5 ((1700000000 + unixToInternal) * Second) (ack "pending") ssh]> (t_resources db)) db).
Proof.
  apply (ack_status_unchecked read_uuid db "ws" "r1" "shield" ssh 5 ((1700000000 + unixToInternal) * Second) (ack "pending"));
    try done; [apply db_is_wf|by left].
Defined.

End Demo.
