(* ===== verification/ResourceRoutes.v ===== *)
(** * Acknowledgements and the access list

    [RecordAck] says whether an acknowledgement changed what the ACL compiler
    puts out; only then is the workspace's access list invalidated.  Here the
    compiler's reading of the resources table ([PolicyStore], [AclCompiler]) is
    joined to the table that [ResourceStore] writes. *)

From Stdlib Require Import ZArith Lia.
From S2P Require Import Prelude Sql GoText PolicyStore AclCompiler NetTarget ResourceHost ResourceStore ResourceFacts ResourceSafety.
Open Scope Z_scope.
Set Default Proof Using "Type".

(** The columns of a resource that the compiler reads; [policy]: the column that
    the resource policies write. *)
Definition acl_resource (policy : uuid → option uuid) (id : uuid) (r : ResRow) : ResourceRec :=
  MkResourceRec (r_tenant r) (r_name r) (r_host r) (r_port_from r) (r_protocol r) (r_shield r) (r_status r)
    (r_network r) (policy id).
Definition acl_view (policy : uuid → option uuid) (s : ResDB) (p : PolicyDB) : PolicyDB :=
  MkPolicyDB (groups p) (group_members p) (access_rules p)
    (map_imap (λ id r, Some (acl_resource policy id r)) (t_resources s))
    (remote_networks p) (shields p) (shield_revocations p) (p_workspaces p) (p_users p) (p_members p)
    (client_devices p) (connectors p) (connector_certificates p) (connector_relay_placement p) (relays p)
    (device_profiles p) (resource_policy_profiles p) (evaluations_tbl p) (report_received p).

(** What the access rule [ar] adds to the compilation. *)
Definition contributes (ws : uuid) (p : PolicyDB) (c : collected) (ar : AccessRuleRow) : result policy_error collected :=
  match compiler_row ws p ar with Some row => collect_rule c row | None => Ok c end.

(** The compiler reads a status only for its route. *)
Definition same_route (st st' : string) : Prop :=
  st ≠ "deleting" ∧ st' ≠ "deleting" ∧ shield_status st = shield_status st' ∧ connectorRouted st = connectorRouted st'.

Lemma route_same st st' shield : same_route st st' → routeTypeForResource st' shield = routeTypeForResource st shield.
Proof.
  intros (_ & _ & Hs & Hc). unfold routeTypeForResource, connectorRouted in *. by rewrite Hs, Hc.
Qed.

Lemma status_route policy ws p c ar s id r r' :
  t_resources s !! id = Some r → same_route (r_status r) (r_status r') →
  acl_resource policy id r' = MkResourceRec (r_tenant r) (r_name r) (r_host r) (r_port_from r) (r_protocol r)
                                (r_shield r) (r_status r') (r_network r) (policy id) →
  contributes ws (acl_view policy (set_resources (<[id := r']> (t_resources s)) s) p) c ar =
  contributes ws (acl_view policy s p) c ar.
Proof.
  intros Hr Hsame E. unfold contributes, compiler_row, rule_joined. simpl. rewrite !map_lookup_imap.
  destruct (decide (ar_resource ar = id)) as [->|Hne]; [|by rewrite lookup_insert_ne by done].
  rewrite lookup_insert_eq, Hr. cbn [mbind option_bind].
  assert (rs_tenant (acl_resource policy id r') = rs_tenant (acl_resource policy id r)) as -> by (by rewrite E).
  destruct (groups p !! ar_group ar) as [g|]; [|done]. cbn [mbind option_bind].
  destruct ((ar_workspace ar ≟ ws) && _ && _ && _); [|done]. rewrite E. simpl.
  destruct (remote_networks p !! r_network r) as [[rt rn]|]; [|done]. simpl. destruct Hsame as (Hd & Hd' & Hroute).
  rewrite (bool_decide_false (r_status r = "deleting")), (bool_decide_false (r_status r' = "deleting")) by done.
  destruct ((rt ≟ ws) && _); [|done].
  unfold collect_rule, shieldUnavailable. simpl. destruct Hroute as [Hs Hc]. rewrite Hs.
  by rewrite (route_same (r_status r) (r_status r')).
Qed.

Section routes.
Context (pg_uuid : string → option uuid).

(** What [RecordAck] answers, for each outcome. *)
Lemma RecordAck_answer now tenant ack s :
  wp (RecordAck pg_uuid now tenant ack) s None (λ x s' _,
    match x with
    | Ok false => s' = s ∨ ∃ id r verified, ack_guard s ack r = true ∧ replaces s id r (ack_row now verified ack r) s' ∧
                                            connectorRouted (r_status r) = connectorRouted (a_Status ack)
    | Ok true => (∃ id r, r_status r = "deleting" ∧ removes s id r s') ∨
                 ∃ id r verified, replaces s id r (ack_row now verified ack r) s' ∧
                                  connectorRouted (r_status r) ≠ connectorRouted (a_Status ack)
    | Err _ => True
    end).
Proof.
  unfold RecordAck. wp_go; try done.
  all: repeat match goal with
       | E : with_texts _ _ _ = Ok _ |- _ => apply with_texts_inv in E
       | E : with_id _ _ _ _ = Ok _ |- _ => apply with_id_inv in E as (? & ? & ?)
       | E : delete_resource _ _ _ = Ok _ |- _ => apply delete_resource_inv in E as [[? ->]|(? & ? & ? & ?)]
       end; simplify_eq/=; bool_simpl.
  all: try (left; eauto; fail).
  all: destruct (to_timestamp _); [|done].
  all: match goal with E : update_resource _ _ _ _ _ = Ok _ |- _ => apply update_resource_inv in E as [[? ->]|(r & ? & ? & ?)] end;
    simplify_eq/=; bool_simpl; [by left|].
  all: destruct (connectorRouted (r_status r)) eqn:E1, (connectorRouted (a_Status ack)) eqn:E2; simpl; right;
    do 3 eexists; split_and?; eauto; congruence.
Qed.

(** the access list is invalidated whenever an acknowledgement matters to it.
    When [RecordAck] answers that nothing changed, every access rule adds to the
    compilation exactly what it added before, in every workspace and against
    every state of the other tables; when it answers that something changed, a
    tombstone was removed or the resource moved between the connector's and the
    shield's route.  The shield reports one of its three statuses. *)
Theorem RecordAck_notifies (now : time) (tenant : uuid) (ack : Ack) (s : ResDB) :
  db_wf s → reported (a_Status ack) →
  wp (RecordAck pg_uuid now tenant ack) s None (λ x s' _,
    match x with
    | Ok false => ∀ policy p ws c ar,
        contributes ws (acl_view policy s' p) c ar = contributes ws (acl_view policy s p) c ar
    | Ok true => ∃ id r, t_resources s !! id = Some r ∧
        (r_status r = "deleting" ∧ t_resources s' !! id = None ∨
         ∃ r', t_resources s' !! id = Some r' ∧ connectorRouted (r_status r) ≠ connectorRouted (r_status r'))
    | Err _ => True
    end).
Proof.
  intros Hwf Hrep. eapply wp_mono; [|apply RecordAck_answer]. intros [[]|e] s' wk Hx; [| |done].
  - destruct Hx as [(id & r & Hd & Hr)|(id & r & verified & Hr & Hne)]; exists id, r.
    + split; [by destruct Hr|]. left. split; [done|]. rewrite (removes_lookup _ _ _ _ id Hr). by rewrite decide_True.
    + split; [by destruct Hr|]. right. exists (ack_row now verified ack r). split; [|done].
      rewrite (replaces_lookup _ _ _ _ _ id Hr). by rewrite decide_True.
  - destruct Hx as [->|(id & r & verified & Hg & [Hl Hst] & Hc)]; [done|]. intros policy p ws c ar.
    apply store_row_inv in Hst as (-> & _). apply (status_route policy ws p c ar s id r); [done| |done]. simpl.
    destruct Hwf as [Hrows _]. destruct (Hrows id r Hl) as [Hck _]. unfold row_check in Hck. bool_simpl.
    unfold ack_guard in Hg. bool_simpl.
    assert (a_Status ack ≠ "deleting") as Hnd by (by destruct Hrep as [->|[->| ->]]).
    split; [done|]. split; [done|]. split; [|done].
    match goal with E : r_status r ∈ resource_statuses |- _ => rename E into Ein end.
    unfold resource_statuses in Ein. repeat (apply elem_of_cons in Ein as [Ein|Ein]); [..|by apply elem_of_nil in Ein];
      rewrite Ein in *; destruct Hrep as [Es|[Es|Es]]; rewrite Es in *; done.
Qed.
End routes.

Lemma RecordAck_notifies_witness :
  wp (RecordAck Demo.read_uuid 5 "ws" (Demo.ack "failed")) Demo.db None (λ x s' _,
    x = Ok false → ∀ policy p ws c ar,
      contributes ws (acl_view policy s' p) c ar = contributes ws (acl_view policy Demo.db p) c ar).
Proof.
  eapply wp_mono; [|apply (RecordAck_notifies Demo.read_uuid 5 "ws" (Demo.ack "failed") Demo.db); [apply Demo.db_is_wf|]].
  - intros x s' wk Hx ->. exact Hx.
  - unfold reported. simpl. auto.
Defined.
