(* ===== verification/SnapshotText.v ===== *)
(** * The text behind a snapshot's fingerprint

    [fingerprintDesired] hashes one line per row, its fields separated by bars.
    When no field holds a bar or a line break, the text determines the rows that
    the shield sees, up to their order. *)

From Stdlib Require Import ZArith Lia Ascii.
From stdpp Require Import pretty.
From S2P Require Import Prelude GoText ResourceStore.
Open Scope Z_scope.
Set Default Proof Using "Type".

Definition bar : ascii := "|"%char.
Definition newline : ascii := chr 10.
Definition plain (s : string) : Prop := bar ∉ bytes s ∧ newline ∉ bytes s.
#[export] Instance plain_dec s : Decision (plain s).
Proof. unfold plain. apply _. Defined.
Definition plain_row (r : PendingRow) : Prop := plain (p_ID r) ∧ plain (p_Host r) ∧ plain (p_Protocol r).

(** ** Numbers are plain *)

Definition digit_char (c : ascii) : bool := in_range 48 57 c || (c ≟ "-"%char).
Lemma digit_char_plain l : Forall (λ c, digit_char c = true) l → bar ∉ l ∧ newline ∉ l.
Proof.
  intros Hl. rewrite Forall_forall in Hl. split; intros Hin; apply Hl in Hin; by vm_compute in Hin.
Qed.

Lemma pretty_N_char_digit n : digit_char (pretty_N_char n) = true.
Proof. unfold pretty_N_char. by repeat (case_match; try done). Qed.


Lemma pretty_N_go_digits n s :
  Forall (λ c, digit_char c = true) (bytes s) → Forall (λ c, digit_char c = true) (bytes (pretty_N_go n s)).
Proof.
  revert s. induction (N.lt_wf_0 n) as [n _ IH]. intros s Hs.
  destruct (decide (n = 0%N)) as [->|Hn]; [by rewrite pretty_N_go_0|].
  rewrite pretty_N_go_step by lia. apply IH; [apply N.div_lt; lia|].
  rewrite bytes_cons. constructor; [apply pretty_N_char_digit|done].
Qed.
Lemma pretty_N_digits (n : N) : Forall (λ c, digit_char c = true) (bytes (pretty n)).
Proof. unfold pretty, pretty_N. case_decide; [by repeat constructor|]. apply pretty_N_go_digits. constructor. Qed.
Lemma pretty_Z_plain (z : Z) : plain (pretty z).
Proof.
  apply digit_char_plain. unfold pretty, pretty_Z. destruct z as [|p|p].
  - by repeat constructor.
  - apply pretty_N_digits.
  - rewrite bytes_app. apply Forall_app. split; [by repeat constructor|]. apply pretty_N_digits.
Qed.

(** ** Lines and fields *)

Lemma split_at {A} (c : A) l1 l2 r1 r2 :
  c ∉ l1 → c ∉ l2 → l1 ++ c :: r1 = l2 ++ c :: r2 → l1 = l2 ∧ r1 = r2.
Proof.
  revert l2. induction l1 as [|x l1 IH]; intros [|y l2] Hl1 Hl2 E; simplify_eq/=; [done|set_solver|set_solver|].
  destruct (IH l2) as [-> ->]; [set_solver|set_solver|done|done].
Qed.

(** What the shield sees of a row. *)
Definition wire (r : PendingRow) : string * string * string * Z * Z :=
  (p_ID r, p_Host r, p_Protocol r, p_PortFrom r, p_PortTo r).

Lemma line_bytes r :
  bytes (desired_line r) = bytes (p_ID r) ++ bar :: bytes (p_Host r) ++ bar :: bytes (p_Protocol r) ++ bar ::
    bytes (pretty (p_PortFrom r)) ++ bar :: bytes (pretty (p_PortTo r)) ++ [newline].
Proof. unfold desired_line. rewrite !bytes_app. done. Qed.

(** The first line of a text determines its row. *)
Lemma line_inj r1 r2 t1 t2 :
  plain_row r1 → plain_row r2 →
  bytes (desired_line r1) ++ t1 = bytes (desired_line r2) ++ t2 → wire r1 = wire r2 ∧ t1 = t2.
Proof.
  intros ([Hi1 _] & [Hh1 _] & [Hp1 _]) ([Hi2 _] & [Hh2 _] & [Hp2 _]). rewrite !line_bytes. intros E.
  repeat (rewrite <-app_assoc in E || rewrite <-app_comm_cons in E).
  destruct (pretty_Z_plain (p_PortFrom r1)) as [Hf1 _]. destruct (pretty_Z_plain (p_PortFrom r2)) as [Hf2 _].
  destruct (pretty_Z_plain (p_PortTo r1)) as [_ Ht1]. destruct (pretty_Z_plain (p_PortTo r2)) as [_ Ht2].
  apply split_at in E as [Ei E]; [|done|done]. apply split_at in E as [Eh E]; [|done|done].
  apply split_at in E as [Ep E]; [|done|done]. apply split_at in E as [Ef E]; [|done|done].
  apply split_at in E as [Et E]; [|done|done]. split; [|exact E].
  apply bytes_inj in Ei, Eh, Ep, Ef, Et. apply (inj pretty) in Ef, Et. unfold wire. congruence.
Qed.

Lemma line_nonempty r t : bytes (desired_line r) ++ t ≠ [].
Proof. rewrite line_bytes. by destruct (bytes (p_ID r)). Qed.

Definition text_of (l : list PendingRow) : list ascii := concat ((λ r, bytes (desired_line r)) <$> l).
Lemma text_of_inj l1 l2 : Forall plain_row l1 → Forall plain_row l2 → text_of l1 = text_of l2 → wire <$> l1 = wire <$> l2.
Proof.
  intros H1. revert l2. induction H1 as [|r1 l1 Hr1 _ IH]; intros l2 H2 E; destruct H2 as [|r2 l2 Hr2 Hl2]; simpl in *.
  - done.
  - by apply eq_sym, line_nonempty in E.
  - by apply line_nonempty in E.
  - apply line_inj in E as [-> E]; [|done|done]. f_equal. by apply IH.
Qed.

Lemma desired_text_bytes rows : bytes (desired_text rows) = text_of (merge_sort (rel_on String.le p_ID) rows).
Proof.
  unfold desired_text, text_of. induction (merge_sort _ rows) as [|r l IH]; [done|]. cbn [foldr fmap list_fmap concat].
  by rewrite bytes_app, IH.
Qed.

(** Equal texts: the same rows, up to order and the pending action. *)
Lemma desired_text_wire rows1 rows2 :
  Forall plain_row rows1 → Forall plain_row rows2 → desired_text rows1 = desired_text rows2 →
  wire <$> rows1 ≡ₚ wire <$> rows2.
Proof.
  intros H1 H2 E. apply (f_equal bytes) in E. rewrite !desired_text_bytes in E.
  rewrite <-(merge_sort_Permutation (rel_on String.le p_ID) rows1), <-(merge_sort_Permutation (rel_on String.le p_ID) rows2).
  apply text_of_inj in E; [by rewrite E|by rewrite merge_sort_Permutation..].
Qed.
