(* ===== verification/ShieldAgent.v ===== *)
(** * The shield's resources (shield/src/resources.rs, peer_list.rs,
    control_stream.rs)

    The shield applies controller-signed resource sets in the order of their
    generations, turns them into one nftables transaction, opens tunnels only to
    what it protects, and acknowledges what it did.  The probe of a local port,
    the LAN address, signatures, the decoding of a payload and the outcome of a
    kernel transaction are parameters. *)

From Stdlib Require Import ZArith Lia Ascii.
From S2P Require Import Prelude GoText NetTarget ResourceStore.
Open Scope Z_scope.

(** ** State *)

Record ActiveResource := MkActive {
  ac_resource_id : string; ac_host : string; ac_protocol : string; ac_port_from : Z; ac_port_to : Z
}.
#[export] Instance ActiveResource_eq_dec : EqDecision ActiveResource.
Proof. solve_decision. Defined.

Record ResourceAck := MkResourceAck {
  ra_resource_id : string; ra_status : string; ra_error : string; ra_verified_at : Z; ra_port_reachable : bool;
  ra_shield_id : string; ra_host : string; ra_protocol : string; ra_port_from : Z; ra_port_to : Z
}.

(** The rule an acknowledgement is about. *)
Definition active_rule (r : ActiveResource) : ResourceInstruction :=
  MkInstruction (ac_resource_id r) (ac_host r) (ac_protocol r) (ac_port_from r) (ac_port_to r) "".
Definition make_ack (rule : ResourceInstruction) (status error : string) (verified_at : Z) (reachable : bool) : ResourceAck :=
  MkResourceAck (in_ResourceId rule) status error verified_at reachable "" (in_Host rule) (in_Protocol rule)
    (in_PortFrom rule) (in_PortTo rule).
Definition health_ack (rule : ResourceInstruction) (reachable : bool) (verified_at : Z) : ResourceAck :=
  if reachable then make_ack rule "protected" "" verified_at true
  else make_ack rule "failed" "port not listening" verified_at false.

Inductive Admission := Apply | Same | Stale.

Record SharedResourceState := MkShared {
  active : list ActiveResource; acks : list ResourceAck; last_generation : option Z; state_seq : Z
}.
Definition new_shared : SharedResourceState := MkShared [] [] None 0.

Definition admit_resource_set (generation floor : Z) (st : SharedResourceState) : Admission * SharedResourceState :=
  if generation <? floor then (Stale, st)
  else
    let apply := (Apply, MkShared (active st) (acks st) (Some generation) (state_seq st)) in
    match last_generation st with
    | Some l => if generation <? l then (Stale, st) else if generation =? l then (Same, st) else apply
    | None => apply
    end.

Definition allows_tunnel (destination : string) (port : Z) (protocol : string) (st : SharedResourceState) : bool :=
  match parse_ip destination with
  | None => false
  | Some dest =>
      if negb ((0 <=? port) && (port <=? 65535)) then false
      else
        let tunnel_proto := if protocol ≟ "udp" then "udp" else "tcp" in
        existsb (λ r, (parse_ip (ac_host r) ≟ Some dest) && ((ac_port_from r <=? port) && (port <=? ac_port_to r)) &&
                      ((ac_protocol r ≟ tunnel_proto) || (negb (ac_protocol r ≟ "tcp") && negb (ac_protocol r ≟ "udp"))))
          (active st)
  end.

Definition put_ack (l : list ResourceAck) (ack : ResourceAck) : list ResourceAck :=
  filter (λ a, ra_resource_id a ≠ ra_resource_id ack) l ++ [ack].
Definition store_ack (ack : ResourceAck) (st : SharedResourceState) : SharedResourceState :=
  MkShared (active st) (put_ack (acks st) ack) (last_generation st) (state_seq st).
Definition drain_acks (st : SharedResourceState) : list ResourceAck * SharedResourceState :=
  (acks st, MkShared (active st) [] (last_generation st) (state_seq st)).

(** The ids of the report, sorted; its hash is left out. *)
Record ResourceStateReport := MkReport { sp_shield_id : string; sp_generation : Z; sp_active_ids : list string }.
Definition build_state_report (shield_id : string) (st : SharedResourceState) : ResourceStateReport :=
  MkReport shield_id (state_seq st) (merge_sort String.le (ac_resource_id <$> active st)).

(** ** The firewall *)

Inductive port_expr := PNumber (n : Z) | PRange (lo hi : Z).
Definition port_expression (port_from port_to : Z) : port_expr :=
  if port_from =? port_to then PNumber port_from else PRange port_from port_to.

Inductive nft_match :=
| MIifname (name : string)
| MSourcePrefix (addr : string) (len : Z)
| MDport (protocol : string) (port : port_expr).
Inductive verdict := Accept | Drop.
Record Rule := MkRule { ru_expr : list nft_match; ru_verdict : verdict }.

Definition iif_accept_rule (protocol : string) (port : port_expr) (iif : string) : Rule :=
  MkRule [MIifname iif; MDport protocol port] Accept.
Definition source_accept_rule (protocol : string) (port : port_expr) (addr : string) (len : Z) : Rule :=
  MkRule [MSourcePrefix addr len; MDport protocol port] Accept.
Definition port_drop_rule (protocol : string) (port : port_expr) : Rule := MkRule [MDport protocol port] Drop.

(** The commands of the transaction. *)
Inductive nft_cmd := AddTable | AddChain (policy : verdict) | FlushChain | AddRule (r : Rule).

Definition protos (protocol : string) : list string :=
  if protocol ≟ "tcp" then ["tcp"] else if protocol ≟ "udp" then ["udp"] else ["tcp"; "udp"].
Definition resource_rules (r : ActiveResource) : list Rule :=
  protos (ac_protocol r) ≫= λ proto,
    let port := port_expression (ac_port_from r) (ac_port_to r) in
    [iif_accept_rule proto port "lo"; source_accept_rule proto port "127.0.0.0" 8; port_drop_rule proto port].
Definition build_protect_ruleset (resources : list ActiveResource) : list nft_cmd :=
  [AddTable; AddChain Accept; FlushChain] ++ (AddRule <$> (resources ≫= resource_rules)).

(** ** Applying a set *)

Section agent.
Context (lan_ip : option string) (* what the host's interfaces say *)
        (check_port : string → Z → bool) (* a local connection succeeds *)
        (now : Z).

Definition validate_host (resource_host : string) : bool :=
  if resource_host ≟ "127.0.0.1" then true
  else match lan_ip with Some my_ip => my_ip ≟ resource_host | None => false end.

(** [as u16]. *)
Definition u16 (z : Z) : Z := z mod 2 ^ 16.
Definition to_active (res : ResourceInstruction) : ActiveResource :=
  MkActive (in_ResourceId res) (in_Host res) (in_Protocol res) (u16 (in_PortFrom res)) (u16 (in_PortTo res)).

Definition new_active (payload : ResourceSetPayload) : list ActiveResource :=
  to_active <$> filter (λ res, validate_host (in_Host res) = true) (pl_resources payload).

(** [nft]: the error of the kernel transaction, if it fails. *)
Definition apply_resource_set (payload : ResourceSetPayload) (nft : option string) (st : SharedResourceState)
    : list ResourceAck * SharedResourceState :=
  let refused := (λ res, make_ack res "failed" "resource host does not match this shield's IP" now false) <$>
                   filter (λ res, validate_host (in_Host res) = false) (pl_resources payload) in
  let applied := new_active payload in
  (refused ++ ((λ r, match nft with
                     | None => health_ack (active_rule r) (check_port (ac_host r) (ac_port_from r)) now
                     | Some e => make_ack (active_rule r) "failed" e now false
                     end) <$> applied),
   MkShared applied (acks st) (last_generation st) (state_seq st + 1)).

Definition remove_acks (payload : ResourceSetPayload) : list ResourceAck :=
  (λ rm, make_ack rm "unprotected" "" now false) <$> pl_removes payload.

(** One turn of [run_health_check_loop]. *)
Definition health_check (st : SharedResourceState) : SharedResourceState :=
  MkShared (active st)
    (foldl put_ack (acks st)
       ((λ r, health_ack (active_rule r) (check_port (ac_host r) (ac_port_from r)) now) <$> active st))
    (last_generation st) (state_seq st).
End agent.

(** ** Signed sets *)

Record SignedResourceSet := MkSigned { sg_payload : string; sg_signature : string }.

(** The agent: its memory, the chain in the kernel, and its state file. *)
Record Shield := MkShield {
  sh_shared : SharedResourceState; sh_chain : list Rule;
  sh_floor : Z; (* state.resource_generation_floor *)
  sh_saved_floor : Z (* in state.json *)
}.

(** What a committed transaction leaves in the chain. *)
Definition commit_cmd (chain : list Rule) (c : nft_cmd) : list Rule :=
  match c with FlushChain => [] | AddRule r => chain ++ [r] | _ => chain end.
Definition nft_commit (cmds : list nft_cmd) (chain : list Rule) : list Rule := foldl commit_cmd chain cmds.

Section signed.
Context (sig_ok : string → string → bool) (* the Workspace CA key over context and payload *)
        (decode : string → option ResourceSetPayload)
        (trust_domain shield_id : string).

Definition verify_resource_set (signed : SignedResourceSet) : option ResourceSetPayload :=
  if negb (sig_ok (sg_payload signed) (sg_signature signed)) then None
  else match decode (sg_payload signed) with
       | None => None
       | Some payload =>
           if negb (pl_trust_domain payload ≟ trust_domain) then None
           else if negb (pl_shield_id payload ≟ shield_id) then None
           else Some payload
       end.

(** What the host answers while a set is applied: LAN address, ports, clock, the
    kernel transaction, and whether state.json can be saved. *)
Record host_env := MkHostEnv {
  he_lan_ip : option string; he_check_port : string → Z → bool; he_now : Z; he_nft : option string; he_saved : bool
}.

Definition apply_signed_resource_set (e : host_env) (signed : option SignedResourceSet) (sh : Shield)
    : list ResourceAck * Shield :=
  match signed ≫= verify_resource_set with
  | None => ([], sh)
  | Some payload =>
      let '(adm, st) := admit_resource_set (pl_generation payload) (sh_floor sh) (sh_shared sh) in
      match adm with
      | Stale => ([], sh)
      | Same => (remove_acks (he_now e) payload, sh)
      | Apply =>
          let '(acks, st') := apply_resource_set (he_lan_ip e) (he_check_port e) (he_now e) payload (he_nft e) st in
          let chain := match he_nft e with
                       | None => nft_commit (build_protect_ruleset (active st')) (sh_chain sh)
                       | Some _ => sh_chain sh
                       end in
          let raise := sh_floor sh <? pl_generation payload in
          (acks ++ remove_acks (he_now e) payload,
           MkShield st' chain (if raise then pl_generation payload else sh_floor sh)
             (if raise && he_saved e then pl_generation payload else sh_saved_floor sh))
      end
  end.

(** A snapshot from the connector; [may_act]: the CRL clears the connector.
    The acknowledgements sent at once. *)
Definition handle_snapshot (may_act : bool) (e : host_env) (signed : option SignedResourceSet) (sh : Shield)
    : list ResourceAck * Shield :=
  if negb may_act then ([], sh)
  else
    let '(acks, sh') := apply_signed_resource_set e signed sh in
    (acks, MkShield (foldl (λ st a, store_ack a st) (sh_shared sh') acks) (sh_chain sh') (sh_floor sh') (sh_saved_floor sh')).
End signed.

(** The process starts again from state.json; the kernel keeps its chain. *)
Definition restart (sh : Shield) : Shield := MkShield new_shared (sh_chain sh) (sh_saved_floor sh) (sh_saved_floor sh).

(** The acknowledgements and the report of a heartbeat. *)
Definition health_tick (shield_id : string) (sh : Shield) : list ResourceAck * ResourceStateReport * Shield :=
  let '(acks, st) := drain_acks (sh_shared sh) in
  (acks, build_state_report shield_id st, MkShield st (sh_chain sh) (sh_floor sh) (sh_saved_floor sh)).

(** ** The way of an acknowledgement *)

(** The connector stamps the verified identity of the stream. *)
Definition stamp_shield_id (ack : ResourceAck) (verified_shield_id : string) : ResourceAck :=
  MkResourceAck (ra_resource_id ack) (ra_status ack) (ra_error ack) (ra_verified_at ack) (ra_port_reachable ack)
    verified_shield_id (ra_host ack) (ra_protocol ack) (ra_port_from ack) (ra_port_to ack).
(** What the controller records of it. *)
Definition ack_of (ack : ResourceAck) : Ack :=
  MkAck (ra_resource_id ack) (ra_status ack) (ra_error ack) (ra_verified_at ack) (ra_shield_id ack)
    (ra_host ack) (ra_protocol ack) (ra_port_from ack) (ra_port_to ack).
