(* ===== verification/ShieldFacts.v ===== *)
(** * The shield's firewall and tunnels

    nftables evaluates a chain's rules in order; the first whose matches all hold
    decides, else the chain's policy.  [chain_verdict] states that reading; the
    theorems say what the shield's transaction does to a packet, which tunnels
    the shield opens, and what its acknowledgements can claim. *)

From Stdlib Require Import ZArith Lia Ascii.
From S2P Require Import Prelude GoText NetTarget ResourceStore ShieldAgent.
Open Scope Z_scope.
Set Default Proof Using "Type".

(** ** Packets *)

Record packet := MkPacket {
  pk_iif : string; pk_saddr : option (Z * Z * Z * Z); (* of an IPv4 packet *)
  pk_proto : string; pk_dport : Z
}.

Definition addr32 (a b c d : Z) : Z := ((a * 256 + b) * 256 + c) * 256 + d.
Definition port_matches (e : port_expr) (p : Z) : bool :=
  match e with PNumber n => p =? n | PRange lo hi => (lo <=? p) && (p <=? hi) end.
Definition match_holds (p : packet) (m : nft_match) : bool :=
  match m with
  | MIifname name => pk_iif p ≟ name
  | MSourcePrefix addr len =>
      match pk_saddr p, parse_ip addr with
      | Some (a, b, c, d), Some (V4 a' b' c' d') =>
          Z.shiftr (addr32 a b c d) (32 - len) =? Z.shiftr (addr32 a' b' c' d') (32 - len)
      | _, _ => false
      end
  | MDport proto port => (pk_proto p ≟ proto) && port_matches port (pk_dport p)
  end.
Definition rule_matches (p : packet) (r : Rule) : bool := forallb (match_holds p) (ru_expr r).
Fixpoint chain_verdict (chain : list Rule) (p : packet) : verdict :=
  match chain with
  | [] => Accept
  | r :: rest => if rule_matches p r then ru_verdict r else chain_verdict rest p
  end.

(** A packet from this host. *)
Definition local (p : packet) : bool :=
  (pk_iif p ≟ "lo") || match pk_saddr p with Some (a, _, _, _) => a =? 127 | None => false end.
Definition octets_ok (p : packet) : Prop :=
  match pk_saddr p with
  | Some (a, b, c, d) => 0 <= a <= 255 ∧ 0 <= b <= 255 ∧ 0 <= c <= 255 ∧ 0 <= d <= 255
  | None => True
  end.
(** The resource's rule is about this packet. *)
Definition covers (r : ActiveResource) (p : packet) : bool :=
  bool_decide (pk_proto p ∈ protos (ac_protocol r)) && (ac_port_from r <=? pk_dport p) && (pk_dport p <=? ac_port_to r).

Lemma port_expression_matches lo hi p : port_matches (port_expression lo hi) p = (lo <=? p) && (p <=? hi).
Proof. unfold port_expression. destruct (Z.eqb_spec lo hi); simpl; [|done]. subst. lia. Qed.

Lemma commit_rules rules chain : nft_commit (AddRule <$> rules) chain = chain ++ rules.
Proof.
  revert chain. induction rules as [|r rules IH]; intros chain; simpl; [by rewrite app_nil_r|].
  unfold nft_commit in *. simpl. by rewrite IH, <-app_assoc.
Qed.
(** The chain holds the new rules only. *)
Lemma ruleset_chain rs chain : nft_commit (build_protect_ruleset rs) chain = rs ≫= resource_rules.
Proof. unfold build_protect_ruleset, nft_commit. rewrite foldl_app. apply (commit_rules _ []). Qed.

Lemma loopback_prefix p :
  octets_ok p → match_holds p (MSourcePrefix "127.0.0.0" 8) = match pk_saddr p with Some (a, _, _, _) => a =? 127 | None => false end.
Proof.
  assert (parse_ip "127.0.0.0" = Some (V4 127 0 0 0)) as Hp by (by vm_compute).
  unfold octets_ok, match_holds. rewrite Hp. destruct (pk_saddr p) as [[[[a b] c] d]|]; intros Ho; [|done].
  change (32 - 8) with 24. rewrite !Z.shiftr_div_pow2 by lia. unfold addr32. change (2 ^ 24) with 16777216.
  replace (((a * 256 + b) * 256 + c) * 256 + d) with (a * 16777216 + (b * 65536 + c * 256 + d)) by lia.
  rewrite Z.div_add_l, Z.div_small, Z.add_0_r by lia. done.
Qed.

Lemma app_verdict l1 l2 p :
  chain_verdict (l1 ++ l2) p = if existsb (rule_matches p) l1 then chain_verdict l1 p else chain_verdict l2 p.
Proof. induction l1 as [|r l1 IH]; simpl; [done|]. by destruct (rule_matches p r). Qed.

(** The three rules for one protocol. *)
Lemma proto_rules_verdict p proto lo hi l2 :
  octets_ok p →
  let port := port_expression lo hi in
  chain_verdict ([iif_accept_rule proto port "lo"; source_accept_rule proto port "127.0.0.0" 8; port_drop_rule proto port] ++ l2) p =
  if (pk_proto p ≟ proto) && ((lo <=? pk_dport p) && (pk_dport p <=? hi))
  then (if local p then Accept else Drop) else chain_verdict l2 p.
Proof.
  intros Ho port. pose proof (loopback_prefix p Ho) as Hl.
  cbn -[match_holds]. unfold rule_matches. cbn [ru_expr ru_verdict iif_accept_rule source_accept_rule port_drop_rule forallb].
  rewrite Hl. cbn [match_holds]. unfold port. rewrite port_expression_matches, !andb_true_r. unfold local.
  destruct ((pk_proto p ≟ proto) && _); simpl; rewrite ?andb_false_r, ?andb_true_r; [|done].
  destruct (pk_iif p ≟ "lo"); simpl; [done|]. by destruct (pk_saddr p) as [[[[a b] c] d]|]; [destruct (a =? 127)|].
Qed.

Lemma resource_rules_verdict p r l2 :
  octets_ok p →
  chain_verdict (resource_rules r ++ l2) p = if covers r p then (if local p then Accept else Drop) else chain_verdict l2 p.
Proof.
  intros Ho. unfold resource_rules, covers.
  induction (protos (ac_protocol r)) as [|proto ps IH]; [done|].
  rewrite bind_cons, <-app_assoc, proto_rules_verdict, IH by done.
  destruct ((ac_port_from r <=? pk_dport p) && (pk_dport p <=? ac_port_to r)) eqn:Ep.
  - rewrite <-!andb_assoc, Ep, !andb_true_r. destruct (pk_proto p ≟ proto) eqn:E; bool_simpl.
    + rewrite bool_decide_true; [done|]. rewrite E. left.
    + rewrite (bool_decide_ext (pk_proto p ∈ proto :: ps) (pk_proto p ∈ ps)); [done|]. rewrite elem_of_cons. naive_solver.
  - by rewrite <-!andb_assoc, Ep, !andb_false_r.
Qed.

(** The rules of a set of resources. *)
Lemma rules_verdict (resources : list ActiveResource) (p : packet) :
  octets_ok p →
  chain_verdict (resources ≫= resource_rules) p = Drop ↔ local p = false ∧ ∃ r, r ∈ resources ∧ covers r p = true.
Proof.
  intros Ho. induction resources as [|r rs IH]; simpl.
  - split; [done|]. intros (_ & r & Hr%elem_of_nil & _). done.
  - rewrite resource_rules_verdict by done. destruct (covers r p) eqn:Hc.
    + destruct (local p); split; try done; [by intros []|]. intros _. split; [done|]. exists r. split; [left|done].
    + rewrite IH. split; intros [Hl (r0 & Hr0 & Hc0)]; (split; [done|]); exists r0.
      * split; [by right|done].
      * apply elem_of_cons in Hr0 as [->|Hr0]; [by rewrite Hc in Hc0|done].
Qed.

(** the firewall is exact.  Whatever rules the chain held before, the
    transaction that the shield commits for its active resources makes the kernel
    drop exactly the packets that come from outside this host for a protocol and
    port of one of them; packets of the host itself and packets for other ports
    are accepted. *)
Theorem firewall_exact (resources : list ActiveResource) (old : list Rule) (p : packet) :
  octets_ok p →
  chain_verdict (nft_commit (build_protect_ruleset resources) old) p = Drop ↔
  local p = false ∧ ∃ r, r ∈ resources ∧ covers r p = true.
Proof. intros Ho. rewrite ruleset_chain. by apply rules_verdict. Qed.

Lemma firewall_exact_witness :
  chain_verdict (nft_commit (build_protect_ruleset [MkActive "r1" "10.0.0.5" "any" 8000 8010])
    [port_drop_rule "tcp" (PNumber 22)]) (MkPacket "eth0" (Some (10, 0, 0, 9)) "udp" 8005) = Drop.
Proof.
  apply (firewall_exact [MkActive "r1" "10.0.0.5" "any" 8000 8010] _ (MkPacket "eth0" (Some (10, 0, 0, 9)) "udp" 8005)).
  - unfold octets_ok. simpl. lia.
  - split; [done|]. exists (MkActive "r1" "10.0.0.5" "any" 8000 8010). split; [left|by vm_compute].
Defined.
