(* ===== verification/ShieldSafety.v ===== *)
(** * From the resources table to the shield's firewall

    The controller builds snapshots of a shield's desired set, each stamped with
    a generation, and signs them; connectors deliver them late, repeatedly, out
    of order or not at all; the shield applies them, crashes, and starts again
    from its state file.  Everything else that the controller does to the tables
    runs in between. *)

From Stdlib Require Import ZArith Lia Ascii.
From S2P Require Import Prelude Sql GoText NetTarget ResourceHost ResourceStore ResourceFacts ResourceSafety SnapshotText ShieldAgent ShieldFacts.
Open Scope Z_scope.
Set Default Proof Using "Type".

(** ** Plain rows *)

Lemma host_char_plain l : forallb host_char l = true → bar ∉ l ∧ newline ∉ l.
Proof. rewrite forallb_forall. intros Hl. split; intros Hin%list_elem_of_In%Hl; by vm_compute in Hin. Qed.
Lemma name_char_plain l : forallb name_char l = true → bar ∉ l ∧ newline ∉ l.
Proof. rewrite forallb_forall. intros Hl. split; intros Hin%list_elem_of_In%Hl; by vm_compute in Hin. Qed.

Lemma normalized_plain host v k : NormalizeHost host = Some (v, k) → plain v.
Proof.
  unfold NormalizeHost, plain. intros E.
  destruct (ParseAddr (bytes (TrimSpace host))) as [[os|]|] eqn:Ea; [|done|].
  - apply ParseAddr_4, parseIPv4_four in Ea as (a & b & c & d & -> & Ha & Hb & Hc & Hd). case_match; [done|].
    simplify_eq. rewrite bytes_of_bytes. by apply host_char_plain, ipv4_text_chars.
  - apply fmap_Some in E as (n & Hn%normalize_name_form & [= -> ->]). rewrite bytes_of_bytes.
    by apply name_char_plain, name_chars.
Qed.

Lemma check_plain_protocol r : row_check r = true → plain (r_protocol r).
Proof.
  unfold row_check. intros Hc. bool_simpl.
  match goal with E : r_protocol r ∈ _ |- _ => repeat (apply elem_of_cons in E as [->|E]); [..|by apply elem_of_nil in E] end;
    apply (bool_decide_unpack _); by vm_compute.
Qed.

Definition plain_db (s : ResDB) : Prop :=
  map_Forall (λ i r, plain i ∧ plain (r_host r) ∧ plain (r_protocol r)) (t_resources s) ∧
  map_Forall (λ _ sh, from_option plain True (sd_lan_ip sh)) (t_shields s).

(** Generated keys and reported addresses are plain. *)
Definition op_plain (op : res_op) : Prop :=
  match op with
  | OpCreate _ id _ _ => plain id
  | OpHealth _ _ _ _ lanIP _ => plain lanIP
  | _ => True
  end.

Section safety.
Context (pg_uuid : string → option uuid) (sha256_hex : string → string) `{RowOrder}.
Abbreviation effect := (effect pg_uuid sha256_hex).

Lemma store_plain i r s s' :
  store_row i r s = Ok s' → plain i → plain (r_host r) → plain_db s → plain_db s'.
Proof.
  intros (-> & Hc & _)%store_row_inv Hi Hh [Hr Hs]. split; [|done]. apply map_Forall_insert_2; [|done].
  split_and!; [done|done|by apply check_plain_protocol].
Qed.
Lemma replaces_plain s i r r' s' :
  replaces s i r r' s' → (r_host r' = r_host r ∨ plain (r_host r')) → plain_db s → plain_db s'.
Proof.
  intros [Hl Hst] Hh Hp. destruct (proj1 Hp i r Hl) as (Hi & Hr & _). eapply store_plain; eauto. by destruct Hh as [->|?].
Qed.
Lemma shrink_plain m s : m ⊆ t_resources s → plain_db s → plain_db (set_resources m s).
Proof. intros Hm [Hr Hs]. split; [|done]. intros i r Hi. apply (Hr i r). by eapply lookup_weaken. Qed.

Lemma effect_plain op s s' : op_plain op → effect op s s' → plain_db s → plain_db s'.
Proof.
  intros Hop He Hp. destruct He; simpl in *;
    repeat match goal with E : removes _ _ _ _ |- _ => destruct E as [_ ->] end;
    try (by eapply replaces_plain; eauto);
    try (apply shrink_plain; [apply delete_subseteq || apply map_filter_subseteq|done]); try done.
  - eapply store_plain; [done|done| |done]. simpl. by eapply normalized_plain.
  - eapply replaces_plain; [done| |done]. simpl.
    match goal with E : normalize_input _ = Some _ |- _ => rename E into Hn end. unfold normalize_input in Hn.
    destruct (ui_Host input) as [h0|] eqn:E; [|left; simplify_eq; by rewrite E].
    apply fmap_Some in Hn as ([v k] & Hv & ->). right. simpl. rewrite (normalized_TrimSpace h0 v k) by done.
    by eapply normalized_plain.
  - match goal with E : rtc _ _ _ |- _ => induction E as [|s1 s2 s3 (ack & Ha & Hx) _ IH] end; [done|]. apply IH.
    destruct Hx as [? ? ? ? ? ? ? ? [_ ->]|? ? ? ? ? ? ? Hr];
      [by apply shrink_plain; [apply delete_subseteq|]|eapply replaces_plain; eauto].
  - destruct Hp as [Hr Hs]. split; [done|]. simpl. intros i sh0 Hi.
    destruct (decide (i = sid)) as [->|]; [|rewrite lookup_alter_ne in Hi by done; by eapply Hs].
    rewrite lookup_alter_eq in Hi. apply fmap_Some in Hi as (sh1 & Hsh1 & ->). simpl. by apply (Hs sid sh1).
  - match goal with E : health_stmt _ _ _ _ _ _ _ _ = _ |- _ =>
      apply health_stmt_inv in E as (sid & cid & sh & t & Hsh & Hk & ->) end.
    destruct Hp as [Hr Hs]. assert (from_option plain True (null_if_empty lanIP)) as Hip.
    { unfold null_if_empty. by destruct (lanIP ≟ ""). }
    split; simpl.
    + intros i r' Hr'. apply synced_lookup in Hr' as (r & Hlr & Hc). destruct (Hr i r Hlr) as (Hi & Hh & Hpr).
      destruct Hc as [->| ->]; [done|]. unfold rehost. destruct (sd_lan_ip sh), (null_if_empty lanIP); try done. destruct (_ && _); by split_and!.
    + apply map_Forall_insert_2; [done|done].
Qed.

(** ** What a shield is to enforce *)

Lemma rows_where_elem {A} (c : ResRow → bool) (f : uuid → ResRow → A) s x :
  x ∈ rows_where c f s ↔ ∃ i r, t_resources s !! i = Some r ∧ c r = true ∧ x = f i r.
Proof.
  unfold rows_where. rewrite ord_elem, list_elem_of_omap. split.
  - intros ([i r] & Hi%elem_of_map_to_list & Hx). simpl in *. case_match; [|done]. simplify_eq. eauto.
  - intros (i & r & Hi%elem_of_map_to_list & Hc & ->). exists (i, r). simpl. by rewrite Hc.
Qed.

Lemma desired_elem sid s x :
  x ∈ desiredForShield sid s ↔
  ∃ i r, t_resources s !! i = Some r ∧ r_shield r = Some sid ∧ enforced r = true ∧ x = pending_row s i r.
Proof.
  unfold desiredForShield. rewrite rows_where_elem. split.
  - intros (i & r & Hi & Hc & ->). bool_simpl. eauto 10.
  - intros (i & r & Hi & Hs & He & ->). exists i, r. split_and!; [done| |done]. by rewrite Hs, He, bool_decide_true.
Qed.

Lemma shield_host_plain s r : plain_db s → plain (r_host r) → plain (shieldHostSQL r (bound_shield s r)).
Proof.
  intros [_ Hs] Hh. unfold shieldHostSQL, bound_shield. case_match; [done|].
  destruct (r_shield r) as [sid|]; [|done]. simpl. destruct (t_shields s !! sid) as [sh|] eqn:Hsh; [|done]. simpl.
  pose proof (Hs sid sh Hsh) as Hip. cbv beta in Hip. destruct (sd_lan_ip sh) as [ip|]; simpl in Hip; [|done]. by destruct (ip ≟ "").
Qed.
Lemma desired_plain sid s : plain_db s → Forall plain_row (desiredForShield sid s).
Proof.
  intros Hp. apply Forall_forall. intros x (i & r & Hi & _ & _ & ->)%desired_elem.
  destruct (proj1 Hp i r Hi) as (? & ? & ?). split_and!; simpl; try done. by apply shield_host_plain.
Qed.
(** ** Snapshots *)

(** What a successful build returns and leaves. *)
Lemma build_ok raw s :
  wp (BuildShieldSnapshot pg_uuid sha256_hex raw) s None (λ x s' _, ∀ snap, x = Ok snap →
    ∃ sid sh, pg_uuid raw = Some sid ∧ t_shields s !! sid = Some sh ∧ sn_Resources snap = desiredForShield sid s ∧
      let fp := fingerprintDesired sha256_hex (desiredForShield sid s) in
      if decide (fp = sd_fingerprint sh) then s' = s ∧ sn_Generation snap = uint64 (sd_generation sh)
      else s' = bump_generation sid (int64 (sd_generation sh + 1)) fp s ∧
           sn_Generation snap = uint64 (int64 (sd_generation sh + 1))).
Proof.
  unfold BuildShieldSnapshot. wp_go; try done;
    repeat match goal with
           | E : with_id _ _ (λ rid, query _) _ = Ok _ |- _ =>
               apply read_with_id in E as [-> (sid & ? & (sh & ? & [= -> -> ->])%eq_sym%fmap_Some)]
           | E : exec _ _ = Ok _ |- _ => unfold exec in E; simplify_eq
           end; intros snap [= <-]; bool_simpl; eexists _, _; (split; [done|]); (split; [done|]); (split; [done|]); simpl.
  - by rewrite decide_True.
  - by rewrite decide_False.
Qed.

Lemma sign_ok raw g res s :
  wp (signResourceSet pg_uuid raw g res) s None (λ x s' _, s' = s ∧ ∀ p, x = Ok p →
    pl_shield_id p = raw ∧ pl_generation p = g ∧ pl_resources p = res ∧
    ∃ sid, pg_uuid raw = Some sid ∧ pl_removes p = instruction "remove" <$> removes_for sid s).
Proof.
  unfold signResourceSet. wp_go;
    repeat match goal with E : with_id _ _ (λ rid, query _) _ = Ok _ |- _ => apply read_with_id in E as [-> (? & ? & ?)] end;
    (split; [done|]); try done. intros p [= <-]. simplify_eq/=. split_and!; [done..|]. eauto.
Qed.

(** Generation and fingerprint of a shield move together, one step at a time. *)
Lemma effect_generation op s s' sid sh :
  effect op s s' → t_shields s !! sid = Some sh →
  ∃ sh', t_shields s' !! sid = Some sh' ∧
    ((sd_generation sh', sd_fingerprint sh') = (sd_generation sh, sd_fingerprint sh) ∨
     sd_generation sh' = int64 (sd_generation sh + 1)).
Proof.
  intros He Hsh. assert (∀ s1, t_shields s1 = t_shields s → ∃ sh', t_shields s1 !! sid = Some sh' ∧
    ((sd_generation sh', sd_fingerprint sh') = (sd_generation sh, sd_fingerprint sh) ∨
     sd_generation sh' = int64 (sd_generation sh + 1))) as Hsame by (intros s1 ->; eauto).
  destruct He;
    repeat match goal with
           | E : removes _ _ _ _ |- _ => destruct E as [_ ->]
           | E : replaces _ _ _ _ _ |- _ => destruct E as [_ E]
           | E : store_row _ _ _ = Ok _ |- _ => apply store_row_inv in E as (-> & _)
           end; try (by apply Hsame).
  - apply Hsame. match goal with E : rtc _ _ _ |- _ => clear -E; induction E as [|s1 s2 s3 (ack & Ha & Hx) _ IH] end; [done|].
    rewrite IH. destruct Hx as [? ? ? ? ? ? ? ? [_ ->]|? ? ? ? ? ? ? [_ (-> & _)%store_row_inv]]; done.
  - simpl. destruct (decide (sid = sid0)) as [->|]; [|rewrite lookup_alter_ne by done; eauto].
    rewrite lookup_alter_eq, Hsh. simplify_eq. simpl. eauto.
  - match goal with E : health_stmt _ _ _ _ _ _ _ _ = _ |- _ =>
      apply health_stmt_inv in E as (sid1 & cid & sh1 & t & Hsh1 & Hk & ->) end. simpl.
    destruct (decide (sid = sid1)) as [->|]; [|rewrite lookup_insert_ne by done; eauto].
    rewrite lookup_insert_eq. simplify_eq. eauto.
Qed.
End safety.
