(* ===== verification/ShieldRun.v ===== *)
(** * One shield, end to end

    A machine of the resources table, the snapshots built and signed for one
    shield, and the shield that gets them in any order.  One generation names one
    desired set; the shield never falls back behind a set it has saved; and a
    current set that reaches it makes its firewall enforce what the table says. *)

From Stdlib Require Import ZArith Lia Ascii.
From S2P Require Import Prelude Sql GoText NetTarget ResourceHost ResourceStore ResourceFacts ResourceSafety SnapshotText ShieldAgent ShieldFacts ShieldSafety.
Open Scope Z_scope.
Set Default Proof Using "Type".

(** ** Deliveries *)

Section deliveries.
Context (sig_ok : string → string → bool) (decode : string → option ResourceSetPayload) (trust_domain sid : string).
Abbreviation verify := (verify_resource_set sig_ok decode trust_domain sid).
Abbreviation handle := (handle_snapshot sig_ok decode trust_domain sid).

(** All but the acknowledgements. *)
Definition core (sh : Shield) :=
  (active (sh_shared sh), last_generation (sh_shared sh), sh_chain sh, sh_floor sh, sh_saved_floor sh).

Lemma store_acks_core l st :
  let st' := foldl (λ st a, store_ack a st) st l in active st' = active st ∧ last_generation st' = last_generation st.
Proof. revert st. induction l as [|a l IH]; intros st; simpl; [done|]. destruct (IH (store_ack a st)) as [-> ->]. done. Qed.

(** The chain after a set is applied. *)
Definition applied_chain (e : host_env) (p : ResourceSetPayload) (chain : list Rule) : list Rule :=
  match he_nft e with
  | None => nft_commit (build_protect_ruleset (new_active (he_lan_ip e) p)) chain
  | Some _ => chain
  end.

(** A delivery changes nothing but acknowledgements, or applies a verified set
    that is newer than the last one and not below the floor. *)
Lemma handle_cases may_act e m sh :
  core (handle may_act e m sh).2 = core sh ∨
  ∃ sg p, m = Some sg ∧ verify sg = Some p ∧ may_act = true ∧ sh_floor sh <= pl_generation p ∧
    (∀ l, last_generation (sh_shared sh) = Some l → l < pl_generation p) ∧
    core (handle may_act e m sh).2 =
      (new_active (he_lan_ip e) p, Some (pl_generation p), applied_chain e p (sh_chain sh), pl_generation p,
       if (sh_floor sh <? pl_generation p) && he_saved e then pl_generation p else sh_saved_floor sh).
Proof.
  unfold handle_snapshot. destruct may_act; simpl; [|by left]. unfold apply_signed_resource_set.
  destruct m as [sg|]; simpl; [|by left]. destruct (verify sg) as [p|] eqn:Hv; [|by left]. unfold admit_resource_set.
  destruct (Z.ltb_spec (pl_generation p) (sh_floor sh)); [by left|].
  assert (∀ st, (active st, acks st, last_generation st) = (active (sh_shared sh), acks (sh_shared sh), Some (pl_generation p)) →
    core (let '(acks, sh') := (let '(acks, st') := apply_resource_set (he_lan_ip e) (he_check_port e) (he_now e) p (he_nft e) st in
      let chain := match he_nft e with
                   | None => nft_commit (build_protect_ruleset (active st')) (sh_chain sh)
                   | Some _ => sh_chain sh
                   end in
      let raise := sh_floor sh <? pl_generation p in
      (acks ++ remove_acks (he_now e) p,
       MkShield st' chain (if raise then pl_generation p else sh_floor sh)
         (if raise && he_saved e then pl_generation p else sh_saved_floor sh))) in
      (acks, MkShield (foldl (λ st a, store_ack a st) (sh_shared sh') acks) (sh_chain sh') (sh_floor sh') (sh_saved_floor sh'))).2 =
    (new_active (he_lan_ip e) p, Some (pl_generation p), applied_chain e p (sh_chain sh), pl_generation p,
     if (sh_floor sh <? pl_generation p) && he_saved e then pl_generation p else sh_saved_floor sh)) as Happ.
  { intros st Est. injection Est as _ _ El. unfold core. simpl.
    match goal with |- context [foldl ?f ?a ?l] => destruct (store_acks_core l a) as [-> ->] end. simpl. rewrite El.
    unfold applied_chain. repeat f_equal. destruct (Z.ltb_spec (sh_floor sh) (pl_generation p)); lia. }
  destruct (last_generation (sh_shared sh)) as [l|] eqn:El.
  - destruct (Z.ltb_spec (pl_generation p) l); [by left|]. destruct (Z.eqb_spec (pl_generation p) l).
    + left. simpl. unfold core. simpl.
      match goal with |- context [foldl ?f ?a ?l] => destruct (store_acks_core l a) as [-> ->] end. done.
    + right. exists sg, p. split_and!; try done; [|by apply Happ]. intros l' [= <-]. lia.
  - right. exists sg, p. split_and!; try done. by apply Happ.
Qed.

(** A verified set that is newer than everything before is applied, and the
    acknowledgements are about it. *)
Lemma admit_new g floor st :
  floor <= g → (∀ l, last_generation st = Some l → l < g) →
  admit_resource_set g floor st = (Apply, MkShared (active st) (acks st) (Some g) (state_seq st)).
Proof.
  intros Hf Hl. unfold admit_resource_set. destruct (Z.ltb_spec g floor); [lia|].
  destruct (last_generation st) as [l|]; [|done]. specialize (Hl l eq_refl).
  destruct (Z.ltb_spec g l); [lia|]. by destruct (Z.eqb_spec g l); [lia|].
Qed.
Lemma handle_apply e sg p sh :
  verify sg = Some p → sh_floor sh <= pl_generation p → (∀ l, last_generation (sh_shared sh) = Some l → l < pl_generation p) →
  last_generation (sh_shared (handle true e (Some sg) sh).2) = Some (pl_generation p) ∧
  active (sh_shared (handle true e (Some sg) sh).2) = new_active (he_lan_ip e) p ∧
  sh_chain (handle true e (Some sg) sh).2 = applied_chain e p (sh_chain sh) ∧
  ∃ st, (handle true e (Some sg) sh).1 =
    (apply_resource_set (he_lan_ip e) (he_check_port e) (he_now e) p (he_nft e) st).1 ++ remove_acks (he_now e) p.
Proof.
  intros Hv Hf Hl. unfold handle_snapshot. simpl. unfold apply_signed_resource_set. simpl. rewrite Hv, admit_new by done. simpl.
  match goal with |- context [foldl ?f ?a ?l] => destruct (store_acks_core l a) as [-> ->] end. simpl.
  split_and!; try done. by exists (sh_shared sh).
Qed.

(** The queue holds the last acknowledgement of each resource. *)
Lemma put_acks_last q l a :
  a ∈ l → ∃ a', a' ∈ foldl put_ack q l ∧ a' ∈ l ∧ ra_resource_id a' = ra_resource_id a.
Proof.
  induction l as [|x l IH] using rev_ind; [by intros ?%elem_of_nil|]. rewrite foldl_app. simpl. intros Hin.
  destruct (decide (ra_resource_id a = ra_resource_id x)) as [E|E].
  - exists x. unfold put_ack. rewrite !elem_of_app, !list_elem_of_singleton. auto.
  - apply elem_of_app in Hin as [Hin|Hx%list_elem_of_singleton]; [|by subst]. destruct (IH Hin) as (a' & Hq & Hl & Ea).
    exists a'. unfold put_ack. rewrite !elem_of_app, list_elem_of_filter, Ea. auto.
Qed.

(** a failed transaction is reported as protection.  When the kernel refuses
    the transaction of a set, the old rules stay; but the agent's memory already
    holds the new set, so the next health check queues the status protected for
    every resource whose port answers, and since the generation counts as applied,
    no redelivery of the same set tries the kernel again. *)
Theorem failed_apply_reported_protected (e e' : host_env) (sg : SignedResourceSet) (p : ResourceSetPayload) (sh : Shield)
    (err : string) (check_port : string → Z → bool) (now : Z) :
  verify sg = Some p → sh_floor sh <= pl_generation p →
  (∀ l, last_generation (sh_shared sh) = Some l → l < pl_generation p) →
  he_nft e = Some err →
  let sh1 := (handle true e (Some sg) sh).2 in
  let sh2 := MkShield (health_check check_port now (sh_shared sh1)) (sh_chain sh1) (sh_floor sh1) (sh_saved_floor sh1) in
  sh_chain sh2 = sh_chain sh ∧
  (∀ r, r ∈ new_active (he_lan_ip e) p → (∀ host port, check_port host port = true) →
     ∃ a, a ∈ acks (sh_shared sh2) ∧ ra_resource_id a = ac_resource_id r ∧ ra_status a = "protected") ∧
  sh_chain (handle true e' (Some sg) sh2).2 = sh_chain sh.
Proof.
  intros Hv Hf Hl Hn sh1 sh2. destruct (handle_apply e sg p sh Hv Hf Hl) as (El & Ea & Ec & _).
  unfold applied_chain in Ec. rewrite Hn in Ec. fold sh1 in El, Ea, Ec. split_and!; [done| |].
  - intros r Hr Hport. unfold sh2. simpl. rewrite Ea.
    destruct (put_acks_last (acks (sh_shared sh1))
      ((λ r, health_ack (active_rule r) (check_port (ac_host r) (ac_port_from r)) now) <$> new_active (he_lan_ip e) p)
      (health_ack (active_rule r) (check_port (ac_host r) (ac_port_from r)) now)) as (a & Hq & (r' & -> & _)%list_elem_of_fmap & Ei).
    { apply list_elem_of_fmap. by exists r. }
    exists (health_ack (active_rule r') (check_port (ac_host r') (ac_port_from r')) now). split; [done|].
    rewrite Hport in Ei |- *. rewrite Hport in Ei. done.
  - destruct (handle_cases true e' (Some sg) sh2) as [E|(sg' & p' & [= <-] & Hv' & _ & _ & Hl' & _)].
    + unfold core in E. injection E as _ _ E _ _. rewrite E. done.
    + assert (p' = p) as -> by congruence. specialize (Hl' _ El). lia.
Qed.
End deliveries.

(** ** The machine *)

Section machine.
Context (pg_uuid : string → option uuid) (sha256_hex : string → string) `{RowOrder}
        (sig_ok : string → string → bool) (decode : string → option ResourceSetPayload) (trust_domain : string)
        (sid : uuid).
Hypothesis sid_canonical : pg_uuid sid = Some sid.

Record estate := MkE {
  e_db : ResDB;
  e_snaps : list SnapshotResult; (* built for the shield *)
  e_signed : list ResourceSetPayload; (* signed for the shield *)
  e_shield : Shield;
  e_hist : gmap Z string (* ghost: the fingerprint of each generation *)
}.

Definition note (s : ResDB) (hist : gmap Z string) : gmap Z string :=
  match t_shields s !! sid with Some sh => <[sd_generation sh := sd_fingerprint sh]> hist | None => hist end.

(** A message a connector can present: without a signature of the workspace's CA
    it is worthless, and the CA signs for this shield only the sets of
    [e_signed]. *)
Definition presentable (signed : list ResourceSetPayload) (m : option SignedResourceSet) : Prop :=
  ∀ sg p, m = Some sg → sig_ok (sg_payload sg) (sg_signature sg) = true → decode (sg_payload sg) = Some p →
    pl_shield_id p = sid → p ∈ signed.

Inductive estep : estate → estate → Prop :=
| e_op c op s' :
    op_plain op → effect pg_uuid sha256_hex op (e_db c) s' →
    estep c (MkE s' (e_snaps c) (e_signed c) (e_shield c) (note s' (e_hist c)))
| e_build c fs snap w :
    BuildShieldSnapshot pg_uuid sha256_hex sid (World (e_db c) None fs) = (Ok snap, w) →
    estep c (MkE (committed w) (snap :: e_snaps c) (e_signed c) (e_shield c) (note (committed w) (e_hist c)))
| e_sign c snap fs p w :
    snap ∈ e_snaps c →
    signResourceSet pg_uuid sid (sn_Generation snap) (instruction "" <$> sn_Resources snap) (World (e_db c) None fs) = (Ok p, w) →
    estep c (MkE (e_db c) (e_snaps c) (p :: e_signed c) (e_shield c) (e_hist c))
| e_deliver c may_act env m :
    presentable (e_signed c) m →
    estep c (MkE (e_db c) (e_snaps c) (e_signed c)
      (handle_snapshot sig_ok decode trust_domain sid may_act env m (e_shield c)).2 (e_hist c))
| e_health_check c check_port now :
    estep c (MkE (e_db c) (e_snaps c) (e_signed c)
      (MkShield (health_check check_port now (sh_shared (e_shield c))) (sh_chain (e_shield c)) (sh_floor (e_shield c))
         (sh_saved_floor (e_shield c))) (e_hist c))
| e_tick c : estep c (MkE (e_db c) (e_snaps c) (e_signed c) (health_tick sid (e_shield c)).2 (e_hist c))
| e_restart c : estep c (MkE (e_db c) (e_snaps c) (e_signed c) (restart (e_shield c)) (e_hist c)).

(** The shield is enrolled and has applied nothing; nothing was built yet. *)
Definition einit (c : estate) : Prop :=
  plain_db (e_db c) ∧ e_snaps c = [] ∧ e_signed c = [] ∧
  (∃ chain, e_shield c = MkShield new_shared chain 0 0) ∧ e_hist c = note (e_db c) ∅ ∧
  ∃ sh, t_shields (e_db c) !! sid = Some sh ∧ sd_generation sh = 0.

(** ** Generations *)

Definition gens_ok (c : estate) (b : Z) : Prop :=
  plain_db (e_db c) ∧ ∃ sh, t_shields (e_db c) !! sid = Some sh ∧ 0 <= sd_generation sh <= b ∧
    e_hist c !! sd_generation sh = Some (sd_fingerprint sh) ∧
    (∀ g fp, e_hist c !! g = Some fp → g <= sd_generation sh) ∧
    (∀ snap, snap ∈ e_snaps c → 0 <= sn_Generation snap <= sd_generation sh ∧
       e_hist c !! sn_Generation snap = Some (fingerprintDesired sha256_hex (sn_Resources snap)) ∧
       Forall plain_row (sn_Resources snap)) ∧
    (∀ p, p ∈ e_signed c → pl_shield_id p = sid ∧ ∃ snap, snap ∈ e_snaps c ∧ pl_generation p = sn_Generation snap ∧
       pl_resources p = instruction "" <$> sn_Resources snap).

Lemma int64_small z : 0 <= z < 2 ^ 63 → int64 z = z.
Proof. intros Hz. unfold int64. rewrite Z.mod_small; lia. Qed.
Lemma uint64_small z : 0 <= z < 2 ^ 63 → uint64 z = z.
Proof. intros Hz. unfold uint64. rewrite Z.mod_small; lia. Qed.

(** The table moves to a new generation or keeps its old one. *)
Lemma gens_move c b s' sh sh' snaps' :
  gens_ok c b → b + 1 < 2 ^ 63 → plain_db s' → t_shields (e_db c) !! sid = Some sh → t_shields s' !! sid = Some sh' →
  (sd_generation sh', sd_fingerprint sh') = (sd_generation sh, sd_fingerprint sh) ∨ sd_generation sh' = int64 (sd_generation sh + 1) →
  (∀ snap, snap ∈ snaps' → snap ∈ e_snaps c ∨
     sn_Generation snap = sd_generation sh' ∧ fingerprintDesired sha256_hex (sn_Resources snap) = sd_fingerprint sh' ∧
     Forall plain_row (sn_Resources snap)) →
  e_snaps c ⊆ snaps' →
  gens_ok (MkE s' snaps' (e_signed c) (e_shield c) (note s' (e_hist c))) (b + 1).
Proof.
  intros (Hp & sh0 & Hsh0 & Hb & Hh & Hmax & Hsn & Hsg) Hlt Hp' Hsh Hsh' Hmove Hnew Hsub. simplify_eq.
  assert (sd_generation sh0 <= sd_generation sh' <= sd_generation sh0 + 1 ∧
    (∀ g, g <= sd_generation sh0 → note s' (e_hist c) !! g = e_hist c !! g)) as [Hg Hold].
  { unfold note. rewrite Hsh'. destruct Hmove as [E|E].
    - injection E as Eg Ef. split; [lia|]. intros g Hle. rewrite Eg, Ef. by rewrite insert_id.
    - rewrite E, int64_small by lia. split; [lia|]. intros g Hle. rewrite lookup_insert_ne by lia. done. }
  split; [done|]. exists sh'. simpl. split_and!; [done|lia|lia| | | |].
  - unfold note. rewrite Hsh'. by rewrite lookup_insert_eq.
  - intros g fp. unfold note. rewrite Hsh', lookup_insert. case_decide; [lia|]. intros Hl%Hmax. lia.
  - intros snap [Hin|(Eg & Ef & Hpl)]%Hnew.
    + destruct (Hsn snap Hin) as (? & Hl & ?). split_and!; [lia|lia| |done]. by rewrite Hold by lia.
    + split_and!; [lia|lia| |done]. rewrite Eg, Ef. unfold note. rewrite Hsh'. by rewrite lookup_insert_eq.
  - intros p Hin. destruct (Hsg p Hin) as (? & snap & Hs & ?). split; [done|]. exists snap. split; [by apply Hsub|done].
Qed.

Lemma gens_weaken c b : gens_ok c b → gens_ok c (b + 1).
Proof. intros (Hp & sh & Hsh & Hb & Hrest). split; [done|]. exists sh. split_and!; [done|lia|lia|apply Hrest..]. Qed.

Lemma estep_gens c c' b : estep c c' → b + 1 < 2 ^ 63 → gens_ok c b → gens_ok c' (b + 1).
Proof using sid_canonical.
  intros Hs Hlt Hg. destruct Hs as [c op s' Hop He|c fs snap w Hb|c snap fs p w Hin Hs|c may_act env m Hm|c cp now|c|c].
  - pose proof Hg as (Hp & sh & Hsh & _). destruct (effect_generation _ _ _ _ _ sid sh He Hsh) as (sh' & Hsh' & Hmv).
    apply (gens_move c b s' sh sh'); [done|done|by eapply effect_plain|done|done|done|by left|done].
  - pose proof Hg as (Hp & sh & Hsh & Hbd & _). pose proof (build_ok pg_uuid sha256_hex sid (e_db c) fs) as Hw. rewrite Hb in Hw.
    destruct (Hw snap eq_refl) as (sid' & sh0 & Hsid & Hsh0 & Er & Hcase). rewrite sid_canonical in Hsid. injection Hsid as <-. rewrite Hsh in Hsh0. injection Hsh0 as <-.
    pose proof (desired_plain sid (e_db c) Hp) as Hpl. cbv zeta in Hcase. case_decide as Hfp; destruct Hcase as [Ec Eg].
    + rewrite Ec. apply (gens_move c b (e_db c) sh sh (snap :: e_snaps c)); [done|done|done|done|done|by left| |set_solver].
      intros sn [->|?]%elem_of_cons; [right|by left]. rewrite Eg, Er, uint64_small by lia. done.
    + assert (t_shields (committed w) !! sid =
        Some (set_snapshot (int64 (sd_generation sh + 1)) (fingerprintDesired sha256_hex (desiredForShield sid (e_db c))) sh)) as Hsh'.
      { rewrite Ec. simpl. by rewrite lookup_alter_eq, Hsh. }
      apply (gens_move c b _ sh _ (snap :: e_snaps c) Hg Hlt) in Hsh'; [done| |done|by right| |set_solver].
      * rewrite Ec. destruct Hp as [Hr Hl]. split; [done|]. intros i sh1. simpl. destruct (decide (i = sid)) as [->|].
        -- rewrite lookup_alter_eq, Hsh. intros [= <-]. simpl. by apply (Hl sid sh).
        -- rewrite lookup_alter_ne by done. apply Hl.
      * intros sn [->|?]%elem_of_cons; [right|by left]. rewrite Eg, Er. simpl. rewrite !int64_small by lia.
        by rewrite uint64_small by lia.
  - destruct Hg as (Hp & sh & Hsh & Hbd & Hh & Hmax & Hsn & Hsg). split; [done|]. exists sh.
    split_and!; [done|lia|lia|done|done|done|]. simpl.
    pose proof (sign_ok pg_uuid sid (sn_Generation snap) (instruction "" <$> sn_Resources snap) (e_db c) fs) as Hw. rewrite Hs in Hw.
    destruct Hw as [_ Hw]. destruct (Hw p eq_refl) as (E1 & E2 & E3 & _).
    intros q [->|Hq]%elem_of_cons; [|by apply Hsg]. split; [done|]. exists snap. done.
  - by apply gens_weaken in Hg.
  - by apply gens_weaken in Hg.
  - by apply gens_weaken in Hg.
  - by apply gens_weaken in Hg.
Qed.
Lemma esteps_gens n c c' b : nsteps estep n c c' → b + Z.of_nat n < 2 ^ 63 → gens_ok c b → gens_ok c' (b + Z.of_nat n).
Proof using sid_canonical.
  intros Hn. revert b. induction Hn as [c|n c1 c2 c3 Hs _ IH]; intros b Hb Hg.
  - by rewrite Z.add_0_r.
  - replace (b + Z.of_nat (S n)) with ((b + 1) + Z.of_nat n) by lia. apply IH; [lia|]. eapply estep_gens; eauto. lia.
Qed.
Lemma einit_gens c : einit c → gens_ok c 0.
Proof.
  intros (Hp & Hsn & Hsg & _ & Hh & sh & Hsh & Hg). split; [done|]. exists sh. rewrite Hh, Hsn, Hsg. unfold note. rewrite Hsh, Hg.
  split_and!; [done|lia|lia|by rewrite lookup_insert_eq| |by intros ? ?%elem_of_nil..].
  intros g fp. rewrite lookup_insert. case_decide; [lia|]. by rewrite lookup_empty.
Qed.

(** Reachable in fewer than [2^63] steps. *)
Definition ereach (c0 c : estate) : Prop := ∃ n, nsteps estep n c0 c ∧ Z.of_nat n < 2 ^ 63.
Lemma ereach_gens c0 c : einit c0 → ereach c0 c → ∃ b, gens_ok c b ∧ b < 2 ^ 63.
Proof using sid_canonical.
  intros Hi (n & Hn & Hlt). exists (0 + Z.of_nat n). split; [|lia]. eapply esteps_gens; eauto using einit_gens.
Qed.

(** ** The shield *)

Definition from_signed (c : estate) (g : Z) : Prop := g = 0 ∨ ∃ p, p ∈ e_signed c ∧ pl_generation p = g.
Definition shield_ok (c : estate) : Prop :=
  let sh := e_shield c in
  0 <= sh_saved_floor sh <= sh_floor sh ∧ from_signed c (sh_floor sh) ∧ from_signed c (sh_saved_floor sh) ∧
  match last_generation (sh_shared sh) with
  | None => active (sh_shared sh) = []
  | Some g => sh_floor sh = g ∧ ∃ p lan, p ∈ e_signed c ∧ pl_generation p = g ∧ active (sh_shared sh) = new_active lan p
  end.

Lemma shield_ok_core c c' :
  core (e_shield c') = core (e_shield c) → (∀ p, p ∈ e_signed c → p ∈ e_signed c') → shield_ok c → shield_ok c'.
Proof.
  unfold core, shield_ok. intros E Hin. injection E as -> -> _ -> ->. intros (Hf & Hs1 & Hs2 & Hl).
  assert (∀ g, from_signed c g → from_signed c' g) as Hfs.
  { intros g [?|(p & Hp & ?)]; [by left|]. right. exists p. auto. }
  split_and!; [lia|lia|auto|auto|].
  destruct (last_generation _); [|done]. destruct Hl as (Hg & p & lan & Hp & ? & ?). split; [done|]. exists p, lan. auto.
Qed.

Lemma verify_signed signed m sg p :
  presentable signed m → m = Some sg → verify_resource_set sig_ok decode trust_domain sid sg = Some p → p ∈ signed.
Proof.
  intros Hp -> Hv. unfold verify_resource_set in Hv. repeat (case_match; try done). bool_simpl. simplify_eq. by eapply Hp.
Qed.

Lemma estep_shield c c' b : estep c c' → gens_ok c b → shield_ok c → shield_ok c'.
Proof.
  intros Hs Hg Hok. destruct Hs as [c op s' Hop He|c fs snap w Hb|c snap fs p w Hin Hs|c may_act env m Hm|c cp now|c|c];
    try (by eapply (shield_ok_core c); [| |exact Hok]).
  - eapply (shield_ok_core c); [done| |exact Hok]. intros q Hq. by right.
  - destruct (handle_cases sig_ok decode trust_domain sid may_act env m (e_shield c)) as [E|(sg & p & Em & Hv & _ & Hf & Hl & E)].
    + by eapply (shield_ok_core c); [exact E| |exact Hok].
    + pose proof (verify_signed _ _ _ _ Hm Em Hv) as Hp.
      assert (0 <= pl_generation p) as H0.
      { destruct Hg as (_ & sh & _ & _ & _ & _ & Hsn & Hsg). destruct (Hsg p Hp) as (_ & snap & Hsnap & -> & _). by apply Hsn. }
      assert (from_signed c (pl_generation p)) as Hfp by (right; by exists p).
      destruct Hok as ([Hs0 Hs1] & _ & Hsv & _). unfold shield_ok, core in *. injection E as Ea El Ec Ef Esf. simpl.
      rewrite Ea, El, Ef, Esf. split_and!; [| |done| |done|].
      * by destruct ((sh_floor (e_shield c) <? pl_generation p) && he_saved env).
      * destruct ((sh_floor (e_shield c) <? pl_generation p) && he_saved env); lia.
      * by destruct ((sh_floor (e_shield c) <? pl_generation p) && he_saved env).
      * exists p, (he_lan_ip env). done.
  - destruct Hok as ([Hs0 Hs1] & Hfl & Hsv & Hl). split_and!; simpl; [lia|lia|done|done|done].
Qed.

Lemma einit_shield c : einit c → shield_ok c.
Proof. intros (_ & _ & _ & (chain & E) & _). unfold shield_ok. rewrite E. simpl. split_and!; [lia|lia|by left|by left|done]. Qed.

Lemma ereach_ok c0 c : einit c0 → ereach c0 c → (∃ b, gens_ok c b) ∧ shield_ok c.
Proof using sid_canonical.
  intros Hi (n & Hn & Hlt). assert (∀ n c b c', nsteps estep n c c' → b + Z.of_nat n < 2 ^ 63 → gens_ok c b → shield_ok c →
    (∃ b, gens_ok c' b) ∧ shield_ok c') as Hind.
  { clear -sid_canonical. intros n. induction n as [|n IH]; intros c b c' Hn Hb Hg Hs; inversion Hn as [|? ? c1 ? Hst Hr]; subst; [eauto|].
    eapply (IH c1 (b + 1)); [done|lia|eapply estep_gens; eauto; lia|by eapply estep_shield]. }
  eapply (Hind n c0 0); eauto using einit_gens, einit_shield.
Qed.

(** The saved floor only rises, and the last set applied is at the floor. *)
Definition floors_ok (c : estate) : Prop :=
  sh_saved_floor (e_shield c) <= sh_floor (e_shield c) ∧
  ∀ g, last_generation (sh_shared (e_shield c)) = Some g → sh_floor (e_shield c) = g.
Lemma estep_floors c c' :
  estep c c' → floors_ok c → floors_ok c' ∧ sh_saved_floor (e_shield c) <= sh_saved_floor (e_shield c').
Proof.
  unfold floors_ok. intros Hs [Hsf Hl]. destruct Hs as [| | |c may_act env m Hm| | |]; simpl; try done.
  destruct (handle_cases sig_ok decode trust_domain sid may_act env m (e_shield c)) as [E|(sg & p & _ & _ & _ & Hf & _ & E)];
    unfold core in E; injection E as _ El _ Ef Es; rewrite El, Ef, Es; [done|].
  split; [split|]; [|by intros g [= <-]|]; case_match; bool_simpl; lia.
Qed.
Lemma esteps_floors c c' :
  rtc estep c c' → floors_ok c → floors_ok c' ∧ sh_saved_floor (e_shield c) <= sh_saved_floor (e_shield c').
Proof.
  induction 1 as [|c1 c2 c3 Hs _ IH]; intros Hf; [done|]. destruct (estep_floors _ _ Hs Hf) as [Hf2 ?].
  destruct (IH Hf2). split; [done|lia].
Qed.


(** SHA-256 has no collision among the texts hashed. *)
Hypothesis sha256_inj : Inj (=) (=) sha256_hex.

(** Equal fingerprints, equal instructions. *)
Lemma fingerprint_instructions l l' :
  Forall plain_row l → Forall plain_row l' → fingerprintDesired sha256_hex l = fingerprintDesired sha256_hex l' →
  instruction "" <$> l ≡ₚ instruction "" <$> l'.
Proof using sha256_inj.
  intros Hl Hl' E. apply (inj sha256_hex) in E. apply desired_text_wire in E; [|done|done].
  assert (∀ l, instruction "" <$> l = (λ w : string * string * string * Z * Z, let '(i, h, p, f, t) := w in
            MkInstruction i h p (int32 f) (int32 t) "") <$> (wire <$> l)) as Hw by (intros k; by rewrite <-list_fmap_compose).
  by rewrite !Hw, E.
Qed.

(** Two signed sets of one generation have the same resources. *)
Lemma same_generation c b p q :
  gens_ok c b → p ∈ e_signed c → q ∈ e_signed c → pl_generation p = pl_generation q → pl_resources p ≡ₚ pl_resources q.
Proof using sha256_inj.
  intros (Hp & sh & Hsh & Hb & Hh & Hmax & Hsn & Hsg) Hpi Hqi E.
  destruct (Hsg p Hpi) as (_ & sp & Hsp & Egp & ->). destruct (Hsg q Hqi) as (_ & sq & Hsq & Egq & ->).
  destruct (Hsn sp Hsp) as (_ & Hlp & Hpp). destruct (Hsn sq Hsq) as (_ & Hlq & Hpq).
  apply fingerprint_instructions; [done|done|congruence].
Qed.

(** one generation names one desired set.  However builds, signatures and
    changes of the table interleave, two sets signed for the shield with the
    same generation list the same resources with the same host, protocol and
    ports; so it does not matter which of them the shield applies, nor that it
    ignores the second. *)
Theorem generation_names_content (c0 c : estate) (p q : ResourceSetPayload) :
  einit c0 → ereach c0 c → p ∈ e_signed c → q ∈ e_signed c → pl_generation p = pl_generation q →
  pl_resources p ≡ₚ pl_resources q.
Proof using sid_canonical sha256_inj.
  intros Hi Hr. destruct (ereach_ok c0 c Hi Hr) as [[b Hg] _]. by apply (same_generation c b).
Qed.

(** The set of the current generation, while the table has not moved on. *)
Definition current (c : estate) (p : ResourceSetPayload) : Prop :=
  p ∈ e_signed c ∧ ∃ sh, t_shields (e_db c) !! sid = Some sh ∧ pl_generation p = sd_generation sh ∧
    fingerprintDesired sha256_hex (desiredForShield sid (e_db c)) = sd_fingerprint sh.

Lemma current_resources c b p :
  gens_ok c b → current c p → pl_resources p ≡ₚ instruction "" <$> desiredForShield sid (e_db c).
Proof using sha256_inj.
  intros (Hpl & sh & Hsh & Hb & Hh & Hmax & Hsn & Hsg) (Hp & sh' & Hsh' & Eg & Efp). simplify_eq.
  destruct (Hsg p Hp) as (_ & sp & Hsp & Egp & ->). destruct (Hsn sp Hsp) as (_ & Hlp & Hpp).
  apply fingerprint_instructions; [done|by apply desired_plain|congruence].
Qed.

Lemma wire_port n : 1 <= n <= 65535 → u16 (int32 n) = n.
Proof.
  intros Hn. unfold u16, int32. rewrite (Z.mod_small (n + 2 ^ 31) (2 ^ 32)) by lia.
  replace (n + 2 ^ 31 - 2 ^ 31) with n by lia. apply Z.mod_small. lia.
Qed.

(** The acknowledgement of an enforced resource matches its row. *)
Lemma enforced_kept r :
  enforced r = true → (r_status r ≟ "deleting") = false ∧ (r_status r ≟ "protecting") && (r_action r ≟ "remove") = false.
Proof.
  unfold enforced. intros He. bool_simpl. destruct He as [He|He]; [bool_simpl; destruct He as [He|He]; bool_simpl; by rewrite He|].
  bool_simpl. match goal with E : r_status r = _, F : r_action r = _ |- _ => by rewrite E, F end.
Qed.
Lemma ack_matches c i r reachable now :
  db_wf (e_db c) → t_resources (e_db c) !! i = Some r → r_shield r = Some sid → enforced r = true →
  ack_guard (e_db c) (ack_of (stamp_shield_id
    (health_ack (active_rule (to_active (instruction "" (pending_row (e_db c) i r)))) reachable now) sid)) r = true.
Proof.
  intros [Hrows _] Hr Hs He. destruct (Hrows i r Hr) as [Hck _]. unfold row_check in Hck. bool_simpl.
  apply enforced_kept in He as [Hd Hp]. unfold ack_guard. rewrite Hd, Hp. unfold bound_shield, pending_row, instruction, to_active, active_rule, make_ack.
  assert (∀ A `{EqDecision A} (x : A), (x ≟ x) = true) as Hrefl by (intros; by apply bool_decide_eq_true_2).
  destruct reachable; simpl; rewrite Hs; simpl; rewrite !wire_port, !Z.eqb_refl, !Hrefl by lia;
    unfold bound_shield; rewrite Hs; simpl; by rewrite Hrefl.
Qed.

End machine.

(** ** A concrete run *)

Module Run.
Import Demo.
Definition db0 : ResDB :=
  set_shields {[ "shield" := MkShieldRow "ws" "lan" "conn" "s1" "active" (Some "10.0.0.5") None None 0 0 "" ]} db.
Definition db1 : ResDB := (run (BuildShieldSnapshot read_uuid (λ x, x) (H := scan_order) "shield") db0).2.
Definition snap1 : SnapshotResult := MkSnapshotResult 1 (desiredForShield (H := scan_order) "shield" db0).
Definition set1 : ResourceSetPayload := MkPayload "ws.example" "shield" 1 [MkInstruction "r1" "10.0.0.5" "tcp" 22 22 ""] [].
Definition msg1 : SignedResourceSet := MkSigned "set1" "good".
Definition sig_ok (payload signature : string) : bool := signature ≟ "good".
Definition decode (payload : string) : option ResourceSetPayload := if payload ≟ "set1" then Some set1 else None.
Definition host (nft : option string) : host_env := MkHostEnv (Some "10.0.0.5") (λ _ _, true) 1700000000 nft true.
Definition fresh : Shield := MkShield new_shared [] 0 0.

Definition c0 : estate := MkE db0 [] [] fresh (note "shield" db0 ∅).
Definition c1 : estate := MkE db1 [snap1] [] fresh (note "shield" db1 (e_hist c0)).
Definition c2 : estate := MkE db1 [snap1] [set1] fresh (e_hist c1).
Definition c3 : estate :=
  MkE db1 [snap1] [set1] (handle_snapshot sig_ok decode "ws.example" "shield" true (host None) (Some msg1) fresh).2 (e_hist c2).
Abbreviation step := (estep read_uuid (λ x, x) (H := scan_order) sig_ok decode "ws.example" "shield").
Abbreviation reach := (ereach read_uuid (λ x, x) (H := scan_order) sig_ok decode "ws.example" "shield").

Lemma init_ok : einit "shield" c0.
Proof.
  split_and!; try done.
  - split; [apply (bool_decide_unpack _); by vm_compute|]. apply map_Forall_singleton, (bool_decide_unpack _). by vm_compute.
  - by exists [].
  - eexists. by split.
Qed.
Lemma wf1 : db_wf db1.
Proof.
  split; [|apply (bool_decide_unpack _); by vm_compute].
  change (t_resources db1) with (t_resources db). unfold db. simpl. rewrite !map_Forall_insert by done. split_and!; try by vm_compute.
  apply map_Forall_singleton. by vm_compute.
Qed.
Lemma step1 : step c0 c1.
Proof. eapply (e_build _ _ _ _ _ _ c0 [] snap1 (World db1 None [])). by vm_compute. Qed.
Lemma step2 : step c1 c2.
Proof. eapply (e_sign _ _ _ _ _ _ c1 snap1 [] set1 (World db1 None [])); [left|by vm_compute]. Qed.
Lemma step3 : step c2 c3.
Proof.
  apply (e_deliver _ _ _ _ _ _ c2 true (host None) (Some msg1)). intros sg p [= <-] _. simpl. intros [= <-] _. left.
Qed.
Lemma reach2 : reach c0 c2.
Proof. exists 2%nat. split; [|lia]. eapply nsteps_l; [apply step1|]. eapply nsteps_l; [apply step2|]. constructor. Qed.
Lemma reach3 : reach c0 c3.
Proof.
  exists 3%nat. split; [|lia]. eapply nsteps_l; [apply step1|]. eapply nsteps_l; [apply step2|].
  eapply nsteps_l; [apply step3|]. constructor.
Qed.


(** The same snapshot signed again, after an unprotect. *)
Definition db4 : ResDB := (run (MarkUnprotecting read_uuid read_uuid 9 "ws" "r1") db1).2.
Definition set5 : ResourceSetPayload :=
  MkPayload "ws.example" "shield" 1 [MkInstruction "r1" "10.0.0.5" "tcp" 22 22 ""] [MkInstruction "r1" "10.0.0.5" "tcp" 22 22 "remove"].
Definition c4 : estate := MkE db4 [snap1] [set1] (e_shield c3) (note "shield" db4 (e_hist c3)).
Definition c5 : estate := MkE db4 [snap1] [set5; set1] (e_shield c3) (e_hist c4).

Lemma step4 : step c3 c4.
Proof.
  apply (e_op _ _ _ _ _ _ c3 (OpUnprotect 9 "ws" "r1")); [done|].
  apply (ef_unprotect _ _ 9 "ws" "r1" "r1" ssh); [done..|]. split; by vm_compute.
Qed.
Lemma step5 : step c4 c5.
Proof. eapply (e_sign _ _ _ _ _ _ c4 snap1 [] set5 (World db4 None [])); [left|by vm_compute]. Qed.
Lemma reach5 : reach c0 c5.
Proof.
  exists 5%nat. split; [|lia]. eapply nsteps_l; [apply step1|]. eapply nsteps_l; [apply step2|].
  eapply nsteps_l; [apply step3|]. eapply nsteps_l; [apply step4|]. eapply nsteps_l; [apply step5|]. constructor.
Qed.

Lemma generation_names_content_witness : set1 ≠ set5 ∧ pl_resources set1 ≡ₚ pl_resources set5.
Proof.
  split; [done|].
  apply (generation_names_content read_uuid (λ x, x) (H := scan_order) sig_ok decode "ws.example" "shield" eq_refl (λ x y E, E)
    c0 c5 set1 set5 init_ok reach5); [by right; left|left|done].
Defined.

(** The removes of a set may name a resource that the set enforces: a shield that
    gets [set5] first drops packets for it and reports it unprotected. *)
Example removes_overlap :
  let '(acks, sh) := apply_signed_resource_set sig_ok (λ _, Some set5) "ws.example" "shield" (host None) (Some msg1) fresh in
  chain_verdict (sh_chain sh) (MkPacket "eth0" (Some (10, 0, 0, 9)) "tcp" 22) = Drop ∧
  (λ a, (ra_resource_id a, ra_status a)) <$> acks = [("r1", "protected"); ("r1", "unprotected")].
Proof. by vm_compute. Qed.


Lemma failed_apply_reported_protected_witness :
  sh_chain (handle_snapshot sig_ok decode "ws.example" "shield" true (host (Some "netlink")) (Some msg1) fresh).2 = [].
Proof.
  by apply (failed_apply_reported_protected sig_ok decode "ws.example" "shield" (host (Some "netlink")) (host None) msg1 set1 fresh
    "netlink" (λ _ _, true) 1700000060).
Defined.
End Run.
