(* ===== verification/ResourceApi.v ===== *)
(** * Resource mutations

    The GraphQL resolvers of the resources ([graph/resolvers/resource.resolvers.go])
    and the callback of the tombstone sweeper, over [ResourceStore]: which store
    operation each runs, and what it tells the others afterwards (the audit log,
    the policy notifier, the connector of the shield).  A resolver answers with a
    result or an error, and with the calls it made before. *)

From Stdlib Require Import ZArith Lia.
From S2P Require Import Prelude Sql GoText PolicyStore AclCompiler NetTarget ResourceHost ResourceStore ResourceFacts ResourceSafety ResourceRoutes.
Open Scope Z_scope.
Set Default Proof Using "Type".

Inductive api_error :=
| Store (e : err resource_error)
| NotifyFailed
| MidOperation (* deleteResource: wait for it to finish *)
| NotFound.

Inductive api_call :=
| Audit (action target : string)
| NotifyPolicyChange (ws : uuid)
| SendInstruction (connectorID shieldID : string) (ins : ResourceInstruction)
| SendSnapshot (connectorID shieldID : string) (msg : SnapshotResult * option ResourceSetPayload).

Abbreviation resM A := (sqlM ResDB resource_error A).
(** A program over the store that also makes calls. *)
Definition apiM (A : Type) : Type := resM (list api_call * result api_error A).

Definition give {A} (a : A) : apiM A := ret ([], Ok a).
Definition stop {A} (e : api_error) : apiM A := ret ([], Err e).
Definition say (calls : list api_call) : apiM () := ret (calls, Ok tt).
Definition from_store {A} (m : resM A) : apiM A :=
  let! x := attempt m in ret ([], match x with Ok a => Ok a | Err e => Err (Store e) end).
Definition api_bind {A B} (m : apiM A) (k : A → apiM B) : apiM B :=
  let! x := m in
  match x with
  | (calls, Ok a) => let! y := k a in ret (calls ++ y.1, y.2)
  | (calls, Err e) => ret (calls, Err e)
  end.
Notation "'let*' x ':=' m 'in' k" := (api_bind m (λ x, k))
  (at level 100, x pattern, m at level 99, k at level 200, right associativity) : zec_scope.
Notation "m ;* k" := (api_bind m (λ _, k)) (at level 100, right associativity) : zec_scope.

(** [instructionForRow]. *)
Definition instructionForRow (row : Row) : ResourceInstruction :=
  MkInstruction (row_ID row) (row_ShieldHost row) (row_Protocol row) (int32 (row_PortFrom row)) (int32 (row_PortTo row))
    (row_PendingAction row).

Section api.
Context (parse pg_uuid : string → option uuid) (sha256_hex : string → string) `{RowOrder}
        (online : string → bool) (* the connector has a control stream *)
        (notify_ok : bool) (* the policy notifier returns no error *).

Definition notify (tenant : uuid) : apiM () :=
  ret ([NotifyPolicyChange tenant], if notify_ok then Ok tt else Err NotifyFailed).

Definition PushInstruction (row : Row) : apiM () :=
  say (if (row_ConnectorID row ≟ "") || negb (online (row_ConnectorID row)) then []
       else [SendInstruction (row_ConnectorID row) (row_ShieldID row) (instructionForRow row)]).

Definition PushSnapshotForShield (connectorID shieldID : string) : apiM () :=
  if (connectorID ≟ "") || negb (online connectorID) then give tt
  else
    let! msg := attempt (buildSnapshotMsg pg_uuid sha256_hex shieldID) in
    say (match msg with Ok m => [SendSnapshot connectorID shieldID m] | Err _ => [] end).

Fixpoint push_all (pushes : list (uuid * uuid)) : apiM () :=
  match pushes with
  | [] => give tt
  | (cid, sid) :: pushes => PushSnapshotForShield cid sid ;* push_all pushes
  end.

(** ** The resolvers *)

Definition CreateResource (now : time) (id tenant : uuid) (input : CreateInput) : apiM Row :=
  let* row := from_store (Create parse pg_uuid now id tenant input) in
  say [Audit "resource.create" (row_ID row)] ;*
  notify tenant ;*
  give row.

Definition UpdateResource (now : time) (tenant : uuid) (id : string) (input : UpdateInput) : apiM Row :=
  let* res := from_store (Update parse pg_uuid now tenant id input) in
  say [Audit "resource.update" id] ;*
  (if ACLRelevantUpdate input then notify tenant else give tt) ;*
  (if ur_Moved res then PushInstruction (ur_Row res) else give tt) ;*
  push_all (ur_ShieldPushes res) ;*
  give (ur_Row res).

Definition ProtectResource (now : time) (tenant : uuid) (id : string) (shieldID : option string) : apiM Row :=
  let* row := from_store (MarkProtecting parse pg_uuid now tenant id (default "" shieldID)) in
  say [Audit "resource.protect" id] ;*
  notify tenant ;*
  PushInstruction row ;*
  PushSnapshotForShield (row_ConnectorID row) (row_ShieldID row) ;*
  give row.

Definition UnprotectResource (now : time) (tenant : uuid) (id : string) : apiM Row :=
  let* row := from_store (MarkUnprotecting parse pg_uuid now tenant id) in
  say [Audit "resource.unprotect" id] ;*
  (if row_Status row ≟ "protecting"
   then PushInstruction row ;* PushSnapshotForShield (row_ConnectorID row) (row_ShieldID row)
   else notify tenant) ;*
  give row.

(** The part of [DeleteResource] after the check for a shield that is gone. *)
Definition delete_by_status (now : time) (tenant : uuid) (id : string) (row : Row) : apiM bool :=
  if (row_Status row ≟ "protecting") || (row_Status row ≟ "deleting") then stop MidOperation
  else if (row_Status row ≟ "protected") || (row_Status row ≟ "failed") then
    let* delRow := from_store (MarkDeleting parse pg_uuid now tenant id) in
    say [Audit "resource.delete" id] ;*
    PushInstruction delRow ;*
    PushSnapshotForShield (row_ConnectorID row) (row_ShieldID row) ;*
    notify tenant ;*
    give true
  else
    from_store (DeleteRow parse pg_uuid tenant id) ;*
    say [Audit "resource.delete" id] ;*
    notify tenant ;*
    give true.

Definition DeleteResource (now : time) (tenant : uuid) (id : string) : apiM bool :=
  let* row := from_store (GetByID parse pg_uuid tenant id) in
  let* deleted :=
    if (row_Status row ≟ "protected") || (row_Status row ≟ "failed") || (row_Status row ≟ "deleting")
    then from_store (DeleteIfShieldGone pg_uuid tenant id) else give false in
  if deleted : bool then
    say [Audit "resource.delete" id] ;*
    notify tenant ;*
    give true
  else delete_by_status now tenant id row.

Definition ForceDeleteResource (tenant : uuid) (id : string) : apiM bool :=
  let* found := let! x := attempt (GetByID parse pg_uuid tenant id) in give (match x with Ok row => Some row | Err _ => None end) in
  let* deleted := from_store (ForceDeleteRow pg_uuid tenant id) in
  if negb deleted then stop NotFound
  else
    say [Audit "resource.force_delete" id] ;*
    (match found with
     | Some row => if negb (row_ConnectorID row ≟ "") && negb (row_ShieldID row ≟ "")
                   then PushSnapshotForShield (row_ConnectorID row) (row_ShieldID row) else give tt
     | None => give tt
     end) ;*
    notify tenant ;*
    give true.

(** ** The tombstone sweeper's callback *)

Fixpoint on_reaped (tombstones : list ReapedTombstone) : apiM () :=
  match tombstones with
  | [] => give tt
  | t :: tombstones =>
      say [NotifyPolicyChange (rt_TenantID t)] ;*
      PushSnapshotForShield (rt_ConnectorID t) (rt_ShieldID t) ;*
      on_reaped tombstones
  end.
Definition sweeper_tick (now : time) (grace : duration) : apiM () :=
  let* reaped := from_store (sweep_tick now grace) in on_reaped reaped.

(** ** Outcomes *)

(** [wp] for programs that make calls: every run ends with an answer. *)
Definition awp {A} (m : apiM A) (s : ResDB) (Q : list api_call → result api_error A → ResDB → Prop) : Prop :=
  wp m s None (λ x s' wk, wk = None ∧ match x with Ok (calls, r) => Q calls r s' | Err _ => False end).

Lemma awp_mono {A} (m : apiM A) s (Q Q' : list api_call → result api_error A → ResDB → Prop) :
  (∀ l r s', Q l r s' → Q' l r s') → awp m s Q → awp m s Q'.
Proof. intros HQ. apply wp_mono. intros [[l r]|e] s' wk [-> Hx]; auto. Qed.
Lemma awp_ret {A} l (r : result api_error A) s (Q : list api_call → result api_error A → ResDB → Prop) :
  Q l r s → awp (ret (l, r)) s Q.
Proof. intros HQ. by apply wp_ret. Qed.
Lemma awp_bind {A B} (m : apiM A) (k : A → apiM B) s (Q : list api_call → result api_error B → ResDB → Prop) :
  awp m s (λ l r s', match r with
                     | Ok a => awp (k a) s' (λ l' r' s'', Q (l ++ l') r' s'')
                     | Err e => Q l (Err e) s'
                     end) →
  awp (api_bind m k) s Q.
Proof.
  intros Hm. apply wp_bind. eapply wp_mono; [|exact Hm]. intros [[l [a|e]]|e] s' wk [-> Hx]; [|by apply wp_ret|done].
  apply wp_bind. eapply wp_mono; [|exact Hx]. intros [[l' r']|e] s'' wk [-> Hy]; [|done]. by apply wp_ret.
Qed.
Lemma awp_store {A} (m : resM A) s (Q : list api_call → result api_error A → ResDB → Prop) :
  tx_closed m → wp m s None (λ x s' _, Q [] (match x with Ok a => Ok a | Err e => Err (Store e) end) s') →
  awp (from_store m) s Q.
Proof.
  intros Hc Hm. apply wp_bind, wp_attempt. eapply wp_mono; [|apply (wp_tx_closed _ _ _ Hc Hm)].
  intros x s' wk [-> Hx]. by apply wp_ret.
Qed.

Lemma GetByID_closed tenant id : tx_closed (GetByID parse pg_uuid tenant id).
Proof. unfold GetByID. closed_solve. Qed.
Lemma buildSnapshotMsg_closed sid : tx_closed (buildSnapshotMsg pg_uuid sha256_hex sid).
Proof. unfold buildSnapshotMsg, BuildShieldSnapshot, signResourceSet. closed_solve. Qed.
Hint Resolve GetByID_closed buildSnapshotMsg_closed : sql.

Lemma awp_instruction row s (Q : list api_call → result api_error () → ResDB → Prop) :
  (∀ l, Q l (Ok tt) s) → awp (PushInstruction row) s Q.
Proof. intros HQ. by apply awp_ret. Qed.
(** A push leaves the resources alone. *)
Lemma awp_push cid sid s (Q : list api_call → result api_error () → ResDB → Prop) :
  (∀ l s', t_resources s' = t_resources s → Q l (Ok tt) s') → awp (PushSnapshotForShield cid sid) s Q.
Proof.
  intros HQ. unfold PushSnapshotForShield. destruct ((cid ≟ "") || _); [apply awp_ret; auto|].
  apply wp_bind, wp_attempt. eapply wp_mono; [|apply (wp_tx_closed _ _ _ (buildSnapshotMsg_closed sid) (snapshot_effect pg_uuid sha256_hex sid s))].
  intros x s' wk [-> He]. apply wp_ret. split; [done|]. apply HQ. by inversion He.
Qed.
Lemma awp_push_all pushes s (Q : list api_call → result api_error () → ResDB → Prop) :
  (∀ l s', t_resources s' = t_resources s → Q l (Ok tt) s') → awp (push_all pushes) s Q.
Proof.
  revert s Q. induction pushes as [|[cid sid] pushes IH]; intros s Q HQ; simpl; [apply awp_ret; auto|].
  apply awp_bind, awp_push. intros l s' Hs. apply IH. intros l' s'' Hs'. apply HQ. congruence.
Qed.

(** ** What the others are told *)

(** Every access rule adds to the compilation what it added before. *)
Definition same_lists (s s' : ResDB) : Prop :=
  ∀ policy p ws c ar, contributes ws (acl_view policy s' p) c ar = contributes ws (acl_view policy s p) c ar.
Definition audited (calls : list api_call) : Prop := ∃ action target rest, calls = Audit action target :: rest.

Definition told {A} (tenant : uuid) (s : ResDB) (calls : list api_call) (r : result api_error A) (s' : ResDB) : Prop :=
  match r with
  | Ok _ => audited calls ∧ (NotifyPolicyChange tenant ∈ calls ∨ same_lists s s')
  | Err NotifyFailed => audited calls ∧ NotifyPolicyChange tenant ∈ calls
  | Err (Store _) => calls = []
  | Err _ => calls = [] ∧ t_resources s' = t_resources s
  end.

Lemma same_lists_resources s1 s2 s' : t_resources s2 = t_resources s1 → same_lists s1 s' → same_lists s2 s'.
Proof. intros E Hs policy p ws c ar. rewrite (Hs policy p ws c ar). unfold acl_view. by rewrite E. Qed.
Lemma same_lists_moved s s1 s2 : t_resources s2 = t_resources s1 → same_lists s s1 → same_lists s s2.
Proof. intros E Hs policy p ws c ar. rewrite <-(Hs policy p ws c ar). unfold acl_view. by rewrite E. Qed.

(** The last steps of a mutation that notifies. *)
Lemma notified_told {A} tenant s pre (a : A) s' :
  audited pre → awp (notify tenant ;* give a) s' (λ l r s'', told tenant s (pre ++ l) r s'').
Proof.
  clear parse pg_uuid sha256_hex online. intros (action & target & rest & ->). apply awp_bind, awp_ret. destruct notify_ok; [apply awp_ret|];
    (split; [by do 3 eexists|]); try left; rewrite !elem_of_app; set_solver.
Qed.

Lemma same_row s id r r' :
  t_resources s !! id = Some r → (∀ policy, acl_resource policy id r' = acl_resource policy id r) →
  same_lists s (set_resources (<[id := r']> (t_resources s)) s).
Proof.
  intros Hr E policy p ws c ar. unfold acl_view. simpl.
  assert (map_imap (λ i r, Some (acl_resource policy i r)) (<[id := r']> (t_resources s)) =
          map_imap (λ i r, Some (acl_resource policy i r)) (t_resources s)) as ->; [|done].
  apply map_eq. intros j. rewrite !map_lookup_imap.
  destruct (decide (j = id)) as [->|]; [|by rewrite lookup_insert_ne by done]. rewrite lookup_insert_eq, Hr. simpl. by rewrite E.
Qed.
Lemma enforced_route r : enforced r = true → same_route (r_status r) "protecting".
Proof.
  unfold enforced. intros He. bool_simpl. destruct He as [He|He]; [bool_simpl; destruct He as [He|He]|]; bool_simpl;
    match goal with E : r_status r = _ |- _ => rewrite E end; by split_and!.
Qed.

(** An update of no field that the compiler reads. *)
Lemma quiet_update now tenant raw input s s' :
  db_wf s → ACLRelevantUpdate input = false → effect pg_uuid sha256_hex (OpUpdate now tenant raw input) s s' → same_lists s s'.
Proof.
  clear parse online notify_ok. intros Hwf Hq He. inversion He as [| |? ? ? ? input' id r net shield ? ? Hi Hid Ht Hc Hb Hnet Hsh Hrep| | | | | | | | | | |]; subst; [done|].
  unfold ACLRelevantUpdate in Hq. bool_simpl.
  repeat match goal with E : ¬ is_Some _ |- _ => apply eq_None_not_Some in E end.
  assert (input' = input) as ->. { unfold normalize_input in Hi. destruct (ui_Host input); [done|]. by simplify_eq. }
  assert (shield = r_shield r) as ->.
  { destruct Hsh as [->|(_ & sid & _ & cid & _ & Hmv)]; [done|]. unfold moves in Hmv.
    destruct (ui_Host input), (ui_RemoteNetworkID input); simpl in *; naive_solver. }
  destruct (ui_RemoteNetworkID input); [done|]. subst net. destruct Hrep as [Hr Hst]. apply store_row_inv in Hst as (-> & _).
  set (r' := update_row _ _ _ _ _ _).
  assert (∀ policy, acl_resource policy id r' = MkResourceRec (r_tenant r) (r_name r) (r_host r) (r_port_from r) (r_protocol r)
            (r_shield r) (r_status r') (r_network r) (policy id)) as Ea.
  { intros policy. unfold r', acl_resource, update_row. simpl.
    destruct (ui_Name input), (ui_Host input), (ui_Protocol input), (ui_PortFrom input); done. }
  unfold r', update_row in Ea |- *. destruct (enforced r && _) eqn:Hre; simpl in Ea.
  - intros policy p ws c ar. apply (status_route policy ws p c ar s id r); [done| |apply Ea].
    bool_simpl. by apply enforced_route.
  - apply same_row with r; [done|]. intros policy. rewrite Ea. done.
Qed.

(** What an unprotect answers. *)
Lemma MarkUnprotecting_answer now tenant raw s :
  wp (MarkUnprotecting parse pg_uuid now tenant raw) s None (λ x s' _,
    match x with
    | Ok row => ∃ id r st, r_status r = "protected" ∧ replaces s id r (touch now (set_state st "remove" r)) s' ∧ row_Status row = st
    | Err _ => True
    end).
Proof.
  unfold MarkUnprotecting. destruct (negb _); [by apply wp_fail|]. apply wp_bind, wp_pool_stmt; [done|]. intros a s' Hu. split; [|done].
  apply with_id_inv in Hu as (id & Hid & Hu). apply update_resource_inv in Hu as [[-> ->]|(r & -> & Hc & Hr)]; [by apply wp_fail|].
  bool_simpl. unfold GetByID. destruct (negb _); [by apply wp_fail|]. apply wp_bind, wp_pool_stmt; [done|]. intros x s'' Hq. split; [|done].
  apply read_with_id in Hq as (-> & id' & Hid' & ->). simplify_eq.
  pose proof (replaces_lookup _ _ _ _ _ id Hr) as Hl. rewrite decide_True in Hl by done. rewrite Hl.
  destruct (r_tenant _ ≟ _); [|by apply wp_fail]. apply wp_ret. do 3 eexists. split_and!; [done|exact Hr|done].
Qed.

(** *** Every mutation *)

Inductive mutation :=
| CreateMutation (now : time) (id tenant : uuid) (input : CreateInput)
| UpdateMutation (now : time) (tenant : uuid) (id : string) (input : UpdateInput)
| ProtectMutation (now : time) (tenant : uuid) (id : string) (shieldID : option string)
| UnprotectMutation (now : time) (tenant : uuid) (id : string)
| DeleteMutation (now : time) (tenant : uuid) (id : string)
| ForceDeleteMutation (tenant : uuid) (id : string).
Definition mutation_tenant (m : mutation) : uuid :=
  match m with
  | CreateMutation _ _ t _ | UpdateMutation _ t _ _ | ProtectMutation _ t _ _ | UnprotectMutation _ t _
  | DeleteMutation _ t _ | ForceDeleteMutation t _ => t
  end.
Definition mutate (m : mutation) : apiM () :=
  match m with
  | CreateMutation now id t input => CreateResource now id t input ;* give tt
  | UpdateMutation now t id input => UpdateResource now t id input ;* give tt
  | ProtectMutation now t id sid => ProtectResource now t id sid ;* give tt
  | UnprotectMutation now t id => UnprotectResource now t id ;* give tt
  | DeleteMutation now t id => DeleteResource now t id ;* give tt
  | ForceDeleteMutation t id => ForceDeleteResource t id ;* give tt
  end.

Lemma awp_forget {A} (m : apiM A) tenant s : awp m s (told tenant s) → awp (m ;* give tt) s (told tenant s).
Proof.
  intros Hm. apply awp_bind. eapply awp_mono; [|exact Hm]. intros l [a|e] s' Ht; [|done]. apply awp_ret. by rewrite app_nil_r.
Qed.

(** A store operation that answers, whatever it did. *)
Lemma awp_store_any {A} (m : resM A) s (Q : list api_call → result api_error A → ResDB → Prop) :
  tx_closed m → (∀ e s', Q [] (Err (Store e)) s') → (∀ a s', Q [] (Ok a) s') → awp (from_store m) s Q.
Proof. intros Hc He Ha. apply awp_store; [done|]. intros fs. destruct (m _) as [[a|e] w]; auto. Qed.

Ltac told_go := first [apply awp_bind | apply awp_ret | apply awp_push; intros ? ? ? | apply awp_push_all; intros ? ? ?].

Lemma create_told now id tenant input s : awp (CreateResource now id tenant input) s (told tenant s).
Proof.
  apply awp_bind, awp_store_any; [unfold Create, create_tx, AutoMatchShield; closed_solve|done|]. intros row s'.
  apply awp_bind, awp_ret. apply (notified_told tenant s [_]). by do 3 eexists.
Qed.

Lemma update_told now tenant id input s : db_wf s → awp (UpdateResource now tenant id input) s (told tenant s).
Proof.
  intros Hwf. apply awp_bind, awp_store; [unfold Update; closed_solve|].
  eapply wp_mono; [|apply (update_effect parse pg_uuid sha256_hex)]. intros [res|e] s' _ He; [|done]. cbn beta iota.
  apply awp_bind, awp_ret. cbn beta iota.
  assert (∀ pre s'', audited pre → t_resources s'' = t_resources s' →
    (NotifyPolicyChange tenant ∈ pre ∨ ACLRelevantUpdate input = false) →
    awp ((if ur_Moved res then PushInstruction (ur_Row res) else give tt) ;* push_all (ur_ShieldPushes res) ;* give (ur_Row res)) s''
      (λ l r s3, told tenant s (pre ++ l) r s3)) as Hend.
  { intros pre s'' (action & target & rest & ->) Hs'' Hn. apply awp_bind.
    assert (∀ l : list api_call, awp (push_all (ur_ShieldPushes res) ;* give (ur_Row res)) s''
      (λ l' r s3, told tenant s ((Audit action target :: rest) ++ l ++ l') r s3)) as Hpush.
    { intros l. apply awp_bind, awp_push_all. intros l' s3 Hs3. apply awp_ret. split; [by do 3 eexists|].
      destruct Hn as [Hn|Hn]; [left; apply elem_of_app; by left|right].
      apply same_lists_moved with s'; [congruence|]. by eapply quiet_update. }
    destruct (ur_Moved res); apply awp_ret; apply Hpush. }
  apply awp_bind. destruct (ACLRelevantUpdate input) eqn:Hrel.
  - apply awp_ret. destruct notify_ok.
    + apply (Hend [_; _]); [by do 3 eexists|done|left; right; left].
    + split; [by do 3 eexists|right; left].
  - apply awp_ret. apply (Hend [_]); [by do 3 eexists|done|by right].
Qed.

Lemma protect_told now tenant id shieldID s : awp (ProtectResource now tenant id shieldID) s (told tenant s).
Proof.
  apply awp_bind, awp_store_any; [unfold MarkProtecting; closed_solve|done|]. intros row s'.
  apply awp_bind, awp_ret. cbn beta iota. apply awp_bind, awp_ret. destruct notify_ok; [|split; [by do 3 eexists|right; left]].
  apply awp_bind, awp_ret. cbn beta iota. apply awp_bind, awp_push. intros l s'' Hs. apply awp_ret.
  split; [by do 3 eexists|left; right; left].
Qed.

Lemma unprotect_told now tenant id s : awp (UnprotectResource now tenant id) s (told tenant s).
Proof.
  apply awp_bind, awp_store; [unfold MarkUnprotecting; closed_solve|].
  eapply wp_mono; [|apply MarkUnprotecting_answer]. intros [row|e] s' _ Hx; [|done].
  destruct Hx as (rid & r & st & Hst & [Hl Hrep] & Hrow). apply store_row_inv in Hrep as (-> & _).
  apply awp_bind, awp_ret. cbn beta iota. apply awp_bind. destruct (row_Status row ≟ "protecting") eqn:Hp.
  - bool_simpl. apply awp_bind, awp_ret. cbn beta iota. apply awp_push. intros l s'' Hs. apply awp_ret.
    split; [by do 3 eexists|right]. eapply same_lists_moved; [exact Hs|].
    intros policy p ws c ar. apply (status_route policy ws p c ar s rid r); [done| |done]. simpl. rewrite Hst, <-Hrow, Hp. by split_and!.
  - apply awp_ret. destruct notify_ok; [apply awp_ret|]; (split; [by do 3 eexists|]); [left|]; right; left.
Qed.

Lemma delete_gone_answer tenant id s :
  wp (DeleteIfShieldGone pg_uuid tenant id) s None (λ x s' _, x = Ok false → s' = s).
Proof.
  unfold DeleteIfShieldGone. apply wp_pool_stmt; [done|]. intros a s' Hd. split; [|done].
  apply with_id_inv in Hd as (rid & _ & Hd). apply delete_resource_inv in Hd as [[-> ->]|(r & -> & _)]; [done|]. by intros [= ].
Qed.
Lemma force_delete_answer tenant id s :
  wp (ForceDeleteRow pg_uuid tenant id) s None (λ x s' _, x = Ok false → s' = s).
Proof.
  unfold ForceDeleteRow. apply wp_pool_stmt; [done|]. intros a s' Hd. split; [|done].
  apply with_id_inv in Hd as (rid & _ & Hd). apply delete_resource_inv in Hd as [[-> ->]|(r & -> & _)]; [done|]. by intros [= ].
Qed.

Lemma delete_by_status_told now tenant id row s s' :
  t_resources s' = t_resources s → awp (delete_by_status now tenant id row) s' (told tenant s).
Proof.
  intros Hs. unfold delete_by_status. destruct ((row_Status row ≟ "protecting") || _); [by apply awp_ret|].
  destruct ((row_Status row ≟ "protected") || _).
  - apply awp_bind, awp_store_any; [unfold MarkDeleting; closed_solve|done|]. intros del s2.
    apply awp_bind, awp_ret. cbn beta iota. apply awp_bind, awp_instruction. intros l0. apply awp_bind, awp_push. intros l s3 Hs3.
    eapply awp_mono; [|apply (notified_told tenant s ([Audit "resource.delete" id] ++ l0 ++ l)); by do 3 eexists].
    intros l' r s4. simpl. by rewrite <-app_assoc.
  - apply awp_bind, awp_store_any; [unfold DeleteRow; closed_solve|done|]. intros _ s2.
    apply awp_bind, awp_ret. apply (notified_told tenant s [_]). by do 3 eexists.
Qed.

Lemma delete_told now tenant id s : awp (DeleteResource now tenant id) s (told tenant s).
Proof.
  apply awp_bind, awp_store; [eauto with sql|].
  eapply wp_mono; [|apply (wp_GetByID parse pg_uuid tenant id s None (λ s', s' = s)); done].
  intros [row|e] s' _ ->; [|done]. cbn beta iota. apply awp_bind.
  destruct ((row_Status row ≟ "protected") || _ || _); [|apply awp_ret; by apply delete_by_status_told].
  apply awp_store; [unfold DeleteIfShieldGone; closed_solve|]. eapply wp_mono; [|apply delete_gone_answer].
  intros [[]|e] s' _ Hx; [| |done].
  - apply awp_bind, awp_ret. apply (notified_told tenant s [_]). by do 3 eexists.
  - rewrite (Hx eq_refl). by apply delete_by_status_told.
Qed.

Lemma force_delete_told tenant id s : awp (ForceDeleteResource tenant id) s (told tenant s).
Proof.
  apply awp_bind. apply wp_bind, wp_attempt.
  eapply wp_mono; [|apply (wp_tx_closed _ _ _ (GetByID_closed tenant id) (wp_GetByID parse pg_uuid tenant id s None (λ s', s' = s) eq_refl))].
  intros found s' wk [-> ->]. apply wp_ret. split; [done|]. cbn beta iota.
  apply awp_bind, awp_store; [unfold ForceDeleteRow; closed_solve|]. eapply wp_mono; [|apply force_delete_answer].
  intros [[]|e] s' _ Hx; [| |done]; cbn beta iota; simpl negb.
  - apply awp_bind, awp_ret. cbn beta iota.
    assert (∀ l s2, awp (notify tenant ;* give true) s2 (λ l' r s3, told tenant s ([Audit "resource.force_delete" id] ++ l ++ l') r s3)) as Hend.
    { intros l s2. eapply awp_mono; [|apply (notified_told tenant s ([Audit "resource.force_delete" id] ++ l)); by do 3 eexists].
      intros l' r s3. done. }
    apply awp_bind. destruct found as [row|e]; [destruct (_ && _)|]; [apply awp_push; intros l s2 _; apply Hend|apply awp_ret, Hend..].
  - apply awp_ret. rewrite (Hx eq_refl). done.
Qed.

End api.

