(* ===== verification/Reconcile.v ===== *)
(** * Reconciliation of shields

    [connector/reconcile.go]: the controller compares what a shield reports to
    enforce with the desired set and with its tombstones.  It acts only on
    differences that persist: a drift of two reports pushes the snapshot again, a
    tombstone absent from three reports is reaped. *)

From Stdlib Require Import ZArith Lia.
From S2P Require Import Prelude Sql GoText NetTarget ResourceHost ResourceStore ResourceFacts ResourceSafety ResourceRoutes ResourceApi.
From S2P Require Import SnapshotText ShieldAgent ShieldFacts ShieldSafety ShieldRun.
Open Scope Z_scope.
Set Default Proof Using "Type".

Definition driftReportsBeforeResync : Z := 2.
Definition absentReportsBeforeReap : Z := 3.

Record reconcileState := MkRecon { rc_drift : gmap string Z; rc_absent : gmap string Z }.
Definition recon_new : reconcileState := MkRecon ∅ ∅.

(** Orphans (reported, not desired) or missing (desired, not reported). *)
Definition drifts (desired reported : list string) : bool :=
  existsb (λ id, negb (bool_decide (id ∈ desired))) reported || existsb (λ id, negb (bool_decide (id ∈ reported))) desired.

(** The drift counter: whether the snapshot is pushed again. *)
Definition drift_turn (shield : string) (drift : bool) (m : gmap string Z) : bool * gmap string Z :=
  if drift then
    let n := default 0 (m !! shield) + 1 in
    if driftReportsBeforeResync <=? n then (true, <[shield := 0]> m) else (false, <[shield := n]> m)
  else (false, <[shield := 0]> m).

(** The counter of one tombstone. *)
Definition absent_step (reported : list string) (acc : list string * gmap string Z) (rid : string) : list string * gmap string Z :=
  let '(toReap, m) := acc in
  if bool_decide (rid ∈ reported) then (toReap, <[rid := 0]> m)
  else
    let n := default 0 (m !! rid) + 1 in
    if absentReportsBeforeReap <=? n then (toReap ++ [rid], delete rid m) else (toReap, <[rid := n]> m).

(** The bookkeeping under the lock: resync?, what to reap. *)
Definition bookkeeping (shield : string) (desired deleting reported : list string) (st : reconcileState)
    : bool * list string * reconcileState :=
  let '(shouldResync, drift) := drift_turn shield (drifts desired reported) (rc_drift st) in
  let '(toReap, absent) := foldl (absent_step reported) ([], rc_absent st) deleting in
  (shouldResync, toReap, MkRecon drift absent).

Section reconcile.
Context (pg_uuid : string → option uuid) (sha256_hex : string → string) `{RowOrder}.

(** The reaps; whether one took a row. *)
Fixpoint reap_all (tenant : uuid) (shield : string) (rids : list string) : resM bool :=
  match rids with
  | [] => ret false
  | rid :: rids =>
      let! reaped := attempt (ReapTombstone pg_uuid tenant shield rid) in
      let! rest := reap_all tenant shield rids in
      ret ((match reaped with Ok b => b | Err _ => false end) || rest)
  end.

(** The snapshot re-push; [connectorID] is the connector of the stream. *)
Definition resync (connectorID shield : string) : resM (list api_call) :=
  let! msg := attempt (buildSnapshotMsg pg_uuid sha256_hex shield) in
  ret (match msg with Ok m => [SendSnapshot connectorID shield m] | Err _ => [] end).

Definition reconcileShield (tenant : uuid) (connectorID : string) (report : ResourceStateReport) (st : reconcileState)
    : resM (reconcileState * list api_call) :=
  let! desired := attempt (GetDesiredForShield pg_uuid (sp_shield_id report)) in
  match desired with
  | Err _ => ret (st, [])
  | Ok desired =>
      let! deleting := attempt (GetDeletingForShield pg_uuid (sp_shield_id report)) in
      let deleting := match deleting with Ok l => l | Err _ => [] end in
      let '(shouldResync, toReap, st') :=
        bookkeeping (sp_shield_id report) (p_ID <$> desired) deleting (sp_active_ids report) st in
      let! sent := if shouldResync : bool then resync connectorID (sp_shield_id report) else ret [] in
      let! anyReaped := reap_all tenant (sp_shield_id report) toReap in
      ret (st', sent ++ if anyReaped : bool then [NotifyPolicyChange tenant] else [])
  end.

Fixpoint handleResourceState (tenant : uuid) (connectorID : string) (reports : list ResourceStateReport) (st : reconcileState)
    : resM (reconcileState * list api_call) :=
  match reports with
  | [] => ret (st, [])
  | report :: reports =>
      let! owned := attempt (pool_stmt "owned" (with_id pg_uuid (sp_shield_id report) (λ sid, query (λ s,
        match t_shields s !! sid with
        | Some sh => (sd_connector sh ≟ connectorID) && (sd_tenant sh ≟ tenant)
        | None => false
        end)))) in
      match owned with
      | Ok true =>
          let! x := reconcileShield tenant connectorID report st in
          let! y := handleResourceState tenant connectorID reports x.1 in
          ret (y.1, x.2 ++ y.2)
      | _ => handleResourceState tenant connectorID reports st
      end
  end.

(** ** Counters *)

Lemma absent_fold reported l toReap m :
  NoDup l →
  let '(toReap', m') := foldl (absent_step reported) (toReap, m) l in
  (∀ rid, rid ∈ toReap' ↔ rid ∈ toReap ∨ rid ∈ l ∧ rid ∉ reported ∧ absentReportsBeforeReap <= default 0 (m !! rid) + 1) ∧
  (∀ rid, m' !! rid =
    if decide (rid ∈ l) then
      if decide (rid ∈ reported) then Some 0
      else if decide (absentReportsBeforeReap <= default 0 (m !! rid) + 1) then None else Some (default 0 (m !! rid) + 1)
    else m !! rid).
Proof.
  clear pg_uuid sha256_hex. revert toReap m. induction l as [|x l IH]; intros toReap m Hnd; cbn [foldl]; [set_solver|].
  apply NoDup_cons in Hnd as [Hx Hnd].
  assert (∃ toReap1 m1, absent_step reported (toReap, m) x = (toReap1, m1) ∧
    (∀ rid, rid ∈ toReap1 ↔ rid ∈ toReap ∨ rid = x ∧ rid ∉ reported ∧ absentReportsBeforeReap <= default 0 (m !! x) + 1) ∧
    m1 !! x = (if decide (x ∈ reported) then Some 0
      else if decide (absentReportsBeforeReap <= default 0 (m !! x) + 1) then None else Some (default 0 (m !! x) + 1)) ∧
    (∀ rid, rid ≠ x → m1 !! rid = m !! rid)) as (toReap1 & m1 & -> & Ht & Hm & Hne).
  { unfold absent_step. case_bool_decide as Hr.
    - do 2 eexists. split_and!; [done|set_solver|by rewrite decide_True, lookup_insert_eq|by intros; rewrite lookup_insert_ne].
    - rewrite decide_False by done. destruct (Z.leb_spec absentReportsBeforeReap (default 0 (m !! x) + 1)).
      + do 2 eexists. split_and!; [done| |by rewrite decide_True, lookup_delete_eq|by intros; rewrite lookup_delete_ne].
        intros rid. rewrite elem_of_app, list_elem_of_singleton. naive_solver.
      + do 2 eexists. split_and!; [done| |by rewrite decide_False, lookup_insert_eq by lia|by intros; rewrite lookup_insert_ne].
        intros rid. naive_solver lia. }
  specialize (IH toReap1 m1 Hnd). destruct (foldl _ _ _) as [toReap' m']. destruct IH as [IHt IHm]. split.
  - intros rid. rewrite IHt, Ht, elem_of_cons. destruct (decide (rid = x)) as [->|Hn]; [naive_solver|]. rewrite Hne by done. naive_solver.
  - intros rid. rewrite IHm. destruct (decide (rid = x)) as [->|Hn].
    + rewrite decide_False by done. rewrite Hm. by rewrite (decide_True (P := x ∈ x :: l)) by left.
    + rewrite Hne by done. destruct (decide (rid ∈ l)); [rewrite (decide_True (P := rid ∈ x :: l)) by (by right)|
        rewrite (decide_False (P := rid ∈ x :: l)) by (rewrite elem_of_cons; naive_solver)]; done.
Qed.

(** ** What a report can change *)

(** The reaps of one report. *)
Definition reaps (tenant : uuid) (shield : string) (rids : list string) : ResDB → ResDB → Prop :=
  rtc (λ s s', ∃ rid, rid ∈ rids ∧ effect pg_uuid sha256_hex (OpReap tenant shield rid) s s').

Lemma ReapTombstone_effect tenant shield rid s :
  wp (ReapTombstone pg_uuid tenant shield rid) s None (λ _ s' wk, wk = None ∧ effect pg_uuid sha256_hex (OpReap tenant shield rid) s s').
Proof.
  apply (wp_tx_closed _ _ (λ _ s' _, effect pg_uuid sha256_hex (OpReap tenant shield rid) s s')); [unfold ReapTombstone; closed_solve|].
  pose proof (lifecycle_effect (λ x, Some x) pg_uuid sha256_hex (OpReap tenant shield rid) s I) as Hw. simpl in Hw.
  intros fs. specialize (Hw fs). unfold bind in Hw. destruct (ReapTombstone _ _ _ _ _) as [[b|e] w]; exact Hw.
Qed.

Lemma reap_all_effect tenant shield rids s :
  wp (reap_all tenant shield rids) s None (λ x s' wk, wk = None ∧ (∃ b, x = Ok b) ∧ reaps tenant shield rids s s').
Proof.
  revert s. induction rids as [|rid rids IH]; intros s; simpl.
  { apply wp_ret. split_and!; [done|by eexists|constructor]. }
  apply wp_bind, wp_attempt. eapply wp_mono; [|apply ReapTombstone_effect]. intros x s1 wk [-> He]. cbn beta iota.
  apply wp_bind. eapply wp_mono; [|apply IH]. intros y s2 wk (-> & [b ->] & Hr). apply wp_ret.
  split_and!; [done|by eexists|]. eapply rtc_l; [exists rid; split; [left|exact He]|].
  eapply rtc_subrel; [|exact Hr]. intros ? ? (rid' & Hin & ?). exists rid'. split; [by right|done].
Qed.

(** What the two reads of a report see. *)
Record sighting := MkSighting { sg_deleting : list string; sg_reported : list string }.
Definition seen (report : ResourceStateReport) (w : world ResDB) : list sighting :=
  match GetDesiredForShield pg_uuid (sp_shield_id report) w with
  | (Ok _, w') => [MkSighting (match (GetDeletingForShield pg_uuid (sp_shield_id report) w').1 with Ok l => l | Err _ => [] end)
                     (sp_active_ids report)]
  | (Err _, _) => []
  end.

Lemma GetDesired_read shield s :
  wp (GetDesiredForShield pg_uuid shield) s None (λ _ s' wk, wk = None ∧ s' = s).
Proof. unfold GetDesiredForShield. apply wp_pool_stmt; [done|]. by intros a s' [-> _]%read_with_id. Qed.
Lemma GetDeleting_read shield s :
  wp (GetDeletingForShield pg_uuid shield) s None (λ x s' wk, wk = None ∧ s' = s ∧
    ∀ l, x = Ok l → NoDup l ∧ ∀ rid, rid ∈ l → is_Some (t_resources s !! rid)).
Proof.
  unfold GetDeletingForShield. apply wp_pool_stmt; [done|]. intros a s' (-> & sid & _ & ->)%read_with_id.
  split; [|done]. split_and!; [done..|]. intros l [= <-]. split.
  - unfold rows_where. rewrite ord_perm. pose proof (NoDup_fst_map_to_list (t_resources s)) as Hnd. revert Hnd.
    induction (map_to_list (t_resources s)) as [|[i r] l IH]; simpl; [constructor|]. intros [Hi Hnd]%NoDup_cons.
    destruct ((r_shield r ≟ Some sid) && _); simpl; [|by apply IH]. apply NoDup_cons. split; [|by apply IH]. intros Hin. apply Hi.
    apply list_elem_of_omap in Hin as ([j r'] & Hin & Hj). simpl in Hj. destruct (_ && _); [|done]. injection Hj as ->.
    apply list_elem_of_fmap. by exists (i, r').
  - intros rid Hin. apply rows_where_elem in Hin as (i & r & Hi & _ & ->). by eexists.
Qed.

(** Whom a shield belongs to. *)
Definition owners (s : ResDB) : gmap uuid (uuid * uuid) := (λ sh, (sd_connector sh, sd_tenant sh)) <$> t_shields s.
Lemma snapshot_owners raw s s' : effect pg_uuid sha256_hex (OpSnapshot raw) s s' → owners s' = owners s.
Proof.
  inversion 1; [done|]. unfold owners. simpl. apply map_eq. intros i. rewrite !lookup_fmap, lookup_alter.
  case_decide; [subst|done]. by destruct (t_shields s !! i).
Qed.

(** One report: nothing, or its bookkeeping, perhaps a snapshot, and its reaps. *)
Lemma reconcile_effect tenant cid report st s fs :
  let '(x, w) := reconcileShield tenant cid report st (World s None fs) in
  ∃ st' calls, x = Ok (st', calls) ∧ working w = None ∧
    match seen report (World s None fs) with
    | [] => st' = st ∧ committed w = s
    | d :: _ => NoDup (sg_deleting d) ∧ (∀ rid, rid ∈ sg_deleting d → is_Some (t_resources s !! rid)) ∧
        ∃ desired sync toReap s1,
          bookkeeping (sp_shield_id report) desired (sg_deleting d) (sp_active_ids report) st = (sync, toReap, st') ∧
          t_resources s1 = t_resources s ∧ owners s1 = owners s ∧ reaps tenant (sp_shield_id report) toReap s1 (committed w)
    end.
Proof.
  unfold reconcileShield, seen, bind at 1, attempt at 1.
  pose proof (GetDesired_read (sp_shield_id report) s fs) as Hd. destruct (GetDesiredForShield _ _ _) as [[desired|e] [c wk fs1]];
    simpl in Hd; destruct Hd as [-> ->]; [|by do 2 eexists].
  unfold bind at 1, attempt at 1.
  pose proof (GetDeleting_read (sp_shield_id report) s fs1) as Hd. destruct (GetDeletingForShield _ _ _) as [dl [c wk fs2]].
  simpl in Hd. destruct Hd as (-> & -> & Hdl). simpl.
  set (deleting := match dl with Ok l => l | Err _ => [] end).
  assert (NoDup deleting ∧ ∀ rid, rid ∈ deleting → is_Some (t_resources s !! rid)) as [Hnd Hin].
  { unfold deleting. destruct dl as [l|e]; [by apply Hdl|]. split; [constructor|]. by intros ? ?%elem_of_nil. }
  destruct (bookkeeping _ _ _ _ _) as [[sync toReap] st'] eqn:Hbk.
  assert (wp (if sync : bool then resync cid (sp_shield_id report) else ret []) s None
    (λ x s1 wk, wk = None ∧ (∃ l, x = Ok l) ∧ t_resources s1 = t_resources s ∧ owners s1 = owners s)) as Hsync.
  { destruct sync; [|apply wp_ret; split_and!; [done|by eexists|done|done]]. unfold resync. apply wp_bind, wp_attempt.
    eapply wp_mono; [|apply (wp_tx_closed _ _ _ (buildSnapshotMsg_closed _ _ _) (snapshot_effect pg_uuid sha256_hex _ s))].
    intros x s1 wk [-> He]. apply wp_ret. split_and!; [done|by eexists|by inversion He|by apply (snapshot_owners (sp_shield_id report))]. }
  specialize (Hsync fs2). unfold bind at 1. destruct (_ (World s None fs2)) as [x [s1 wk fs3]]. simpl in Hsync.
  destruct Hsync as (-> & [sent ->] & Hs1 & Ho1). unfold bind at 1.
  pose proof (reap_all_effect tenant (sp_shield_id report) toReap s1 fs3) as Hr. destruct (reap_all _ _ _ _) as [y [s2 wk fs4]].
  simpl in Hr. destruct Hr as (-> & [b ->] & Hr). do 2 eexists. split_and!; [done|done|done|done|].
  do 4 eexists. split_and!; [exact Hbk|exact Hs1|exact Ho1|exact Hr].
Qed.

(** ** The machine of reports *)

Record rstate := MkR { r_db : ResDB; r_recon : reconcileState; r_hist : list sighting (* ghost, newest first *) }.
Inductive rstep : rstate → rstate → Prop :=
| rs_op c op s' : effect pg_uuid sha256_hex op (r_db c) s' → rstep c (MkR s' (r_recon c) (r_hist c))
| rs_report c tenant cid report fs st' calls w :
    reconcileShield tenant cid report (r_recon c) (World (r_db c) None fs) = (Ok (st', calls), w) →
    rstep c (MkR (committed w) st' (seen report (World (r_db c) None fs) ++ r_hist c))
| rs_restart c : rstep c (MkR (r_db c) recon_new (r_hist c)).

(** The reports that saw the tombstone [rid]. *)
Definition sightings (rid : string) (hist : list sighting) : list sighting := filter (λ d, rid ∈ sg_deleting d) hist.
Definition lacks (rid : string) (d : sighting) : Prop := rid ∉ sg_reported d.

(** The counter of a tombstone counts the last reports without it. *)
Definition counted (c : rstate) : Prop :=
  ∀ rid n, rc_absent (r_recon c) !! rid = Some n →
    0 <= n < absentReportsBeforeReap ∧
    ∃ l rest, sightings rid (r_hist c) = l ++ rest ∧ Z.of_nat (length l) = n ∧ Forall (lacks rid) l.

Lemma bookkeeping_counted c desired d shield sync toReap st' :
  counted c → NoDup (sg_deleting d) →
  bookkeeping shield desired (sg_deleting d) (sg_reported d) (r_recon c) = (sync, toReap, st') →
  (∀ s', counted (MkR s' st' (d :: r_hist c))) ∧
  (∀ rid, rid ∈ toReap → rid ∈ sg_deleting d ∧
     ∃ d1 d2 rest, sightings rid (d :: r_hist c) = d :: d1 :: d2 :: rest ∧ Forall (lacks rid) [d; d1; d2]).
Proof.
  intros Hc Hnd Hb. unfold bookkeeping in Hb. destruct (drift_turn _ _ _) as [b dm].
  pose proof (absent_fold (sg_reported d) (sg_deleting d) [] (rc_absent (r_recon c)) Hnd) as Hf.
  destruct (foldl _ _ _) as [toReap' m']. destruct Hf as [Hreap Hm]. injection Hb as -> -> <-.
  assert (∀ rid, rid ∈ sg_deleting d → sightings rid (d :: r_hist c) = d :: sightings rid (r_hist c)) as Hin
    by (intros rid Hrid; unfold sightings; by rewrite filter_cons_True).
  assert (∀ rid, rid ∉ sg_deleting d → sightings rid (d :: r_hist c) = sightings rid (r_hist c)) as Hout
    by (intros rid Hrid; unfold sightings; by rewrite filter_cons_False).
  assert (∀ rid, ∃ l rest, sightings rid (r_hist c) = l ++ rest ∧ Z.of_nat (length l) = default 0 (rc_absent (r_recon c) !! rid) ∧
    Forall (lacks rid) l ∧ 0 <= default 0 (rc_absent (r_recon c) !! rid) < absentReportsBeforeReap) as Hold.
  { intros rid. destruct (rc_absent (r_recon c) !! rid) as [n|] eqn:Hn; simpl.
    - destruct (Hc rid n Hn) as (? & l & rest & ? & ? & ?). by exists l, rest.
    - exists [], (sightings rid (r_hist c)). by split_and!. }
  split.
  - intros s' rid n. simpl. rewrite Hm. destruct (Hold rid) as (l & rest & El & Hlen & Hl & Hb).
    case_decide as Hd; [|intros Hn; rewrite Hout by done; by apply Hc]. rewrite Hin by done.
    case_decide as Hr; [intros [= <-]; split; [done|]; exists [], (d :: sightings rid (r_hist c)); by split_and!|].
    case_decide; [done|]. intros [= <-]. split; [unfold absentReportsBeforeReap in *; lia|].
    exists (d :: l), rest. rewrite El. split_and!; [done|simpl; lia|by constructor].
  - intros rid Hrid. apply Hreap in Hrid as [Hrid|(Hd & Hr & Hn)]; [by apply elem_of_nil in Hrid|]. split; [done|].
    destruct (Hold rid) as (l & rest & El & Hlen & Hl & Hb). rewrite Hin, El by done. unfold absentReportsBeforeReap in *.
    destruct l as [|d1 [|d2 [|d3 l]]]; simpl in Hlen; try lia. exists d1, d2, rest. split; [done|]. by constructor.
Qed.

(** What the reaps take. *)
Lemma reaps_lost tenant shield rids s s' :
  reaps tenant shield rids s s' →
  owners s' = owners s ∧ (∀ i r, t_resources s' !! i = Some r → t_resources s !! i = Some r) ∧
  ∀ i r, t_resources s !! i = Some r → t_resources s' !! i = None →
    r_status r = "deleting" ∧ r_tenant r = tenant ∧ (∃ sid, pg_uuid shield = Some sid ∧ r_shield r = Some sid) ∧
    ∃ rid, rid ∈ rids ∧ pg_uuid rid = Some i.
Proof.
  induction 1 as [s|s s1 s2 (rid & Hin & He) _ (Ho & Hsub & IH)]; [by split_and!; [..|congruence]|].
  inversion He as [| | | | | | | | | |? ? ? id sid r0 ? ? Hid Hsid Ht Hs Hst Hrm| | |]; subst; [done|].
  pose proof (λ i, removes_lookup _ _ _ _ i Hrm) as Hl. destruct Hrm as [Hr0 Es]. split_and!.
  - rewrite Ho, Es. done.
  - intros i r Hi%Hsub. rewrite Hl in Hi. by case_decide.
  - intros i r Hi Hn. destruct (decide (id = i)) as [->|Hne]; [|apply IH; [by rewrite Hl, decide_False|done]].
    rewrite Hr0 in Hi. simplify_eq. split_and!; [done|done|by exists sid|by exists rid].
Qed.

(** The row [r] of [rid] was a tombstone of a shield of this connector, absent
    from the last three reports that saw it. *)
Definition confirmed (tenant : uuid) (cid : string) (s : ResDB) (hist : list sighting) (rid : uuid) (r : ResRow) : Prop :=
  r_status r = "deleting" ∧ r_tenant r = tenant ∧
  (∃ sid, r_shield r = Some sid ∧ owners s !! sid = Some (cid, tenant)) ∧
  ∃ later earlier d1 d2 d3 rest, hist = later ++ earlier ∧
    sightings rid earlier = d1 :: d2 :: d3 :: rest ∧ Forall (lacks rid) [d1; d2; d3].

Lemma confirmed_later tenant cid s hist later rid r :
  confirmed tenant cid s hist rid r → confirmed tenant cid s (later ++ hist) rid r.
Proof.
  intros (Hst & Ht & Ho & l & e & d1 & d2 & d3 & rest & -> & Hs & Hl). split_and!; [done..|].
  exists (later ++ l), e, d1, d2, d3, rest. by rewrite app_assoc.
Qed.

Lemma report_step c tenant cid report fs :
  counted c → canonical_ids pg_uuid (r_db c) →
  (∃ sid, pg_uuid (sp_shield_id report) = Some sid ∧ owners (r_db c) !! sid = Some (cid, tenant)) →
  let '(x, w) := reconcileShield tenant cid report (r_recon c) (World (r_db c) None fs) in
  ∃ st' calls hist, x = Ok (st', calls) ∧ working w = None ∧
    let c' := MkR (committed w) st' (hist ++ r_hist c) in
    rstep c c' ∧ counted c' ∧ owners (r_db c') = owners (r_db c) ∧
    (∀ i r, t_resources (r_db c') !! i = Some r → t_resources (r_db c) !! i = Some r) ∧
    ∀ i r, t_resources (r_db c) !! i = Some r → t_resources (r_db c') !! i = None →
      confirmed tenant cid (r_db c) (r_hist c') i r.
Proof.
  intros Hc Hk (sid & Hsid & Hown). pose proof (reconcile_effect tenant cid report (r_recon c) (r_db c) fs) as He.
  destruct (reconcileShield _ _ _ _ _) as [x w] eqn:Hx. destruct He as (st' & calls & -> & Hwk & He).
  exists st', calls, (seen report (World (r_db c) None fs)). cbv zeta. split_and!; [done|done|by econstructor|..].
  all: destruct (seen report _) as [|d ds] eqn:Hseen; simpl.
  1,3,5,7: destruct He as [-> ->]; first [done|exact Hc|intros i r Hi Hn; congruence].
  all: destruct He as (Hnd & Hkeys & desired & sync & toReap & s1 & Hb & Hr1 & Ho1 & Hreaps).
  all: assert (ds = [] ∧ sg_reported d = sp_active_ids report) as [-> Erep]
         by (unfold seen in Hseen; destruct (GetDesiredForShield _ _ _) as [[]]; by simplify_eq).
  all: rewrite <-Erep in Hb; destruct (bookkeeping_counted c desired d _ _ _ _ Hc Hnd Hb) as [Hcount Hconf].
  all: destruct (reaps_lost _ _ _ _ _ Hreaps) as (Ho & Hsub & Hlost).
  - apply Hcount.
  - congruence.
  - intros i r Hi. rewrite <-Hr1. by apply Hsub.
  - intros i r Hi Hn. rewrite <-Hr1 in Hi. destruct (Hlost i r Hi Hn) as (Hst & Ht & (sid' & Hsid' & Hs) & rid & Hrid & Hpg).
    assert (rid = i) as ->.
    { destruct (Hconf rid Hrid) as [Hdel _]. destruct (Hkeys rid Hdel) as [r' Hr']. destruct (Hk rid r' Hr'). congruence. }
    destruct (Hconf i Hrid) as (_ & d1 & d2 & rest & Hsight & Hl). split_and!; [done|done|exists sid; by split; [congruence|]|].
    by exists [], (d :: r_hist c), d, d1, d2, rest.
Qed.

Lemma rstep_counted c c' : rstep c c' → counted c → counted c'.
Proof.
  intros Hs Hc. destruct Hs as [c op s' He|c tenant cid report fs st' calls w Hx|c]; [exact Hc| |].
  - pose proof (reconcile_effect tenant cid report (r_recon c) (r_db c) fs) as He. rewrite Hx in He.
    destruct He as (st2 & calls2 & [= <- <-] & _ & He). destruct (seen report _) as [|d ds] eqn:Hseen.
    { destruct He as [-> ->]. exact Hc. }
    assert (ds = [] ∧ sg_reported d = sp_active_ids report) as [-> Erep]
      by (unfold seen in Hseen; destruct (GetDesiredForShield _ _ _) as [[]]; by simplify_eq).
    destruct He as (Hnd & _ & desired & sync & toReap & s1 & Hb & _). rewrite <-Erep in Hb.
    by apply (bookkeeping_counted c desired d _ _ _ _ Hc Hnd Hb).
  - intros rid n. simpl. by rewrite lookup_empty.
Qed.

Lemma handle_reports tenant cid reports c fs :
  counted c → canonical_ids pg_uuid (r_db c) →
  let '(x, w) := handleResourceState tenant cid reports (r_recon c) (World (r_db c) None fs) in
  ∃ st' calls hist, x = Ok (st', calls) ∧
    let c' := MkR (committed w) st' (hist ++ r_hist c) in
    rtc rstep c c' ∧
    ∀ i r, t_resources (r_db c) !! i = Some r → t_resources (r_db c') !! i = None →
      confirmed tenant cid (r_db c) (r_hist c') i r.
Proof.
  revert c fs. induction reports as [|report reports IH]; intros c fs Hc Hk; simpl.
  { exists (r_recon c), [], []. split_and!; [done|destruct c; constructor|congruence]. }
  set (owned := pool_stmt _ _).
  assert (wp owned (r_db c) None (λ x s' wk, wk = None ∧ s' = r_db c ∧
    (x = Ok true → ∃ sid, pg_uuid (sp_shield_id report) = Some sid ∧ owners (r_db c) !! sid = Some (cid, tenant)))) as Hown.
  { unfold owned. apply wp_pool_stmt; [done|]. intros a s' (-> & sid & Hsid & ->)%read_with_id. split; [|done].
    split_and!; [done..|]. intros [= Ho]. exists sid. split; [done|]. unfold owners. rewrite lookup_fmap.
    destruct (t_shields (r_db c) !! sid) as [sh|]; [|done]. bool_simpl. simpl. congruence. }
  unfold bind at 1, attempt at 1. specialize (Hown fs). destruct (owned _) as [o [s1 wk fs1]]. simpl in Hown.
  destruct Hown as (-> & -> & Hown).
  destruct o as [[]|e]; [|by apply (IH c)..]. specialize (Hown eq_refl).
  unfold bind at 1. pose proof (report_step c tenant cid report fs1 Hc Hk Hown) as Hrep.
  destruct (reconcileShield _ _ _ _ _) as [x [s2 wk fs2]]. destruct Hrep as (st' & calls & hist & -> & Hwk & Hst & Hc' & Ho & Hsub & Hlost).
  simpl in Hwk, Hst, Hc', Ho, Hsub, Hlost. subst wk. unfold bind at 1.
  assert (canonical_ids pg_uuid s2) as Hk'. { intros i r Hi%Hsub. by apply (Hk i r). }
  specialize (IH (MkR s2 st' (hist ++ r_hist c)) fs2 Hc' Hk'). simpl in IH |- *.
  destruct (handleResourceState _ _ _ _ _) as [y w]. destruct IH as (st2 & calls2 & hist2 & -> & Hrtc & Hlost2). simpl in *.
  exists st2, (calls ++ calls2), (hist2 ++ hist). rewrite <-app_assoc. split_and!; [done|by eapply rtc_l|].
  intros i r Hi Hn. destruct (t_resources s2 !! i) as [r2|] eqn:H2.
  - assert (r2 = r) as -> by (apply Hsub in H2; congruence). destruct (Hlost2 i r H2 Hn) as (? & ? & (sid & ? & Ho2) & ?).
    split_and!; [done|done|exists sid; by rewrite <-Ho|done].
  - by apply confirmed_later, Hlost.
Qed.

End reconcile.

(** ** The shield's reports *)

Section drift.
Context (pg_uuid : string → option uuid) (sha256_hex : string → string) `{RowOrder}
        (sig_ok : string → string → bool) (decode : string → option ResourceSetPayload) (trust_domain : string)
        (sid : uuid).
Abbreviation ereach := (ereach pg_uuid sha256_hex sig_ok decode trust_domain sid).
Abbreviation handle := (handle_snapshot sig_ok decode trust_domain sid).

Lemma drifts_iff desired reported : drifts desired reported = false ↔ (∀ id, id ∈ desired ↔ id ∈ reported).
Proof.
  clear pg_uuid sha256_hex sig_ok decode. unfold drifts. rewrite orb_false_iff, <-!not_true_iff_false, !existsb_exists. split.
  - intros [Ho Hm] id. split; intros Hid; destruct (decide (id ∈ desired)), (decide (id ∈ reported)); try done.
    + destruct Hm. exists id. split; [by apply list_elem_of_In|]. by rewrite bool_decide_false.
    + destruct Ho. exists id. split; [by apply list_elem_of_In|]. by rewrite bool_decide_false.
  - intros Heq. split; intros (id & Hid%list_elem_of_In & Hn); bool_simpl; by apply Hn, Heq.
Qed.

(** The ids of a desired set are keys. *)
Lemma desired_ids s x y : x ∈ desiredForShield sid s → y ∈ desiredForShield sid s → p_ID x = p_ID y → x = y.
Proof.
  intros (i & r & Hi & _ & _ & ->)%desired_elem (j & r' & Hj & _ & _ & ->)%desired_elem. simpl. intros <-. by simplify_eq.
Qed.

Hypothesis sid_canonical : pg_uuid sid = Some sid.
Hypothesis sha256_inj : Inj (=) (=) sha256_hex.

(** a resync repairs nothing that a current shield lacks.  When the shield has
    applied the generation of the current desired set, the report that it sends
    differs from that set exactly if it had refused the host of a desired
    resource; the snapshot built in answer has the generation already applied,
    and no delivery of it changes what the shield enforces.  So a resource refused
    once, say because the LAN address was not yet known, is not applied when its
    host becomes valid, however many resyncs follow. *)
Theorem resync_cannot_repair (c0 c : estate) (p : ResourceSetPayload) :
  einit sid c0 → ereach c0 c → current sha256_hex sid c p →
  last_generation (sh_shared (e_shield c)) = Some (pl_generation p) →
  (∃ lan, drifts (p_ID <$> desiredForShield sid (e_db c)) (sp_active_ids (build_state_report sid (sh_shared (e_shield c)))) = true ↔
     ∃ row, row ∈ desiredForShield sid (e_db c) ∧ validate_host lan (p_Host row) = false) ∧
  ∀ fs snap w, BuildShieldSnapshot pg_uuid sha256_hex sid (World (e_db c) None fs) = (Ok snap, w) →
    committed w = e_db c ∧
    ∀ may_act env sg q, verify_resource_set sig_ok decode trust_domain sid sg = Some q →
      pl_generation q = sn_Generation snap → core (handle may_act env (Some sg) (e_shield c)).2 = core (e_shield c).
Proof using sid_canonical sha256_inj.
  intros Hi Hr Hcur Hlast. destruct (ereach_gens _ _ _ _ _ _ sid_canonical c0 c Hi Hr) as (b & Hg & Hb).
  destruct (ereach_ok _ _ _ _ _ _ sid_canonical c0 c Hi Hr) as [_ (_ & _ & _ & Hok)]. rewrite Hlast in Hok. split.
  - destruct Hok as (_ & q & lan & Hq & Eq & Hact). exists lan.
    pose proof (current_resources _ _ sha256_inj c b p Hg Hcur) as Hp.
    pose proof (same_generation _ _ sha256_inj c b q p Hg Hq (proj1 Hcur) Eq) as Hqp.
    assert (∀ id, id ∈ sp_active_ids (build_state_report sid (sh_shared (e_shield c))) ↔
      ∃ row, row ∈ desiredForShield sid (e_db c) ∧ validate_host lan (p_Host row) = true ∧ id = p_ID row) as Hids.
    { intros id. simpl. rewrite merge_sort_Permutation, Hact, list_elem_of_fmap. unfold new_active.
      setoid_rewrite list_elem_of_fmap. setoid_rewrite list_elem_of_filter. setoid_rewrite Hqp. setoid_rewrite Hp.
      setoid_rewrite list_elem_of_fmap. split.
      - intros (a & -> & res & -> & Hv & row & -> & Hrow). exists row. by split_and!.
      - intros (row & Hrow & Hv & ->). exists (to_active (instruction "" row)). split; [done|]. eexists. split; [done|]. split; [done|]. eauto. }
    rewrite <-not_false_iff_true, drifts_iff. split.
    + intros Hnd. destruct (decide (Exists (λ row, validate_host lan (p_Host row) = false) (desiredForShield sid (e_db c)))) as [He|He].
      { apply Exists_exists in He as (row & Hrow & Hv). by exists row. }
      exfalso. apply Hnd. intros id. rewrite Hids, list_elem_of_fmap. split.
      * intros (row & -> & Hrow). exists row. split_and!; [done| |done]. destruct (validate_host lan (p_Host row)) eqn:E; [done|].
        exfalso. apply He, Exists_exists. by exists row.
      * intros (row & Hrow & _ & ->). by exists row.
    + intros (row & Hrow & Hv) Heq. destruct (proj1 (Hids (p_ID row))) as (row' & Hrow' & Hv' & Eid).
      { apply Heq, list_elem_of_fmap. by exists row. }
      rewrite (desired_ids _ _ _ Hrow Hrow' Eid) in Hv. congruence.
  - intros fs snap w Hbuild. pose proof (build_ok pg_uuid sha256_hex sid (e_db c) fs) as Hw. rewrite Hbuild in Hw.
    destruct (Hw snap eq_refl) as (sid' & sh & Hsid & Hsh & _ & Hcase). rewrite sid_canonical in Hsid. injection Hsid as <-.
    destruct Hcur as (_ & sh' & Hsh' & Eg & Efp). rewrite Hsh in Hsh'. injection Hsh' as <-.
    cbv zeta in Hcase. rewrite decide_True in Hcase by done. destruct Hcase as [Ec Egen]. split; [done|].
    intros may_act env sg q Hv Hq. destruct (handle_cases sig_ok decode trust_domain sid may_act env (Some sg) (e_shield c))
      as [E|(sg' & q' & [= <-] & Hv' & _ & _ & Hl & _)]; [done|]. assert (q' = q) as -> by congruence.
    specialize (Hl _ Hlast). destruct Hg as (_ & sh2 & Hsh2 & Hbd & _). rewrite Hsh in Hsh2. injection Hsh2 as <-.
    rewrite uint64_small in Egen by lia. lia.
Qed.
End drift.

(** ** Concrete reports *)

Module Reports.
Import Demo Run.
Definition tombstone : ResRow := set_state "deleting" "remove" ssh.
Definition db_deleting : ResDB := set_resources (<["r1" := tombstone]> (t_resources db)) db.
Definition silent : ResourceStateReport := MkReport "shield" 1 [].


(** A host whose LAN address is not known yet. *)
Definition no_lan : host_env := MkHostEnv None (λ _ _, true) 1700000000 None true.
Definition c_refused : estate :=
  MkE db1 [snap1] [set1] (handle_snapshot Run.sig_ok Run.decode "ws.example" "shield" true no_lan (Some msg1) fresh).2 (e_hist c2).
Lemma reach_refused : reach c0 c_refused.
Proof.
  exists 3%nat. split; [|lia]. eapply nsteps_l; [apply step1|]. eapply nsteps_l; [apply step2|]. eapply nsteps_l; [|constructor].
  apply (e_deliver _ _ _ _ _ _ c2 true no_lan (Some msg1)). intros sg p [= <-] _. simpl. intros [= <-] _. left.
Qed.

Lemma resync_cannot_repair_witness :
  drifts (p_ID <$> desiredForShield (H := scan_order) "shield" db1)
    (sp_active_ids (build_state_report "shield" (sh_shared (e_shield c_refused)))) = true ∧
  core (handle_snapshot Run.sig_ok Run.decode "ws.example" "shield" true (host None) (Some msg1) (e_shield c_refused)).2 =
  core (e_shield c_refused).
Proof.
  destruct (resync_cannot_repair read_uuid (λ x, x) (H := scan_order) Run.sig_ok Run.decode "ws.example" "shield" eq_refl (λ x y E, E)
    c0 c_refused set1 init_ok reach_refused) as [_ Hsync].
  - split; [left|]. eexists. split; by vm_compute.
  - done.
  - split; [by vm_compute|]. destruct (Hsync [] snap1 (World db1 None [])) as [_ Hsame]; [by vm_compute|].
    apply (Hsame true (host None) msg1 set1); done.
Defined.
End Reports.
