(* ===== verification/NameMap.v ===== *)
(** * DNS names on the client

    [client/src/name_map.rs] and the name set of [client/src/dns_link.rs]: a
    resource whose address is a DNS name is captured on a fake address of
    198.18.0.0/16, derived from the name; the tunnel request maps it back.  The
    process-wide map is an explicit state; addresses are the [u32] of
    [Ipv4Addr]. *)

From Stdlib Require Import ZArith Lia Ascii.
From S2P Require Import Prelude GoText NetTarget ResourceHost.
Open Scope Z_scope.
Set Default Proof Using "Type".

(** [u32::from_be_bytes], and the octets back. *)
Definition ip_bits (a b c d : Z) : Z := ((a * 256 + b) * 256 + c) * 256 + d.
Definition ip_octet (i ip : Z) : Z := ip / 256 ^ (3 - i) mod 256.
Definition ip_text (ip : Z) : string := of_bytes (ipv4_text (ip_octet 0 ip) (ip_octet 1 ip) (ip_octet 2 ip) (ip_octet 3 ip)).

Definition POOL_FIRST : Z := ip_bits 198 18 0 1.
Definition POOL_LAST : Z := ip_bits 198 18 255 254.
Definition POOL_SIZE : Z := POOL_LAST - POOL_FIRST + 1.

Definition in_reserved_range (ip : Z) : bool :=
  (ip_octet 0 ip =? 198) && ((ip_octet 1 ip =? 18) || (ip_octet 1 ip =? 19)).

Definition is_resource_name (address : string) : bool :=
  let l := bytes address in
  if bool_decide (l = []) || (253 <? length l)%nat || bool_decide (is_Some (parse_ip address)) then false
  else
    let labels := split_on dot l in
    if (length labels <? 2)%nat then false
    else forallb label_ok labels && existsb (in_range 97 122) (default [] (last labels)).

(** FNV-1a 64. *)
Definition u64 (z : Z) : Z := z mod 2 ^ 64.
Definition home_slot (name : string) : Z :=
  foldl (λ h b, u64 (Z.lxor h (code b) * 0x100000001b3)) 0xcbf29ce484222325 (bytes name) mod POOL_SIZE.

Record NameMap := MkNameMap {
  by_name : gmap string Z; by_ip : gmap Z string; active_names : gset string; conflicts : gset Z
}.
Definition name_map_default : NameMap := MkNameMap ∅ ∅ ∅ ∅.

(** The first free address of [n] slots from [home + i]. *)
Fixpoint probe (n : nat) (home i : Z) (taken : gmap Z string) : option Z :=
  match n with
  | O => None
  | S n =>
      let ip := POOL_FIRST + (home + i) mod POOL_SIZE in
      if bool_decide (is_Some (taken !! ip)) then probe n home (i + 1) taken else Some ip
  end.

Definition fake_ip_for (name : string) (m : NameMap) : option Z * NameMap :=
  if negb (is_resource_name name) || negb (bool_decide (conflicts m = ∅)) then (None, m)
  else match by_name m !! name with
       | Some ip => (Some ip, m)
       | None =>
           match probe (Z.to_nat POOL_SIZE) (home_slot name) 0 (by_ip m) with
           | None => (None, m)
           | Some ip => (Some ip, MkNameMap (<[name := ip]> (by_name m)) (<[ip := name]> (by_ip m)) (active_names m) (conflicts m))
           end
       end.

Definition name_for (ip : Z) (m : NameMap) : option string := by_ip m !! ip.
Definition set_active (names : gset string) (m : NameMap) : NameMap := MkNameMap (by_name m) (by_ip m) names (conflicts m).
Definition answer_a (name : string) (m : NameMap) : option Z :=
  if bool_decide (name ∈ active_names m) && bool_decide (conflicts m = ∅) then by_name m !! name else None.
Definition note_literal (ip : Z) (m : NameMap) : NameMap :=
  if in_reserved_range ip then MkNameMap (by_name m) (by_ip m) (active_names m) ({[ip]} ∪ conflicts m) else m.
Definition conflict (m : NameMap) : option Z := head (merge_sort Z.le (elements (conflicts m))).
Definition clear_conflicts (m : NameMap) : NameMap := MkNameMap (by_name m) (by_ip m) (active_names m) ∅.

Definition resource_ipv4 (address : string) (m : NameMap) : option Z * NameMap :=
  match parse_ip address with
  | Some (V4 a b c d) => (Some (ip_bits a b c d), note_literal (ip_bits a b c d) m)
  | Some (V6 _) => (None, m)
  | None => fake_ip_for address m
  end.
Definition destination_for (ip : Z) (m : NameMap) : string := default (ip_text ip) (name_for ip m).

(** [routable_key] of [net_stack.rs]: the captured address and port. *)
Definition routable_key (address protocol : string) (port : Z) (m : NameMap) : option (Z * Z) * NameMap :=
  if negb ((ToLower protocol ≟ "tcp") || (protocol ≟ "")) then (None, m)
  else let '(ip, m') := resource_ipv4 address m in ((λ ip, (ip, port mod 2 ^ 16)) <$> ip, m').

(** ** The resolver's configuration *)

Record AppliedEntry := MkApplied { ap_address : string; ap_port : Z; ap_protocol : string }.
(** [eq_ignore_ascii_case]. *)
Definition is_tcp (protocol : string) : bool := (protocol ≟ "") || bool_decide (lower_ascii <$> bytes protocol = bytes "tcp").
Definition names_in (entries : list AppliedEntry) : gset string :=
  list_to_set (ap_address <$> filter (λ e, is_tcp (ap_protocol e) && is_resource_name (ap_address e) = true) entries).

(** [Some (Ok n)]: n names active. *)
Record DnsState := MkDns { configured : gset string; dns_status : option (result string nat) }.
Definition dns_default : DnsState := MkDns ∅ None.

Definition LINK : string := "zecurity0".
Definition DNS_RESPONDER_ADDR : Z := ip_bits 198 19 255 53.
Definition COMMAND_TIMEOUT : string := "5".
(** A program with its arguments; names in the order of a [BTreeSet]. *)
Definition desired_commands (names : gset string) : list (string * list string) :=
  let dns := ip_text DNS_RESPONDER_ADDR in
  if bool_decide (names = ∅) then [("resolvectl", ["revert"; LINK])]
  else [("ip", ["route"; "replace"; dns +:+ "/32"; "dev"; LINK]);
        ("resolvectl", ["dns"; LINK; dns]);
        ("resolvectl", ["domain"; LINK] ++ ((λ n, "~" +:+ n) <$> merge_sort String.le (elements names)));
        ("resolvectl", ["default-route"; LINK; "false"])].

(** [runner]: the error of a command that fails.  The first one ends the run. *)
Fixpoint run_commands (runner : string → list string → option string) (cmds : list (string * list string)) : option string :=
  match cmds with
  | [] => None
  | (program, args) :: cmds =>
      match runner "timeout" (COMMAND_TIMEOUT :: program :: args) with
      | Some e => Some e
      | None => run_commands runner cmds
      end
  end.

Definition sync (runner : string → list string → option string) (entries : list AppliedEntry) (force : bool) (m : NameMap)
    (prev : DnsState) : NameMap * DnsState :=
  let names := names_in entries in
  if negb force && bool_decide (configured prev = names)
     && xorb (bool_decide (is_Some (dns_status prev))) (bool_decide (names = ∅)) then (set_active names m, prev)
  else match conflict m with
       | Some ip =>
           (set_active ∅ m,
            MkDns ∅ (if bool_decide (names = ∅) then None
                     else Some (Err ("resource address " +:+ ip_text ip +:+ " is inside 198.18.0.0/15, reserved for DNS name resources; change or remove it, then restart the tunnel (zecurity-client down && zecurity-client up)"))))
       | None =>
           match (let e := run_commands runner (desired_commands names) in if bool_decide (names = ∅) then None else e) with
           | None => (set_active names m, MkDns names (if bool_decide (names = ∅) then None else Some (Ok (size names))))
           | Some e => (set_active ∅ m, MkDns ∅ (Some (Err ("systemd-resolved configuration failed: " +:+ e))))
           end
       end.
Definition dns_clear (m : NameMap) : NameMap * DnsState := (clear_conflicts (set_active ∅ m), dns_default).

(** ** The pool *)

Example pinned_addresses :
  (λ n, ip_text <$> (fake_ip_for n name_map_default).1) <$> ["db.internal"; "192-168-1-164.nip.io"; "a.example"] =
  [Some "198.18.230.163"; Some "198.18.130.157"; Some "198.18.201.129"].
Proof. by vm_compute. Qed.

Lemma pool_size : POOL_SIZE = 65534.
Proof. by vm_compute. Qed.
Lemma pool_last : POOL_LAST = POOL_FIRST + POOL_SIZE - 1.
Proof. unfold POOL_SIZE. lia. Qed.
#[local] Opaque POOL_SIZE.
Lemma slot_in_pool home i : POOL_FIRST <= POOL_FIRST + (home + i) mod POOL_SIZE <= POOL_LAST.
Proof. rewrite pool_last. pose proof (Z.mod_pos_bound (home + i) POOL_SIZE ltac:(rewrite pool_size; lia)). lia. Qed.

Lemma probe_Some n home i taken ip :
  probe n home i taken = Some ip → taken !! ip = None ∧ POOL_FIRST <= ip <= POOL_LAST.
Proof.
  revert i. induction n as [|n IH]; intros i; simpl; [done|]. case_bool_decide as Ht; [apply IH|]. intros [= <-].
  split; [by apply eq_None_not_Some|apply slot_in_pool].
Qed.
Lemma probe_None n home i taken :
  probe n home i taken = None ↔
  ∀ j, i <= j < i + Z.of_nat n → is_Some (taken !! (POOL_FIRST + (home + j) mod POOL_SIZE)).
Proof.
  revert i. induction n as [|n IH]; intros i; [split; [intros _ j Hj; lia|done]|]. cbn [probe]. cbv zeta. case_bool_decide as Ht.
  - rewrite IH. split; intros Hall j Hj; [|apply Hall; lia]. destruct (decide (j = i)) as [->|]; [done|apply Hall; lia].
  - split; [done|]. intros Hall. destruct Ht. apply Hall. lia.
Qed.
(** The slots cover the pool. *)
Lemma pool_slots home ip :
  POOL_FIRST <= ip <= POOL_LAST → ∃ j, 0 <= j < POOL_SIZE ∧ ip = POOL_FIRST + (home + j) mod POOL_SIZE.
Proof.
  intros Hip. rewrite pool_last in Hip. pose proof pool_size as Hsz. exists ((ip - POOL_FIRST - home) mod POOL_SIZE).
  split; [apply Z.mod_pos_bound; lia|]. rewrite Zplus_mod_idemp_r. replace (home + (ip - POOL_FIRST - home)) with (ip - POOL_FIRST) by lia.
  rewrite Z.mod_small; lia.
Qed.
Lemma pool_full home taken :
  probe (Z.to_nat POOL_SIZE) home 0 taken = None ↔ ∀ ip, POOL_FIRST <= ip <= POOL_LAST → is_Some (taken !! ip).
Proof.
  rewrite probe_None, Z2Nat.id by (rewrite pool_size; lia). split.
  - intros Hall ip Hip. destruct (pool_slots home ip Hip) as (j & Hj & ->). apply Hall. lia.
  - intros Hall j _. apply Hall, slot_in_pool.
Qed.

Lemma probe_home home taken :
  0 <= home < POOL_SIZE → taken !! (POOL_FIRST + home) = None → probe (Z.to_nat POOL_SIZE) home 0 taken = Some (POOL_FIRST + home).
Proof.
  intros Hh Hfree. assert (∃ n, Z.to_nat POOL_SIZE = S n) as [n ->] by (exists (pred (Z.to_nat POOL_SIZE)); lia).
  cbn [probe]. cbv zeta. rewrite Z.add_0_r, Z.mod_small by done. by rewrite Hfree, bool_decide_false by by intros [].
Qed.

(** ** The map *)

(** The two directions agree, on names of resources and addresses of the pool. *)
Definition nm_ok (m : NameMap) : Prop :=
  (∀ name ip, by_name m !! name = Some ip ↔ by_ip m !! ip = Some name) ∧
  (∀ ip name, by_ip m !! ip = Some name → POOL_FIRST <= ip <= POOL_LAST ∧ is_resource_name name = true).
(** Nothing is forgotten. *)
Definition extends (m m' : NameMap) : Prop := by_name m ⊆ by_name m' ∧ by_ip m ⊆ by_ip m'.
#[export] Instance extends_preorder : PreOrder extends.
Proof. split; [by split|]. intros m1 m2 m3 [? ?] [? ?]. split; by etrans. Qed.

Lemma fake_ip_keeps name m : nm_ok m → nm_ok (fake_ip_for name m).2 ∧ extends m (fake_ip_for name m).2.
Proof.
  intros Hok. unfold fake_ip_for. destruct (negb (is_resource_name name) || _) eqn:Hn; [done|]. bool_simpl.
  destruct (by_name m !! name) as [ip|] eqn:E; [done|]. destruct (probe _ _ _ _) as [ip|] eqn:Hp; [|done]. simpl.
  apply probe_Some in Hp as [Hfree Hpool]. destruct Hok as [Hinv Hval]. split; [split|split]; simpl.
  - intros n j. rewrite !lookup_insert. repeat case_decide; subst; [done| | |apply Hinv].
    + split; [by intros [= <-]|]. intros Hj%Hinv. congruence.
    + split; [|by intros [= <-]]. intros Hj%Hinv. congruence.
  - intros j n. rewrite lookup_insert. case_decide; [intros [= <-]; by subst|apply Hval].
  - by apply insert_subseteq.
  - by apply insert_subseteq.
Qed.
Lemma fake_ip_mapped name m ip : nm_ok m → (fake_ip_for name m).1 = Some ip → by_ip (fake_ip_for name m).2 !! ip = Some name.
Proof.
  intros [Hinv _]. unfold fake_ip_for. destruct (negb _ || _); [done|]. destruct (by_name m !! name) as [j|] eqn:E.
  - intros [= <-]. by apply Hinv.
  - destruct (probe _ _ _ _) as [j|]; [|done]. intros [= <-]. simpl. by rewrite lookup_insert_eq.
Qed.

(** What the daemon does with the map. *)
Inductive nm_step : NameMap * DnsState → NameMap * DnsState → Prop :=
| nm_key address protocol port m d : nm_step (m, d) ((routable_key address protocol port m).2, d)
| nm_sync runner entries force m d : nm_step (m, d) (sync runner entries force m d)
| nm_clear m d : nm_step (m, d) (dns_clear m).

Lemma routable_key_keeps address protocol port m :
  nm_ok m → nm_ok (routable_key address protocol port m).2 ∧ extends m (routable_key address protocol port m).2.
Proof.
  intros Hok. unfold routable_key. destruct (negb _); [done|]. unfold resource_ipv4.
  destruct (parse_ip address) as [[a b c d|gs]|] eqn:E; [|done|].
  - simpl. unfold note_literal. by case_match.
  - pose proof (fake_ip_keeps address m Hok) as Hk. by destruct (fake_ip_for address m).
Qed.
Lemma nm_step_keeps c c' : nm_step c c' → nm_ok c.1 → nm_ok c'.1 ∧ extends c.1 c'.1.
Proof.
  intros [address protocol port m d|runner entries force m d|m d] Hok; simpl in *; [by apply routable_key_keeps| |done].
  unfold sync. destruct (negb force && _ && _); [done|]. destruct (conflict m); [done|].
  by case_match.
Qed.
Lemma nm_steps_keep c c' : rtc nm_step c c' → nm_ok c.1 → nm_ok c'.1 ∧ extends c.1 c'.1.
Proof.
  induction 1 as [|c1 c2 c3 Hs _ IH]; intros Hok; [done|]. destruct (nm_step_keeps _ _ Hs Hok) as [Hok2 He].
  destruct (IH Hok2). split; [done|]. by etrans.
Qed.
Lemma nm_default_ok : nm_ok name_map_default.
Proof. split; [intros n ip|intros ip n]; simpl; rewrite !lookup_empty; done. Qed.


(** a name goes without an address only for a reason.  The map answers none
    exactly for what is not a resource name, while a real resource lies in the
    reserved range, or when the name is new and all 65534 addresses of the pool
    are taken. *)
Theorem fake_ip_refused (name : string) (m : NameMap) :
  (fake_ip_for name m).1 = None ↔
  is_resource_name name = false ∨ conflicts m ≠ ∅ ∨
  by_name m !! name = None ∧ ∀ ip, POOL_FIRST <= ip <= POOL_LAST → is_Some (by_ip m !! ip).
Proof.
  rewrite <-(pool_full (home_slot name)). unfold fake_ip_for. destruct (is_resource_name name); simpl; [|naive_solver].
  case_bool_decide as Hc; simpl; [|naive_solver]. destruct (by_name m !! name) as [ip|]; simpl; [naive_solver|].
  destruct (probe _ _ _ _); naive_solver.
Qed.

Lemma resource_name_form address : is_resource_name address = true ↔ name_form (bytes address).
Proof.
  unfold is_resource_name, name_form. split.
  - destruct (bool_decide (bytes address = []) || _ || _) eqn:E; [done|]. bool_simpl.
    destruct (length (split_on dot (bytes address)) <? 2)%nat eqn:El; [done|]. apply Nat.ltb_ge in El. intros Hl. bool_simpl.
    match goal with E : (253 <? _)%nat = false |- _ => apply Nat.ltb_ge in E end.
    split_and!; [|lia|done|done|done]. destruct (bytes address); simpl; [done|lia].
  - intros Hf. pose proof (parse_ip_name _ Hf) as Hp. rewrite of_bytes_bytes in Hp. destruct Hf as (Hlen & Hl2 & Hlab & Hlet).
    rewrite Hp. rewrite bool_decide_false by (intros E; rewrite E in Hlen; simpl in Hlen; lia).
    rewrite (proj2 (Nat.ltb_ge _ _) (proj2 Hlen)), bool_decide_false by (by intros []). simpl.
    rewrite (proj2 (Nat.ltb_ge _ _) Hl2), Hlab, Hlet. done.
Qed.

(** the client and the controller agree on names.  The client maps exactly the
    texts that the controller stores as the host of a DNS-name resource. *)
Theorem names_agree (address : string) :
  is_resource_name address = true ↔ ∃ host, NormalizeHost host = Some (address, HostName).
Proof.
  rewrite resource_name_form. split.
  - intros Hf. exists address. unfold NormalizeHost. pose proof (TrimSpace_visible _ (name_visible _ Hf)) as Ht. rewrite of_bytes_bytes in Ht.
    rewrite Ht, (ParseAddr_name _ Hf), (normalize_name_id _ Hf). cbn [fmap option_fmap option_map]. by rewrite of_bytes_bytes.
  - intros (host & Hn). unfold NormalizeHost in Hn. destruct (ParseAddr _); [repeat case_match; simplify_eq|].
    apply fmap_Some in Hn as (n & Hn%normalize_name_form & [= ->]). by rewrite bytes_of_bytes.
Qed.

(** ** A name, then a resource on its address *)

Module Shadow.
Definition db : string := "db.internal".
Definition db_ip : Z := ip_bits 198 18 230 163.
Definition mapped : NameMap := (fake_ip_for db name_map_default).2.
Definition later : NameMap * DnsState := dns_clear (routable_key "198.18.230.163" "tcp" 443 mapped).2.

Lemma later_reached : rtc nm_step (mapped, dns_default) later.
Proof. eapply rtc_l; [apply (nm_key "198.18.230.163" "tcp" 443)|]. eapply rtc_l; [apply nm_clear|]. apply rtc_refl. Qed.


(** The literal resource is captured on its own address, and the tunnel request
    names the other resource. *)
Example literal_shadowed :
  (routable_key "198.18.230.163" "tcp" 443 mapped).1 = Some (db_ip, 443) ∧
  destination_for db_ip (routable_key "198.18.230.163" "tcp" 443 mapped).2 = "db.internal".
Proof. by vm_compute. Qed.
End Shadow.
