(* ===== verification/Dns.v ===== *)
(** * The client's DNS answers

    [client/src/dns.rs] and [serve_dns] of [client/src/net_stack.rs]: the reply
    to a query of the system resolver for a resource name.  A packet is a list of
    bytes that the code reads by index.  The reference is a decoder of DNS
    messages (RFC 1035) that consumes the bytes in order. *)

From Stdlib Require Import ZArith Lia Ascii.
From S2P Require Import Prelude GoText NetTarget ResourceHost NameMap.
Open Scope Z_scope.
Set Default Proof Using "Type".

(** ** The answerer *)

(** [u16::from_be_bytes], [u16::to_be_bytes], [u32::to_be_bytes]. *)
Definition be16 (a b : ascii) : Z := code a * 256 + code b.
Definition to_be16 (z : Z) : list ascii := [chr (z / 256 mod 256); chr (z mod 256)].
Definition to_be32 (z : Z) : list ascii := chr <$> [ip_octet 0 z; ip_octet 1 z; ip_octet 2 z; ip_octet 3 z].

Definition ANSWER_TTL_SECS : Z := 30.
Definition TYPE_A : Z := 1.
Definition CLASS_IN : Z := 1.
Definition RCODE_NXDOMAIN : Z := 3.
Definition RCODE_NOTIMP : Z := 4.

(** [query.get(lo..hi)], for [lo <= hi]. *)
Definition slice (q : list ascii) (lo hi : nat) : option (list ascii) :=
  if (hi <=? length q)%nat then Some (take (hi - lo) (drop lo q)) else None.
(** [labels.join(".")]. *)
Fixpoint join_dots (labels : list (list ascii)) : list ascii :=
  match labels with
  | [] => []
  | [l] => l
  | l :: labels => l ++ dot :: join_dots labels
  end.

(** The loop over the labels of the question: the labels in lower case, and the
    position after the name. *)
Fixpoint read_labels (fuel : nat) (query : list ascii) (pos : nat) (labels : list (list ascii))
    : option (list (list ascii) * nat) :=
  match fuel with
  | O => None
  | S fuel =>
      b ← query !! pos;
      let len := Z.to_nat (code b) in
      let pos := S pos in
      if (len =? 0)%nat then Some (labels, pos)
      else if (63 <? len)%nat then None
      else
        label ← slice query pos (pos + len);
        let label := lower_ascii <$> label in
        if utf8_valid label then read_labels fuel query (pos + len) (labels ++ [label]) else None
  end.

Definition answer (query : list ascii) (lookup : string → option Z) : option (list ascii) :=
  if (length query <? 12)%nat then None
  else
    q2 ← query !! 2%nat; q3 ← query !! 3%nat; q4 ← query !! 4%nat; q5 ← query !! 5%nat;
    let flags := be16 q2 q3 in
    let qr := negb (Z.land flags 0x8000 =? 0) in
    let opcode := Z.land (Z.shiftr flags 11) 0xF in
    if qr || negb (be16 q4 q5 =? 1) then None
    else
      '(labels, pos) ← read_labels (S (length query)) query 12 [];
      t0 ← query !! pos; t1 ← query !! (pos + 1)%nat;
      c0 ← query !! (pos + 2)%nat; c1 ← query !! (pos + 3)%nat;
      let qtype := be16 t0 t1 in
      let qclass := be16 c0 c1 in
      let question_end := (pos + 4)%nat in
      let rd := Z.land flags 0x0100 in
      let '(rcode, addr) :=
        if negb (opcode =? 0) then (RCODE_NOTIMP, None)
        else match lookup (of_bytes (join_dots labels)) with
             | None => (RCODE_NXDOMAIN, None)
             | Some ip => if (qtype =? TYPE_A) && (qclass =? CLASS_IN) then (0, Some ip) else (0, None)
             end in
      let reply_flags := Z.lor (Z.lor (Z.lor (Z.lor 0x8000 (Z.shiftl opcode 11)) 0x0400) rd) rcode in
      Some (take 2 query ++ to_be16 reply_flags ++ to_be16 1
            ++ to_be16 (match addr with Some _ => 1 | None => 0 end) ++ to_be16 0 ++ to_be16 0
            ++ take (question_end - 12) (drop 12 query)
            ++ match addr with
               | Some ip => to_be16 0xC00C ++ to_be16 TYPE_A ++ to_be16 CLASS_IN ++ to_be32 ANSWER_TTL_SECS
                            ++ to_be16 4 ++ to_be32 ip
               | None => []
               end).

(** The queued packets with their senders, in order; [sent k] says whether the
    send buffer takes the [k]-th reply. *)
Fixpoint serve_dns {E} (sent : nat → bool) (k : nat) (lookup : string → option Z) (queue : list (list ascii * E))
    : list (list ascii * E) :=
  match queue with
  | [] => []
  | (query, endpoint) :: queue =>
      match answer query lookup with
      | Some reply => (if sent k then [(reply, endpoint)] else []) ++ serve_dns sent (S k) lookup queue
      | None => serve_dns sent k lookup queue
      end
  end.

(** ** The reference decoder *)

Record Question := MkQuestion { qn_name : list (list ascii); qn_type : Z; qn_class : Z }.
Record RR := MkRR { rr_name : list (list ascii); rr_type : Z; rr_class : Z; rr_ttl : Z; rr_data : list ascii }.
Record Header := MkHeader {
  h_id : Z; h_qr : bool; h_opcode : Z; h_aa : bool; h_tc : bool; h_rd : bool; h_ra : bool; h_z : Z; h_rcode : Z;
  h_qdcount : Z; h_ancount : Z; h_nscount : Z; h_arcount : Z
}.

Definition take_header (l : list ascii) : option (Header * list ascii) :=
  match l with
  | i0 :: i1 :: f0 :: f1 :: q0 :: q1 :: a0 :: a1 :: n0 :: n1 :: r0 :: r1 :: rest =>
      let f := be16 f0 f1 in
      Some (MkHeader (be16 i0 i1) (Z.testbit f 15) (f / 2 ^ 11 mod 2 ^ 4) (Z.testbit f 10) (Z.testbit f 9)
              (Z.testbit f 8) (Z.testbit f 7) (f / 2 ^ 4 mod 2 ^ 3) (f mod 2 ^ 4)
              (be16 q0 q1) (be16 a0 a1) (be16 n0 n1) (be16 r0 r1), rest)
  | _ => None
  end.

(** Uncompressed labels up to the empty one. *)
Fixpoint take_labels (fuel : nat) (l : list ascii) : option (list (list ascii) * list ascii) :=
  match fuel, l with
  | S fuel, b :: l =>
      let len := Z.to_nat (code b) in
      if bool_decide (len = 0%nat) then Some ([], l)
      else if bool_decide (len <= 63 ∧ len <= length l)%nat then
        '(ls, rest) ← take_labels fuel (drop len l); Some (take len l :: ls, rest)
      else None
  | _, _ => None
  end.
Definition take_question (l : list ascii) : option (Question * list ascii) :=
  '(name, rest) ← take_labels (length l) l;
  match rest with
  | t0 :: t1 :: c0 :: c1 :: rest => Some (MkQuestion name (be16 t0 t1) (be16 c0 c1), rest)
  | _ => None
  end.
(** A record whose name is a pointer into the message [msg]. *)
Definition take_record (msg l : list ascii) : option (RR * list ascii) :=
  match l with
  | p0 :: p1 :: t0 :: t1 :: c0 :: c1 :: s0 :: s1 :: s2 :: s3 :: d0 :: d1 :: rest =>
      if (code p0 <? 192) then None
      else
        '(name, _) ← take_labels (length msg) (drop (Z.to_nat (be16 p0 p1 - 192 * 256)) msg);
        let n := Z.to_nat (be16 d0 d1) in
        if bool_decide (n <= length rest)%nat then
          Some (MkRR name (be16 t0 t1) (be16 c0 c1) (ip_bits (code s0) (code s1) (code s2) (code s3)) (take n rest), drop n rest)
        else None
  | _ => None
  end.
Fixpoint take_records (msg : list ascii) (n : nat) (l : list ascii) : option (list RR * list ascii) :=
  match n with
  | O => Some ([], l)
  | S n => '(r, l) ← take_record msg l; '(rs, l) ← take_records msg n l; Some (r :: rs, l)
  end.

(** A message with one question and nothing after its answers. *)
Definition decode_reply (msg : list ascii) : option (Header * Question * list RR) :=
  '(h, l) ← take_header msg;
  if negb (h_qdcount h =? 1) then None
  else
    '(q, l) ← take_question l;
    '(rs, l) ← take_records msg (Z.to_nat (h_ancount h)) l;
    if bool_decide (l = []) then Some (h, q, rs) else None.

(** What the answerer takes for a query: not a response, one question, and a name
    whose labels are text. *)
Definition query_of (packet : list ascii) : option (Header * Question) :=
  '(h, l) ← take_header packet;
  if h_qr h || negb (h_qdcount h =? 1) then None
  else
    '(q, _) ← take_question l;
    if forallb (λ l, utf8_valid (lower_ascii <$> l)) (qn_name q) then Some (h, q) else None.

Definition lower_label (l : list ascii) : list ascii := lower_ascii <$> l.
Definition asked_name (q : Question) : string := of_bytes (join_dots (lower_label <$> qn_name q)).
(** The response code and the address. *)
Definition outcome (lookup : string → option Z) (h : Header) (q : Question) : Z * option Z :=
  if negb (h_opcode h =? 0) then (RCODE_NOTIMP, None)
  else match lookup (asked_name q) with
       | None => (RCODE_NXDOMAIN, None)
       | Some ip => (0, if bool_decide (qn_type q = TYPE_A ∧ qn_class q = CLASS_IN) then Some ip else None)
       end.
Definition a_record (q : Question) (ip : Z) : RR := MkRR (qn_name q) TYPE_A CLASS_IN ANSWER_TTL_SECS (to_be32 ip).
Definition expected (lookup : string → option Z) (h : Header) (q : Question) : Header * Question * list RR :=
  let '(rcode, addr) := outcome lookup h q in
  let rs := option_list (a_record q <$> addr) in
  (MkHeader (h_id h) true (h_opcode h) true false (h_rd h) false 0 rcode 1 (Z.of_nat (length rs)) 0 0, q, rs).

(** ** Bytes *)

Lemma code_bound c : 0 <= code c < 256.
Proof. unfold code. pose proof (N_ascii_bounded c). lia. Qed.
Lemma chr_code c : chr (code c) = c.
Proof. unfold chr, code. by rewrite N2Z.id, ascii_N_embedding. Qed.
Lemma be16_chr z : 0 <= z < 2 ^ 16 → be16 (chr (z / 256 mod 256)) (chr (z mod 256)) = z.
Proof.
  intros Hz. unfold be16. pose proof (Z.mod_pos_bound (z / 256) 256). pose proof (Z.mod_pos_bound z 256).
  rewrite !code_chr by lia. rewrite (Z.mod_small (z / 256)); [pose proof (Z_div_mod_eq_full z 256); lia|].
  split; [apply Z.div_pos; lia|apply Z.div_lt_upper_bound; lia].
Qed.

(** The bits of the reply's flags, for each byte of the query's flags. *)
Definition reply_flags (f0 f1 rcode : Z) : Z :=
  let flags := f0 * 256 + f1 in
  Z.lor (Z.lor (Z.lor (Z.lor 0x8000 (Z.shiftl (Z.land (Z.shiftr flags 11) 0xF) 11)) 0x0400) (Z.land flags 0x0100)) rcode.
Definition flags_ok (f0 rcode : Z) : bool :=
  let f := reply_flags f0 0 rcode in
  (0 <=? f) && (f <? 2 ^ 16) && Z.testbit f 15 && (f / 2 ^ 11 mod 2 ^ 4 =? f0 / 2 ^ 3 mod 2 ^ 4) && Z.testbit f 10 &&
  negb (Z.testbit f 9) && eqb (Z.testbit f 8) (Z.testbit f0 0) && negb (Z.testbit f 7) && (f / 2 ^ 4 mod 2 ^ 3 =? 0) &&
  (f mod 2 ^ 4 =? rcode).
Lemma all_flags_ok : forallb (λ f0, forallb (flags_ok f0) [0; 3; 4]) (seqZ 0 256) = true.
Proof. by vm_compute. Qed.

Lemma land_bit x n : 0 <= n → Z.land x (2 ^ n) = if Z.testbit x n then 2 ^ n else 0.
Proof.
  intros Hn. apply Z.bits_inj'. intros m Hm. rewrite Z.land_spec, Z.pow2_bits_eqb by done.
  destruct (Z.eqb_spec n m) as [->|Hne].
  - destruct (Z.testbit x m) eqn:E; [by rewrite Z.pow2_bits_true by done|by rewrite Z.bits_0].
  - rewrite andb_false_r. destruct (Z.testbit x n); [by rewrite Z.pow2_bits_false|by rewrite Z.bits_0].
Qed.
(** The high byte decides the high bits. *)
Lemma bit_8 f0 f1 : Z.testbit (be16 f0 f1) 8 = Z.testbit (code f0) 0.
Proof.
  change 8 with (0 + 8). rewrite <-Z.shiftr_spec, Z.shiftr_div_pow2 by lia. f_equal. unfold be16.
  pose proof (code_bound f1). rewrite Z.add_comm, Z.div_add, Z.div_small by lia. done.
Qed.
Lemma high_div f0 f1 : be16 f0 f1 / 2 ^ 11 mod 2 ^ 4 = code f0 / 2 ^ 3 mod 2 ^ 4.
Proof.
  change (2 ^ 11) with (2 ^ 8 * 2 ^ 3). rewrite <-Z.div_div by lia. do 2 f_equal. unfold be16. pose proof (code_bound f1).
  rewrite Z.add_comm, Z.div_add, Z.div_small by lia. done.
Qed.
Lemma opcode_spec f0 f1 : Z.land (Z.shiftr (be16 f0 f1) 11) 0xF = be16 f0 f1 / 2 ^ 11 mod 2 ^ 4.
Proof. change 0xF with (Z.ones 4). by rewrite Z.land_ones, Z.shiftr_div_pow2 by lia. Qed.
Lemma qr_spec f0 f1 : negb (Z.land (be16 f0 f1) 0x8000 =? 0) = Z.testbit (be16 f0 f1) 15.
Proof. change 0x8000 with (2 ^ 15). rewrite land_bit by lia. by destruct (Z.testbit _ 15). Qed.

Lemma reply_flags_high f0 f1 rcode : reply_flags (code f0) (code f1) rcode = reply_flags (code f0) 0 rcode.
Proof.
  change 0 with (code (chr 0)). unfold reply_flags. fold (be16 f0 f1) (be16 f0 (chr 0)).
  rewrite !opcode_spec, !high_div. change 0x100 with (2 ^ 8). rewrite !land_bit by lia.
  by rewrite !bit_8.
Qed.
Lemma flags_spec f0 f1 rcode :
  rcode ∈ [0; 3; 4] →
  let f := reply_flags (code f0) (code f1) rcode in
  (0 <= f < 2 ^ 16) ∧ Z.testbit f 15 = true ∧ f / 2 ^ 11 mod 2 ^ 4 = be16 f0 f1 / 2 ^ 11 mod 2 ^ 4 ∧ Z.testbit f 10 = true ∧
  Z.testbit f 9 = false ∧ Z.testbit f 8 = Z.testbit (be16 f0 f1) 8 ∧ Z.testbit f 7 = false ∧ f / 2 ^ 4 mod 2 ^ 3 = 0 ∧
  f mod 2 ^ 4 = rcode.
Proof.
  intros Hr. rewrite reply_flags_high, high_div, bit_8. pose proof all_flags_ok as H. rewrite forallb_forall in H.
  specialize (H (code f0)). rewrite <-list_elem_of_In, elem_of_seqZ in H. specialize (H (code_bound f0)).
  rewrite forallb_forall in H. specialize (H rcode ltac:(by apply list_elem_of_In)). unfold flags_ok in H.
  cbv zeta in *. rewrite !andb_true_iff, !negb_true_iff, !Z.eqb_eq, eqb_true_iff, Z.leb_le, Z.ltb_lt in H. tauto.
Qed.

(** ** Names in packets *)

Definition label_fits (l : list ascii) : Prop := (0 < length l <= 63)%nat.
Fixpoint encode_name (ls : list (list ascii)) : list ascii :=
  match ls with
  | [] => [chr 0]
  | l :: ls => chr (Z.of_nat (length l)) :: l ++ encode_name ls
  end.

Lemma take_labels_encode ls fuel rest :
  Forall label_fits ls → (length (encode_name ls) <= fuel)%nat → take_labels fuel (encode_name ls ++ rest) = Some (ls, rest).
Proof.
  intros Hls. revert fuel. induction Hls as [|l ls Hl _ IH]; intros [|fuel]; cbn [encode_name length]; rewrite ?length_app; try lia; [done|].
  unfold label_fits in Hl. intros Hf. cbn [app take_labels]. rewrite code_chr by lia. rewrite Nat2Z.id, bool_decide_false by lia.
  rewrite <-app_assoc, length_app, bool_decide_true, drop_app_length, take_app_length by lia. by rewrite IH by lia.
Qed.
Lemma take_labels_inv fuel l ls rest :
  take_labels fuel l = Some (ls, rest) → l = encode_name ls ++ rest ∧ Forall label_fits ls.
Proof.
  revert l ls. induction fuel as [|fuel IH]; intros [|b l] ls; cbn [take_labels]; try done. case_bool_decide as H0.
  - intros [= <- <-]. rewrite <-(chr_code b). replace (code b) with 0 by (pose proof (code_bound b); lia). done.
  - case_bool_decide as Hlen; [|done]. intros ([ls' rest'] & Ht & [= <- ->])%bind_Some. apply IH in Ht as [Ht Hls].
    cbn [encode_name app]. rewrite length_take_le by lia. rewrite <-app_assoc, <-Ht, take_drop. split.
    + f_equal. rewrite <-(chr_code b) at 1. f_equal. pose proof (code_bound b). lia.
    + constructor; [|done]. unfold label_fits. rewrite length_take_le; lia.
Qed.
Lemma take_labels_fuel fuel l : (length l <= fuel)%nat → take_labels fuel l = take_labels (length l) l.
Proof.
  intros Hf. destruct (take_labels (length l) l) as [[ls rest]|] eqn:E.
  - destruct (take_labels_inv _ _ _ _ E) as [-> Hls]. apply take_labels_encode; [done|]. rewrite length_app in Hf. lia.
  - destruct (take_labels fuel l) as [[ls rest]|] eqn:E2; [|done]. destruct (take_labels_inv _ _ _ _ E2) as [-> Hls].
    rewrite take_labels_encode in E; [done..|]. rewrite length_app. lia.
Qed.

Lemma read_labels_take fuel query pos acc :
  (pos <= length query)%nat →
  read_labels fuel query pos acc =
  '(ls, rest) ← take_labels fuel (drop pos query);
  if forallb (λ l, utf8_valid (lower_ascii <$> l)) ls
  then Some (acc ++ (lower_label <$> ls), (length query - length rest)%nat) else None.
Proof.
  revert pos acc. induction fuel as [|fuel IH]; intros pos acc Hpos; [done|]. cbn [read_labels take_labels].
  rewrite <-(Nat.add_0_r pos) at 1. rewrite <-lookup_drop. destruct (drop pos query) as [|b l] eqn:Hd; [done|]. cbn [lookup list_lookup mbind option_bind].
  assert (length l = length query - S pos)%nat as Hlen by (apply (f_equal length) in Hd; rewrite length_drop in Hd; simpl in Hd; lia).
  assert (S pos <= length query)%nat as Hpos' by (apply (f_equal length) in Hd; rewrite length_drop in Hd; simpl in Hd; lia).
  assert (drop (S pos) query = l) as Hl by (rewrite <-Nat.add_1_r, <-drop_drop, Hd; done).
  set (len := Z.to_nat (code b)). destruct (Nat.eqb_spec len 0) as [->|H0].
  - rewrite bool_decide_true by done. cbn. rewrite app_nil_r, Hlen. do 2 f_equal. lia.
  - rewrite (bool_decide_false (len = 0%nat)) by done. destruct (Nat.ltb_spec 63 len).
    { by rewrite bool_decide_false by lia. }
    unfold slice. destruct (Nat.leb_spec (S pos + len) (length query)); [|by rewrite bool_decide_false by lia].
    rewrite bool_decide_true by lia. cbn [mbind option_bind]. rewrite Hl. replace (S pos + len - S pos)%nat with len by lia.
    assert (drop (S pos + len) query = drop len l) as Hl2 by (by rewrite <-Hl, drop_drop).
    destruct (utf8_valid (lower_ascii <$> take len l)) eqn:Hu.
    + rewrite IH, Hl2 by lia. destruct (take_labels fuel (drop len l)) as [[ls rest]|]; [|done]. cbn. rewrite Hu. cbn.
      by rewrite <-app_assoc.
    + destruct (take_labels fuel (drop len l)) as [[ls rest]|]; [|done]. cbn. by rewrite Hu.
Qed.

Definition encode_question (q : Question) (t0 t1 c0 c1 : ascii) : list ascii := encode_name (qn_name q) ++ [t0; t1; c0; c1].
Lemma take_question_inv l q rest :
  take_question l = Some (q, rest) →
  ∃ t0 t1 c0 c1, l = encode_question q t0 t1 c0 c1 ++ rest ∧ Forall label_fits (qn_name q) ∧
                 qn_type q = be16 t0 t1 ∧ qn_class q = be16 c0 c1.
Proof.
  unfold take_question, encode_question. intros ([ls l'] & Ht & Hq)%bind_Some. apply take_labels_inv in Ht as [-> Hls].
  destruct l' as [|t0 [|t1 [|c0 [|c1 l']]]]; try done. injection Hq as <- <-. exists t0, t1, c0, c1. by rewrite <-app_assoc.
Qed.
Lemma take_question_encode ls t0 t1 c0 c1 rest :
  Forall label_fits ls →
  take_question (encode_name ls ++ [t0; t1; c0; c1] ++ rest) = Some (MkQuestion ls (be16 t0 t1) (be16 c0 c1), rest).
Proof. intros Hls. unfold take_question. rewrite take_labels_encode; [done..|]. rewrite length_app. lia. Qed.

(** The bytes of a reply. *)
Definition reply_bytes (i0 i1 f0 f1 : ascii) (rcode : Z) (question : list ascii) (addr : option Z) : list ascii :=
  i0 :: i1 :: to_be16 (reply_flags (code f0) (code f1) rcode) ++ to_be16 1
    ++ to_be16 (match addr with Some _ => 1 | None => 0 end) ++ to_be16 0 ++ to_be16 0 ++ question
    ++ match addr with
       | Some ip => to_be16 0xC00C ++ to_be16 TYPE_A ++ to_be16 CLASS_IN ++ to_be32 ANSWER_TTL_SECS ++ to_be16 4 ++ to_be32 ip
       | None => []
       end.

(** The loop of the answerer against the decoder, on a packet with a header. *)
Lemma answer_question look i0 i1 f0 f1 q0 q1 a0 a1 n0 n1 r0 r1 body :
  let packet := i0 :: i1 :: f0 :: f1 :: q0 :: q1 :: a0 :: a1 :: n0 :: n1 :: r0 :: r1 :: body in
  answer packet look =
  '(h, q) ← query_of packet;
  let '(rcode, addr) := outcome look h q in
  Some (reply_bytes i0 i1 f0 f1 rcode (take (length (encode_name (qn_name q)) + 4) body) addr).
Proof.
  intros packet. unfold answer, query_of. replace (length packet <? 12)%nat with false by done.
  cbn [packet base.lookup list_lookup mbind option_bind take_header h_qr h_qdcount].
  rewrite qr_spec. destruct (Z.testbit _ 15 || _); [done|].
  change (i0 :: i1 :: f0 :: f1 :: q0 :: q1 :: a0 :: a1 :: n0 :: n1 :: r0 :: r1 :: body) with packet.
  rewrite read_labels_take by (simpl; lia). change (drop 12 packet) with body. rewrite take_labels_fuel by (simpl; lia).
  unfold take_question. destruct (take_labels (length body) body) as [[ls rest]|] eqn:Ht; [|done]. cbn [mbind option_bind].
  apply take_labels_inv in Ht as [Hbody _].
  assert (∀ k, packet !! (length packet - length rest + k)%nat = rest !! k) as Hk.
  { intros k. unfold packet. rewrite Hbody, !app_comm_cons. rewrite lookup_app_r by (rewrite length_app; lia).
    f_equal. rewrite length_app. lia. }
  destruct (forallb _ ls) eqn:Hu; cbn [mbind option_bind].
  2: { destruct rest as [|t0 [|t1 [|c0 [|c1 rest]]]]; try done. cbn. by rewrite Hu. }
  pose proof (Hk 0%nat) as Hk0. rewrite Nat.add_0_r in Hk0. rewrite Hk0, !Hk. destruct rest as [|t0 [|t1 [|c0 [|c1 rest]]]]; try done.
  cbn [base.lookup list_lookup mbind option_bind qn_name]. rewrite Hu. cbn [mbind option_bind].
  replace (length packet - length (t0 :: t1 :: c0 :: c1 :: rest) + 4 - 12)%nat with (length (encode_name ls) + 4)%nat
    by (unfold packet; rewrite Hbody; cbn [length]; rewrite length_app; cbn [length]; lia).
  unfold outcome, asked_name. cbn [h_opcode qn_name qn_type qn_class app]. rewrite <-opcode_spec.
  destruct (negb _); [done|]. destruct (look _) as [ip|]; [|done].
  destruct (Z.eqb_spec (be16 t0 t1) TYPE_A), (Z.eqb_spec (be16 c0 c1) CLASS_IN); cbn [andb];
    first [by rewrite bool_decide_true by done|by rewrite bool_decide_false by tauto].
Qed.

Lemma outcome_code look h q : (outcome look h q).1 ∈ [0; 3; 4].
Proof. unfold outcome. repeat case_match; set_solver. Qed.

(** A record that points at the question. *)
Definition record_bytes (ip : Z) : list ascii :=
  to_be16 0xC00C ++ to_be16 TYPE_A ++ to_be16 CLASS_IN ++ to_be32 ANSWER_TTL_SECS ++ to_be16 4 ++ to_be32 ip.
Lemma take_record_pointer msg ls rest ip :
  drop 12 msg = encode_name ls ++ rest → Forall label_fits ls →
  take_record msg (record_bytes ip) = Some (MkRR ls TYPE_A CLASS_IN ANSWER_TTL_SECS (to_be32 ip), []).
Proof.
  intros Hd Hls.
  change (record_bytes ip) with
    (chr 192 :: chr 12 :: chr 0 :: chr 1 :: chr 0 :: chr 1 :: chr 0 :: chr 0 :: chr 0 :: chr 30 :: chr 0 :: chr 4 :: to_be32 ip).
  unfold take_record. change (code (chr 192) <? 192) with false. change (Z.to_nat (be16 (chr 192) (chr 12) - 192 * 256)) with 12%nat.
  cbv iota. rewrite Hd, take_labels_encode; [done..|]. apply (f_equal length) in Hd. rewrite length_drop, length_app in Hd. lia.
Qed.

Lemma decode_reply_bytes i0 i1 f0 f1 rcode ls t0 t1 c0 c1 addr :
  rcode ∈ [0; 3; 4] → Forall label_fits ls →
  let q := MkQuestion ls (be16 t0 t1) (be16 c0 c1) in
  let rs := option_list (a_record q <$> addr) in
  decode_reply (reply_bytes i0 i1 f0 f1 rcode (encode_question q t0 t1 c0 c1) addr) =
  Some (MkHeader (be16 i0 i1) true (be16 f0 f1 / 2 ^ 11 mod 2 ^ 4) true false (Z.testbit (be16 f0 f1) 8) false 0 rcode 1
          (Z.of_nat (length rs)) 0 0, q, rs).
Proof.
  intros Hr Hls q rs. destruct (flags_spec f0 f1 rcode Hr) as (Hb & H15 & Hop & H10 & H9 & H8 & H7 & Hz & Hrc).
  set (f := reply_flags (code f0) (code f1) rcode) in *. unfold decode_reply.
  assert (∀ an rest, take_header (i0 :: i1 :: to_be16 f ++ to_be16 1 ++ to_be16 an ++ to_be16 0 ++ to_be16 0 ++ rest) =
    Some (MkHeader (be16 i0 i1) true (be16 f0 f1 / 2 ^ 11 mod 2 ^ 4) true false (Z.testbit (be16 f0 f1) 8) false 0 rcode 1
            (be16 (chr (an / 256 mod 256)) (chr (an mod 256))) 0 0, rest)) as Hh.
  { intros an rest. unfold to_be16. cbn [app take_header]. rewrite (be16_chr f Hb). by rewrite H15, Hop, H10, H9, H8, H7, Hz, Hrc. }
  unfold reply_bytes, encode_question. fold f. rewrite Hh. cbn [mbind option_bind h_qdcount h_ancount]. rewrite <-app_assoc.
  rewrite take_question_encode by done. cbn [mbind option_bind]. fold q. destruct addr as [ip|]; [|done].
  change (Z.to_nat (be16 _ _)) with 1%nat. cbn [take_records]. fold (record_bytes ip).
  by rewrite (take_record_pointer _ ls ([t0; t1; c0; c1] ++ record_bytes ip)).
Qed.

Lemma answer_dropped look packet : query_of packet = None → answer packet look = None.
Proof.
  intros Hq. do 12 (destruct packet as [|? packet]; [done|]). by rewrite answer_question, Hq.
Qed.
Lemma answer_decodes look packet h q :
  query_of packet = Some (h, q) →
  ∃ reply, answer packet look = Some reply ∧ decode_reply reply = Some (expected look h q) ∧
           (length reply <= length packet + 16)%nat.
Proof.
  intros Hq. do 12 (destruct packet as [|? packet]; [done|]). rewrite answer_question, Hq. cbn [mbind option_bind].
  unfold query_of in Hq. cbn [take_header mbind option_bind] in Hq. destruct (_ || _); [done|].
  destruct (take_question packet) as [[q' rest]|] eqn:Ht; [|done]. cbn [mbind option_bind] in Hq. destruct (forallb _ _); [|done].
  injection Hq as <- <-. apply take_question_inv in Ht as (t0 & t1 & c0 & c1 & -> & Hls & Hty & Hcl).
  pose proof (outcome_code look) as Hoc. unfold expected. destruct q' as [ls ty cl]. cbn [qn_name qn_type qn_class] in *. subst ty cl.
  match goal with |- context [outcome look ?h ?q] => specialize (Hoc h q); destruct (outcome look h q) as [rcode addr] end.
  eexists. split; [done|]. replace (length (encode_name ls) + 4)%nat with (length (encode_question (MkQuestion ls (be16 t0 t1) (be16 c0 c1)) t0 t1 c0 c1))
    by (unfold encode_question; by rewrite length_app).
  rewrite take_app_length, decode_reply_bytes by done. split; [done|].
  unfold reply_bytes. cbn [length]. rewrite !length_app. destruct addr; cbn [length to_be16 to_be32 fmap list_fmap]; rewrite ?length_app; simpl; lia.
Qed.


(** ** From a resource name to its tunnel *)

(** A query for a host address, as the system resolver sends it. *)
Definition query_packet (i0 i1 f0 f1 : ascii) (counts : list ascii) (ls : list (list ascii)) (extra : list ascii) : list ascii :=
  i0 :: i1 :: f0 :: f1 :: to_be16 1 ++ counts ++ encode_name ls ++ to_be16 TYPE_A ++ to_be16 CLASS_IN ++ extra.

Lemma join_split l : join_dots (split_on dot l) = l.
Proof.
  induction l as [|c l IH]; [done|]. cbn [split_on]. destruct (split_on dot l) as [|p ps] eqn:E; [by apply split_on_nonempty in E|].
  case_bool_decide as Hc.
  - rewrite Hc. cbn [join_dots app] in *. by rewrite IH.
  - destruct ps; cbn [join_dots app] in *; by rewrite IH.
Qed.
Lemma ascii_utf8 l : Forall (λ c, code c < 128) l → utf8_valid l = true.
Proof. induction 1 as [|c l Hc _ IH]; [done|]. cbn [utf8_valid]. by rewrite (proj2 (Z.ltb_lt _ _) Hc). Qed.

(** The labels of a stored name, in any case. *)
Lemma stored_labels name ls :
  name_form (bytes name) → lower_label <$> ls = split_on dot (bytes name) →
  Forall label_fits ls ∧ forallb (λ l, utf8_valid (lower_ascii <$> l)) ls = true.
Proof.
  intros Hn Hls. assert (∀ l, l ∈ ls → lower_label l ∈ split_on dot (bytes name)) as Hin.
  { intros l Hl. rewrite <-Hls. by apply list_elem_of_fmap_2. }
  pose proof (name_chars _ Hn) as Hc. destruct Hn as (_ & _ & Hok & _). rewrite forallb_forall in Hok, Hc |- *. split.
  - rewrite Forall_forall. intros l Hl%Hin%list_elem_of_In%Hok. unfold label_ok in Hl. bool_simpl. unfold label_fits.
    rewrite <-(length_fmap lower_ascii l). unfold lower_label in *.
    repeat match goal with H : (_ <=? _)%nat = true |- _ => apply Nat.leb_le in H end.
    split; [|done]. destruct (lower_ascii <$> l); [done|simpl; lia].
  - intros l Hl%list_elem_of_In%Hin. apply ascii_utf8, Forall_forall. intros c Hcl.
    by apply name_char_lower, Hc, list_elem_of_In, (split_on_elem dot _ _ _ Hl).
Qed.

Lemma query_of_packet i0 i1 f0 f1 counts ls extra :
  code f0 < 8 → length counts = 6%nat → Forall label_fits ls → forallb (λ l, utf8_valid (lower_ascii <$> l)) ls = true →
  ∃ h, query_of (query_packet i0 i1 f0 f1 counts ls extra) = Some (h, MkQuestion ls TYPE_A CLASS_IN) ∧ h_opcode h = 0.
Proof.
  intros Hf Hc Hls Hu. do 6 (destruct counts as [|? counts]; [done|]). destruct counts; [|done].
  pose proof (code_bound f0) as Hb. unfold query_of, query_packet. cbn [app to_be16 take_header mbind option_bind h_qr h_qdcount].
  assert (Z.testbit (be16 f0 f1) 15 = false) as ->.
  { pose proof (code_bound f1). apply Z.testbit_false; [lia|]. by rewrite Z.div_small by (unfold be16; lia). }
  change (chr _ :: chr _ :: chr _ :: chr _ :: extra) with ([chr 0; chr 1; chr 0; chr 1] ++ extra).
  cbn [orb negb be16]. rewrite take_question_encode by done. cbn [mbind option_bind qn_name]. rewrite Hu.
  eexists. split; [done|]. cbn [h_opcode]. rewrite high_div, (Z.div_small (code f0)) by lia. done.
Qed.

(** What the resolver answers belongs to the name it answers for. *)
Lemma answered_address c1 c2 packet reply h q rs r :
  nm_ok c1.1 → rtc nm_step c1 c2 → answer packet (λ n, answer_a n c1.1) = Some reply →
  decode_reply reply = Some (h, q, rs) → r ∈ rs →
  ∃ ip, r = a_record q ip ∧ POOL_FIRST <= ip <= POOL_LAST ∧ destination_for ip c2.1 = asked_name q.
Proof.
  intros Hok Hr Ha Hd Hin. destruct (nm_steps_keep _ _ Hr Hok) as [_ [_ Hsub]].
  destruct (query_of packet) as [[h' q']|] eqn:Hq; [|by rewrite answer_dropped in Ha].
  destruct (answer_decodes (λ n, answer_a n c1.1) packet h' q' Hq) as (reply' & Ha' & Hd' & _). rewrite Ha in Ha'. injection Ha' as <-.
  rewrite Hd in Hd'. injection Hd' as Hd'. unfold expected, outcome in Hd'. destruct (negb _); [by simplify_eq; apply elem_of_nil in Hin|].
  unfold answer_a in Hd'. destruct (bool_decide _ && bool_decide _); [|by simplify_eq; apply elem_of_nil in Hin].
  destruct (by_name c1.1 !! asked_name q') as [ip|] eqn:E; [|by simplify_eq; apply elem_of_nil in Hin].
  case_bool_decide; [|by simplify_eq; apply elem_of_nil in Hin]. simplify_eq. apply list_elem_of_singleton in Hin as ->.
  exists ip. apply Hok in E. destruct (proj2 Hok _ _ E) as [Hpool _]. split; [done|]. split; [done|].
  unfold destination_for, name_for. by rewrite (lookup_weaken _ _ _ _ E Hsub).
Qed.

Section Path.
Context (host name protocol : string) (port ip key : Z) (c0 c1 c2 : NameMap * DnsState).
Context (stored : NormalizeHost host = Some (name, HostName)) (before : rtc nm_step (name_map_default, dns_default) c0)
  (captured : (routable_key name protocol port c0.1).1 = Some (ip, key))
  (after : rtc nm_step ((routable_key name protocol port c0.1).2, c0.2) c1).

Lemma captured_mapped : nm_ok c1.1 ∧ by_ip c1.1 !! ip = Some name.
Proof using stored before captured after.
  destruct (nm_steps_keep _ _ before nm_default_ok) as [Hok0 _]. destruct (routable_key_keeps name protocol port _ Hok0) as [Hok _].
  destruct (nm_steps_keep _ _ after Hok) as [Hok1 [_ Hsub]]. split; [done|]. apply (lookup_weaken _ _ _ _) with (2 := Hsub). simpl.
  assert (parse_ip name = None) as Hp.
  { assert (is_resource_name name = true) as Hn by (apply names_agree; eauto). unfold is_resource_name in Hn.
    destruct (parse_ip name); [|done]. by rewrite orb_true_r in Hn. }
  clear after Hok Hok1 Hsub. unfold routable_key, resource_ipv4 in *. destruct (negb _); [done|]. rewrite Hp in *.
  pose proof (fake_ip_mapped name c0.1) as Hm. destruct (fake_ip_for name c0.1) as [[j|] m']; [|done]. simpl in *.
  injection captured as -> _. by apply Hm.
Qed.

End Path.

(** ** A query for db.internal *)

Module Lookup.
Definition db : string := "db.internal".
Definition start : NameMap * DnsState := (name_map_default, dns_default).
Definition captured : NameMap * DnsState := ((routable_key db "tcp" 443 start.1).2, start.2).
Definition synced : NameMap * DnsState := sync (λ _ _, None) [MkApplied db 443 "tcp"] false captured.1 captured.2.
Definition db_ip : Z := ip_bits 198 18 230 163.
Definition labels : list (list ascii) := [bytes "DB"; bytes "Internal"].
Definition counts : list ascii := chr <$> [0; 0; 0; 0; 0; 1].
(** The OPT record that systemd-resolved sends. *)
Definition opt : list ascii := chr <$> [0; 0; 41; 4; 208; 0; 0; 0; 0; 0; 0].

Lemma synced_reached : rtc nm_step captured synced.
Proof. eapply rtc_l; [apply (nm_sync (λ _ _, None) [MkApplied db 443 "tcp"] false)|]. apply rtc_refl. Qed.
Lemma db_captured : (routable_key db "tcp" 443 start.1).1 = Some (db_ip, 443).
Proof. by vm_compute. Qed.
Lemma db_active : bool_decide (db ∈ active_names synced.1 ∧ conflicts synced.1 = ∅) = true.
Proof. by vm_compute. Qed.


(** The labels are joined with dots before the lookup, so that one label with a
    dot in it is answered as the two labels are. *)
Definition one_label : list ascii := query_packet (chr 0) (chr 1) (chr 1) (chr 0) counts [bytes db] [].
Example dotted_label :
  (λ r, decode_reply r) <$> answer one_label (λ n, answer_a n synced.1) =
  Some (Some (MkHeader 1 true 0 true false true false 0 0 1 1 0 0, MkQuestion [bytes db] TYPE_A CLASS_IN,
              [MkRR [bytes db] TYPE_A CLASS_IN 30 (to_be32 db_ip)])).
Proof. by vm_compute. Qed.
End Lookup.
