(* ===== verification/Conc.v ===== *)
(** * Programs that interleave

    A request handler that makes several calls to shared services (Valkey, the
    database) is a [proc]: a finite tree of atomic actions on the shared state,
    between which other requests run.  [pool_step] runs one action of one thread,
    starts a thread, or lets the surroundings change the state.  Two predicates on
    programs carry the proofs: [pguar] says what each of its own actions does to
    the state, [pwp] what its answer means if the state moves only along a given
    relation. *)

From S2P Require Import Prelude Sql.
Set Default Proof Using "Type".

(** The action reads and changes the state at once; [Choose] is a choice of the
    surroundings, for calls that fail. *)
Inductive proc (W A : Type) : Type :=
| Done (a : A)
| Atom (u : W → W) (k : W → proc W A)
| Choose (k : fault → proc W A).
Arguments Done {W A}. Arguments Atom {W A}. Arguments Choose {W A}.

Fixpoint pbind {W A B} (m : proc W A) (k : A → proc W B) : proc W B :=
  match m with
  | Done a => k a
  | Atom u m' => Atom u (λ w, pbind (m' w) k)
  | Choose m' => Choose (λ f, pbind (m' f) k)
  end.
Definition atom {W A} (f : W → A * W) : proc W A := Atom (λ w, (f w).2) (λ w, Done (f w).1).
(** A call: it answers, or fails without effect, or takes effect and its answer is lost. *)
Definition call {W A} (f : W → A * W) : proc W (option A) :=
  Choose (λ x, match x with
               | NoFault => Atom (λ w, (f w).2) (λ w, Done (Some (f w).1))
               | Refused => Done None
               | Lost => Atom (λ w, (f w).2) (λ _, Done None)
               end).

Notation "'let~' x ':=' m 'in' k" := (pbind m (λ x, k))
  (at level 100, x pattern, m at level 99, k at level 200, right associativity) : zec_scope.
Notation "m ;~ k" := (pbind m (λ _, k)) (at level 100, right associativity) : zec_scope.

(** A run without others and without faults. *)
Fixpoint alone {W A} (p : proc W A) (w : W) : A * W :=
  match p with
  | Done a => (a, w)
  | Atom u k => alone (k w) (u w)
  | Choose k => alone (k NoFault) w
  end.

Section logic.
Context {W : Type}.

Lemma alone_bind {A B} (m : proc W A) (k : A → proc W B) w : alone (pbind m k) w = alone (k (alone m w).1) (alone m w).2.
Proof. revert w. induction m as [a|u m' IH|m' IH]; intros w; simpl; auto. Qed.
Lemma alone_call {A} (f : W → A * W) w : alone (call f) w = (Some (f w).1, (f w).2).
Proof. done. Qed.

Fixpoint pguar {A} (G : W → W → Prop) (p : proc W A) : Prop :=
  match p with
  | Done _ => True
  | Atom u k => ∀ w, G w (u w) ∧ pguar G (k w)
  | Choose k => ∀ f, pguar G (k f)
  end.
Fixpoint pwp {A} (R : W → W → Prop) (p : proc W A) (w : W) (Q : A → W → Prop) : Prop :=
  match p with
  | Done a => ∀ w', R w w' → Q a w'
  | Atom u k => ∀ w', R w w' → pwp R (k w') (u w') Q
  | Choose k => ∀ f, pwp R (k f) w Q
  end.

(** [I] is kept whatever state with [I] each action meets. *)
Fixpoint prg {A} (I : W → Prop) (p : proc W A) : Prop :=
  match p with
  | Done _ => True
  | Atom u k => ∀ w, I w → I (u w) ∧ prg I (k w)
  | Choose k => ∀ f, prg I (k f)
  end.

Lemma prg_bind {A B} I (m : proc W A) (k : A → proc W B) : prg I m → (∀ a, prg I (k a)) → prg I (pbind m k).
Proof.
  intros Hm Hk. induction m as [a|u m' IH|m' IH]; simpl in *; [auto| |auto]. intros w HI. destruct (Hm w HI). auto.
Qed.
Lemma prg_atom {A B} (I : W → Prop) (f : W → A * W) (k : A → proc W B) :
  (∀ w, I w → I (f w).2 ∧ prg I (k (f w).1)) → prg I (pbind (atom f) k).
Proof. intros Hf w HI. by apply Hf. Qed.
Lemma prg_call {A B} (I : W → Prop) (f : W → A * W) (k : option A → proc W B) :
  (∀ w, I w → I (f w).2 ∧ prg I (k (Some (f w).1))) → prg I (k None) → prg I (pbind (call f) k).
Proof. intros Hf Hn [| |]; simpl; [|done|]; intros w HI; [by apply Hf|]. split; [by apply Hf|done]. Qed.
Lemma prg_of_guar {A} (I : W → Prop) (G : W → W → Prop) (p : proc W A) :
  (∀ w w', G w w' → I w → I w') → pguar G p → prg I p.
Proof. intros HG. induction p as [a|u k IH|k IH]; simpl; [auto| |auto]. intros Hp w HI. destruct (Hp w). eauto. Qed.

Lemma pguar_bind {A B} G (m : proc W A) (k : A → proc W B) :
  pguar G m → (∀ a, pguar G (k a)) → pguar G (pbind m k).
Proof.
  intros Hm Hk. induction m as [a|u m' IH|m' IH]; simpl in *; [auto| |auto]. intros w. destruct (Hm w). auto.
Qed.
Lemma pguar_atom {A} G (f : W → A * W) : (∀ w, G w (f w).2) → pguar G (atom f).
Proof. intros Hf w. split; [apply Hf|done]. Qed.
Lemma pguar_call {A} G (f : W → A * W) : (∀ w, G w (f w).2) → pguar G (call f).
Proof. intros Hf [| |]; simpl; [auto|done|auto]. Qed.
Lemma pguar_mono {A} (G G' : W → W → Prop) (p : proc W A) : (∀ w w', G w w' → G' w w') → pguar G p → pguar G' p.
Proof. intros HG. induction p as [a|u k IH|k IH]; simpl; [auto| |auto]. intros Hp w. destruct (Hp w). auto. Qed.

(** Any steps at all. *)
Definition anyhow (_ _ : W) : Prop := True.
#[export] Instance anyhow_preorder : PreOrder anyhow.
Proof. done. Qed.
Lemma pguar_anyhow {A} (p : proc W A) : pguar anyhow p.
Proof. induction p as [a|u k IH|k IH]; simpl; [done| |auto]. intros w. by split. Qed.
Lemma pwp_rely {A} R `{!Transitive R} (p : proc W A) w w' Q : R w w' → pwp R p w Q → pwp R p w' Q.
Proof. induction p as [a|u k IH|k IH]; simpl; [|..|auto]; intros HR Hp w'' HR'; apply Hp; by etrans. Qed.
Lemma pwp_bind {A B} R `{!Reflexive R} (m : proc W A) (k : A → proc W B) w Q :
  pwp R m w (λ a w', pwp R (k a) w' Q) → pwp R (pbind m k) w Q.
Proof. revert w. induction m as [a|u m' IH|m' IH]; intros w; simpl; auto. Qed.
Lemma pwp_mono {A} R (p : proc W A) w (Q Q' : A → W → Prop) : (∀ a w, Q a w → Q' a w) → pwp R p w Q → pwp R p w Q'.
Proof. intros HQ. revert w. induction p as [a|u k IH|k IH]; intros w; simpl; auto. Qed.
Lemma pwp_skip {A B} R `{!PreOrder R} (m : proc W A) (k : A → proc W B) w Q :
  pguar R m → (∀ a w', R w w' → pwp R (k a) w' Q) → pwp R (pbind m k) w Q.
Proof.
  revert w. induction m as [a|u m' IH|m' IH]; intros w Hm Hk; simpl in *; [by apply Hk| |auto].
  intros w' HR. destruct (Hm w') as [Hu Hm']. apply IH; [done|]. intros a w'' HR'. apply Hk. by etrans; [|etrans].
Qed.
Lemma pwp_query {A B} R `{!PreOrder R} (f : W → A) (k : option A → proc W B) w Q :
  (∀ w', R w w' → pwp R (k (Some (f w'))) w' Q) → (∀ w', R w w' → pwp R (k None) w' Q) →
  pwp R (pbind (call (λ w, (f w, w))) k) w Q.
Proof. intros H1 H2 [| |]; simpl; [done|apply H2; reflexivity|done]. Qed.
End logic.

(** ** Pools of threads *)

Section pool.
Context {W A : Type} (env : W → W → Prop) (start : W → list (proc W A) → proc W A → Prop).

Abbreviation config := (W * list (proc W A))%type.

(** Labelled with the thread that acts. *)
Inductive pool_step : option nat → config → config → Prop :=
| step_atom i u k w ps : ps !! i = Some (Atom u k) → pool_step (Some i) (w, ps) (u w, <[i := k w]> ps)
| step_choose i k f w ps : ps !! i = Some (Choose k) → pool_step (Some i) (w, ps) (w, <[i := k f]> ps)
| step_env w w' ps : env w w' → pool_step None (w, ps) (w', ps)
| step_start p w ps : start w ps p → pool_step None (w, ps) (w, ps ++ [p]).
Definition pool_any (c c' : config) : Prop := ∃ l, pool_step l c c'.

(** Finished threads stay, and answers with them. *)
Lemma step_length l c c' : pool_step l c c' → length c.2 ≤ length c'.2.
Proof. intros []; simpl; rewrite ?length_insert, ?length_app; simpl; lia. Qed.
Lemma step_done l c c' i a : pool_step l c c' → c.2 !! i = Some (Done a) → c'.2 !! i = Some (Done a).
Proof.
  intros [j u k w ps Hj|j k f w ps Hj|w w' ps He|p w ps Hs] Hi; simpl in *; [| |done|by apply lookup_app_l_Some].
  all: rewrite list_lookup_insert_ne; [done|congruence].
Qed.
Lemma steps_done c c' i a : rtc pool_any c c' → c.2 !! i = Some (Done a) → c'.2 !! i = Some (Done a).
Proof. induction 1 as [|c1 c2 c3 [l Hs] _ IH]; intros Hi; [done|]. by eapply IH, step_done. Qed.

(** A schedule, to run a pool: thread [i] acts, and its call meets [f]. *)
Definition run_thread (i : nat) (f : fault) (c : config) : config :=
  match c.2 !! i with
  | Some (Atom u k) => (u c.1, <[i := k c.1]> c.2)
  | Some (Choose k) => (c.1, <[i := k f]> c.2)
  | _ => c
  end.
Fixpoint run_threads (l : list nat) (c : config) : config :=
  match l with [] => c | i :: l => run_threads l (run_thread i NoFault c) end.
Lemma run_thread_steps i f c : rtc pool_any c (run_thread i f c).
Proof.
  destruct c as [w ps]. unfold run_thread. simpl. destruct (ps !! i) as [[a|u k|k]|] eqn:E; [done| | |done].
  - apply rtc_once. exists (Some i). by apply step_atom.
  - apply rtc_once. exists (Some i). by apply step_choose.
Qed.
Lemma run_threads_steps l c : rtc pool_any c (run_threads l c).
Proof. revert c. induction l as [|i l IH]; intros c; simpl; [done|]. etrans; [apply run_thread_steps|apply IH]. Qed.

(** *** Invariants *)

Definition kept (I : W → Prop) (c : config) : Prop := I c.1 ∧ ∀ j p, c.2 !! j = Some p → prg I p.
Lemma kept_step (I : W → Prop) l c c' :
  (∀ w w', env w w' → I w → I w') → (∀ p, start c.1 c.2 p → prg I p) → pool_step l c c' → kept I c → kept I c'.
Proof.
  intros Henv Hstart Hs. revert Hstart.
  destruct Hs as [j u k w ps Hj|j k f w ps Hj|w w' ps He|p w ps Hst]; intros Hstart [Hx Hps]; unfold kept in *; simpl in *.
  - destruct (Hps _ _ Hj w Hx) as [Hu Hk]. split; [done|]. intros j' p.
    rewrite list_lookup_insert_Some. intros [(<- & <- & _)|[_ Hp]]; eauto.
  - split; [done|]. intros j' p. rewrite list_lookup_insert_Some.
    intros [(<- & <- & _)|[_ Hp]]; [apply (Hps _ _ Hj)|eauto].
  - eauto.
  - split; [done|]. intros j' q Hq. apply lookup_snoc_Some in Hq as [[_ Hq]|[-> <-]]; eauto.
Qed.

(** A family of invariants [I x] that all hold before thread [i] does its one
    decisive action, which settles [x]. *)
Section born.
Context {X : Type} (I : X → W → Prop) (i : nat).

Fixpoint once {B} (p : proc W B) : Prop :=
  match p with
  | Done _ => True
  | Atom u k => ∀ w, (∀ x, I x w) → ((∀ x, I x (u w)) ∧ once (k w)) ∨ (∃ x, I x (u w) ∧ prg (I x) (k w))
  | Choose k => ∀ f, once (k f)
  end.
Definition born (c : config) : Prop :=
  ((i < length c.2)%nat ∧ ∃ x, kept (I x) c) ∨
  ((∀ x, I x c.1 ∧ ∀ j p, j ≠ i → c.2 !! j = Some p → prg (I x) p) ∧ ∀ p, c.2 !! i = Some p → once p).

Lemma prg_once {B} (p : proc W B) : (∀ x, prg (I x) p) → once p.
Proof.
  induction p as [a|u k IH|k IH]; simpl; intros Hp; [done| |intros f; apply IH; intros x; apply Hp].
  intros w HI. left. split; [intros x; by apply Hp|]. apply IH. intros x. by apply Hp.
Qed.
Lemma once_bind {B C} (m : proc W B) (k : B → proc W C) :
  once m → (∀ x a, prg (I x) (k a)) → once (pbind m k).
Proof.
  intros Hm Hk'. induction m as [a|u m' IH|m' IH]; simpl in *; [by apply prg_once| |auto]. intros w HI.
  destruct (Hm w HI) as [[Hu Hm']|(x & Hx & Hm')]; [left; auto|]. right. exists x. split; [done|]. by apply prg_bind.
Qed.
(** Actions before the decisive one. *)
Lemma once_after {B C} (m : proc W B) (k : B → proc W C) :
  pguar (λ w w', ∀ x, I x w → I x w') m → (∀ a, once (k a)) → once (pbind m k).
Proof.
  intros Hm Hk. induction m as [a|u m' IH|m' IH]; simpl in *; [auto| |auto]. intros w HI. left. destruct (Hm w). auto.
Qed.

Context (env_keeps : ∀ x w w', env w w' → I x w → I x w')
        (start_prg : ∀ x w ps p, start w ps p → length ps ≠ i → prg (I x) p)
        (start_once : ∀ w ps p, start w ps p → length ps = i → once p).
Lemma born_step l c c' : pool_step l c c' → born c → born c'.
Proof using env_keeps start_prg start_once.
  intros Hs [(Hlt & x & Hx)|[Hall Hi]].
  - left. split; [eapply Nat.lt_le_trans; [exact Hlt|by eapply step_length]|]. exists x.
    eapply kept_step; [eauto| |done|done]. intros p Hp. eapply start_prg; [exact Hp|lia].
  - destruct Hs as [j u k w ps Hj|j k f w ps Hj|w w' ps He|p w ps Hst]; simpl in *.
    + destruct (decide (j = i)) as [->|Hne].
      * destruct (Hi _ Hj w (λ x, proj1 (Hall x))) as [[Hu Ho]|(x & Hu & Hk)].
        -- right. simpl. split; [|intros p; rewrite list_lookup_insert_eq by (by eapply lookup_lt_Some); by intros [= <-]].
           intros x. split; [apply Hu|]. intros j p Hj'. rewrite list_lookup_insert_ne by done. by apply Hall.
        -- left. simpl. rewrite length_insert. split; [by eapply lookup_lt_Some|]. exists x. split; [done|]. intros j p. simpl.
           rewrite list_lookup_insert_Some. intros [(<- & <- & _)|[Hne Hp]]; [done|]. eapply Hall; eauto.
      * right. split; [|intros p; simpl; rewrite list_lookup_insert_ne by done; apply Hi].
        intros x. simpl. destruct (Hall x) as [Hx Hps]. destruct (Hps _ _ Hne Hj w Hx) as [Hu Hk]. split; [done|]. intros j' p Hj'.
        rewrite list_lookup_insert_Some. intros [(<- & <- & _)|[_ Hp]]; eauto.
    + right. simpl. destruct (decide (j = i)) as [->|Hne].
      * split; [|intros p; rewrite list_lookup_insert_eq by (by eapply lookup_lt_Some); intros [= <-]; apply (Hi _ Hj)].
        intros x. split; [apply Hall|]. intros j p Hj'. rewrite list_lookup_insert_ne by done. by apply Hall.
      * split; [|intros p; rewrite list_lookup_insert_ne by done; apply Hi].
        intros x. destruct (Hall x) as [Hx Hps]. split; [done|]. intros j' p Hj'.
        rewrite list_lookup_insert_Some. intros [(<- & <- & _)|[_ Hp]]; [apply (Hps _ _ Hne Hj)|eauto].
    + right. split; [|done]. intros x. destruct (Hall x). simpl. eauto.
    + right. simpl. split.
      * intros x. split; [apply Hall|]. intros j q Hne Hq. apply lookup_snoc_Some in Hq as [[_ Hq]|[-> <-]]; [by eapply Hall|eauto].
      * intros q Hq. apply lookup_snoc_Some in Hq as [[_ Hq]|[-> <-]]; eauto.
Qed.
End born.

(** *** Steps that lie in a relation *)

Definition guarded (R : W → W → Prop) (c : config) : Prop := ∀ i p, c.2 !! i = Some p → pguar R p.
Lemma guarded_step (R : W → W → Prop) `{!Reflexive R} l c c' :
  (∀ w w', env w w' → R w w') → (∀ p, start c.1 c.2 p → pguar R p) →
  pool_step l c c' → guarded R c → guarded R c' ∧ R c.1 c'.1.
Proof.
  intros Henv Hstart Hst. revert Hstart.
  destruct Hst as [i u k w ps Hi|i k f w ps Hi|w w' ps He|p w ps Hs]; intros Hstart Hg; unfold guarded in *; simpl in *.
  - pose proof (Hg _ _ Hi w) as [Hu Hk]. split; [|done]. intros j q. rewrite list_lookup_insert_Some.
    intros [(<- & <- & _)|[_ Hq]]; [done|by eapply Hg].
  - split; [|done]. intros j q. rewrite list_lookup_insert_Some.
    intros [(<- & <- & _)|[_ Hq]]; [apply (Hg _ _ Hi)|by eapply Hg].
  - auto.
  - split; [|done]. intros j q Hq. apply lookup_snoc_Some in Hq as [[_ Hq]|[-> <-]]; [by eapply Hg|by eapply Hstart].
Qed.

(** What each thread guarantees, by its number. *)
Lemma each_guar (G : nat → W → W → Prop) l c c' :
  (∀ p, start c.1 c.2 p → pguar (G (length c.2)) p) → pool_step l c c' →
  (∀ i p, c.2 !! i = Some p → pguar (G i) p) → ∀ i p, c'.2 !! i = Some p → pguar (G i) p.
Proof.
  intros Hstart Hs Hg i p. revert Hstart Hg.
  destruct Hs as [j u k w ps Hj|j k f w ps Hj|w w' ps He|q w ps Hst]; simpl; intros Hstart Hg.
  - rewrite list_lookup_insert_Some. intros [(<- & <- & _)|[_ Hq]]; [by apply (Hg _ _ Hj)|by apply Hg].
  - rewrite list_lookup_insert_Some. intros [(<- & <- & _)|[_ Hq]]; [apply (Hg _ _ Hj)|by apply Hg].
  - apply Hg.
  - intros [[_ Hq]|[-> <-]]%lookup_snoc_Some; [by apply Hg|by apply Hstart].
Qed.

(** A property of the state and the pool that every step keeps. *)
Lemma steps_keep (I : config → Prop) c c' :
  (∀ l c1 c2, pool_step l c1 c2 → I c1 → I c2) → rtc pool_any c c' → I c → I c'.
Proof. intros HI. induction 1 as [|c1 c2 c3 [l Hs] _ IH]; intros Hc; [done|]. eauto. Qed.

(** A thread, while all steps lie in [R]. *)
Lemma step_pwp (R : W → W → Prop) `{!PreOrder R} l c c' i p Q :
  pool_step l c c' → R c.1 c'.1 → c.2 !! i = Some p → pwp R p c.1 Q → ∃ p', c'.2 !! i = Some p' ∧ pwp R p' c'.1 Q.
Proof.
  intros [j u k w ps Hj|j k f w ps Hj|w w' ps He|q w ps Hs] HR Hi Hp; simpl in *.
  - destruct (decide (j = i)) as [->|Hne].
    + simplify_eq. exists (k w). split; [by eapply list_lookup_insert_eq, lookup_lt_Some|]. apply Hp. reflexivity.
    + exists p. split; [by rewrite list_lookup_insert_ne|]. by apply (pwp_rely R p w).
  - destruct (decide (j = i)) as [->|Hne].
    + simplify_eq. exists (k f). split; [by eapply list_lookup_insert_eq, lookup_lt_Some|]. apply Hp.
    + exists p. by rewrite list_lookup_insert_ne.
  - exists p. split; [done|]. by apply (pwp_rely R p w).
  - exists p. split; [by apply lookup_app_l_Some|done].
Qed.
Lemma steps_pwp (R : W → W → Prop) `{!PreOrder R} (Inv : config → Prop) c c' i p Q :
  (∀ l c1 c2, pool_step l c1 c2 → Inv c1 → Inv c2 ∧ R c1.1 c2.1) →
  rtc pool_any c c' → Inv c → c.2 !! i = Some p → pwp R p c.1 Q →
  Inv c' ∧ R c.1 c'.1 ∧ ∃ p', c'.2 !! i = Some p' ∧ pwp R p' c'.1 Q.
Proof.
  intros Hstep Hr. revert p. induction Hr as [c|c1 c2 c3 [l Hs] _ IH]; intros p Hinv Hi Hp; [split_and!; [done|reflexivity|eauto]|].
  destruct (Hstep _ _ _ Hs Hinv) as [Hinv2 HR]. destruct (step_pwp R l c1 c2 i p Q Hs HR Hi Hp) as (p2 & Hi2 & Hp2).
  destruct (IH p2 Hinv2 Hi2 Hp2) as (? & ? & ?). split_and!; [done|by etrans|done].
Qed.
(** The answer of a thread that has finished. *)
Lemma pwp_done (R : W → W → Prop) `{!Reflexive R} (c : config) (i : nat) (a : A) p Q :
  c.2 !! i = Some (Done a) → c.2 !! i = Some p → pwp R p c.1 Q → Q a c.1.
Proof. intros H1 H2. simplify_eq. intros Hp. by apply Hp. Qed.

(** What every thread promises when it starts, its answer keeps. *)
Definition promised (R : W → W → Prop) (Q : nat → A → W → Prop) (c : config) : Prop :=
  guarded R c ∧ ∀ i p, c.2 !! i = Some p → pwp R p c.1 (Q i).
Lemma promised_step (R : W → W → Prop) `{!PreOrder R} Q l c c' :
  (∀ w w', env w w' → R w w') → (∀ w ps p, start w ps p → pguar R p ∧ pwp R p w (Q (length ps))) →
  pool_step l c c' → promised R Q c → promised R Q c' ∧ R c.1 c'.1.
Proof.
  intros Henv Hstart Hs [Hg Hp]. destruct (guarded_step R l c c' Henv (λ p H, proj1 (Hstart _ _ p H)) Hs Hg) as [Hg' HR].
  split; [|done]. split; [done|]. intros i p' Hi.
  destruct (c.2 !! i) as [p|] eqn:E.
  - destruct (step_pwp R l c c' i p (Q i) Hs HR E (Hp _ _ E)) as (p2 & Hi2 & Hp2). simplify_eq. done.
  - destruct Hs as [j u k w ps Hj|j k f w ps Hj|w w' ps He|q w ps Hst]; simpl in *.
    + exfalso. apply lookup_lt_Some in Hi. rewrite length_insert in Hi. apply lookup_ge_None in E. lia.
    + exfalso. apply lookup_lt_Some in Hi. rewrite length_insert in Hi. apply lookup_ge_None in E. lia.
    + congruence.
    + apply lookup_snoc_Some in Hi as [[_ Hi]|[-> <-]]; [congruence|]. by apply Hstart.
Qed.
End pool.
