(* ===== verification/Rely.v ===== *)
(** * Rely and guarantee, thread by thread

    [prely R G p w Q]: from state [w], if the others move the state along [R],
    each action of [p] lies in [G] and the answer satisfies [Q].  Unlike [pguar],
    the guarantee may use what the thread knows of the state when it acts.  In a
    pool each thread [i] has its own [R i] and [G i]; what one guarantees, all
    others rely on. *)

From S2P Require Import Prelude Sql Conc.
Set Default Proof Using "Type".

Section prely.
Context {W : Type} (R G : W → W → Prop) `{!PreOrder R}.

Fixpoint prely {A} (p : proc W A) (w : W) (Q : A → W → Prop) : Prop :=
  match p with
  | Done a => ∀ w', R w w' → Q a w'
  | Atom u k => ∀ w', R w w' → G w' (u w') ∧ prely (k w') (u w') Q
  | Choose k => ∀ f, prely (k f) w Q
  end.

Lemma prely_moved {A} (p : proc W A) w w' Q : R w w' → prely p w Q → prely p w' Q.
Proof using All. induction p as [a|u k IH|k IH]; simpl; [|..|auto]; intros HR Hp w'' HR'; apply Hp; by etrans. Qed.
Lemma prely_mono {A} (p : proc W A) w (Q Q' : A → W → Prop) : (∀ a w, Q a w → Q' a w) → prely p w Q → prely p w Q'.
Proof. intros HQ. revert w. induction p as [a|u k IH|k IH]; intros w; simpl; [auto| |auto]. intros Hp w' HR. destruct (Hp w' HR). auto. Qed.
Lemma prely_bind {A B} (m : proc W A) (k : A → proc W B) w Q :
  prely m w (λ a w', prely (k a) w' Q) → prely (pbind m k) w Q.
Proof using All.
  revert w. induction m as [a|u m' IH|m' IH]; intros w; simpl; [|..|auto]; intros Hm.
  - apply Hm. reflexivity.
  - intros w' HR. destruct (Hm w' HR). auto.
Qed.
Lemma prely_done {A} (a : A) w (Q : A → W → Prop) : (∀ w', R w w' → Q a w') → prely (Done a) w Q.
Proof. done. Qed.
Lemma prely_atom {A} (f : W → A * W) w (Q : A → W → Prop) :
  (∀ w', R w w' → G w' (f w').2 ∧ ∀ w'', R (f w').2 w'' → Q (f w').1 w'') → prely (atom f) w Q.
Proof. intros Hf w' HR. by apply Hf. Qed.
(** A call answers, or fails before or after its effect. *)
Lemma prely_call {A} (f : W → A * W) w (Q : option A → W → Prop) :
  (∀ w', R w w' → G w' (f w').2 ∧ ∀ w'', R (f w').2 w'' → Q (Some (f w').1) w'' ∧ Q None w'') →
  (∀ w', R w w' → Q None w') → prely (call f) w Q.
Proof.
  intros Hf Hn [| |]; simpl; [|done|]; intros w' HR; destruct (Hf w' HR) as [HG HQ]; (split; [done|]); intros w'' HR'; by apply HQ.
Qed.
(** Actions that need no knowledge. *)
Lemma prely_guar {A} (p : proc W A) w : (∀ w w', G w w' → R w w') → pguar G p → prely p w (λ _ w', R w w').
Proof using All.
  intros HGR. revert w. induction p as [a|u k IH|k IH]; intros w; simpl; [done| |auto]. intros Hp w' HR. destruct (Hp w') as [HG Hk].
  split; [done|]. eapply prely_mono; [|by apply IH]. simpl. intros _ w'' HR'. etrans; [exact HR|]. etrans; [by apply HGR|done].
Qed.
End prely.

Section pool.
Context {W A : Type} (env : W → W → Prop) (start : W → list (proc W A) → proc W A → Prop) (R G : nat → W → W → Prop)
        `{∀ i, PreOrder (R i)}.
Context (env_rely : ∀ i w w', env w w' → R i w w') (guar_rely : ∀ i j w w', i ≠ j → G j w w' → R i w w').
Abbreviation config := (W * list (proc W A))%type.

Definition relied (Q : nat → A → W → Prop) (c : config) : Prop := ∀ (i : nat) p, c.2 !! i = Some p → prely (R i) (G i) p c.1 (Q i).

Lemma relied_step Q l c c' :
  (∀ p, start c.1 c.2 p → prely (R (length c.2)) (G (length c.2)) p c.1 (Q (length c.2))) →
  pool_step env start l c c' → relied Q c →
  relied Q c' ∧ (c'.1 = c.1 ∨ env c.1 c'.1 ∨ ∃ i, (i < length c.2)%nat ∧ G i c.1 c'.1).
Proof using All.
  intros Hstart Hs. revert Hstart.
  destruct Hs as [j u k w ps Hj|j k f w ps Hj|w w' ps He|q w ps Hst]; intros Hstart Hr; unfold relied in *; simpl in *.
  - destruct (Hr _ _ Hj w ltac:(reflexivity)) as [HG Hk]. split; [|right; right; eauto using lookup_lt_Some].
    intros i p. rewrite list_lookup_insert_Some. intros [(<- & <- & _)|[Hne Hp]]; [done|].
    eapply prely_moved; [done|by eapply guar_rely|by apply Hr].
  - split; [|by left]. intros i p. rewrite list_lookup_insert_Some. intros [(<- & <- & _)|[Hne Hp]]; [apply (Hr _ _ Hj)|by apply Hr].
  - split; [|by right; left]. intros i p Hp. eapply prely_moved; [done|by apply env_rely|by apply Hr].
  - split; [|by left]. intros i p [[_ Hp]|[-> <-]]%lookup_snoc_Some; [by apply Hr|by apply Hstart].
Qed.
Lemma relied_done Q c (i : nat) a : relied Q c → c.2 !! i = Some (Done a) → Q i a c.1.
Proof using All. intros Hr Hi. apply (Hr _ _ Hi). reflexivity. Qed.

(** An invariant of the state that the guarantees keep, with a promise about
    answers; [J] also says what a new thread finds. *)
Lemma relied_steps (J : config → Prop) Q c c' :
  (∀ l c1 c2, pool_step env start l c1 c2 → relied Q c1 → J c1 →
     J c2 ∧ ∀ p, start c1.1 c1.2 p → prely (R (length c1.2)) (G (length c1.2)) p c1.1 (Q (length c1.2))) →
  rtc (pool_any env start) c c' → relied Q c → J c → relied Q c' ∧ J c'.
Proof using All.
  intros HJ. induction 1 as [|c1 c2 c3 [l Hs] _ IH]; intros Hr Hj; [done|]. destruct (HJ _ _ _ Hs Hr Hj) as [Hj2 Hst].
  apply IH; [|done]. by eapply relied_step.
Qed.
End pool.
