(* ===== verification/Sessions.v ===== *)
(** * Login sessions

    [auth/refresh.go], [auth/session.go], [auth/valkey.go], [auth/logout.go] with
    the checks of [identity/lifecycle.go] and [identity/revocation.go].  A login
    stores a refresh session in Valkey and hands out a pair of tokens; a refresh
    reads the session, compares, and stores the rotated one; a logout deletes it.
    Each of these is several calls to Valkey and to the database, so each is a
    [proc] of [Conc], and other requests run between its calls.

    Signing and checking of JWTs are parameters, and so are the bytes that
    [crypto/rand] gives to a request.  A Valkey value is the record that the code
    marshals to JSON.  TTLs are positive. *)

From Stdlib Require Import ZArith Lia Ascii.
From S2P Require Import Prelude GoText Sql Conc.
Open Scope Z_scope.
Set Default Proof Using "Type".

(** ** Random tokens *)

Definition b64_char (n : Z) : ascii :=
  chr (if n <? 26 then 65 + n else if n <? 52 then 71 + n else if n <? 62 then n - 4 else if n =? 62 then 45 else 95).

(** [base64.RawURLEncoding.EncodeToString]. *)
Fixpoint b64_encode (raw : list Z) : list ascii :=
  match raw with
  | a :: b :: c :: raw =>
      b64_char (Z.shiftr a 2) :: b64_char (Z.lor (Z.shiftl (Z.land a 3) 4) (Z.shiftr b 4)) ::
      b64_char (Z.lor (Z.shiftl (Z.land b 15) 2) (Z.shiftr c 6)) :: b64_char (Z.land c 63) :: b64_encode raw
  | [a; b] => [b64_char (Z.shiftr a 2); b64_char (Z.lor (Z.shiftl (Z.land a 3) 4) (Z.shiftr b 4)); b64_char (Z.shiftl (Z.land b 15) 2)]
  | [a] => [b64_char (Z.shiftr a 2); b64_char (Z.shiftl (Z.land a 3) 4)]
  | [] => []
  end.

(** [raw]: what [rand.Read] put into the buffer. *)
Definition randomToken (raw : option (list Z)) : option string := (λ l, of_bytes (b64_encode l)) <$> raw.

Definition session_char (c : ascii) : bool :=
  in_range 65 90 c || in_range 97 122 c || in_range 48 57 c || (code c =? 45) || (code c =? 95).
(** All characters are ASCII, or the text is refused at the first other rune. *)
Definition validSessionID (sid : string) : bool := (blen sid =? 22) && forallb session_char (bytes sid).

Definition splitRefreshToken (token : string) : option string :=
  match cut_on "."%char (bytes token) with
  | Some (sid, _) => if validSessionID (of_bytes sid) then Some (of_bytes sid) else None
  | None => None
  end.

(** [strings.SplitN(header, " ", 2)]. *)
Definition extractBearer (header : string) : string :=
  match cut_on " "%char (bytes header) with
  | Some (p, rest) => if p ≟ bytes "Bearer" then of_bytes rest else ""
  | None => ""
  end.

(** ** Valkey *)

Record RefreshSess := MkSess { rs_Token : string; rs_OriginalIAT : Z; rs_MaxLifetimeAt : Z }.
Record PKCEState := MkPkce { pk_CodeVerifier : string; pk_WorkspaceName : string; pk_Nonce : string; pk_ConnectionID : string }.

Inductive vvalue := VSession (s : RefreshSess) | VPkce (st : PKCEState) | VSet (members : gset string).
Record ventry := MkEntry { v_value : vvalue; v_expires : option time }.

Record UserRow := MkUser { u_email : string; u_status : string; u_generation : Z; u_role : string; u_tenant : uuid }.

(** What the requests share. *)
Record sys := MkSys { vk : gmap string ventry; users : gmap uuid UserRow; clock : time }.
Definition set_vk (m : gmap string ventry) (w : sys) : sys := MkSys m (users w) (clock w).
Definition set_users (m : gmap uuid UserRow) (w : sys) : sys := MkSys (vk w) m (clock w).

Definition alive (now : time) (e : ventry) : bool := match v_expires e with Some t => now <? t | None => true end.
Definition vlookup (key : string) (w : sys) : option ventry :=
  match vk w !! key with Some e => if alive (clock w) e then Some e else None | None => None end.

Inductive vcmd :=
| SET (key : string) (v : vvalue) (ttl : duration)
| SADD (key member : string)
| EXPIRE (key : string) (ttl : duration)
| DEL (keys : list string)
| SREM (key member : string).

(** Whether the command succeeds; a failed one changes nothing. *)
Definition exec_cmd (c : vcmd) (w : sys) : bool * sys :=
  match c with
  | SET key v ttl => (true, set_vk (<[key := MkEntry v (Some (clock w + ttl))]> (vk w)) w)
  | SADD key x =>
      match vlookup key w with
      | None => (true, set_vk (<[key := MkEntry (VSet {[x]}) None]> (vk w)) w)
      | Some (MkEntry (VSet m) t) => (true, set_vk (<[key := MkEntry (VSet ({[x]} ∪ m)) t]> (vk w)) w)
      | Some _ => (false, w)
      end
  | EXPIRE key ttl =>
      match vlookup key w with
      | None => (true, w)
      | Some e => (true, set_vk (<[key := MkEntry (v_value e) (Some (clock w + ttl))]> (vk w)) w)
      end
  | DEL keys => (true, set_vk (foldr delete (vk w) keys) w)
  | SREM key x =>
      match vlookup key w with
      | None => (true, w)
      | Some (MkEntry (VSet m) t) =>
          (true, if m ∖ {[x]} ≟ ∅ then set_vk (delete key (vk w)) w
                 else set_vk (<[key := MkEntry (VSet (m ∖ {[x]})) t]> (vk w)) w)
      | Some _ => (false, w)
      end
  end.
(** [MULTI … EXEC]: all commands run; the first error is reported. *)
Fixpoint exec_multi (cs : list vcmd) (w : sys) : bool * sys :=
  match cs with
  | [] => (true, w)
  | c :: cs => let '(ok, w1) := exec_cmd c w in let '(ok', w2) := exec_multi cs w1 in (ok && ok', w2)
  end.

Abbreviation procS A := (proc sys A).
(** Whether the call succeeded. *)
Definition run_cmds (cs : list vcmd) : procS bool := let~ r := call (exec_multi cs) in Done (default false r).

Definition pkceKey (state : string) : string := "pkce:" +:+ state.
Definition refreshKey (userID sid : string) : string :=
  if sid ≟ "" then "refresh:" +:+ userID else "refresh:{" +:+ userID +:+ "}:" +:+ sid.
Definition refreshIndexKey (userID : string) : string := "refresh_sids:{" +:+ userID +:+ "}".

Definition SetPKCEState (state : string) (st : PKCEState) : procS bool :=
  run_cmds [SET (pkceKey state) (VPkce st) (5 * Minute)].
(** [GETDEL].  [None]: an error; the fields of another record are missing in JSON. *)
Definition getdel (key : string) (w : sys) : option vvalue * sys :=
  match vlookup key w with
  | None => (None, w)
  | Some (MkEntry (VSet m) _) => (Some (VSet m), w)
  | Some e => (Some (v_value e), set_vk (delete key (vk w)) w)
  end.
Definition GetAndDeletePKCEState (state : string) : procS (option (option PKCEState)) :=
  let~ r := call (getdel (pkceKey state)) in
  Done (match r with
        | None | Some (Some (VSet _)) => None
        | Some None => Some None
        | Some (Some (VPkce st)) => Some (Some st)
        | Some (Some (VSession _)) => Some (Some (MkPkce "" "" "" ""))
        end).

Definition SetRefreshSession (userID sid : string) (sess : RefreshSess) (ttl : duration) : procS bool :=
  if sid ≟ "" then run_cmds [SET (refreshKey userID "") (VSession sess) ttl]
  else run_cmds [SET (refreshKey userID sid) (VSession sess) ttl; SADD (refreshIndexKey userID) sid;
                 EXPIRE (refreshIndexKey userID) ttl].

Definition GetRefreshSession (userID sid : string) : procS (option (option RefreshSess)) :=
  let~ r := call (λ w, (v_value <$> vlookup (refreshKey userID sid) w, w)) in
  Done (match r with
        | None | Some (Some (VSet _)) => None
        | Some None => Some None
        | Some (Some (VSession s)) => Some (Some s)
        | Some (Some (VPkce _)) => Some (Some (MkSess "" 0 0))
        end).

Definition DeleteRefreshSession (userID sid : string) : procS bool :=
  if sid ≟ "" then run_cmds [DEL [refreshKey userID ""]]
  else run_cmds [DEL [refreshKey userID sid]; SREM (refreshIndexKey userID) sid].

(** [SMEMBERS]; [None]: not a set. *)
Definition smembers (key : string) (w : sys) : option (gset string) :=
  match vlookup key w with None => Some ∅ | Some (MkEntry (VSet m) _) => Some m | Some _ => None end.
Definition DeleteAllRefreshSessions (userID : string) : procS bool :=
  let~ sids := call (λ w, (smembers (refreshIndexKey userID) w, w)) in
  match sids with
  | None | Some None => Done false
  | Some (Some m) =>
      let~ ok := run_cmds [DEL (refreshIndexKey userID :: (refreshKey userID <$> elements m))] in
      if ok then run_cmds [DEL [refreshKey userID ""]] else Done false
  end.

(** ** Tokens *)

Record jwtClaims := MkClaims {
  c_TenantID : string; c_Role : string; c_Email : string; c_IdentityGeneration : Z; c_SessionID : string;
  c_Subject : string; c_Issuer : string; c_IssuedAt : time; c_ExpiresAt : time
}.

Inductive SessionError := MkSessionError (status : Z) (msg : string).
Definition dead (msg : string) : SessionError := MkSessionError 401 msg.
Definition serverError (msg : string) : SessionError := MkSessionError 500 msg.

(** [identity/lifecycle.go], [identity/revocation.go]: whether the check passes. *)
Definition CheckLifecycle (status : string) : bool := status ≟ "active".
Definition CheckGeneration (tokenGen currentGen : Z) : bool := negb (negb (tokenGen =? 0) && (tokenGen <? currentGen)).

(** The configuration, with its durations parsed ([None]: not a duration). *)
Record Config := MkConfig {
  JWTIssuer : string; JWTAccessTTL : option duration; JWTRefreshTTL : option duration; JWTRefreshMaxLifetime : option duration
}.

(** What a request draws from [crypto/rand]: 16 and 32 bytes. *)
Record draws := MkDraws { raw_sid : option (list Z); raw_secret : option (list Z) }.

Section service.
Context (cfg : Config) (sign : jwtClaims → option string) (* [SignedString] *)
        (verified : string → option jwtClaims) (* the signature, not the expiry *)
        (pg_uuid : string → option uuid).

Definition refreshTTL : duration := default (7 * 24 * Hour) (JWTRefreshTTL cfg).
Definition accessTTL : duration := default (15 * Minute) (JWTAccessTTL cfg).
Definition maxLifetime : duration := default (30 * 24 * Hour) (JWTRefreshMaxLifetime cfg).

Definition read_clock : procS time := atom (λ w, (clock w, w)).

Definition issueSessionAccessToken (userID tenantID role email : string) (generation : Z) (sid : string) : procS (option string) :=
  let~ now := read_clock in
  Done (sign (MkClaims tenantID role email generation sid userID (JWTIssuer cfg) now (now + accessTTL))).

Definition issueRefreshToken (d : draws) (userID : string) : procS (option string) :=
  match randomToken (raw_sid d), randomToken (raw_secret d) with
  | Some sid, Some secret =>
      let token := sid +:+ "." +:+ secret in
      let~ now := read_clock in
      let sess := MkSess token (time_Unix now) (time_Unix now + maxLifetime / Second) in
      let~ ok := SetRefreshSession userID sid sess refreshTTL in
      Done (if ok then Some token else None)
  | _, _ => Done None
  end.

(** Access token, its seconds, refresh token. *)
Definition IssueSession (d : draws) (userID tenantID role email : string) (generation : Z) : procS (option (string * Z * string)) :=
  let~ r := issueRefreshToken d userID in
  match r with
  | None => Done None
  | Some refreshToken =>
      let sid := default "" (splitRefreshToken refreshToken) in
      let~ a := issueSessionAccessToken userID tenantID role email generation sid in
      Done ((λ accessToken, (accessToken, accessTTL / Second, refreshToken)) <$> a)
  end.

Definition InvalidateUserSessions (userID : string) : procS bool := DeleteAllRefreshSessions userID.

(** Step 6 of [RefreshSession]: the new pair, and the rotated session. *)
Definition rotate (d : draws) (userID tenantID role email : string) (currentGen : Z) (sid : string) (stored : RefreshSess)
    : procS (result SessionError (string * string)) :=
  match (if sid ≟ "" then randomToken (raw_sid d) else Some sid) with
  | None => Done (Err (serverError "token rotate failed"))
  | Some newSID =>
      let~ a := issueSessionAccessToken userID tenantID role email currentGen newSID in
      match a with
      | None => Done (Err (serverError "token issue failed"))
      | Some newAccessToken =>
          match randomToken (raw_secret d) with
          | None => Done (Err (serverError "token rotate failed"))
          | Some secret =>
              let newRefreshToken := newSID +:+ "." +:+ secret in
              let rotated := MkSess newRefreshToken (rs_OriginalIAT stored) (rs_MaxLifetimeAt stored) in
              let~ ok := SetRefreshSession userID newSID rotated refreshTTL in
              if negb ok then Done (Err (serverError "token rotate failed"))
              else
                (if sid ≟ "" then DeleteRefreshSession userID "" else Done true) ;~
                Done (Ok (newAccessToken, newRefreshToken))
          end
      end
  end.

(** Steps 4 to 6. *)
Definition refresh_found (d : draws) (claims : jwtClaims) (role email : string) (currentGen : Z) (sid refreshToken : string)
    (got : option (option RefreshSess)) : procS (result SessionError (string * string)) :=
  match got with
  | None => Done (Err (serverError "server error"))
  | Some None => Done (Err (dead "refresh token expired"))
  | Some (Some stored) =>
      if negb (refreshToken ≟ rs_Token stored) then Done (Err (dead "refresh token mismatch"))
      else
        let~ now := read_clock in
        if negb (rs_MaxLifetimeAt stored =? 0) && (rs_MaxLifetimeAt stored <? time_Unix now) then
          DeleteRefreshSession (c_Subject claims) sid ;~
          Done (Err (dead "refresh token max lifetime exceeded"))
        else rotate d (c_Subject claims) (c_TenantID claims) role email currentGen sid stored
  end.
Definition refresh_stored (d : draws) (claims : jwtClaims) (role email : string) (currentGen : Z) (refreshToken : string)
    : procS (result SessionError (string * string)) :=
  let sid := default "" (splitRefreshToken refreshToken) in
  if negb (c_SessionID claims ≟ "") && negb (c_SessionID claims ≟ sid) then Done (Err (dead "refresh token mismatch"))
  else
    let~ got := GetRefreshSession (c_Subject claims) sid in
    refresh_found d claims role email currentGen sid refreshToken got.

Definition RefreshSession (d : draws) (accessToken refreshToken : string) : procS (result SessionError (string * string)) :=
  if refreshToken ≟ "" then Done (Err (dead "missing refresh token"))
  else if accessToken ≟ "" then Done (Err (dead "missing authorization header"))
  else
    match verified accessToken with
    | None => Done (Err (dead "invalid access token"))
    | Some claims =>
        let userID := c_Subject claims in
        if (userID ≟ "") || (c_TenantID claims ≟ "") then Done (Err (dead "token missing claims"))
        else
          let~ row := call (λ w, (pg_uuid userID ≫= λ id, users w !! id, w)) in
          match row with
          | None | Some None => Done (Err (dead "token missing claims"))
          | Some (Some u) =>
              let email := if c_Email claims ≟ "" then u_email u else c_Email claims in
              if negb (CheckLifecycle (u_status u)) || negb (CheckGeneration (c_IdentityGeneration claims) (u_generation u)) then
                DeleteAllRefreshSessions userID ;~
                Done (Err (dead "session revoked"))
              else refresh_stored d claims (u_role u) email (u_generation u) refreshToken
          end
    end.

(** ** The HTTP handlers *)

(** Status, access token of the body, new cookie. *)
Definition RefreshHandler (d : draws) (cookie : option string) (authHeader : string) : procS (Z * option string * option string) :=
  let presentedToken := default "" cookie in
  if presentedToken ≟ "" then Done (401, None, None)
  else if authHeader ≟ "" then Done (401, None, None)
  else
    let~ r := RefreshSession d (extractBearer authHeader) presentedToken in
    Done (match r with
          | Ok (accessToken, newToken) => (200, Some accessToken, Some newToken)
          | Err (MkSessionError status _) => (status, None, None)
          end).

Definition EndSession (accessToken : string) : procS () :=
  if accessToken ≟ "" then Done tt
  else
    match verified accessToken with
    | None => Done tt
    | Some claims =>
        if c_Subject claims ≟ "" then Done tt
        else DeleteRefreshSession (c_Subject claims) (c_SessionID claims) ;~ Done tt
    end.
Definition LogoutHandler (authHeader : string) : procS Z :=
  (if authHeader ≟ "" then Done tt else EndSession (extractBearer authHeader)) ;~ Done 204.

(** ** Revocation *)

(** The row's new generation, a 32-bit column; [None]: no such user in the tenant, or an error. *)
Definition bump (tenantID userID : string) (w : sys) : option Z * sys :=
  match (pg_uuid userID ≫= λ id, (id,.) <$> users w !! id) with
  | Some (id, u) =>
      let g := u_generation u + 1 in
      if (pg_uuid tenantID ≟ Some (u_tenant u)) && (g <? 2 ^ 31) then
        (Some g, set_users (<[id := MkUser (u_email u) (u_status u) g (u_role u) (u_tenant u)]> (users w)) w)
      else (None, w)
  | None => (None, w)
  end.
Definition afterBump (userID : string) : procS () := InvalidateUserSessions userID ;~ Done tt.
Definition BumpGeneration (tenantID userID : string) : procS (option Z) :=
  let~ g := call (bump tenantID userID) in
  match g with
  | None | Some None => Done None
  | Some (Some gen) => afterBump userID ;~ Done (Some gen)
  end.

(** ** Requests *)

Inductive request :=
| Login (userID tenantID role email : string) (generation : Z)
| Refresh (accessToken refreshToken : string)
| Logout (accessToken : string)
| Bump (tenantID userID : string)
| Invalidate (userID : string).
Inductive answer := Tokens (accessToken refreshToken : string) | Answered.

Definition serve (d : draws) (r : request) : procS answer :=
  match r with
  | Login u t role email g =>
      let~ a := IssueSession d u t role email g in
      Done (match a with Some (accessToken, _, refreshToken) => Tokens accessToken refreshToken | None => Answered end)
  | Refresh at_ rt =>
      let~ a := RefreshSession d at_ rt in
      Done (match a with Ok (accessToken, refreshToken) => Tokens accessToken refreshToken | Err _ => Answered end)
  | Logout at_ => EndSession at_ ;~ Done Answered
  | Bump t u => BumpGeneration t u ;~ Done Answered
  | Invalidate u => InvalidateUserSessions u ;~ Done Answered
  end.
End service.
