(* ===== verification/SessionFacts.v ===== *)
(** * Facts about sessions

    Random tokens and keys; what each call does to the stored sessions; and, for
    each request, that it stores at most one session and what it keeps. *)

From Stdlib Require Import ZArith Lia Ascii.
From S2P Require Import Prelude GoText Sql Conc Sessions.
Open Scope Z_scope.
Set Default Proof Using "Type".

(** ** Random tokens *)

Definition byte (z : Z) : Prop := 0 <= z < 256.
Definition b64_val (c : ascii) : Z :=
  let n := code c in
  if in_range 65 90 c then n - 65 else if in_range 97 122 c then n - 71 else if in_range 48 57 c then n + 4 else if n =? 45 then 62 else 63.

Lemma forallb_seqZ f n k : forallb f (seqZ 0 n) = true → 0 <= k < n → f k = true.
Proof. intros Hf Hk. rewrite forallb_forall in Hf. apply Hf, list_elem_of_In, elem_of_seqZ. lia. Qed.
Lemma b64_table : forallb (λ n, (b64_val (b64_char n) =? n) && session_char (b64_char n)) (seqZ 0 64) = true.
Proof. by vm_compute. Qed.
Lemma b64_char_ok n : 0 <= n < 64 → b64_val (b64_char n) = n ∧ session_char (b64_char n) = true.
Proof.
  intros Hn. pose proof (forallb_seqZ _ _ n b64_table Hn) as Ht. apply andb_true_iff in Ht as [H1 H2].
  split; [by apply Z.eqb_eq|done].
Qed.

(** The sextets, without bit operations. *)
Lemma sextet_hi a : Z.shiftr a 2 = a / 4.
Proof. by rewrite Z.shiftr_div_pow2. Qed.
Lemma sextet_table :
  forallb (λ a, forallb (λ b, (Z.lor (Z.shiftl (Z.land a 3) 4) (Z.shiftr b 4) =? a mod 4 * 16 + b / 16) &&
                              (Z.lor (Z.shiftl (Z.land a 15) 2) (Z.shiftr b 6) =? a mod 16 * 4 + b / 64)) (seqZ 0 256)) (seqZ 0 256) = true.
Proof. by vm_compute. Qed.
Lemma sextet_mid a b : byte a → byte b →
  Z.lor (Z.shiftl (Z.land a 3) 4) (Z.shiftr b 4) = a mod 4 * 16 + b / 16 ∧
  Z.lor (Z.shiftl (Z.land a 15) 2) (Z.shiftr b 6) = a mod 16 * 4 + b / 64.
Proof.
  intros Ha Hb. pose proof (forallb_seqZ _ _ b (forallb_seqZ _ _ a sextet_table Ha) Hb) as Ht.
  apply andb_true_iff in Ht as [H1 H2]. by split; apply Z.eqb_eq.
Qed.
Lemma sextet_lo c : Z.land c 63 = c mod 64.
Proof. apply (Z.land_ones c 6). lia. Qed.
Lemma sextet_end a : Z.shiftl (Z.land a 3) 4 = a mod 4 * 16 ∧ Z.shiftl (Z.land a 15) 2 = a mod 16 * 4.
Proof. rewrite !Z.shiftl_mul_pow2 by lia. split; f_equal; [apply (Z.land_ones a 2)|apply (Z.land_ones a 4)]; lia. Qed.

Fixpoint sextets (raw : list Z) : list Z :=
  match raw with
  | a :: b :: c :: raw => a / 4 :: a mod 4 * 16 + b / 16 :: b mod 16 * 4 + c / 64 :: c mod 64 :: sextets raw
  | [a; b] => [a / 4; a mod 4 * 16 + b / 16; b mod 16 * 4]
  | [a] => [a / 4; a mod 4 * 16]
  | [] => []
  end.
Lemma list_ind3 {A} (P : list A → Prop) :
  P [] → (∀ a, P [a]) → (∀ a b, P [a; b]) → (∀ a b c l, P l → P (a :: b :: c :: l)) → ∀ l, P l.
Proof.
  intros H0 H1 H2 H3. fix IH 1. intros [|a [|b [|c l]]]; [done|apply H1|apply H2|apply H3, IH].
Qed.
Ltac bytes_split := repeat match goal with H : Forall byte (_ :: _) |- _ => apply Forall_cons in H as [? H] end.

Lemma b64_sextets raw : Forall byte raw → b64_encode raw = b64_char <$> sextets raw.
Proof.
  induction raw as [|a|a b|a b c l IH] using list_ind3; intros Hb; [done|..]; bytes_split; cbn [b64_encode sextets fmap list_fmap].
  - by rewrite sextet_hi, (proj1 (sextet_end a)).
  - by rewrite sextet_hi, (proj1 (sextet_mid a b ltac:(done) ltac:(done))), (proj2 (sextet_end b)).
  - rewrite sextet_hi, (proj1 (sextet_mid a b ltac:(done) ltac:(done))), (proj2 (sextet_mid b c ltac:(done) ltac:(done))), sextet_lo.
    by rewrite <-IH by done.
Qed.
Lemma sextets_range raw : Forall byte raw → Forall (λ n, 0 <= n < 64) (sextets raw).
Proof.
  induction raw as [|a|a b|a b c l IH] using list_ind3; intros Hb; [constructor|..]; bytes_split; cbn [sextets]; unfold byte in *;
    repeat constructor; try (by apply IH); Z.to_euclidean_division_equations; lia.
Qed.
Lemma sextets_inj raw1 raw2 : Forall byte raw1 → Forall byte raw2 → length raw1 = length raw2 → sextets raw1 = sextets raw2 → raw1 = raw2.
Proof.
  revert raw2. induction raw1 as [|a|a b|a b c l IH] using list_ind3; intros [|a' [|b' [|c' l']]] Hb1 Hb2 Hl E; try done;
    bytes_split; cbn [sextets] in E; unfold byte in *; injection E as E.
  - f_equal. Z.to_euclidean_division_equations; lia.
  - f_equal; [|f_equal]; Z.to_euclidean_division_equations; lia.
  - f_equal; [|f_equal; [|f_equal]]; [..|apply IH; [done|done|simpl in Hl; lia|done]];
      clear IH; Z.to_euclidean_division_equations; lia.
Qed.

Lemma b64_session_chars raw : Forall byte raw → forallb session_char (b64_encode raw) = true.
Proof.
  intros Hb. rewrite b64_sextets by done. pose proof (sextets_range raw Hb) as Hr. induction Hr as [|n l Hn Hl IH]; [done|].
  cbn [fmap list_fmap forallb]. rewrite (proj2 (b64_char_ok n Hn)). apply IH.
Qed.
Lemma b64_inj raw1 raw2 : Forall byte raw1 → Forall byte raw2 → length raw1 = length raw2 → b64_encode raw1 = b64_encode raw2 → raw1 = raw2.
Proof.
  intros H1 H2 Hl E. apply sextets_inj; [done..|]. rewrite !b64_sextets in E by done.
  assert (∀ l, Forall (λ n, 0 <= n < 64) l → b64_val <$> (b64_char <$> l) = l) as Hinv.
  { intros l Hr. induction Hr as [|n l Hn _ IH]; [done|]. cbn [fmap list_fmap]. by rewrite (proj1 (b64_char_ok n Hn)), IH. }
  rewrite <-(Hinv (sextets raw1)), <-(Hinv (sextets raw2)) by (by apply sextets_range). by rewrite E.
Qed.

Lemma b64_length raw1 raw2 : length raw1 = length raw2 → length (b64_encode raw1) = length (b64_encode raw2).
Proof.
  revert raw2. induction raw1 as [|a|a b|a b c l IH] using list_ind3; intros [|a' [|b' [|c' l']]] Hl; try done.
  cbn [b64_encode length]. do 4 f_equal. apply IH. simpl in Hl. lia.
Qed.

(** What the service draws. *)
Definition draws_ok (d : draws) : Prop :=
  (∀ l, raw_sid d = Some l → Forall byte l ∧ length l = 16%nat) ∧ (∀ l, raw_secret d = Some l → Forall byte l ∧ length l = 32%nat).

Lemma sid_valid d sid : draws_ok d → randomToken (raw_sid d) = Some sid → validSessionID sid = true.
Proof.
  intros [Hd _] (l & Hl & ->)%fmap_Some. destruct (Hd l Hl) as [Hb Hn]. unfold validSessionID, blen.
  rewrite bytes_of_bytes, b64_session_chars by done.
  do 17 (destruct l as [|? l]; [done|]). simpl in Hn. lia.
Qed.
Lemma randomToken_inj n l1 l2 t : Forall byte l1 → Forall byte l2 → length l1 = n → length l2 = n →
  randomToken (Some l1) = Some t → randomToken (Some l2) = Some t → l1 = l2.
Proof.
  intros H1 H2 Hn1 Hn2 [= <-] [= E]. apply b64_inj; [done..|congruence|]. apply (f_equal bytes) in E. by rewrite !bytes_of_bytes in E.
Qed.

Lemma valid_nonempty sid : validSessionID sid = true → sid ≠ "".
Proof. by intros Hv ->. Qed.
Lemma valid_length sid : validSessionID sid = true → length (bytes sid) = 22%nat.
Proof. unfold validSessionID, blen. intros Hv. apply andb_true_iff in Hv as [Hl%Z.eqb_eq _]. lia. Qed.
Lemma refreshKey_inj u u' sid sid' :
  validSessionID sid = true → validSessionID sid' = true → refreshKey u sid = refreshKey u' sid' → u = u' ∧ sid = sid'.
Proof.
  intros Hv Hv'. unfold refreshKey. rewrite !bool_decide_false by (by apply valid_nonempty). intros E%(f_equal bytes).
  rewrite !bytes_app in E. apply app_inj_1 in E as [_ E]; [|done]. rewrite !app_assoc in E.
  apply app_inj_2 in E as [E Es]; [|by rewrite !valid_length]. apply app_inj_2 in E as [E _]; [|done].
  by split; apply bytes_inj.
Qed.

Lemma cut_on_app sep l l' : sep ∉ l → cut_on sep (l ++ sep :: l') = Some (l, l').
Proof.
  induction l as [|c l IH]; simpl; intros Hn; [by rewrite bool_decide_true|].
  rewrite bool_decide_false, IH; set_solver.
Qed.
Lemma split_issued sid secret : validSessionID sid = true → splitRefreshToken (sid +:+ "." +:+ secret) = Some sid.
Proof.
  intros Hv. unfold splitRefreshToken. rewrite !bytes_app. simpl. rewrite cut_on_app.
  - by rewrite of_bytes_bytes, Hv.
  - unfold validSessionID in Hv. apply andb_true_iff in Hv as [_ Hc]. rewrite forallb_forall in Hc.
    intros Hin%list_elem_of_In%Hc. done.
Qed.

Lemma split_valid rt sid : splitRefreshToken rt = Some sid → rt ≠ "" ∧ validSessionID sid = true.
Proof.
  unfold splitRefreshToken. intros H. split; [by intros ->|]. destruct (cut_on _ _) as [[l1 l2]|]; [|done].
  destruct (validSessionID _) eqn:E; [|done]. by injection H as <-.
Qed.

(** ** What the calls do to the stored sessions *)

Definition sess (w : sys) : gmap string RefreshSess :=
  omap (λ e, match v_value e with VSession s => Some s | _ => None end) (vk w).

Lemma lookup_sess w k s : sess w !! k = Some s ↔ ∃ t, vk w !! k = Some (MkEntry (VSession s) t).
Proof.
  unfold sess. rewrite lookup_omap. split.
  - destruct (vk w !! k) as [[v t]|]; simpl; [|done]. destruct v; simpl; [|done..]. intros [= ->]. by eexists.
  - intros (t & ->). done.
Qed.
Lemma vlookup_sess key w s t : vlookup key w = Some (MkEntry (VSession s) t) → sess w !! key = Some s.
Proof.
  unfold vlookup. destruct (vk w !! key) as [e|] eqn:E; [|done]. destruct (alive _ _); [|done]. intros [= ->].
  apply lookup_sess. by exists t.
Qed.

(** Only the sessions change, and those that are new satisfy [St]. *)
Definition stores (St : string → RefreshSess → Prop) (w w' : sys) : Prop :=
  users w' = users w ∧ clock w' = clock w ∧ ∀ k s, sess w' !! k = Some s → sess w !! k = Some s ∨ St k s.
Abbreviation removes := (stores (λ _ _, False)).

#[export] Instance stores_preorder St : PreOrder (stores St).
Proof.
  split; [intros w; split_and!; auto|]. intros w1 w2 w3 (? & ? & H1) (? & ? & H2). split_and!; [congruence..|].
  intros k s [Hs|]%H2; auto.
Qed.
Lemma stores_mono (St St' : string → RefreshSess → Prop) w w' : (∀ k s, St k s → St' k s) → stores St w w' → stores St' w w'.
Proof. intros HS (? & ? & H). split_and!; [done..|]. intros k s [Hs|Hs]%H; auto. Qed.
Lemma stores_vk St w m :
  (∀ k s t, m !! k = Some (MkEntry (VSession s) t) → (∃ t, vk w !! k = Some (MkEntry (VSession s) t)) ∨ St k s) → stores St w (set_vk m w).
Proof.
  intros Hm. split_and!; [done..|]. intros k s (t & [Hs|Hs]%Hm)%lookup_sess; [left|by right]. by apply lookup_sess.
Qed.
Lemma vlookup_vk key w e : vlookup key w = Some e → vk w !! key = Some e.
Proof. unfold vlookup. destruct (vk w !! key); [|done]. by destruct (alive _ _). Qed.

Definition cmd_stores (c : vcmd) (k : string) (s : RefreshSess) : Prop :=
  match c with SET key (VSession s') _ => k = key ∧ s = s' | _ => False end.
Lemma exec_cmd_stores c w : stores (cmd_stores c) w (exec_cmd c w).2.
Proof.
  destruct c as [key v ttl|key x|key ttl|keys|key x]; simpl.
  - apply stores_vk. intros k s t. rewrite lookup_insert_Some. intros [[<- [= -> _]]|[_ ?]]; [by right|left; eauto].
  - destruct (vlookup key w) as [[[s|st|m] t]|] eqn:E; simpl; try reflexivity;
      apply stores_vk; intros k s t'; rewrite lookup_insert_Some; (intros [[_ ?]|[_ ?]]; [done|left; eauto]).
  - destruct (vlookup key w) as [e|] eqn:E; simpl; [|reflexivity]. apply stores_vk. intros k s t. rewrite lookup_insert_Some.
    intros [[<- [= Hv _]]|[_ ?]]; left; [|eauto]. apply vlookup_vk in E. destruct e as [v t']. simpl in *. subst v. eauto.
  - apply stores_vk. intros k s t Hk. left. exists t. induction keys as [|key keys IH]; simpl in *; [done|].
    apply lookup_delete_Some in Hk as [_ Hk]. auto.
  - destruct (vlookup key w) as [[[s|st|m] t]|] eqn:E; simpl; try reflexivity. case_bool_decide; apply stores_vk; intros k s t'.
    + intros [_ Hk]%lookup_delete_Some. left. eauto.
    + rewrite lookup_insert_Some. intros [[_ ?]|[_ ?]]; [done|left; eauto].
Qed.
Lemma exec_multi_stores cs w : stores (λ k s, Exists (λ c, cmd_stores c k s) cs) w (exec_multi cs w).2.
Proof.
  revert w. induction cs as [|c cs IH]; intros w; simpl; [reflexivity|].
  pose proof (exec_cmd_stores c w) as H1. destruct (exec_cmd c w) as [ok w1]. simpl in H1.
  pose proof (IH w1) as H2. destruct (exec_multi cs w1) as [ok' w2]. simpl in *. etrans.
  - eapply stores_mono; [|exact H1]. intros k s Hc. by left.
  - eapply stores_mono; [|exact H2]. intros k s Hc. by right.
Qed.
(** A first command that stores overwrites. *)
Lemma exec_multi_set key s ttl cs w s' :
  Forall (λ c, ∀ k s, ¬ cmd_stores c k s) cs → sess (exec_multi (SET key (VSession s) ttl :: cs) w).2 !! key = Some s' → s' = s.
Proof.
  intros Hcs. simpl. set (w1 := set_vk _ w). pose proof (exec_multi_stores cs w1) as (_ & _ & Hs). destruct (exec_multi cs w1) as [ok w2].
  simpl in *. intros Hk. destruct (Hs _ _ Hk) as [H1|Hex].
  - apply lookup_sess in H1 as (t & H1). unfold w1 in H1. simpl in H1. rewrite lookup_insert_eq in H1. congruence.
  - apply Exists_exists in Hex as (c & Hin & Hc). rewrite Forall_forall in Hcs. by destruct (Hcs c Hin key s').
Qed.

(** ** What the requests do to them *)

Lemma run_cmds_guar cs : pguar (stores (λ k s, Exists (λ c, cmd_stores c k s) cs)) (run_cmds cs).
Proof. apply pguar_bind; [|done]. apply pguar_call. apply exec_multi_stores. Qed.
Lemma run_cmds_removes cs : Forall (λ c, ∀ k s, ¬ cmd_stores c k s) cs → pguar removes (run_cmds cs).
Proof.
  intros Hcs. eapply pguar_mono; [|apply run_cmds_guar]. intros w w'. apply stores_mono. intros k s (c & Hin & Hc)%Exists_exists.
  rewrite Forall_forall in Hcs. by destruct (Hcs c Hin k s).
Qed.
Lemma Delete_guar u sid : pguar removes (DeleteRefreshSession u sid).
Proof. unfold DeleteRefreshSession. case_bool_decide; apply run_cmds_removes; repeat constructor; auto. Qed.
Lemma DeleteAll_guar u : pguar removes (DeleteAllRefreshSessions u).
Proof.
  apply pguar_bind; [apply pguar_call; reflexivity|]. intros [[m|]|]; [|done..].
  apply pguar_bind; [apply run_cmds_removes; repeat constructor; auto|]. intros [|]; [|done].
  apply run_cmds_removes; repeat constructor; auto.
Qed.
Definition set_cmds (u sid : string) (s : RefreshSess) (ttl : duration) : list vcmd :=
  SET (refreshKey u sid) (VSession s) ttl ::
  (if sid ≟ "" then [] else [SADD (refreshIndexKey u) sid; EXPIRE (refreshIndexKey u) ttl]).
Lemma Set_cmds u sid s ttl : SetRefreshSession u sid s ttl = run_cmds (set_cmds u sid s ttl).
Proof. unfold SetRefreshSession, set_cmds. case_bool_decide; by subst. Qed.
Lemma set_cmds_stores u sid s ttl w :
  stores (λ k s', k = refreshKey u sid ∧ s' = s) w (exec_multi (set_cmds u sid s ttl) w).2.
Proof.
  eapply stores_mono; [|apply exec_multi_stores]. intros k s'. unfold set_cmds. case_bool_decide;
    rewrite !Exists_cons, Exists_nil; simpl; naive_solver.
Qed.
Lemma set_cmds_overwrites u sid s ttl w s' :
  sess (exec_multi (set_cmds u sid s ttl) w).2 !! refreshKey u sid = Some s' → s' = s.
Proof. apply exec_multi_set. case_bool_decide; repeat constructor; auto. Qed.

Definition all_sess (Φ : string → RefreshSess → Prop) (w : sys) : Prop := ∀ k s, sess w !! k = Some s → Φ k s.
Lemma stores_all (St Φ : string → RefreshSess → Prop) w w' :
  (∀ k s, St k s → Φ k s) → stores St w w' → all_sess Φ w → all_sess Φ w'.
Proof. intros HS (_ & _ & H) Hw k s [Hs|Hs]%H; auto. Qed.
Lemma removes_prg {A} Φ (p : proc sys A) : pguar removes p → prg (all_sess Φ) p.
Proof. apply prg_of_guar. intros w w'. by apply stores_all. Qed.
Lemma read_clock_guar : pguar removes read_clock.
Proof. apply pguar_atom. reflexivity. Qed.

(** Reading a session: nothing, an error, one that is stored, or one with an empty token. *)
Definition read_from (P : RefreshSess → Prop) (got : option (option RefreshSess)) : Prop :=
  match got with Some (Some s) => s = MkSess "" 0 0 ∨ P s | _ => True end.
Lemma read_from_mono (P Q : RefreshSess → Prop) got : (∀ s, P s → Q s) → read_from P got → read_from Q got.
Proof. intros HPQ. destruct got as [[s|]|]; simpl; [|done..]. naive_solver. Qed.
Lemma get_reads u sid w :
  read_from (λ s, sess w !! refreshKey u sid = Some s)
    (match v_value <$> vlookup (refreshKey u sid) w with
     | Some (VSet _) => None | None => Some None | Some (VSession s) => Some (Some s) | Some (VPkce _) => Some (Some (MkSess "" 0 0))
     end).
Proof.
  destruct (vlookup _ w) as [[[s|st|m] t]|] eqn:E; simpl; [|by auto..]. right. by eapply vlookup_sess.
Qed.
Lemma get_guar u sid : pguar removes (GetRefreshSession u sid).
Proof. apply pguar_bind; [apply pguar_call; reflexivity|done]. Qed.
Lemma get_prg {B} (Φ : string → RefreshSess → Prop) u sid (k : option (option RefreshSess) → proc sys B) :
  (∀ got, read_from (Φ (refreshKey u sid)) got → prg (all_sess Φ) (k got)) → prg (all_sess Φ) (pbind (GetRefreshSession u sid) k).
Proof.
  intros Hk [| |]; cbn; [intros w Hw; split; [done|]|by apply Hk|intros w Hw; split; [done|by apply Hk]].
  apply Hk. eapply read_from_mono; [|apply get_reads]. intros s. apply Hw.
Qed.

Lemma get_pwp {B} R `{!PreOrder R} u sid (k : option (option RefreshSess) → proc sys B) w Q :
  (∀ w' got, R w w' → read_from (λ s, sess w' !! refreshKey u sid = Some s) got → pwp R (k got) w' Q) →
  pwp R (pbind (GetRefreshSession u sid) k) w Q.
Proof.
  intros Hk [| |]; cbn; [intros w' HR|apply Hk; [reflexivity|done]|intros w' HR; by apply Hk].
  apply Hk; [done|apply get_reads].
Qed.

Section requests.
Context (cfg : Config) (sign : jwtClaims → option string) (verified : string → option jwtClaims) (pg_uuid : string → option uuid).
Abbreviation serve := (serve cfg sign verified pg_uuid).

Lemma issue_guar u t role email g sid : pguar removes (issueSessionAccessToken cfg sign u t role email g sid).
Proof. apply pguar_bind; [apply read_clock_guar|done]. Qed.

(** Requests that store nothing. *)
Lemma EndSession_guar at_ : pguar removes (EndSession verified at_).
Proof.
  unfold EndSession. case_bool_decide; [done|]. destruct (verified at_); [|done]. case_bool_decide; [done|].
  apply pguar_bind; [apply Delete_guar|done].
Qed.

(** *** A request keeps what all sessions satisfy *)

Section keeps.
Context (Φ : string → RefreshSess → Prop) (d : draws).
Definition rotated (sid secret : string) (s : RefreshSess) : RefreshSess :=
  MkSess (sid +:+ "." +:+ secret) (rs_OriginalIAT s) (rs_MaxLifetimeAt s).
Definition accepts : Prop := ∀ secret u, randomToken (raw_secret d) = Some secret →
  (∀ sid s, sid ≠ "" → Φ (refreshKey u sid) s → Φ (refreshKey u sid) (rotated sid secret s)) ∧
  (∀ sid s, randomToken (raw_sid d) = Some sid → Φ (refreshKey u "") s → Φ (refreshKey u sid) (rotated sid secret s)) ∧
  (∀ sid o, randomToken (raw_sid d) = Some sid →
     Φ (refreshKey u sid) (MkSess (sid +:+ "." +:+ secret) o (o + maxLifetime cfg / Second))).
Context (Hacc : accepts).

Lemma set_prg {B} u sid s ttl (k : bool → proc sys B) :
  Φ (refreshKey u sid) s → (∀ b, prg (all_sess Φ) (k b)) → prg (all_sess Φ) (pbind (SetRefreshSession u sid s ttl) k).
Proof.
  intros Hs Hk. apply prg_bind; [|done]. rewrite Set_cmds. apply prg_bind; [|done]. apply prg_of_guar with (stores (λ k s', k = refreshKey u sid ∧ s' = s)).
  - intros w w'. apply stores_all. by intros ? ? [-> ->].
  - apply pguar_call. apply set_cmds_stores.
Qed.
Lemma rotate_prg u t role email g sid s :
  Φ (refreshKey u sid) s → prg (all_sess Φ) (rotate cfg sign d u t role email g sid s).
Proof using Hacc.
  intros Hs. unfold rotate. destruct (if sid ≟ "" then _ else _) as [newSID|] eqn:En; [|done].
  apply prg_bind; [apply removes_prg, issue_guar|]. intros [a|]; [|done]. destruct (randomToken (raw_secret d)) as [secret|] eqn:Es; [|done].
  apply set_prg.
  - destruct (Hacc secret u Es) as (H1 & H2 & _). case_bool_decide; [subst; by apply H2|]. injection En as <-. by apply H1.
  - intros [|]; [|done]. simpl. apply prg_bind; [|done]. case_bool_decide; [apply removes_prg, Delete_guar|done].
Qed.
Lemma found_prg claims role email g sid rt got :
  rt ≠ "" → read_from (Φ (refreshKey (c_Subject claims) sid)) got →
  prg (all_sess Φ) (refresh_found cfg sign d claims role email g sid rt got).
Proof using Hacc.
  intros Hrt Hs. destruct got as [[s|]|]; [|done..]. simpl. case_bool_decide as Hc; [|done]. destruct Hs as [->|Hs]; [done|]. simpl.
  intros w Hw. split; [done|]. case_match; [|by apply rotate_prg]. apply prg_bind; [apply removes_prg, Delete_guar|done].
Qed.
Lemma RefreshSession_prg at_ rt : prg (all_sess Φ) (RefreshSession cfg sign verified pg_uuid d at_ rt).
Proof using Hacc.
  unfold RefreshSession. case_bool_decide; [done|]. case_bool_decide; [done|]. destruct (verified at_) as [c|]; [|done].
  destruct (_ || _); [done|]. apply prg_bind; [apply removes_prg, pguar_call; reflexivity|]. intros [[u|]|]; [|done..].
  destruct (_ || _); [apply prg_bind; [apply removes_prg, DeleteAll_guar|done]|].
  unfold refresh_stored. destruct (_ && _); [done|]. apply get_prg. intros got Hgot. by apply found_prg.
Qed.
Lemma IssueSession_prg u t role email g : prg (all_sess Φ) (IssueSession cfg sign d u t role email g).
Proof using Hacc.
  unfold IssueSession, issueRefreshToken. apply prg_bind.
  - destruct (randomToken (raw_sid d)) as [sid|] eqn:E1; [|done]. destruct (randomToken (raw_secret d)) as [secret|] eqn:E2; [|done].
    apply prg_bind; [apply removes_prg, read_clock_guar|]. intros now. apply set_prg; [|by intros []].
    by apply (Hacc secret u E2).
  - intros [rt|]; [|done]. apply prg_bind; [apply removes_prg, issue_guar|done].
Qed.
Lemma Bump_prg t u : prg (all_sess Φ) (BumpGeneration pg_uuid t u).
Proof.
  apply prg_bind; [|intros [[g|]|]; [|done..]; apply prg_bind; [|done]; apply prg_bind; [apply removes_prg, DeleteAll_guar|done]].
  apply prg_of_guar with (λ w w', sess w' = sess w).
  - intros w w' E Hw k s. rewrite E. apply Hw.
  - apply pguar_call. intros w. unfold bump. destruct (pg_uuid u ≫= _) as [[id r]|]; [|done]. by destruct (_ && _).
Qed.
Lemma serve_prg r : prg (all_sess Φ) (serve d r).
Proof using Hacc.
  destruct r; cbn [Sessions.serve]; (apply prg_bind; [|done]).
  - apply IssueSession_prg.
  - apply RefreshSession_prg.
  - apply removes_prg, EndSession_guar.
  - apply Bump_prg.
  - apply removes_prg, DeleteAll_guar.
Qed.
End keeps.

(** *** A request stores at most one session *)

Section settles.
Context {X : Type} (Φ : X → string → RefreshSess → Prop) (d : draws).
Abbreviation I := (λ x, all_sess (Φ x)).
Definition settles : Prop := ∀ secret u, randomToken (raw_secret d) = Some secret →
  (∀ sid s, sid ≠ "" → (∀ x, Φ x (refreshKey u sid) s) → ∃ x, Φ x (refreshKey u sid) (rotated sid secret s)) ∧
  (∀ sid o m, randomToken (raw_sid d) = Some sid → ∃ x, Φ x (refreshKey u sid) (MkSess (sid +:+ "." +:+ secret) o m)).
Context (Hset : settles).

Lemma removes_once {A} (p : proc sys A) : pguar removes p → once I p.
Proof. intros Hp. apply prg_once. intros x. by apply removes_prg. Qed.
Lemma after_removes {A B} (m : proc sys A) (k : A → proc sys B) : pguar removes m → (∀ a, once I (k a)) → once I (pbind m k).
Proof. intros Hm Hk. apply once_after; [|done]. eapply pguar_mono; [|exact Hm]. intros w w' Hr x. by apply stores_all with (λ _ _, False). Qed.
Lemma set_once {B} u sid s ttl (k : bool → proc sys B) :
  (∃ x, Φ x (refreshKey u sid) s) → (∀ b, pguar removes (k b)) → once I (pbind (SetRefreshSession u sid s ttl) k).
Proof.
  intros [x Hx] Hk. rewrite Set_cmds. apply once_bind; [|intros y a; by apply removes_prg].
  apply once_bind; [|done]. intros [| |]; [|done|].
  all: intros w Hw; right; exists x; split; [|done].
  all: eapply stores_all; [|apply set_cmds_stores|apply Hw]; by intros ? ? [-> ->].
Qed.
Lemma rotate_once u t role email g sid s :
  (∀ x, Φ x (refreshKey u sid) s) → once I (rotate cfg sign d u t role email g sid s).
Proof using Hset.
  intros Hs. unfold rotate. destruct (if sid ≟ "" then _ else _) as [newSID|] eqn:En; [|done].
  apply after_removes; [apply issue_guar|]. intros [a|]; [|done]. destruct (randomToken (raw_secret d)) as [secret|] eqn:Es; [|done].
  apply set_once.
  - destruct (Hset secret u Es) as [H1 H2]. case_bool_decide; [by apply H2|]. injection En as <-. by apply H1.
  - intros [|]; [|done]. simpl. apply pguar_bind; [|done]. case_bool_decide; [apply Delete_guar|done].
Qed.
Lemma found_once claims role email g sid rt got :
  rt ≠ "" → read_from (λ s, ∀ x, Φ x (refreshKey (c_Subject claims) sid) s) got →
  once I (refresh_found cfg sign d claims role email g sid rt got).
Proof using Hset.
  intros Hrt Hs. destruct got as [[s|]|]; [|done..]. simpl. case_bool_decide as Hc; [|done]. destruct Hs as [->|Hs]; [done|]. simpl.
  intros w Hw. left. split; [done|]. case_match; [|by apply rotate_once]. apply removes_once, pguar_bind; [apply Delete_guar|done].
Qed.
Lemma get_once {B} u sid (k : option (option RefreshSess) → proc sys B) :
  (∀ got, read_from (λ s, ∀ x, Φ x (refreshKey u sid) s) got → once I (k got)) → once I (pbind (GetRefreshSession u sid) k).
Proof.
  intros Hk [| |]; cbn; [intros w Hw; left; split; [done|]|by apply Hk|intros w Hw; left; split; [done|by apply Hk]].
  apply Hk. eapply read_from_mono; [|apply get_reads]. intros s Hs x. by apply Hw.
Qed.
Lemma serve_once r : once I (serve d r).
Proof using Hset.
  destruct r as [u t role email g|at_ rt|at_|t u|u]; cbn [Sessions.serve]; (apply once_bind; [|done]).
  - unfold IssueSession, issueRefreshToken. apply once_bind; [|intros x [rt|]; [|done]; apply removes_prg, pguar_bind; [apply issue_guar|done]].
    destruct (randomToken (raw_sid d)) as [sid|] eqn:E1; [|done]. destruct (randomToken (raw_secret d)) as [secret|] eqn:E2; [|done].
    apply after_removes; [apply read_clock_guar|]. intros now. apply set_once; [|by intros []]. by apply (Hset secret u E2).
  - unfold RefreshSession. case_bool_decide; [done|]. case_bool_decide; [done|]. destruct (verified at_) as [c|]; [|done].
    destruct (_ || _); [done|]. apply after_removes; [apply pguar_call; reflexivity|]. intros [[u|]|]; [|done..].
    destruct (_ || _); [apply removes_once, pguar_bind; [apply DeleteAll_guar|done]|].
    unfold refresh_stored. destruct (_ && _); [done|]. apply get_once. intros got Hgot. by apply found_once.
  - apply removes_once, EndSession_guar.
  - apply prg_once. intros x. apply Bump_prg.
  - apply removes_once, DeleteAll_guar.
Qed.
End settles.
End requests.
