(* ===== verification/SessionSafety.v ===== *)
(** * Safety of sessions

    Requests of all kinds interleave over Valkey and the users table, while the
    clock moves, keys expire or are lost, and administrators change users.  The
    theorems hold for every interleaving: a token revoked by its generation never
    refreshes again, no refresh extends a session past its lifetime, and a rotated
    refresh token is dead.  Two examples show what the separate read and write of
    a refresh allow. *)

From Stdlib Require Import ZArith Lia Ascii.
From S2P Require Import Prelude GoText Sql Conc Sessions SessionFacts.
Open Scope Z_scope.
Set Default Proof Using "Type".

Section safety.
Context (cfg : Config) (sign : jwtClaims → option string) (verified : string → option jwtClaims) (pg_uuid : string → option uuid)
        (rnd : nat → draws) (* what the n-th request draws *)
        (old : list string) (* access tokens from before *).
Abbreviation serve := (serve cfg sign verified pg_uuid).

(** A token is presented after it was handed out: nobody can sign another. *)
Definition known (ps : list (proc sys answer)) (at_ : string) : Prop :=
  at_ ∈ old ∨ ∃ (j : nat) rt, ps !! j = Some (Done (Tokens at_ rt)).
(** A login follows the resolution of a user, whose row it has read. *)
Definition may_ask (w : sys) (ps : list (proc sys answer)) (r : request) : Prop :=
  match r with
  | Login u _ _ _ g => ∀ id, pg_uuid u = Some id → ∃ row, users w !! id = Some row ∧ g <= u_generation row
  | Refresh at_ _ | Logout at_ => ∀ c, verified at_ = Some c → known ps at_
  | Bump _ _ | Invalidate _ => True
  end.
Definition start (w : sys) (ps : list (proc sys answer)) (p : proc sys answer) : Prop :=
  ∃ r, p = serve (rnd (length ps)) r ∧ may_ask w ps r.

(** Generations only rise. *)
Definition rises (w w' : sys) : Prop :=
  ∀ id u, users w !! id = Some u → ∃ u', users w' !! id = Some u' ∧ u_generation u <= u_generation u'.
(** Time passes, keys may be lost, users change. *)
Definition env (w w' : sys) : Prop := clock w <= clock w' ∧ vk w' ⊆ vk w ∧ rises w w'.

Abbreviation config := (sys * list (proc sys answer))%type.
Abbreviation steps := (rtc (pool_any env start)).
(** One more request arrives. *)
Definition asked (c : config) (r : request) : config := (c.1, c.2 ++ [serve (rnd (length c.2)) r]).

(** [crypto/rand] does not repeat itself, and JWTs are what was signed. *)
Record randomness : Prop := {
  rnd_ok : ∀ i, draws_ok (rnd i);
  rnd_secret : ∀ i j l, raw_secret (rnd i) = Some l → raw_secret (rnd j) = Some l → i = j;
  rnd_sid : ∀ i j l, raw_sid (rnd i) = Some l → raw_sid (rnd j) = Some l → i = j
}.
Definition jwt_ok : Prop := ∀ c t, sign c = Some t → verified t = Some c.

#[local] Instance rises_preorder : PreOrder rises.
Proof.
  split; [intros w id u Hu; exists u; split; [done|lia]|]. intros w1 w2 w3 H1 H2 id u Hu.
  destruct (H1 id u Hu) as (u2 & Hu2 & ?). destruct (H2 id u2 Hu2) as (u3 & Hu3 & ?). exists u3. split; [done|lia].
Qed.

Lemma asked_answer (R : sys → sys → Prop) `{!PreOrder R} (Inv : config → Prop) c c' r a Q :
  (∀ l c1 c2, pool_step env start l c1 c2 → Inv c1 → Inv c2 ∧ R c1.1 c2.1) → Inv (asked c r) →
  pwp R (serve (rnd (length c.2)) r) c.1 Q → steps (asked c r) c' → c'.2 !! length c.2 = Some (Done a) → Q a c'.1.
Proof.
  intros Hstep Hinv Hp Hr Ha.
  destruct (steps_pwp env start R Inv _ _ (length c.2) _ Q Hstep Hr Hinv (list_lookup_middle _ _ _ _ eq_refl) Hp) as (_ & _ & p & Hp' & Hw).
  simplify_eq. apply (Hw c'.1). reflexivity.
Qed.

(** ** Every request *)

(** The tokens a request stores are made of the secret it draws. *)
Definition mints (d : draws) (rt : string) : Prop :=
  ∃ sid secret, randomToken (raw_secret d) = Some secret ∧ rt = sid +:+ "." +:+ secret.

Section guar.
Context (G : sys → sys → Prop) (d : draws) (HG : ∀ w w', stores (λ _ s, mints d (rs_Token s)) w w' → G w w').
Lemma guar_removes {A} (p : proc sys A) : pguar removes p → pguar G p.
Proof using HG. apply pguar_mono. intros w w' Hw. apply HG. eapply stores_mono; [|exact Hw]. done. Qed.
Lemma guar_set u sid s ttl : mints d (rs_Token s) → pguar G (SetRefreshSession u sid s ttl).
Proof using HG.
  intros Hs. rewrite Set_cmds. apply pguar_bind; [|done]. apply pguar_call. intros w. apply HG.
  eapply stores_mono; [|apply set_cmds_stores]. by intros k s' [_ ->].
Qed.
Lemma guar_query {A} (f : sys → A) : pguar G (call (λ w, (f w, w))).
Proof using HG. apply pguar_call. intros w. apply HG. reflexivity. Qed.
Lemma guar_rotate u t role email g sid s : pguar G (rotate cfg sign d u t role email g sid s).
Proof using HG.
  unfold rotate. destruct (if sid ≟ "" then _ else _) as [newSID|]; [|done]. apply pguar_bind; [apply guar_removes, issue_guar|].
  intros [a|]; [|done]. destruct (randomToken (raw_secret d)) as [secret|] eqn:E; [|done]. apply pguar_bind; [apply guar_set; by exists newSID, secret|].
  intros [|]; [|done]. apply pguar_bind; [|done]. case_bool_decide; [apply guar_removes, Delete_guar|done].
Qed.
Lemma guar_refresh at_ rt : pguar G (RefreshSession cfg sign verified pg_uuid d at_ rt).
Proof using HG.
  unfold RefreshSession. case_bool_decide; [done|]. case_bool_decide; [done|]. destruct (verified at_) as [c|]; [|done].
  destruct (_ || _); [done|]. apply pguar_bind; [apply guar_query|]. intros [[u|]|]; [|done..].
  destruct (_ || _); [apply pguar_bind; [apply guar_removes, DeleteAll_guar|done]|].
  unfold refresh_stored. destruct (_ && _); [done|]. apply pguar_bind; [apply guar_removes, get_guar|].
  intros [[s|]|]; [|done..]. simpl. case_bool_decide; [|done]. intros w. split; [apply HG; reflexivity|].
  case_match; [|apply guar_rotate]. apply pguar_bind; [apply guar_removes, Delete_guar|done].
Qed.
Lemma guar_bump t u : (∀ w t u, G w (bump pg_uuid t u w).2) → pguar G (BumpGeneration pg_uuid t u).
Proof using HG.
  intros Hb. apply pguar_bind; [by apply pguar_call|]. intros [[g|]|]; [|done..]. apply pguar_bind; [|done].
  apply pguar_bind; [apply guar_removes, DeleteAll_guar|done].
Qed.
Lemma guar_token u : pguar G (issueRefreshToken cfg d u).
Proof using HG.
  unfold issueRefreshToken.
  destruct (randomToken (raw_sid d)) as [sid|]; [|done]. destruct (randomToken (raw_secret d)) as [secret|] eqn:E; [|done].
  apply pguar_bind; [apply guar_removes, read_clock_guar|]. intros now. apply pguar_bind; [apply guar_set; by exists sid, secret|by intros []].
Qed.
Lemma guar_login u t role email g : pguar G (IssueSession cfg sign d u t role email g).
Proof using HG.
  apply pguar_bind; [apply guar_token|]. intros [rt|]; [|done]. apply pguar_bind; [apply guar_removes, issue_guar|done].
Qed.
Lemma guar_serve r : (∀ w t u, G w (bump pg_uuid t u w).2) → pguar G (serve d r).
Proof using HG.
  intros Hb. destruct r as [u t role email g|at_ rt|at_|t u|u]; cbn [Sessions.serve]; (apply pguar_bind; [|done]).
  - apply guar_login.
  - apply guar_refresh.
  - apply guar_removes, EndSession_guar.
  - by apply guar_bump.
  - apply guar_removes, DeleteAll_guar.
Qed.
End guar.

Lemma stores_rises St w w' : stores St w w' → rises w w'.
Proof. intros (E & _ & _) id u Hu. exists u. rewrite E. split; [done|lia]. Qed.
Lemma removes_rises {A} (p : proc sys A) : pguar removes p → pguar rises p.
Proof. apply pguar_mono. intros w w'. apply stores_rises. Qed.
Lemma bump_rises w t u : rises w (bump pg_uuid t u w).2.
Proof.
  unfold bump. destruct (pg_uuid u ≫= _) as [[id r]|] eqn:E; [|reflexivity]. destruct (_ && _); [|reflexivity]. simpl.
  apply bind_Some in E as (id' & _ & (r' & Hr & [= -> ->])%fmap_Some).
  intros id2 u2 Hu2. simpl. destruct (decide (id2 = id')) as [->|].
  - rewrite lookup_insert_eq. eexists. split; [done|]. simpl. simplify_eq. lia.
  - rewrite lookup_insert_ne by done. exists u2. split; [done|lia].
Qed.
Lemma guarded_asked R c r : (∀ d, pguar R (serve d r)) → guarded R c → guarded R (asked c r).
Proof. intros Hr Hg j p Hp. apply lookup_snoc_Some in Hp as [[_ Hp]|[_ <-]]; [by eapply Hg|done]. Qed.
Lemma serve_rises d r : pguar rises (serve d r).
Proof. apply guar_serve; [apply stores_rises|apply bump_rises]. Qed.

(** ** The course of a refresh

    It fails, or it has read a live user, a stored session with the presented
    token, and a clock before the session's end, and goes on to rotate. *)
Definition row_of (c : jwtClaims) (w : sys) : option UserRow := pg_uuid (c_Subject c) ≫= λ id, users w !! id.
Lemma refresh_course R `{!PreOrder R} d at_ rt w (Q : result SessionError (string * string) → sys → Prop) :
  (∀ w w', removes w w' → R w w') → (∀ e w', Q (Err e) w') →
  (∀ c u email s w1 w2 w3, let sid := default "" (splitRefreshToken rt) in
     verified at_ = Some c →
     R w w1 → row_of c w1 = Some u → CheckLifecycle (u_status u) = true → CheckGeneration (c_IdentityGeneration c) (u_generation u) = true →
     R w1 w2 → sess w2 !! refreshKey (c_Subject c) sid = Some s → rs_Token s = rt →
     R w2 w3 → (rs_MaxLifetimeAt s = 0 ∨ time_Unix (clock w3) <= rs_MaxLifetimeAt s) →
     pwp R (rotate cfg sign d (c_Subject c) (c_TenantID c) (u_role u) email (u_generation u) sid s) w3 Q) →
  pwp R (RefreshSession cfg sign verified pg_uuid d at_ rt) w Q.
Proof.
  intros Hrm Herr Hrot. assert (∀ A (p : proc sys A), pguar removes p → pguar R p) as Hg by (intros A p; by apply pguar_mono).
  unfold RefreshSession. case_bool_decide as Hrt; [by intros ? ?|]. case_bool_decide; [by intros ? ?|].
  destruct (verified at_) as [c|] eqn:Hc; [|by intros ? ?]. destruct (_ || _); [by intros ? ?|].
  apply pwp_query; [apply _| |by intros ? ? ? ?]. intros w1 HR1. fold (row_of c w1). destruct (row_of c w1) as [u|] eqn:Hu; [|by intros ? ?].
  destruct (_ || _) eqn:Hchk. { apply pwp_skip; [apply _|apply Hg, DeleteAll_guar|]. by intros ? ? ? ? ?. }
  apply orb_false_iff in Hchk as [Hl%negb_false_iff Hge%negb_false_iff].
  unfold refresh_stored. destruct (_ && _); [by intros ? ?|]. apply get_pwp; [apply _|]. intros w2 got HR2 Hgot.
  destruct got as [[s|]|]; [|by intros ? ?..]. cbn [refresh_found]. case_bool_decide as Hcmp; [|by intros ? ?]. cbn [negb].
  destruct Hgot as [->|Hs]; [done|]. intros w3 HR3. cbn. destruct (_ && _) eqn:Hcap.
  { apply pwp_skip; [apply _|apply Hg, Delete_guar|]. by intros ? ? ? ? ?. }
  eapply Hrot; [done..|]. apply andb_false_iff in Hcap as [Hz|Hz]; [left|right].
  - by apply negb_false_iff, Z.eqb_eq in Hz.
  - by apply Z.ltb_ge in Hz.
Qed.

(** ** Revocation *)

(** The token's generation has been reached. *)
Definition tok_ok (w : sys) (at_ : string) : Prop :=
  ∀ c id, verified at_ = Some c → pg_uuid (c_Subject c) = Some id → ∃ u, users w !! id = Some u ∧ c_IdentityGeneration c <= u_generation u.
Definition answer_ok (a : answer) (w : sys) : Prop := match a with Tokens at_ _ => tok_ok w at_ | Answered => True end.

Lemma tok_ok_rises w w' at_ : rises w w' → tok_ok w at_ → tok_ok w' at_.
Proof.
  intros HR Ht c id Hc Hid. destruct (Ht c id Hc Hid) as (u & Hu & ?). destruct (HR id u Hu) as (u' & Hu' & ?).
  exists u'. split; [done|lia].
Qed.

Section tokens.
Context (Hjwt : jwt_ok).

Lemma signed_ok w t role email g sid u now exp at_ :
  (∀ id, pg_uuid u = Some id → ∃ row, users w !! id = Some row ∧ g <= u_generation row) →
  sign (MkClaims t role email g sid u (JWTIssuer cfg) now exp) = Some at_ → tok_ok w at_.
Proof using Hjwt. intros Hg Hs%Hjwt c id Hc Hid. rewrite Hs in Hc. injection Hc as <-. by apply Hg. Qed.

Lemma rotate_tokens d u t role email g sid s w :
  (∀ id, pg_uuid u = Some id → ∃ row, users w !! id = Some row ∧ g <= u_generation row) →
  pwp rises (rotate cfg sign d u t role email g sid s) w (λ r w', match r with Ok (at_, _) => tok_ok w' at_ | Err _ => True end).
Proof using Hjwt.
  intros Hg. unfold rotate. destruct (if sid ≟ "" then _ else _) as [newSID|]; [|by intros ? ?].
  apply pwp_bind; [apply _|]. intros w1 HR1 w2 HR2.
  destruct (sign _) as [at_|] eqn:Hs; [|by intros ? ?]. destruct (randomToken (raw_secret d)) as [secret|] eqn:E; [|by intros ? ?].
  assert (tok_ok w2 at_) as Htok.
  { simpl in HR2. apply (tok_ok_rises w); [by etrans|]. eapply signed_ok; [exact Hg|exact Hs]. }
  apply pwp_skip; [apply _|apply (guar_set _ d (stores_rises _)); by exists newSID, secret|]. intros [|] w3 HR3; [|by intros ? ?]. simpl.
  apply pwp_skip; [apply _|case_bool_decide; [apply removes_rises, Delete_guar|done]|]. intros _ w4 HR4 w5 HR5.
  eapply tok_ok_rises; [|exact Htok]. etrans; [exact HR3|]. by etrans.
Qed.
Lemma refresh_tokens d at_ rt w :
  pwp rises (RefreshSession cfg sign verified pg_uuid d at_ rt) w (λ r w', match r with Ok (at_, _) => tok_ok w' at_ | Err _ => True end).
Proof using Hjwt.
  apply refresh_course; [apply _|intros ? ?; apply stores_rises|done|]. intros c u email s w1 w2 w3 sid _ _ Hu _ _ HR2 _ _ HR3 _.
  apply bind_Some in Hu as (id & Hid & Hu). apply rotate_tokens. intros id' Hid'. simplify_eq.
  destruct (HR2 id u Hu) as (u2 & Hu2 & ?). destruct (HR3 id u2 Hu2) as (u3 & ? & ?). exists u3. split; [done|lia].
Qed.
Lemma serve_tokens d r w ps : may_ask w ps r → pwp rises (serve d r) w answer_ok.
Proof using Hjwt.
  intros Hm. destruct r as [u t role email g|at_ rt|at_|t u|u]; cbn [Sessions.serve] in *.
  - apply pwp_bind; [apply _|]. apply pwp_skip; [apply _| |].
    { apply (guar_token _ d (stores_rises _)). }
    intros [rt|] w1 HR1; [|by intros ? ? ? ?]. intros w2 HR2 w3 HR3. destruct (sign _) as [at_|] eqn:Hs; [|by intros ? ?].
    intros w4 HR4. eapply tok_ok_rises; [exact HR4|]. eapply tok_ok_rises; [exact HR3|]. eapply signed_ok; [|exact Hs].
    intros id Hid. destruct (Hm id Hid) as (row & Hrow & ?). assert (rises w w2) as HR by by etrans.
    destruct (HR id row Hrow) as (row' & ? & ?). exists row'. split; [done|lia].
  - apply pwp_bind; [apply _|]. eapply pwp_mono; [|apply refresh_tokens]. intros [[a b]|e] w1 Ha w2 HR2; [|done].
    by eapply tok_ok_rises.
  - apply pwp_skip; [apply _|apply removes_rises, EndSession_guar|by intros ? ? ? ? ?].
  - apply pwp_skip; [apply _|apply (guar_bump _ d (stores_rises _)), bump_rises|by intros ? ? ? ? ?].
  - apply pwp_skip; [apply _|apply removes_rises, DeleteAll_guar|by intros ? ? ? ? ?].
Qed.

Lemma serve_promised w ps p : start w ps p → pguar rises p ∧ pwp rises p w answer_ok.
Proof using Hjwt. intros (r & -> & Hm). split; [apply serve_rises|by eapply serve_tokens]. Qed.
Lemma env_rises w w' : env w w' → rises w w'.
Proof. by intros (_ & _ & ?). Qed.
Lemma promised_steps c c' : steps c c' → promised rises (λ _, answer_ok) c → promised rises (λ _, answer_ok) c' ∧ rises c.1 c'.1.
Proof using Hjwt.
  induction 1 as [c|c1 c2 c3 [l Hs] _ IH]; intros Hp; [split; [done|reflexivity]|].
  destruct (promised_step env start rises (λ _, answer_ok) l c1 c2 env_rises serve_promised Hs Hp) as [Hp2 HR].
  destruct (IH Hp2) as [Hp3 HR3]. split; [done|by etrans].
Qed.
Lemma known_ok w0 c at_ : (∀ t, t ∈ old → tok_ok w0 t) → steps (w0, []) c → known c.2 at_ → tok_ok c.1 at_.
Proof using Hjwt.
  intros Hold Hr Hk. destruct (promised_steps _ _ Hr) as [[_ Hp] HR]; [by split|]. destruct Hk as [Hin|(j & rt & Hj)].
  - by eapply tok_ok_rises; [|apply Hold].
  - specialize (Hp _ _ Hj c.1). apply Hp. reflexivity.
Qed.
End tokens.

Lemma rises_guarded l c1 c2 : pool_step env start l c1 c2 → guarded rises c1 → guarded rises c2 ∧ rises c1.1 c2.1.
Proof.
  apply guarded_step; [apply _|by intros w w' (_ & _ & ?)|]. intros p (r & -> & _). apply serve_rises.
Qed.
Lemma refresh_revoked d at_ rt w c id u :
  verified at_ = Some c → pg_uuid (c_Subject c) = Some id → users w !! id = Some u →
  c_IdentityGeneration c ≠ 0 → c_IdentityGeneration c < u_generation u →
  pwp rises (serve d (Refresh at_ rt)) w (λ a _, a = Answered).
Proof.
  intros Hc Hid Hu Hz Hlt. cbn [Sessions.serve]. apply pwp_bind; [apply _|].
  apply refresh_course; [apply _|intros ? ?; apply stores_rises|by intros ? ? ? ?|].
  intros c' u1 email s w1 w2 w3 sid Hc' HR1 Hu1 _ Hge. exfalso. simplify_eq. unfold row_of in Hu1. rewrite Hid in Hu1.
  destruct (HR1 id u Hu) as (u1' & Hu1' & Hle). simpl in Hu1. simplify_eq. unfold CheckGeneration in Hge.
  rewrite (proj2 (Z.eqb_neq _ _) Hz), (proj2 (Z.ltb_lt _ _)) in Hge by lia. done.
Qed.

(** C14: a revoked token is dead.  When the generation of a user rises, by an
    administrator's request or otherwise, every access token handed out before
    that carries a generation is useless for a refresh from then on: whatever
    refresh token comes with it, however the requests interleave and fail, and
    whatever sessions are still stored. *)
Theorem revoked_tokens_stay_dead (w0 : sys) (c0 c1 c2 c3 : config) (at_ rt : string) (c : jwtClaims) (id : uuid) (u u' : UserRow) (a : answer) :
  jwt_ok → (∀ t, t ∈ old → tok_ok w0 t) → steps (w0, []) c0 →
  known c0.2 at_ → verified at_ = Some c → pg_uuid (c_Subject c) = Some id → c_IdentityGeneration c ≠ 0 →
  users c0.1 !! id = Some u → pool_any env start c0 c1 → users c1.1 !! id = Some u' → u_generation u < u_generation u' →
  steps c1 c2 → steps (asked c2 (Refresh at_ rt)) c3 →
  c3.2 !! length c2.2 = Some (Done a) → a = Answered.
Proof.
  intros Hjwt Hold Hr0 Hk Hc Hid Hz Hu Hs1 Hu' Hlt Hr2 Hr3 Ha.
  pose proof (known_ok Hjwt _ _ _ Hold Hr0 Hk c id Hc Hid) as (u0 & Hu0 & Hle). simplify_eq.
  assert (steps (w0, []) c2) as Hr. { etrans; [exact Hr0|]. eapply rtc_l; [exact Hs1|exact Hr2]. }
  destruct (promised_steps Hjwt _ _ Hr) as [[Hg _] _]; [by split|].
  destruct (promised_steps Hjwt c1 c2 Hr2) as [_ HR12].
  { apply (promised_steps Hjwt (w0, []) c1); [eapply rtc_r; [exact Hr0|exact Hs1]|by split]. }
  destruct (HR12 id u' Hu') as (u2 & Hu2 & Hle2).
  assert (guarded rises (asked c2 (Refresh at_ rt))) as Hg2.
  { apply guarded_asked; [|done]. intros d. apply serve_rises. }
  assert (c_IdentityGeneration c < u_generation u2) as Hlt2 by lia.
  exact (asked_answer rises _ c2 c3 _ a (λ a _, a = Answered) rises_guarded Hg2 (refresh_revoked _ at_ rt c2.1 c id u2 Hc Hid Hu2 Hz Hlt2) Hr3 Ha).
Qed.

(** ** Lifetime *)

(** The session at [K] has this start and end. *)
Definition life (K : string) (x : Z * Z) (k : string) (s : RefreshSess) : Prop := k = K → (rs_OriginalIAT s, rs_MaxLifetimeAt s) = x.
Definition owns (K : string) (i : nat) : Prop := ∃ u sid, randomToken (raw_sid (rnd i)) = Some sid ∧ K = refreshKey u sid.
(** No session is stored under an id, or with a secret, that is yet to be drawn. *)
Definition fresh (w0 : sys) : Prop :=
  (∀ K i, owns K i → sess w0 !! K = None) ∧ (∀ K s i, sess w0 !! K = Some s → ¬ mints (rnd i) (rs_Token s)).

Lemma env_keeps Φ w w' : env w w' → all_sess Φ w → all_sess Φ w'.
Proof.
  intros (_ & Hsub & _) Hw k s (t & Hk)%lookup_sess. apply Hw, lookup_sess. exists t. by eapply lookup_weaken.
Qed.
Lemma kept_steps Φ c c' :
  (∀ i, length c.2 ≤ i → accepts cfg Φ (rnd i))%nat → steps c c' → kept (all_sess Φ) c → kept (all_sess Φ) c'.
Proof.
  intros Hacc Hr Hk. revert Hacc. induction Hr as [|c1 c2 c3 [l Hs] _ IH]; intros Hacc; [done|]. apply IH.
  - eapply kept_step; [apply env_keeps| |exact Hs|done]. intros p (r & -> & _). apply serve_prg. apply Hacc. lia.
  - intros i Hi. apply Hacc. pose proof (step_length _ _ _ _ _ Hs). lia.
Qed.

Section random.
Context (Hrnd : randomness).
Lemma owns_unique K i j : owns K i → owns K j → i = j.
Proof using Hrnd.
  intros (u & sid & Hi & ->) (u' & sid' & Hj & E). apply refreshKey_inj in E as [-> ->]; [|by eapply sid_valid; [apply Hrnd|]..].
  pose proof Hi as (li & Eli & _)%fmap_Some. pose proof Hj as (lj & Elj & _)%fmap_Some.
  apply (rnd_sid Hrnd i j li); [done|]. destruct (rnd_ok Hrnd i) as [Hoi _], (rnd_ok Hrnd j) as [Hoj _].
  destruct (Hoi _ Eli), (Hoj _ Elj). rewrite Eli in Hi. rewrite Elj in Hj. rewrite Elj. f_equal. symmetry. by eapply (randomToken_inj 16).
Qed.
Lemma life_accepts K x i : ¬ owns K i → accepts cfg (life K x) (rnd i).
Proof.
  intros Ho secret u Hsec. split_and!.
  - intros sid s _ Hs HK. by apply Hs.
  - intros sid s Hsid _ HK. destruct Ho. by exists u, sid.
  - intros sid o Hsid HK. destruct Ho. by exists u, sid.
Qed.
Lemma life_settles K i : settles (life K) (rnd i).
Proof.
  intros secret u Hsec. split; [intros sid s _ _|intros sid o m _]; eexists; by intros _.
Qed.

(** From the first store on, the session's life is settled. *)
Definition settled (K : string) (x : Z * Z) (c : config) : Prop :=
  kept (all_sess (life K x)) c ∧ ∀ i, (length c.2 ≤ i)%nat → ¬ owns K i.
Lemma settled_step K x l c c' : pool_step env start l c c' → settled K x c → settled K x c'.
Proof.
  intros Hs [Hk Ho]. pose proof (step_length _ _ _ _ _ Hs). split; [|intros i Hi; apply Ho; lia].
  eapply (kept_steps _ c); [intros i Hi; by apply life_accepts, Ho|by apply rtc_once; exists l|done].
Qed.
Lemma settled_asked K x c r : settled K x c → settled K x (asked c r).
Proof.
  intros [[Hi Hk] Ho]. split; [split; [done|]|].
  - intros j p Hp. apply lookup_snoc_Some in Hp as [[_ Hp]|[_ <-]]; [by eapply Hk|]. by apply serve_prg, life_accepts, Ho.
  - intros i. simpl. rewrite length_app. intros Hi'. apply Ho. lia.
Qed.
Lemma life_unowned w0 c K s :
  (∀ i, ¬ owns K i) → steps (w0, []) c → sess c.1 !! K = Some s → settled K (rs_OriginalIAT s, rs_MaxLifetimeAt s) c.
Proof.
  intros Ho Hr Hs. split; [|auto].
  set (x0 := match sess w0 !! K with Some s0 => (rs_OriginalIAT s0, rs_MaxLifetimeAt s0) | None => (rs_OriginalIAT s, rs_MaxLifetimeAt s) end).
  assert (kept (all_sess (life K x0)) c) as Hk.
  { eapply kept_steps; [|exact Hr|split; [|done]]; [intros i _; by apply life_accepts|]. intros k s0 Hs0 ->. simpl in Hs0. unfold x0. by rewrite Hs0. }
  assert (x0 = (rs_OriginalIAT s, rs_MaxLifetimeAt s)) as <-; [|done]. symmetry. by apply (proj1 Hk K s Hs).
Qed.
Lemma life_owned w0 c K i s :
  owns K i → fresh w0 → steps (w0, []) c → sess c.1 !! K = Some s → settled K (rs_OriginalIAT s, rs_MaxLifetimeAt s) c.
Proof using Hrnd.
  intros Ho Hf Hr Hs. assert (born (λ x, all_sess (life K x)) i c) as [(Hlt & x & Hk)|[Hall _]].
  - eapply (steps_keep env start); [|exact Hr|].
    + intros l c1 c2 Hst. eapply (born_step env start); [intros x; apply env_keeps|..|exact Hst].
      * intros x w ps p (r & -> & _) Hne. apply serve_prg, life_accepts. intros Ho'. apply Hne. by apply (owns_unique K).
      * intros w ps p (r & -> & _) _. apply serve_once, life_settles.
    + right. split; [|done]. intros x. split; [|done]. intros k s0 Hk ->. simpl in Hk. by rewrite (proj1 Hf K i Ho) in Hk.
  - assert (x = (rs_OriginalIAT s, rs_MaxLifetimeAt s)) as -> by (symmetry; by apply (proj1 Hk K s Hs)).
    split; [done|]. intros j Hj Hoj. pose proof (owns_unique K i j Ho Hoj). lia.
  - exfalso. pose proof (proj1 (Hall (rs_OriginalIAT s + 1, 0)) K s Hs eq_refl) as [= E _]. lia.
Qed.
(** Whether somebody owns the key does not matter to what can be observed. *)
Lemma life_settled w0 c K s (P : Prop) `{!Decision P} :
  fresh w0 → steps (w0, []) c → sess c.1 !! K = Some s → (settled K (rs_OriginalIAT s, rs_MaxLifetimeAt s) c → P) → P.
Proof using Hrnd.
  intros Hf Hr Hs HP. apply dec_stable. intros HnP. apply HnP, HP, (life_unowned w0); [|done..].
  intros i Hi. apply HnP, HP. by apply (life_owned w0 c K i s).
Qed.
End random.

(** A refresh of a session that has reached its end. *)
Definition over (K : string) (x : Z * Z) (w : sys) : Prop := all_sess (life K x) w ∧ x.2 < time_Unix (clock w).
Definition stays (P : sys → Prop) (w w' : sys) : Prop := P w → P w'.
#[local] Instance stays_preorder P : PreOrder (stays P).
Proof. split; [intros w H; exact H|]. intros w1 w2 w3 H1 H2 H. by apply H2, H1. Qed.
Lemma removes_over K x w w' : removes w w' → stays (over K x) w w'.
Proof. intros Hr [Hl Hc]. pose proof Hr as (_ & E & _). split; [by eapply stores_all; [|exact Hr|]|by rewrite E]. Qed.

Lemma refresh_over d at_ rt c w K x :
  verified at_ = Some c → refreshKey (c_Subject c) (default "" (splitRefreshToken rt)) = K → x.2 ≠ 0 → over K x w →
  pwp (stays (over K x)) (serve d (Refresh at_ rt)) w (λ a _, a = Answered).
Proof.
  intros Hc HK Hz Hw. cbn [Sessions.serve]. apply pwp_bind; [apply _|].
  apply refresh_course; [apply _|intros ? ?; apply removes_over|by intros ? ? ? ?|].
  intros c' u email s w1 w2 w3 sid Hc' HR1 _ _ _ HR2 Hs _ HR3 Hcap. exfalso. simplify_eq.
  destruct (HR2 (HR1 Hw)) as [Hl _], (HR3 (HR2 (HR1 Hw))) as [_ Hover]. specialize (Hl _ _ Hs eq_refl). destruct x. simplify_eq/=. lia.
Qed.

Definition ticks (w w' : sys) : Prop := clock w <= clock w'.
#[local] Instance ticks_preorder : PreOrder ticks.
Proof. unfold ticks. split; [intros w; lia|intros w1 w2 w3; lia]. Qed.
Lemma serve_ticks d r : pguar ticks (serve d r).
Proof.
  apply guar_serve; [intros w w' (_ & E & _); unfold ticks; lia|]. intros w t u. unfold ticks, bump.
  destruct (pg_uuid u ≫= _) as [[id row]|]; [|reflexivity]. by destruct (_ && _).
Qed.
Lemma ticks_guarded l c1 c2 : pool_step env start l c1 c2 → guarded ticks c1 → guarded ticks c2 ∧ ticks c1.1 c2.1.
Proof. apply guarded_step; [apply _|by intros w w' (? & _)|]. intros p (r & -> & _). apply serve_ticks. Qed.
Lemma ticks_steps c c' : steps c c' → guarded ticks c → guarded ticks c'.
Proof. intros Hr. apply (steps_keep env start); [|done]. intros l c1 c2 Hs Hg. by apply (ticks_guarded l c1 c2). Qed.
Lemma time_Unix_mono t t' : t <= t' → time_Unix t <= time_Unix t'.
Proof. unfold time_Unix. intros Ht. pose proof (Z.div_le_mono t t' Second). unfold Second in *. lia. Qed.

(** C16: a session's lifetime is fixed when it starts.  Whatever requests run,
    interleaved and failing, the start and the end of a stored session are never
    moved; once its end has passed, no refresh on its key succeeds, whatever it
    presents; and the end is one lifetime after the start for every session that
    this service started. *)
Theorem session_lifetime_fixed (w0 : sys) (c1 c2 : config) (K : string) (s : RefreshSess) :
  randomness → fresh w0 → steps (w0, []) c1 → sess c1.1 !! K = Some s → steps c1 c2 →
  (∀ s', sess c2.1 !! K = Some s' → rs_OriginalIAT s' = rs_OriginalIAT s ∧ rs_MaxLifetimeAt s' = rs_MaxLifetimeAt s) ∧
  (∀ c3 at_ rt c a, verified at_ = Some c → refreshKey (c_Subject c) (default "" (splitRefreshToken rt)) = K →
     rs_MaxLifetimeAt s ≠ 0 → rs_MaxLifetimeAt s < time_Unix (clock c2.1) →
     steps (asked c2 (Refresh at_ rt)) c3 → c3.2 !! length c2.2 = Some (Done a) → a = Answered) ∧
  (sess w0 = ∅ → rs_MaxLifetimeAt s = rs_OriginalIAT s + maxLifetime cfg / Second).
Proof.
  intros Hrnd Hf Hr1 Hs Hr2. remember (rs_OriginalIAT s, rs_MaxLifetimeAt s) as x eqn:Ex. split_and!.
  - intros s' Hs'. apply (life_settled Hrnd w0 c1 K s); [by apply and_dec; apply Z.eq_dec|done..|]. rewrite <-Ex. intros Hset.
    pose proof (steps_keep env start (settled K x) c1 c2 (settled_step K x) Hr2 Hset) as [[Hl _] _].
    pose proof (Hl K s' Hs' eq_refl) as Hx. rewrite Ex in Hx. by injection Hx.
  - intros c3 at_ rt c a Hc HK Hz Hlt Hr3 Ha. replace (rs_MaxLifetimeAt s) with x.2 in Hz, Hlt by (by rewrite Ex).
    apply (life_settled Hrnd w0 c1 K s); [destruct a; [right|left]; done|done..|]. rewrite <-Ex. intros Hset.
    pose proof (steps_keep env start (settled K x) c1 c2 (settled_step K x) Hr2 Hset) as Hset2.
    assert (guarded ticks c2) as Hg2. { apply (ticks_steps (w0, [])); [etrans; [exact Hr1|exact Hr2]|done]. }
    refine (asked_answer (stays (over K x)) (λ d, settled K x d ∧ guarded ticks d ∧ over K x d.1) c2 c3 (Refresh at_ rt) a (λ a _, a = Answered) _ _ _ Hr3 Ha).
    + intros l d1 d2 Hs12 (Hset1 & Hg & Ho). destruct (ticks_guarded _ _ _ Hs12 Hg) as [Hgd Ht].
      pose proof (settled_step _ _ _ _ _ Hs12 Hset1) as Hsd. assert (over K x d2.1) as Hod; [|by split; [|intros _]].
      split; [apply Hsd|]. destruct Ho as [_ Ho]. pose proof (time_Unix_mono _ _ Ht). lia.
    + split_and!; [by apply settled_asked|apply guarded_asked; [intros d; apply serve_ticks|done]|]. split; [apply Hset2|done].
    + eapply refresh_over; [done..|]. split; [apply Hset2|done].
  - intros He. set (Φ := λ (_ : string) s, rs_MaxLifetimeAt s = rs_OriginalIAT s + maxLifetime cfg / Second).
    assert (kept (all_sess Φ) c1) as [Hk _]; [|by apply (Hk K s Hs)]. eapply kept_steps; [|exact Hr1|].
    + intros i _ secret u Hsec. split_and!; [by intros sid s0 _|by intros sid s0 _|done].
    + split; [|done]. intros k s0 Hs0. simpl in Hs0. by rewrite He, lookup_empty in Hs0.
Qed.

(** ** Rotation *)

(** Only [K] holds this token; none does; none is stored with it. *)
Definition only (rt K k : string) (s : RefreshSess) : Prop := rs_Token s = rt → k = K.
Definition dead_token (rt : string) (w : sys) : Prop := all_sess (λ _ s, rs_Token s ≠ rt) w.
Definition no_store (rt : string) (w w' : sys) : Prop :=
  ∀ k s, sess w' !! k = Some s → sess w !! k = Some s ∨ rs_Token s ≠ rt.
#[local] Instance no_store_preorder rt : PreOrder (no_store rt).
Proof. split; [intros w k s; auto|]. intros w1 w2 w3 H1 H2 k s [Hs|]%H2; auto. Qed.
Lemma no_store_only rt K w w' : no_store rt w w' → all_sess (only rt K) w → all_sess (only rt K) w'.
Proof. intros HR Hw k s [Hs|Hs]%HR Ht; [by apply (Hw k s)|done]. Qed.
Lemma no_store_dead rt w w' : no_store rt w w' → dead_token rt w → dead_token rt w'.
Proof. intros HR Hw k s [Hs|Hs]%HR; [by apply (Hw k s)|done]. Qed.
Lemma stores_no_store rt St w w' : (∀ k s, St k s → rs_Token s ≠ rt) → stores St w w' → no_store rt w w'.
Proof. intros HS (_ & _ & H) k s [Hs|Hs]%H; eauto. Qed.
Lemma removes_no_store {A} rt (p : proc sys A) : pguar removes p → pguar (no_store rt) p.
Proof. apply pguar_mono. intros w w'. by apply stores_no_store. Qed.
Lemma serve_no_store rt d r : ¬ mints d rt → pguar (no_store rt) (serve d r).
Proof.
  intros Hd. apply guar_serve.
  - intros w w'. apply stores_no_store. intros k s Hm E. by rewrite E in Hm.
  - intros w t u k s. unfold bump. destruct (pg_uuid u ≫= _) as [[id row]|]; [|auto]. destruct (_ && _); auto.
Qed.

(** The answers hand out tokens made of the request's secret. *)
Definition handed (d : draws) (a : answer) : Prop :=
  match a with Tokens _ rt => mints d rt ∧ is_Some (splitRefreshToken rt) | Answered => True end.
Lemma rotate_mints d u t role email g rt0 s w : draws_ok d →
  pwp anyhow (rotate cfg sign d u t role email g (default "" (splitRefreshToken rt0)) s) w
    (λ r _, match r with Ok (_, rt) => mints d rt ∧ is_Some (splitRefreshToken rt) | Err _ => True end).
Proof.
  intros Hd. unfold rotate. set (sid := default "" _). destruct (if sid ≟ "" then _ else _) as [newSID|] eqn:En; [|by intros ? ?].
  apply pwp_skip; [apply _|apply pguar_anyhow|]. intros [a|] w1 _; [|by intros ? ?].
  destruct (randomToken (raw_secret d)) as [secret|] eqn:Es; [|by intros ? ?].
  apply pwp_skip; [apply _|apply pguar_anyhow|]. intros [|] w2 _; [|by intros ? ?].
  apply pwp_skip; [apply _|apply pguar_anyhow|]. intros _ w3 _ w4 _. split; [by exists newSID, secret|].
  rewrite split_issued; [done|]. case_bool_decide as Hsid; [by eapply sid_valid|]. injection En as <-. unfold sid in *.
  unfold splitRefreshToken in *. destruct (cut_on _ _) as [[l1 l2]|]; [|done]. by destruct (validSessionID _) eqn:E.
Qed.
Lemma serve_mints d r w : draws_ok d → pwp anyhow (serve d r) w (λ a _, handed d a).
Proof.
  intros Hd. destruct r as [u t role email g|at_ rt|at_|t u|u]; cbn [Sessions.serve]; [| |apply pwp_skip; [apply _|apply pguar_anyhow|by intros ? ? ? ? ?]..].
  - apply pwp_bind; [apply _|]. apply pwp_bind; [apply _|].
    assert (pwp anyhow (issueRefreshToken cfg d u) w (λ r _, ∀ rt, r = Some rt → mints d rt ∧ is_Some (splitRefreshToken rt))) as Hi.
    { unfold issueRefreshToken. destruct (randomToken (raw_sid d)) as [sid|] eqn:E1; [|by intros ? ?].
      destruct (randomToken (raw_secret d)) as [secret|] eqn:E2; [|by intros ? ?].
      apply pwp_skip; [apply _|apply pguar_anyhow|]. intros now w1 _.
      apply pwp_skip; [apply _|apply pguar_anyhow|]. intros [|] w2 _ w3 _ rt; [|done]. intros [= <-].
      split; [by exists sid, secret|]. rewrite split_issued; [done|]. by eapply sid_valid. }
    eapply pwp_mono; [|exact Hi]. intros [rt|] w1 Hrt; [|by intros ? ? ? ?]. destruct (Hrt rt eq_refl) as [Hm Hsp].
    apply pwp_skip; [apply _|apply pguar_anyhow|]. intros [a|] w2 _; by intros ? ? ? ?.
  - apply pwp_bind; [apply _|]. apply refresh_course; [apply _|done|by intros ? ? ? ?|]. intros.
    eapply pwp_mono; [|by apply rotate_mints]. intros [[a b]|e] w4 Hr; by intros ? ?.
Qed.

Section rotation.
Context (Hrnd : randomness) (j : nat) (rt : string) (Hrt : mints (rnd j) rt).
Lemma mints_unique i : mints (rnd i) rt → i = j.
Proof using Hrnd Hrt.
  intros (sid & secret & Hi & E). destruct Hrt as (sid' & secret' & Hj & E').
  pose proof Hi as (li & Eli & ->)%fmap_Some. pose proof Hj as (lj & Elj & ->)%fmap_Some.
  destruct (rnd_ok Hrnd i) as [_ Hoi], (rnd_ok Hrnd j) as [_ Hoj]. destruct (Hoi _ Eli) as [Hbi Hli], (Hoj _ Elj) as [Hbj Hlj].
  rewrite E in E'. apply (f_equal bytes) in E'. rewrite !bytes_app, !bytes_of_bytes in E'.
  apply (rnd_secret Hrnd i j li); [done|]. rewrite Elj. f_equal. rewrite !app_assoc in E'.
  apply app_inj_2 in E' as [_ E']; [|apply b64_length; congruence]. apply b64_inj; [done..|congruence|done].
Qed.
Lemma only_settles i : settles (only rt) (rnd i).
Proof. clear. intros secret u Hsec. split; [intros sid s _ _|intros sid o m _]; by eexists. Qed.
Lemma only_accepts i K : i ≠ j → accepts cfg (only rt K) (rnd i).
Proof using Hrnd Hrt.
  intros Hne secret u Hsec. split_and!; intros sid; intros; intros E; destruct Hne; apply mints_unique; rewrite <-E; by exists sid, secret.
Qed.
(** Once handed out, the token is stored in one place at most. *)
Lemma only_reached w0 c at_ : fresh w0 → steps (w0, []) c → c.2 !! j = Some (Done (Tokens at_ rt)) → ∃ K, all_sess (only rt K) c.1.
Proof using Hrnd Hrt.
  intros Hf Hr Hj. assert (born (λ K, all_sess (only rt K)) j c) as [(_ & K & Hk & _)|[Hall _]].
  - eapply (steps_keep env start); [|exact Hr|].
    + intros l c1 c2 Hst. eapply (born_step env start); [intros K; apply env_keeps|..|exact Hst].
      * intros K w ps p (r & -> & _) Hne. by apply serve_prg, only_accepts.
      * intros w ps p (r & -> & _) _. apply serve_once, only_settles.
    + right. split; [|done]. intros K. split; [|done]. intros k s Hs E. destruct (proj2 Hf k s j Hs). by rewrite E.
  - by exists K.
  - exists "". apply Hall.
Qed.

(** Nobody stores it again. *)
Definition quiet (c : config) : Prop := (j < length c.2)%nat ∧ guarded (no_store rt) c.
Lemma others_quiet w0 c i p : steps (w0, []) c → c.2 !! i = Some p → i ≠ j → pguar (no_store rt) p.
Proof using Hrnd Hrt.
  intros Hr Hi Hne. set (G := λ (i : nat) w w', i ≠ j → no_store rt w w').
  assert (∀ i p, c.2 !! i = Some p → pguar (G i) p) as Hg; [|eapply pguar_mono; [|by apply (Hg _ _ Hi)]; intros w w' H; by apply H].
  eapply (steps_keep env start (λ c, ∀ i p, c.2 !! i = Some p → pguar (G i) p)); [|exact Hr|done].
  intros l c1 c2 Hs. apply (each_guar env start G l); [|done]. intros q (r & -> & _).
  destruct (decide (length c1.2 = j)) as [Hl|Hl].
  - eapply pguar_mono; [|apply (pguar_anyhow)]. by intros w w' _ [].
  - eapply pguar_mono; [|apply (serve_no_store rt)]; [by intros w w' Hn _|]. intros Hm. by apply Hl, mints_unique.
Qed.
Lemma quiet_reached w0 c a : steps (w0, []) c → c.2 !! j = Some (Done a) → quiet c.
Proof using Hrnd Hrt.
  intros Hr Hj. split; [by eapply lookup_lt_Some|]. intros i p Hi. destruct (decide (i = j)) as [->|Hne]; [by simplify_eq|].
  by eapply others_quiet.
Qed.
Lemma later_not_mints i : (j < i)%nat → ¬ mints (rnd i) rt.
Proof using Hrnd Hrt. intros Hlt Hm%mints_unique. lia. Qed.
Lemma quiet_step l c1 c2 : pool_step env start l c1 c2 → quiet c1 → quiet c2 ∧ no_store rt c1.1 c2.1.
Proof using Hrnd Hrt.
  intros Hs [Hlt Hg]. pose proof (step_length _ _ _ _ _ Hs).
  destruct (guarded_step env start (no_store rt) l c1 c2) as [Hg' HR]; [|..|exact Hs|exact Hg|].
  - intros w w' (_ & Hsub & _) k s (t & Hk)%lookup_sess. left. apply lookup_sess. exists t. by eapply lookup_weaken.
  - intros p (r & -> & _). by apply serve_no_store, later_not_mints.
  - split; [split; [lia|done]|done].
Qed.
Lemma quiet_asked c r : quiet c → quiet (asked c r).
Proof using Hrnd Hrt.
  intros [Hlt Hg]. split; [simpl; rewrite length_app; lia|]. intros i p Hp.
  apply lookup_snoc_Some in Hp as [[_ Hp]|[_ <-]]; [by eapply Hg|]. by apply serve_no_store, later_not_mints.
Qed.
Lemma quiet_steps c c' : steps c c' → quiet c → quiet c' ∧ no_store rt c.1 c'.1.
Proof using Hrnd Hrt.
  induction 1 as [c|c1 c2 c3 [l Hs] _ IH]; intros Hq; [split; [done|reflexivity]|].
  destruct (quiet_step _ _ _ Hs Hq) as [Hq2 HR]. destruct (IH Hq2) as [Hq3 HR3]. split; [done|by etrans].
Qed.
End rotation.

(** *** The refresh that uses a token, and a later one *)

Lemma set_pwp {B} R u sid s ttl (k : bool → proc sys B) w Q :
  (∀ w', R w w' → let w2 := (exec_multi (set_cmds u sid s ttl) w').2 in
     (∀ b, pwp R (k b) w2 Q)) → pwp R (k false) w Q → pwp R (pbind (SetRefreshSession u sid s ttl) k) w Q.
Proof. rewrite Set_cmds. intros Hk Hr [| |]; cbn; [|done|]; intros w' HR; by apply Hk. Qed.

Lemma rotate_kills d u t role email g sid s w rt :
  ¬ mints d rt → sid ≠ "" → all_sess (only rt (refreshKey u sid)) w →
  pwp (no_store rt) (rotate cfg sign d u t role email g sid s) w (λ r w', match r with Ok _ => dead_token rt w' | Err _ => True end).
Proof.
  intros Hd Hsid Hw. unfold rotate. rewrite bool_decide_false by done.
  apply pwp_skip; [apply _|apply removes_no_store, issue_guar|]. intros [a|] w1 HR1; [|by intros ? ?].
  destruct (randomToken (raw_secret d)) as [secret|] eqn:Es; [|by intros ? ?]. apply set_pwp; [|by intros ? ?].
  intros w2 HR2 w3 [|]; [|by intros ? ?]. cbn [negb pbind]. intros w4 HR4. apply (no_store_dead rt w3); [done|].
  intros k s' Hs' E. assert (k = refreshKey u sid) as ->.
  - pose proof (set_cmds_stores u sid (rotated sid secret s) (refreshTTL cfg) w2) as (_ & _ & Hst). destruct (Hst _ _ Hs') as [Hk|[-> _]]; [|done].
    eapply (no_store_only rt _ w w2); [by etrans|done|exact Hk|done].
  - apply set_cmds_overwrites in Hs' as ->. apply Hd. by exists sid, secret.
Qed.
Lemma refresh_kills d at_ rt K w :
  ¬ mints d rt → is_Some (splitRefreshToken rt) → all_sess (only rt K) w →
  pwp (no_store rt) (serve d (Refresh at_ rt)) w (λ a w', match a with Tokens _ _ => dead_token rt w' | Answered => True end).
Proof.
  intros Hd [sid0 Hsid] Hw. cbn [Sessions.serve]. apply pwp_bind; [apply _|].
  apply refresh_course; [apply _|intros ? ?; by apply stores_no_store|by intros ? ? ? ?|].
  intros c u email s w1 w2 w3 sid _ HR1 _ _ _ HR2 Hs Ht HR3 _. assert (no_store rt w w2) as HR by by etrans.
  assert (refreshKey (c_Subject c) sid = K) as EK by (by eapply (no_store_only _ _ _ _ HR Hw)).
  eapply pwp_mono; [|apply (rotate_kills _ _ _ _ _ _ _ _ _ rt)]; [| done | |].
  - intros [[a b]|e] w4 Hk w5 HR5; [by eapply no_store_dead|done].
  - unfold sid. rewrite Hsid. simpl. intros ->. unfold splitRefreshToken in Hsid.
    destruct (cut_on _ _) as [[l1 l2]|]; [|done]. destruct (validSessionID _) eqn:E; [|done]. injection Hsid as El. by rewrite El in E.
  - rewrite EK. eapply no_store_only; [exact HR3|]. by eapply no_store_only.
Qed.
Lemma refresh_dead d at_ rt w : dead_token rt w → pwp (no_store rt) (serve d (Refresh at_ rt)) w (λ a _, a = Answered).
Proof.
  intros Hw. cbn [Sessions.serve]. apply pwp_bind; [apply _|].
  apply refresh_course; [apply _|intros ? ?; by apply stores_no_store|by intros ? ? ? ?|].
  intros c u email s w1 w2 w3 sid _ HR1 _ _ _ HR2 Hs Ht. exfalso. assert (no_store rt w w2) as HR by by etrans.
  by apply (no_store_dead _ _ _ HR Hw _ _ Hs).
Qed.

(** C15: a refresh token is spent by its first use.  Take a refresh token that
    was handed out, and a request that refreshes with it and succeeds.  No request
    that arrives after that answer succeeds with the same token, however requests
    interleave, fail and repeat. *)
Theorem spent_token_is_dead (w0 : sys) (c0 c1 c2 c3 c4 : config) (j : nat) (at0 at1 at2 rt at' rt' : string) (a : answer) :
  randomness → fresh w0 → steps (w0, []) c0 → c0.2 !! j = Some (Done (Tokens at0 rt)) →
  steps c0 c1 → steps (asked c1 (Refresh at1 rt)) c2 → c2.2 !! length c1.2 = Some (Done (Tokens at' rt')) →
  steps c2 c3 → steps (asked c3 (Refresh at2 rt)) c4 → c4.2 !! length c3.2 = Some (Done a) → a = Answered.
Proof.
  intros Hrnd Hf Hr0 Hj Hr1 Hr2 Ha1 Hr3 Hr4 Ha.
  assert (handed (rnd j) (Tokens at0 rt)) as [Hm Hsp].
  { assert (promised anyhow (λ i a _, handed (rnd i) a) c0) as [_ Hp]; [|by apply (Hp _ _ Hj c0.1)].
    eapply (steps_keep env start); [|exact Hr0|done]. intros l d1 d2 Hs Hpr.
    eapply (promised_step env start anyhow _ l d1 d2); [done| |exact Hs|exact Hpr].
    intros w ps p (r & -> & _). split; [apply pguar_anyhow|apply serve_mints, Hrnd]. }
  destruct (only_reached Hrnd j rt Hm w0 c0 at0 Hf Hr0 Hj) as [K HK].
  pose proof (quiet_reached Hrnd j rt Hm w0 c0 _ Hr0 Hj) as Hq0.
  destruct (quiet_steps Hrnd j rt Hm _ _ Hr1 Hq0) as [Hq1 HR1].
  pose proof (quiet_asked Hrnd j rt Hm c1 (Refresh at1 rt) Hq1) as Hq1'.
  destruct (quiet_steps Hrnd j rt Hm _ _ Hr2 Hq1') as [Hq2 HR2].
  assert (dead_token rt c2.1) as Hd2.
  { refine (asked_answer (no_store rt) (quiet j rt) c1 c2 (Refresh at1 rt) _
      (λ a w', match a with Tokens _ _ => dead_token rt w' | Answered => True end) (quiet_step Hrnd j rt Hm) Hq1' _ Hr2 Ha1).
    eapply (refresh_kills _ _ _ K); [|done|by eapply no_store_only]. eapply later_not_mints; [done..|apply Hq1]. }
  destruct (quiet_steps Hrnd j rt Hm _ _ Hr3 Hq2) as [Hq3 HR3].
  refine (asked_answer (no_store rt) (quiet j rt) c3 c4 (Refresh at2 rt) a (λ a _, a = Answered) (quiet_step Hrnd j rt Hm)
    (quiet_asked Hrnd j rt Hm c3 _ Hq3) _ Hr4 Ha).
  apply refresh_dead. by eapply no_store_dead.
Qed.

(** ** A session that is used *)

Definition usable (w : sys) (at_ rt : string) (o m : Z) : Prop :=
  ∃ c u sid t, verified at_ = Some c ∧ at_ ≠ "" ∧ c_Subject c ≠ "" ∧ c_TenantID c ≠ "" ∧
    row_of c w = Some u ∧ u_status u = "active" ∧ CheckGeneration (c_IdentityGeneration c) (u_generation u) = true ∧
    splitRefreshToken rt = Some sid ∧ c_SessionID c = sid ∧ is_Some (smembers (refreshIndexKey (c_Subject c)) w) ∧
    vlookup (refreshKey (c_Subject c) sid) w = Some (MkEntry (VSession (MkSess rt o m)) t).
Definition signs : Prop := ∀ c, ∃ t, sign c = Some t ∧ t ≠ "" ∧ verified t = Some c.

Lemma index_not_session u u' sid : refreshIndexKey u ≠ refreshKey u' sid.
Proof. unfold refreshKey. by case_bool_decide. Qed.
Lemma vlookup_insert k e m w : vlookup k (set_vk (<[k := e]> m) w) = if alive (clock w) e then Some e else None.
Proof. unfold vlookup. simpl. by rewrite lookup_insert_eq. Qed.
Lemma vlookup_insert_ne k k' e m w : k ≠ k' → vlookup k' (set_vk (<[k := e]> m) w) = vlookup k' (set_vk m w).
Proof. intros Hne. unfold vlookup. simpl. by rewrite lookup_insert_ne. Qed.
(** After the store the session is found. *)
Lemma set_stored u sid s w :
  0 < refreshTTL cfg → sid ≠ "" → is_Some (smembers (refreshIndexKey u) w) →
  ∃ w', exec_multi (set_cmds u sid s (refreshTTL cfg)) w = (true, w') ∧ users w' = users w ∧ clock w' = clock w ∧
    vlookup (refreshKey u sid) w' = Some (MkEntry (VSession s) (Some (clock w + refreshTTL cfg))) ∧
    is_Some (smembers (refreshIndexKey u) w').
Proof.
  intros Httl Hsid Hidx. unfold set_cmds. rewrite bool_decide_false by done.
  set (K := refreshKey u sid). set (I := refreshIndexKey u) in *. assert (I ≠ K) as Hne by apply index_not_session.
  set (e := MkEntry (VSession s) (Some (clock w + refreshTTL cfg))).
  assert (vlookup I (set_vk (<[K := e]> (vk w)) w) = vlookup I w) as HI by (by rewrite vlookup_insert_ne).
  assert (∃ m t, exec_cmd (SADD I sid) (set_vk (<[K := e]> (vk w)) w) =
    (true, set_vk (<[I := MkEntry (VSet m) t]> (<[K := e]> (vk w))) w) ∧ alive (clock w) (MkEntry (VSet m) t) = true) as (m & t & Hadd & Hal).
  { cbn [exec_cmd]. rewrite HI. unfold smembers in Hidx. destruct (vlookup I w) as [[v t]|] eqn:E.
    - destruct v as [|?|m]; [by destruct Hidx..|]. exists ({[sid]} ∪ m), t. split; [done|].
      unfold vlookup in E. destruct (vk w !! I) as [e'|]; [|done]. destruct (alive _ e') eqn:Ha; [|done]. by injection E as ->.
    - by exists {[sid]}, None. }
  cbn [exec_multi]. change (exec_cmd (SET K (VSession s) (refreshTTL cfg)) w) with (true, set_vk (<[K := e]> (vk w)) w). cbv iota beta.
  rewrite Hadd. cbv iota beta. cbn [exec_cmd]. rewrite vlookup_insert, Hal. cbn.
  eexists. split; [done|]. split_and!; [done..| |].
  - unfold vlookup. cbn. rewrite !(lookup_insert_ne _ I K), lookup_insert_eq by done. cbn.
    by rewrite (proj2 (Z.ltb_lt (clock w) _)) by lia.
  - unfold smembers, vlookup. cbn. rewrite lookup_insert_eq. cbn. by rewrite (proj2 (Z.ltb_lt (clock w) _)) by lia.
Qed.
Lemma alone_set u sid s w w' :
  exec_multi (set_cmds u sid s (refreshTTL cfg)) w = (true, w') → alone (SetRefreshSession u sid s (refreshTTL cfg)) w = (true, w').
Proof. intros E. rewrite Set_cmds. unfold run_cmds. rewrite alone_bind, alone_call, E. done. Qed.
Lemma alone_get u sid s t w :
  vlookup (refreshKey u sid) w = Some (MkEntry (VSession s) t) → alone (GetRefreshSession u sid) w = (Some (Some s), w).
Proof. intros E. unfold GetRefreshSession. rewrite alone_bind, alone_call. simpl. by rewrite E. Qed.
Lemma alone_issue u t role email g sid w :
  alone (issueSessionAccessToken cfg sign u t role email g sid) w =
    (sign (MkClaims t role email g sid u (JWTIssuer cfg) (clock w) (clock w + accessTTL cfg)), w).
Proof. done. Qed.

(** a session works while it may.  A login of an active user hands out a
    pair that can be used; a refresh, run on its own with such a pair before the
    session's end, hands out a new pair that can be used in the same way, for the
    same session with the same end. *)
Theorem login_and_refresh (d : draws) (w : sys) :
  signs → draws_ok d → is_Some (raw_sid d) → is_Some (raw_secret d) → 0 < refreshTTL cfg →
  (∀ user tenant role email u, user ≠ "" → tenant ≠ "" → pg_uuid user ≫= (λ id, users w !! id) = Some u → u_status u = "active" →
     is_Some (smembers (refreshIndexKey user) w) →
     ∃ at_ n rt w', alone (IssueSession cfg sign d user tenant role email (u_generation u)) w = (Some (at_, n, rt), w') ∧
       usable w' at_ rt (time_Unix (clock w)) (time_Unix (clock w) + maxLifetime cfg / Second)) ∧
  (∀ at_ rt o m, usable w at_ rt o m → m = 0 ∨ time_Unix (clock w) <= m →
     ∃ at' rt' w', alone (RefreshSession cfg sign verified pg_uuid d at_ rt) w = (Ok (at', rt'), w') ∧ usable w' at' rt' o m).
Proof.
  intros Hsign Hd [rsid Hrsid] [rsec Hrsec] Httl.
  destruct (randomToken (raw_sid d)) as [sid|] eqn:Esid; [|by rewrite Hrsid in Esid].
  destruct (randomToken (raw_secret d)) as [secret|] eqn:Esec; [|by rewrite Hrsec in Esec].
  pose proof (sid_valid d sid Hd Esid) as Hv. split.
  - intros user tenant role email u Hu Ht Hrow Hact Hidx.
    set (s := MkSess (sid +:+ "." +:+ secret) (time_Unix (clock w)) (time_Unix (clock w) + maxLifetime cfg / Second)).
    destruct (set_stored user sid s w Httl (valid_nonempty _ Hv) Hidx) as (w' & Hex & Eu & Ec & Hl & Hidx').
    destruct (Hsign (MkClaims tenant role email (u_generation u) sid user (JWTIssuer cfg) (clock w') (clock w' + accessTTL cfg))) as (at_ & Hs & Hne & Hver).
    exists at_, (accessTTL cfg / Second), (sid +:+ "." +:+ secret), w'. split.
    + assert (alone (issueRefreshToken cfg d user) w = (Some (sid +:+ "." +:+ secret), w')) as Hi.
      { unfold issueRefreshToken. rewrite Esid, Esec. unfold read_clock, atom. cbn [pbind alone fst snd].
        fold s. rewrite alone_bind. by rewrite (alone_set _ _ _ _ _ Hex). }
      unfold IssueSession. rewrite alone_bind, Hi. cbn [fst snd]. rewrite split_issued by done. cbv [from_option id].
      rewrite alone_bind, alone_issue. cbn [fst snd]. by rewrite Hs.
    + eexists _, u, sid, _. split_and!; try done; simpl; [| |by apply split_issued].
      * unfold row_of. simpl. by rewrite Eu.
      * unfold CheckGeneration. rewrite Z.ltb_irrefl. by rewrite andb_false_r.
  - intros at_ rt o m (c & u & rsid' & t & Hver & Hat & Hsub & Hten & Hrow & Hact & Hgen & Hsp & Hcs & Hidx & Hl) Hcap.
    destruct (split_valid _ _ Hsp) as [Hrt Hv'].
    destruct (set_stored (c_Subject c) rsid' (rotated rsid' secret (MkSess rt o m)) w Httl (valid_nonempty _ Hv') Hidx) as (w' & Hex & Eu & Ec & Hl' & Hidx').
    set (email := if c_Email c ≟ "" then u_email u else c_Email c).
    destruct (Hsign (MkClaims (c_TenantID c) (u_role u) email (u_generation u) rsid' (c_Subject c) (JWTIssuer cfg) (clock w) (clock w + accessTTL cfg)))
      as (at' & Hs & Hne & Hver').
    exists at', (rsid' +:+ "." +:+ secret), w'. split.
    + unfold RefreshSession. rewrite !bool_decide_false by done. rewrite Hver. rewrite !bool_decide_false by done. cbn [orb].
      rewrite alone_bind, alone_call. cbn [fst snd]. fold (row_of c w). rewrite Hrow. unfold CheckLifecycle. rewrite Hact, Hgen, bool_decide_refl. cbn [negb orb].
      fold email. unfold refresh_stored. rewrite Hsp, Hcs. cbv [from_option id]. rewrite bool_decide_refl. cbn [negb]. rewrite andb_false_r.
      rewrite alone_bind, (alone_get _ _ _ _ _ Hl). cbn [fst snd refresh_found rs_Token]. rewrite bool_decide_refl. cbn [negb].
      unfold read_clock, atom. cbn [pbind alone fst snd rs_MaxLifetimeAt].
      assert (negb (m =? 0) && (m <? time_Unix (clock w)) = false) as ->.
      { destruct Hcap as [->|Hcap]; [done|]. by rewrite (proj2 (Z.ltb_ge _ _) Hcap), andb_false_r. }
      unfold rotate. rewrite bool_decide_false by (by apply valid_nonempty). rewrite alone_bind, alone_issue. cbn [fst snd]. rewrite Hs, Esec.
      fold (rotated rsid' secret (MkSess rt o m)). rewrite alone_bind, (alone_set _ _ _ _ _ Hex). done.
    + eexists _, u, rsid', _. split_and!; try done; simpl; [| |by apply split_issued].
      * unfold row_of in *. simpl. by rewrite Eu.
      * unfold CheckGeneration. rewrite Z.ltb_irrefl. by rewrite andb_false_r.
Qed.
End safety.

(** ** A login and what follows *)

Module Demo.
#[local] Instance claims_eq_dec : EqDecision jwtClaims.
Proof. solve_decision. Defined.
Definition cfg0 : Config := MkConfig "ztna" None None None.
Definition t0 : time := 63900000000 * Second.
(** Three draws; later ones fail. *)
Definition rnd0 (i : nat) : draws :=
  if (i <? 4)%nat then MkDraws (Some (repeat 7 15 ++ [Z.of_nat i])) (Some (repeat 9 31 ++ [Z.of_nat i])) else MkDraws None None.
Definition sid0 : string := default "" (randomToken (raw_sid (rnd0 0))).
Definition token0 : string := sid0 +:+ "." +:+ default "" (randomToken (raw_secret (rnd0 0))).
Definition claims0 : jwtClaims := MkClaims "acme" "admin" "alice@acme.example" 1 sid0 "alice" "ztna" t0 (t0 + 15 * Minute).
Definition sign0 (c : jwtClaims) : option string := if bool_decide (c = claims0) then Some "jwt" else None.
Definition verified0 (t : string) : option jwtClaims := if t ≟ "jwt" then Some claims0 else None.
Definition alice : UserRow := MkUser "alice@acme.example" "active" 1 "admin" "acme".
Definition w0 : sys := MkSys ∅ {["alice" := alice]} t0.
Abbreviation serve0 := (Sessions.serve cfg0 sign0 verified0 Some).
Abbreviation asked0 := (asked cfg0 sign0 verified0 Some rnd0).
Abbreviation run := (run_threads (W := sys) (A := answer)).
Abbreviation steps0 := (rtc (pool_any env (start cfg0 sign0 verified0 Some rnd0 []))).

Definition login : request := Login "alice" "acme" "admin" "alice@acme.example" 1.
Definition refresh : request := Refresh "jwt" token0.
Definition c_login : sys * list (proc sys answer) := run (repeat 0%nat 12) (asked0 (w0, []) login).

Lemma randomness0 : randomness rnd0.
Proof.
  split.
  - intros i. unfold rnd0. destruct (i <? 4)%nat eqn:E; [|done]. apply Nat.ltb_lt in E.
    split; intros l [= <-]; split; [|done| |done]; repeat constructor; unfold byte; simpl; lia.
  - intros i j l. unfold rnd0. destruct (i <? 4)%nat; [|done]. destruct (j <? 4)%nat; [|done]. simpl. intros [= <-] [= E]. lia.
  - intros i j l. unfold rnd0. destruct (i <? 4)%nat; [|done]. destruct (j <? 4)%nat; [|done]. simpl. intros [= <-] [= E]. lia.
Qed.
Lemma jwt0 : jwt_ok sign0 verified0.
Proof. intros c t. unfold sign0. case_bool_decide as E; [|done]. intros [= <-]. by subst. Qed.
Lemma fresh0 : fresh rnd0 w0.
Proof. split; [done|]. intros K s i. unfold sess. simpl. by rewrite omap_empty, lookup_empty. Qed.
Lemma login_steps : steps0 (w0, []) c_login.
Proof.
  eapply rtc_l; [|apply run_threads_steps]. exists None. apply step_start. exists login. split; [done|].
  intros id [= <-]. exists alice. split; [done|]. simpl. lia.
Qed.
Lemma login_done : c_login.2 !! 0%nat = Some (Done (Tokens "jwt" token0)).
Proof. by vm_compute. Qed.
#[local] Strategy opaque [c_login].
Lemma ask_steps c r : may_ask verified0 Some [] c.1 c.2 r → steps0 c (asked0 c r).
Proof. intros Hm. apply rtc_once. exists None. destruct c as [w ps]. apply step_start. by exists r. Qed.
Lemma env_steps w' ps (w : sys) : env w w' → steps0 (w, ps) (w', ps).
Proof. intros He. apply rtc_once. exists None. by apply step_env. Qed.

(** *** Signatures of all claims *)

#[local] Instance claims_countable : Countable jwtClaims.
Proof.
  refine (inj_countable'
    (λ c, (c_TenantID c, c_Role c, c_Email c, c_IdentityGeneration c, c_SessionID c, c_Subject c, c_Issuer c, c_IssuedAt c, c_ExpiresAt c))
    (λ '(t, r, e, g, s, u, i, a, b), MkClaims t r e g s u i a b) _). by intros [].
Defined.
Fixpoint pos_text (p : positive) : string :=
  match p with xH => "" | xO p => String "0" (pos_text p) | xI p => String "1" (pos_text p) end.
Fixpoint text_pos (s : string) : positive :=
  match s with EmptyString => xH | String "0" s => xO (text_pos s) | String _ s => xI (text_pos s) end.
Definition sign1 (c : jwtClaims) : option string := Some (String "j" (pos_text (encode c))).
Definition verified1 (t : string) : option jwtClaims := match t with String "j" s => decode (text_pos s) | _ => None end.
Lemma signs1 : signs sign1 verified1.
Proof.
  intros c. eexists. split; [done|]. split; [done|]. simpl. rewrite <-(decode_encode c). f_equal.
  induction (encode c) as [p IH|p IH|]; simpl; by rewrite ?IH.
Qed.
Lemma login_and_refresh_witness :
  ∃ at_ n rt w', alone (IssueSession cfg0 sign1 (rnd0 0) "alice" "acme" "admin" "alice@acme.example" (u_generation alice)) w0 = (Some (at_, n, rt), w') ∧
    usable verified1 Some w' at_ rt (time_Unix (clock w0)) (time_Unix (clock w0) + maxLifetime cfg0 / Second).
Proof.
  refine (proj1 (login_and_refresh cfg0 sign1 verified1 Some (rnd0 0) w0 signs1 (rnd_ok _ randomness0 0) _ _ _) "alice" "acme" "admin" "alice@acme.example" alice _ _ _ _ _).
  - by eexists.
  - by eexists.
  - done.
  - done.
  - done.
  - by vm_compute.
  - done.
  - by exists ∅.
Defined.

(** *** Revoked *)

Definition bumped (w : sys) : sys := set_users {["alice" := MkUser "alice@acme.example" "active" 2 "admin" "acme"]} w.
Lemma login_world : c_login.1 = MkSys (vk c_login.1) {["alice" := alice]} t0.
Proof. by vm_compute. Qed.
Definition c_bumped : sys * list (proc sys answer) := (bumped c_login.1, c_login.2).
Lemma bump_step : pool_any env (start cfg0 sign0 verified0 Some rnd0 []) c_login c_bumped.
Proof.
  exists None. rewrite (surjective_pairing c_login) at 1. apply step_env. split; [done|]. split; [done|].
  rewrite login_world. intros id u. simpl. intros [<- <-]%lookup_singleton_Some. eexists. split; [by rewrite lookup_singleton_eq|]. simpl. lia.
Qed.
Definition alice2 : UserRow := MkUser "alice@acme.example" "active" 2 "admin" "acme".
Definition c_refused : sys * list (proc sys answer) := run (repeat 1%nat 20) (asked0 c_bumped refresh).
Lemma refused_done : c_refused.2 !! length c_bumped.2 = Some (Done Answered).
Proof. by vm_compute. Qed.
Lemma refused_steps : steps0 (asked0 c_bumped refresh) c_refused.
Proof. apply run_threads_steps. Qed.
Lemma login_known : known [] c_login.2 "jwt".
Proof. right. exists 0%nat, token0. exact login_done. Qed.
Lemma alice_logged : users c_login.1 !! "alice" = Some alice.
Proof. by vm_compute. Qed.
Lemma alice_bumped : users c_bumped.1 !! "alice" = Some alice2.
Proof. by vm_compute. Qed.
Lemma no_old t : t ∈ ([] : list string) → tok_ok verified0 Some w0 t.
Proof. by intros ?%not_elem_of_nil. Qed.
Lemma revoked_tokens_stay_dead_witness :
  c_refused.2 !! length c_bumped.2 = Some (Done Answered) ∧ Answered = Answered.
Proof.
  split; [exact refused_done|].
  exact (revoked_tokens_stay_dead cfg0 sign0 verified0 Some rnd0 [] w0 c_login c_bumped c_bumped c_refused "jwt" token0 claims0 "alice" alice alice2 Answered
    jwt0 no_old login_steps login_known eq_refl eq_refl ltac:(done) alice_logged bump_step alice_bumped ltac:(done) (rtc_refl _ _) refused_steps refused_done).
Defined.

(** *** Over *)

Definition key0 : string := refreshKey "alice" sid0.
Definition iat0 : Z := time_Unix t0.
Definition sess0 : RefreshSess := MkSess token0 iat0 (iat0 + 30 * 24 * 3600).
Definition c_over : sys * list (proc sys answer) :=
  (MkSys (vk c_login.1) (users c_login.1) (t0 + 31 * 24 * Hour), c_login.2).
Lemma login_clock : clock c_login.1 = t0.
Proof. by vm_compute. Qed.
Lemma over_steps : steps0 c_login c_over.
Proof.
  rewrite (surjective_pairing c_login) at 1. apply env_steps. pose proof login_clock as Hc. destruct c_login as [w ps]. cbn in *. rewrite <-Hc.
  split; [cbn; unfold Hour, Minute, Second; lia|split; [done|]]. intros id u Hu. exists u. split; [done|lia].
Qed.
Lemma login_sess : sess c_login.1 !! key0 = Some sess0.
Proof. by vm_compute. Qed.
Lemma w0_sess : sess w0 = ∅.
Proof. apply omap_empty. Qed.
Lemma session_lifetime_fixed_witness :
  sess c_login.1 !! key0 = Some sess0 ∧ rs_MaxLifetimeAt sess0 = rs_OriginalIAT sess0 + maxLifetime cfg0 / Second.
Proof.
  split; [exact login_sess|].
  exact (proj2 (proj2 (session_lifetime_fixed cfg0 sign0 verified0 Some rnd0 [] w0 c_login c_over key0 sess0 randomness0 fresh0 login_steps login_sess over_steps)) w0_sess).
Defined.

(** *** Spent *)

Definition c_used : sys * list (proc sys answer) := run (repeat 1%nat 20) (asked0 c_login refresh).
Definition token1 : string := sid0 +:+ "." +:+ default "" (randomToken (raw_secret (rnd0 1))).
Definition c_again : sys * list (proc sys answer) := run (repeat 2%nat 20) (asked0 c_used refresh).
Lemma used_done : c_used.2 !! length c_login.2 = Some (Done (Tokens "jwt" token1)).
Proof. by vm_compute. Qed.
Lemma used_steps : steps0 (asked0 c_login refresh) c_used.
Proof. apply run_threads_steps. Qed.
Lemma again_done : c_again.2 !! length c_used.2 = Some (Done Answered).
Proof. by vm_compute. Qed.
Lemma again_steps : steps0 (asked0 c_used refresh) c_again.
Proof. apply run_threads_steps. Qed.
Lemma spent_token_is_dead_witness :
  c_used.2 !! length c_login.2 = Some (Done (Tokens "jwt" token1)) ∧ Answered = Answered.
Proof.
  split; [exact used_done|].
  exact (spent_token_is_dead cfg0 sign0 verified0 Some rnd0 [] w0 c_login c_login c_used c_used c_again 0%nat "jwt" "jwt" "jwt" token0 "jwt" token1 Answered
    randomness0 fresh0 login_steps login_done (rtc_refl _ _) used_steps used_done (rtc_refl _ _) again_steps again_done).
Defined.

(** *** Races *)

(** Two refreshes with one token: both read before either writes. *)
Definition c_both : sys * list (proc sys answer) :=
  run (repeat 1%nat 4 ++ repeat 2%nat 20 ++ repeat 1%nat 20) (asked0 (asked0 c_login refresh) refresh).
Definition token2 : string := sid0 +:+ "." +:+ default "" (randomToken (raw_secret (rnd0 2))).
(** A logout between the read and the write of a refresh, then another refresh. *)
Definition c_logout : sys * list (proc sys answer) :=
  run (repeat 1%nat 4 ++ repeat 2%nat 20 ++ repeat 1%nat 20) (asked0 (asked0 c_login refresh) (Logout "jwt")).
Definition c_after : sys * list (proc sys answer) := run (repeat 3%nat 20) (asked0 c_logout (Refresh "jwt" token1)).

Definition token3 : string := sid0 +:+ "." +:+ default "" (randomToken (raw_secret (rnd0 3))).

Lemma ask_known c r :
  c.2 !! 0%nat = Some (Done (Tokens "jwt" token0)) → (∃ rt, r = Refresh "jwt" rt) ∨ r = Logout "jwt" → steps0 c (asked0 c r).
Proof.
  intros Hc Hr. apply ask_steps. assert (known [] c.2 "jwt") as Hk by (right; by exists 0%nat, token0).
  destruct Hr as [[rt ->]| ->]; simpl; auto.
Qed.
Lemma done_still l c r : c.2 !! 0%nat = Some (Done (Tokens "jwt" token0)) → (run l (asked0 c r)).2 !! 0%nat = Some (Done (Tokens "jwt" token0)).
Proof.
  intros Hc. eapply (steps_done env (start cfg0 sign0 verified0 Some rnd0 [])); [apply run_threads_steps|]. simpl. by apply lookup_app_l_Some.
Qed.

(** what the separate read and write of a refresh allow.  Two requests that
    present one refresh token at the same time can both succeed, with different
    new tokens; and a refresh that is under way during a logout brings the
    session back, so that a refresh sent after the logout has answered succeeds. *)
Theorem refresh_races :
  (steps0 (w0, []) c_both ∧
   c_both.2 !! 1%nat = Some (Done (Tokens "jwt" token1)) ∧ c_both.2 !! 2%nat = Some (Done (Tokens "jwt" token2)) ∧ token1 ≠ token2) ∧
  (steps0 (w0, []) c_logout ∧ c_logout.2 !! 2%nat = Some (Done Answered) ∧
   steps0 c_logout c_after ∧ c_after.2 !! 3%nat = Some (Done (Tokens "jwt" token3))).
Proof.
  assert (steps0 (w0, []) (asked0 c_login refresh)) as Hr.
  { etrans; [exact login_steps|]. apply ask_known; [exact login_done|]. left. by exists token0. }
  assert ((asked0 c_login refresh).2 !! 0%nat = Some (Done (Tokens "jwt" token0))) as H0 by exact (done_still [] _ _ login_done).
  split; split_and!; [|by vm_compute|by vm_compute|by vm_compute| |by vm_compute| |by vm_compute].
  - etrans; [exact Hr|]. etrans; [apply (ask_known _ refresh H0); left; by exists token0|]. apply run_threads_steps.
  - etrans; [exact Hr|]. etrans; [apply (ask_known _ (Logout "jwt") H0); by right|]. apply run_threads_steps.
  - etrans; [apply (ask_known _ (Refresh "jwt" token1)); [by apply done_still|left; by exists token1]|]. apply run_threads_steps.
Qed.
End Demo.
