(* ===== verification/Coalescer.v ===== *)
(** * Coalesced background work

    [connector/push_coalescer.go] (peer lists and snapshots) and the latch of
    [connector/acl_push.go] (access lists).  Both start at most one goroutine per
    key and let triggers that arrive meanwhile collapse.  [phase] is what a key's
    user may rely on; the two implementations are state machines with the sections
    under the mutex as steps, and refine it. *)

From Stdlib Require Import ZArith Lia.
From S2P Require Import Prelude.
Set Default Proof Using "Type".

(** ** What a coalescer promises *)

(** A run for the key starts when its work is taken, and stops. *)
Inductive event := Trigger | Start | Stop.
(** [Queued]: a run will start; [Twice]: two will; [BusyQueued]: one runs and another will start. *)
Inductive phase := Rest | Queued | Twice | Busy | BusyQueued.
Inductive phase_step : event → phase → phase → Prop :=
| trigger_rest : phase_step Trigger Rest Queued
| trigger_queued : phase_step Trigger Queued Queued
| trigger_again : phase_step Trigger Queued Twice
| trigger_twice : phase_step Trigger Twice Twice
| trigger_busy : phase_step Trigger Busy BusyQueued
| trigger_busy_queued : phase_step Trigger BusyQueued BusyQueued
| start_queued : phase_step Start Queued Busy
| start_twice : phase_step Start Twice BusyQueued
| stop_busy : phase_step Stop Busy Rest
| stop_busy_queued : phase_step Stop BusyQueued Queued.

(** A coalescer: its steps are labelled with the key and the event, or internal. *)
Class Coalescer (St : Type) := {
  co_init : St;
  co_step : option (string * event) → St → St → Prop;
  co_inv : St → Prop;
  co_phase : St → string → phase;
  co_inv_init : co_inv co_init;
  co_rest_init k : co_phase co_init k = Rest;
  co_inv_step l s s' : co_step l s s' → co_inv s → co_inv s';
  co_refines l s s' k : co_step l s s' → co_inv s →
    match l with
    | Some (k', e) => if bool_decide (k' = k) then phase_step e (co_phase s k) (co_phase s' k) else co_phase s' k = co_phase s k
    | None => co_phase s' k = co_phase s k
    end
}.

(** Histories, newest event first. *)
Inductive history `{Coalescer St} : list (string * event) → St → Prop :=
| history_init : history [] co_init
| history_event h k e s s' : history h s → co_step (Some (k, e)) s s' → history ((k, e) :: h) s'
| history_internal h s s' : history h s → co_step None s s' → history h s'.

Definition events_of (k : string) (h : list (string * event)) : list event := snd <$> filter (λ p, p.1 = k) h.
(** Since the last trigger, a run has started. *)
Definition started (es : list event) : Prop := ∃ l1 l2, es = l1 ++ Start :: l2 ∧ Trigger ∉ l1.
(** One run at a time; whether one is under way. *)
Fixpoint alternating (busy : bool) (es : list event) : Prop :=
  match es with
  | [] => busy = false
  | Trigger :: es => alternating busy es
  | Start :: es => busy = true ∧ alternating false es
  | Stop :: es => busy = false ∧ alternating true es
  end.
#[export] Instance event_eq_dec : EqDecision event.
Proof. solve_decision. Defined.
Definition count_of (e : event) (es : list event) : nat := length (filter (λ e', e' = e) es).
Definition is_busy (p : phase) : bool := match p with Busy | BusyQueued => true | _ => false end.
Definition to_start (p : phase) : nat := match p with Queued | BusyQueued => 1 | Twice => 2 | _ => 0 end.

Definition promise (p : phase) (es : list event) : Prop :=
  alternating (is_busy p) es ∧
  match p with
  | Rest => es = [] ∨ ∃ l, es = Stop :: l ∧ started l
  | Busy => started es
  | _ => True
  end ∧
  (count_of Start es + to_start p <= count_of Trigger es)%nat.

Lemma promise_step e p p' es : phase_step e p p' → promise p es → promise p' (e :: es).
Proof.
  intros Hs (Ha & Hp & Hc). destruct Hs; (split_and!; [simpl; auto| |unfold count_of in *; rewrite !filter_cons; simpl in *; lia]); simpl; auto.
  - exists [], es. split; [done|]. apply not_elem_of_nil.
  - right. by exists es.
Qed.

Section promised.
Context `{Coalescer St}.
Lemma events_of_cons k k' e h : events_of k ((k', e) :: h) = if bool_decide (k' = k) then e :: events_of k h else events_of k h.
Proof. unfold events_of. rewrite filter_cons. simpl. case_bool_decide; by case_decide. Qed.
Lemma history_inv h s : history h s → co_inv s.
Proof. induction 1; [apply co_inv_init|by eapply co_inv_step..]. Qed.
Lemma history_promise h s k : history h s → promise (co_phase s k) (events_of k h).
Proof.
  induction 1 as [|h k' e s s' Hh IH Hs|h s s' Hh IH Hs].
  - rewrite co_rest_init. split_and!; simpl; auto.
  - pose proof (co_refines _ _ _ k Hs (history_inv _ _ Hh)) as Hr. simpl in Hr. rewrite events_of_cons.
    case_bool_decide; [by eapply promise_step|by rewrite Hr].
  - pose proof (co_refines _ _ _ k Hs (history_inv _ _ Hh)) as Hr. simpl in Hr. by rewrite Hr.
Qed.
End promised.

(** ** Sums over maps *)

Section total.
Context `{Countable K} {A : Type} (f : A → nat).
Definition total (m : gmap K A) : nat := foldr (λ p n, f p.2 + n) 0 (map_to_list m).
Lemma total_perm l1 l2 : l1 ≡ₚ l2 → foldr (λ (p : K * A) n, f p.2 + n) 0 l1 = foldr (λ p n, f p.2 + n) 0 l2.
Proof. induction 1; simpl; lia. Qed.
Lemma total_insert_new m k x : m !! k = None → total (<[k := x]> m) = f x + total m.
Proof. intros Hk. unfold total. by rewrite (total_perm _ _ (map_to_list_insert m k x Hk)). Qed.
Lemma total_delete m k x : m !! k = Some x → total m = f x + total (delete k m).
Proof. intros Hk. rewrite <-(total_insert_new _ k) by apply lookup_delete_eq. by rewrite insert_delete_id. Qed.
Lemma total_update m k x y : m !! k = Some x → total (<[k := y]> m) + f x = total m + f y.
Proof.
  intros Hk. rewrite (total_delete m k x Hk). rewrite <-(insert_delete_eq m k y), total_insert_new by apply lookup_delete_eq. lia.
Qed.
Lemma total_zero m : total m = 0 → ∀ k x, m !! k = Some x → f x = 0.
Proof. intros Hz k x Hk. rewrite (total_delete m k x Hk) in Hz. lia. Qed.
End total.

(** ** [pushCoalescer] *)

Module Push.
Section push.
Context {work : Type} (maxConcurrent : nat).

(** Where a worker is: at the head of its loop, with the work it took and
    waiting for the semaphore, or running it. *)
Inductive wstate := AtLoop | Waiting (w : work) | Running (w : work).
(** [heap]: the [next] of each [pushJob]; workers by their job. *)
Record pushCoalescer := MkCoalescer {
  jobs : gmap string nat; heap : gmap nat (option work); workers : gmap nat (string * wstate); sem : nat; fresh : nat
}.
Definition newPushCoalescer : pushCoalescer := MkCoalescer ∅ ∅ ∅ 0 0.

Definition trigger (key : string) (w : work) (c : pushCoalescer) : pushCoalescer :=
  match jobs c !! key with
  | Some job => MkCoalescer (jobs c) (<[job := Some w]> (heap c)) (workers c) (sem c) (fresh c)
  | None =>
      let job := fresh c in
      MkCoalescer (<[key := job]> (jobs c)) (<[job := Some w]> (heap c)) (<[job := (key, AtLoop)]> (workers c)) (sem c) (S job)
  end.

(** One turn of [worker] under the mutex: the work to run, or it leaves. *)
Definition worker_turn (key : string) (job : nat) (c : pushCoalescer) : option work * pushCoalescer :=
  match heap c !! job with
  | Some (Some w) =>
      (Some w, MkCoalescer (jobs c) (<[job := None]> (heap c)) (<[job := (key, Waiting w)]> (workers c)) (sem c) (fresh c))
  | _ => (None, MkCoalescer (delete key (jobs c)) (heap c) (delete job (workers c)) (sem c) (fresh c))
  end.
(** [runOne]: a slot of the semaphore, and its release when the work returns, panics or times out. *)
Definition acquire (key : string) (job : nat) (w : work) (c : pushCoalescer) : pushCoalescer :=
  MkCoalescer (jobs c) (heap c) (<[job := (key, Running w)]> (workers c)) (S (sem c)) (fresh c).
Definition release (key : string) (job : nat) (c : pushCoalescer) : pushCoalescer :=
  MkCoalescer (jobs c) (heap c) (<[job := (key, AtLoop)]> (workers c)) (pred (sem c)) (fresh c).

Inductive push_step : option (string * event) → pushCoalescer → pushCoalescer → Prop :=
| push_trigger key w c : push_step (Some (key, Trigger)) c (trigger key w c)
| push_take key job w c c' :
    workers c !! job = Some (key, AtLoop) → worker_turn key job c = (Some w, c') → push_step (Some (key, Start)) c c'
| push_leave key job c c' : workers c !! job = Some (key, AtLoop) → worker_turn key job c = (None, c') → push_step None c c'
| push_acquire key job w c :
    workers c !! job = Some (key, Waiting w) → sem c < maxConcurrent → push_step None c (acquire key job w c)
| push_release key job w c : workers c !! job = Some (key, Running w) → push_step (Some (key, Stop)) c (release key job c).

Definition push_phase (c : pushCoalescer) (key : string) : phase :=
  match jobs c !! key with
  | None => Rest
  | Some job =>
      let queued := bool_decide (is_Some (heap c !! job ≫= λ n, n)) in
      match workers c !! job with
      | Some (_, AtLoop) => if queued then Queued else Rest
      | Some _ => if queued then BusyQueued else Busy
      | None => Rest
      end
  end.

(** A key is present while its worker runs. *)
Definition push_inv (c : pushCoalescer) : Prop :=
  (∀ key job, jobs c !! key = Some job ↔ ∃ st, workers c !! job = Some (key, st)) ∧
  (∀ job kw, workers c !! job = Some kw → job < fresh c).

Lemma jobs_unique c key key' job : push_inv c → jobs c !! key = Some job → jobs c !! key' = Some job → key = key'.
Proof. intros [Hj _] (st & H1)%Hj (st' & H2)%Hj. congruence. Qed.
(** A step that changes the state of one worker only. *)
Lemma move_inv c key job st st' h n :
  push_inv c → workers c !! job = Some (key, st) → push_inv (MkCoalescer (jobs c) h (<[job := (key, st')]> (workers c)) n (fresh c)).
Proof.
  intros [Hj Hf] Hw. split; simpl.
  - intros k j. rewrite Hj. destruct (decide (j = job)) as [->|Hne]; [rewrite lookup_insert_eq|by rewrite lookup_insert_ne].
    rewrite Hw. split; intros (s & [= -> _]); eauto.
  - intros j kw. rewrite lookup_insert_Some. intros [[<- _]|[_ Hj']]; eauto.
Qed.
Lemma push_inv_step l c c' : push_step l c c' → push_inv c → push_inv c'.
Proof.
  intros [key w c1|key job w c1 c2 Hw Ht|key job c1 c2 Hw Ht|key job w c1 Hw Hs|key job w c1 Hw] Hinv.
  - unfold trigger. destruct (jobs c1 !! key) as [job|] eqn:E; [by destruct Hinv|]. destruct Hinv as [Hj Hf].
    assert (∀ kw, workers c1 !! fresh c1 ≠ Some kw) as Hfr by (intros kw Hk%Hf; lia). split; simpl.
    + intros k j. setoid_rewrite lookup_insert_Some. rewrite Hj. split.
      * intros [[<- <-]|[Hne (st & Hst)]]; [by exists AtLoop; left|]. exists st. right. split; [|done]. intros <-. by eapply Hfr.
      * intros (st & [[<- [= <- _]]|[Hne Hst]]); [by left|]. right. split; [|by exists st]. intros <-.
        assert (jobs c1 !! key = Some j) by (apply Hj; by exists st). congruence.
    + intros j kw. rewrite lookup_insert_Some. intros [[<- _]|[_ Hk%Hf]]; lia.
  - unfold worker_turn in Ht. destruct (heap c1 !! job) as [[w'|]|]; simplify_eq. by eapply move_inv.
  - unfold worker_turn in Ht. destruct (heap c1 !! job) as [[w'|]|] eqn:E; simplify_eq.
    all: destruct Hinv as [Hj Hf]; split; simpl; [|intros j kw [_ Hk]%lookup_delete_Some; eauto].
    all: assert (jobs c1 !! key = Some job) as Hjob by (apply Hj; eauto).
    all: intros k j; rewrite lookup_delete_Some, Hj; setoid_rewrite lookup_delete_Some; split;
      [intros [Hne (st & Hst)]; exists st; split; [|done]; intros <-; congruence|].
    all: intros (st & Hne & Hst); split; [|by exists st]; intros <-; destruct Hne;
      assert (jobs c1 !! key = Some j) by (apply Hj; by exists st); congruence.
  - by eapply move_inv.
  - by eapply move_inv.
Qed.

(** What a key's phase depends on. *)
Lemma phase_frame c c' key :
  jobs c' !! key = jobs c !! key →
  (∀ j, jobs c !! key = Some j → heap c' !! j = heap c !! j ∧ workers c' !! j = workers c !! j) → push_phase c' key = push_phase c key.
Proof.
  intros Hj Hrest. unfold push_phase. rewrite Hj. destruct (jobs c !! key) as [j|] eqn:E; [|done].
  by destruct (Hrest j eq_refl) as [-> ->].
Qed.
Lemma job_of c key job st : push_inv c → workers c !! job = Some (key, st) → jobs c !! key = Some job.
Proof. intros [Hj _] Hw. apply Hj. by exists st. Qed.
Lemma other_job c k key job st j : push_inv c → workers c !! job = Some (k, st) → k ≠ key → jobs c !! key = Some j → j ≠ job.
Proof. intros Hinv Hw Hne Hj ->. apply Hne. eapply jobs_unique; [done| |done]. by eapply job_of. Qed.
Lemma push_refines l c c' key :
  push_step l c c' → push_inv c →
  match l with
  | Some (k, e) => if bool_decide (k = key) then phase_step e (push_phase c key) (push_phase c' key) else push_phase c' key = push_phase c key
  | None => push_phase c' key = push_phase c key
  end.
Proof.
  assert (∀ w : work, bool_decide (is_Some (Some (Some w) ≫= λ n, n)) = true) as Hq by (intros w; by apply bool_decide_true; eexists).
  intros [k w c1|k job w c1 c2 Hw Ht|k job c1 c2 Hw Ht|k job w c1 Hw Hs|k job w c1 Hw] Hinv.
  - unfold trigger. case_bool_decide as Hk; [subst|].
    + unfold push_phase. destruct (jobs c1 !! key) as [job|] eqn:E; simpl.
      * destruct (proj1 (proj1 Hinv key job) E) as [st Hst]. rewrite E, lookup_insert_eq, Hst, Hq. destruct st; case_bool_decide; constructor.
      * rewrite !lookup_insert_eq, Hq. constructor.
    + destruct (jobs c1 !! k) as [job|] eqn:E; apply phase_frame; simpl; [done| |by rewrite lookup_insert_ne|]; intros j Hj.
      * destruct (proj1 (proj1 Hinv k job) E) as [st Hst]. pose proof (other_job _ _ _ _ _ _ Hinv Hst Hk Hj). by rewrite lookup_insert_ne.
      * destruct (proj1 (proj1 Hinv key j) Hj) as [st Hst]. pose proof (proj2 Hinv _ _ Hst). rewrite !lookup_insert_ne by lia. done.
  - unfold worker_turn in Ht. destruct (heap c1 !! job) as [[w'|]|] eqn:E; simplify_eq. case_bool_decide as Hk; [subst|].
    + unfold push_phase. simpl. rewrite (job_of _ _ _ _ Hinv Hw), E, Hw, !lookup_insert_eq, Hq.
      rewrite bool_decide_false by (by intros []). constructor.
    + apply phase_frame; [done|]. intros j Hj. pose proof (other_job _ _ _ _ _ _ Hinv Hw Hk Hj). simpl. by rewrite !lookup_insert_ne.
  - assert (heap c1 !! job ≫= (λ n, n) = None) as E. { unfold worker_turn in Ht. by destruct (heap c1 !! job) as [[w'|]|]. }
    assert (c2 = MkCoalescer (delete k (jobs c1)) (heap c1) (delete job (workers c1)) (sem c1) (fresh c1)) as ->.
    { unfold worker_turn in Ht. by destruct (heap c1 !! job) as [[w'|]|]; simplify_eq. }
    destruct (decide (k = key)) as [->|Hk].
    + unfold push_phase. simpl. rewrite lookup_delete_eq, (job_of _ _ _ _ Hinv Hw), Hw, E. by rewrite bool_decide_false by (by intros []).
    + apply phase_frame; simpl; [by rewrite lookup_delete_ne|]. intros j Hj. pose proof (other_job _ _ _ _ _ _ Hinv Hw Hk Hj).
      by rewrite lookup_delete_ne.
  - destruct (decide (k = key)) as [->|Hk].
    + unfold push_phase. simpl. by rewrite (job_of _ _ _ _ Hinv Hw), Hw, lookup_insert_eq.
    + apply phase_frame; [done|]. intros j Hj. pose proof (other_job _ _ _ _ _ _ Hinv Hw Hk Hj). simpl. by rewrite lookup_insert_ne.
  - case_bool_decide as Hk; [subst|].
    + unfold push_phase. simpl. rewrite (job_of _ _ _ _ Hinv Hw), Hw, lookup_insert_eq. case_bool_decide; constructor.
    + apply phase_frame; [done|]. intros j Hj. pose proof (other_job _ _ _ _ _ _ Hinv Hw Hk Hj). simpl. by rewrite lookup_insert_ne.
Qed.

Lemma push_inv_new : push_inv newPushCoalescer.
Proof.
  split; simpl; [intros key job|intros job kw; by rewrite lookup_empty]. rewrite lookup_empty. split; [done|].
  intros (st & Hst). by rewrite lookup_empty in Hst.
Qed.
#[global] Instance push_coalescer : Coalescer pushCoalescer := {
  co_init := newPushCoalescer; co_step := push_step; co_inv := push_inv; co_phase := push_phase;
  co_inv_init := push_inv_new; co_rest_init := λ k, eq_refl; co_inv_step := push_inv_step; co_refines := push_refines
}.

(** *** The latest work, the semaphore, and the end *)

Definition slots (kw : string * wstate) : nat := match kw.2 with Running _ => 1 | _ => 0 end.

(** With the work that was triggered last for each key. *)
Inductive push_run : pushCoalescer → gmap string work → Prop :=
| run_new : push_run newPushCoalescer ∅
| run_trigger key w c last : push_run c last → push_run (trigger key w c) (<[key := w]> last)
| run_step l c c' last : push_run c last → push_step l c c' → (∀ k, l ≠ Some (k, Trigger)) → push_run c' last.

Definition run_ok (c : pushCoalescer) (last : gmap string work) : Prop :=
  push_inv c ∧ sem c = total slots (workers c) ∧ sem c <= maxConcurrent ∧
  ∀ key job w, jobs c !! key = Some job → heap c !! job = Some (Some w) → last !! key = Some w.

Lemma push_run_ok c last : push_run c last → run_ok c last.
Proof.
  induction 1 as [|key w c last _ IH|l c c' last _ IH Hs Hl].
  - split_and!; [apply push_inv_new|done|simpl; lia|done].
  - destruct IH as (Hinv & Hsem & Hmax & Hlast). split_and!; [by apply (push_inv_step _ _ _ (push_trigger key w c))|..].
    + unfold trigger. destruct (jobs c !! key); simpl; [done|]. rewrite total_insert_new; [done|].
      apply eq_None_not_Some. intros [kw Hk%(proj2 Hinv)]. lia.
    + unfold trigger. by destruct (jobs c !! key).
    + intros k j v. unfold trigger. destruct (jobs c !! key) as [job|] eqn:E; simpl.
      * intros Hk. destruct (decide (k = key)) as [->|Hne].
        -- simplify_eq. rewrite !lookup_insert_eq. congruence.
        -- rewrite !lookup_insert_ne; [by eapply Hlast|done|]. intros ->. apply Hne. by eapply jobs_unique.
      * destruct (decide (k = key)) as [->|Hne]; [rewrite !lookup_insert_eq; intros [= <-]; rewrite lookup_insert_eq; congruence|].
        rewrite !(lookup_insert_ne _ key) by done. intros Hk. rewrite lookup_insert_ne; [by eapply Hlast|].
        apply (proj1 Hinv) in Hk as [st Hst%(proj2 Hinv)]. lia.
  - destruct IH as (Hinv & Hsem & Hmax & Hlast). pose proof (push_inv_step _ _ _ Hs Hinv) as Hinv'. split; [done|].
    destruct Hs as [key w c|key job w c c' Hw Ht|key job c c' Hw Ht|key job w c Hw Hlt|key job w c Hw].
    + by destruct (Hl key).
    + unfold worker_turn in Ht. destruct (heap c !! job) as [[w'|]|] eqn:E; simplify_eq. simpl.
      pose proof (total_update slots (workers c) job _ (key, Waiting w) Hw) as Ht. change (slots (key, AtLoop)) with 0 in Ht. change (slots (key, Waiting w)) with 0 in Ht.
      split_and!; [lia|done|].
      intros k j v Hk. rewrite lookup_insert_Some. intros [[_ ?]|[_ Hv]]; [done|by eapply Hlast].
    + unfold worker_turn in Ht. pose proof (total_delete slots (workers c) job _ Hw) as Hd. change (slots (key, AtLoop)) with 0 in Hd.
      destruct (heap c !! job) as [[w'|]|] eqn:E; simplify_eq; simpl; (split_and!; [lia|done|]);
        intros k j v [_ Hk]%lookup_delete_Some; by eapply Hlast.
    + pose proof (total_update slots (workers c) job _ (key, Running w) Hw) as Ht. change (slots (key, Running w)) with 1 in Ht. change (slots (key, Waiting w)) with 0 in Ht.
      simpl in *. split_and!; [lia|lia|done].
    + pose proof (total_update slots (workers c) job _ (key, AtLoop) Hw) as Ht. change (slots (key, Running w)) with 1 in Ht. change (slots (key, AtLoop)) with 0 in Ht.
      simpl in *. split_and!; [lia|lia|done].
Qed.

(** Steps left without new triggers. *)
Definition worker_cost (kw : string * wstate) : nat := match kw.2 with AtLoop => 1 | Waiting _ => 3 | Running _ => 2 end.
Definition job_cost (n : option work) : nat := if n then 4 else 0.
Definition cost (c : pushCoalescer) : nat := total worker_cost (workers c) + total job_cost (heap c).
Lemma cost_decreases l c c' : push_step l c c' → (∀ k, l ≠ Some (k, Trigger)) → cost c' < cost c.
Proof.
  intros [key w c1|key job w c1 c2 Hw Ht|key job c1 c2 Hw Ht|key job w c1 Hw Hlt|key job w c1 Hw] Hl; unfold cost.
  - by destruct (Hl key).
  - unfold worker_turn in Ht. destruct (heap c1 !! job) as [[w'|]|] eqn:E; simplify_eq. simpl.
    pose proof (total_update worker_cost (workers c1) job _ (key, Waiting w) Hw) as H1.
    pose proof (total_update job_cost (heap c1) job _ None E) as H2. unfold worker_cost, job_cost in *. simpl in *. lia.
  - unfold worker_turn in Ht. pose proof (total_delete worker_cost (workers c1) job _ Hw) as Hd.
    destruct (heap c1 !! job) as [[w'|]|] eqn:E; simplify_eq; simpl; unfold worker_cost in *; simpl in *; lia.
  - pose proof (total_update worker_cost (workers c1) job _ (key, Running w) Hw) as H1. unfold worker_cost in *. simpl in *. lia.
  - pose proof (total_update worker_cost (workers c1) job _ (key, AtLoop) Hw) as H1. unfold worker_cost in *. simpl in *. lia.
Qed.
Lemma never_stuck c last : 0 < maxConcurrent → run_ok c last → workers c ≠ ∅ → ∃ l c', push_step l c c' ∧ ∀ k, l ≠ Some (k, Trigger).
Proof.
  intros Hmax (_ & Hsem & _) Hne.
  destruct (decide (Exists (λ p, slots p.2 ≠ 0) (map_to_list (workers c)))) as [Hex|Hno].
  - apply Exists_exists in Hex as ([job [key st]] & Hin & Hst). apply elem_of_map_to_list in Hin. destruct st as [|w|w]; [done..|].
    eexists _, _. split; [by eapply push_release|done].
  - destruct (map_choose _ Hne) as (job & [key st] & Hw). destruct st as [|w|w].
    + destruct (worker_turn key job c) as [[w|] c'] eqn:E; [exists (Some (key, Start)), c'|exists None, c']; (split; [|done]).
      * by eapply push_take.
      * by eapply push_leave.
    + exists None, (acquire key job w c). split; [|done]. eapply push_acquire; [done|]. rewrite Hsem.
      assert (total slots (workers c) = 0) as ->; [|done]. unfold total. apply not_Exists_Forall in Hno; [|intros ?; solve_decision].
      induction Hno as [|p l Hp _ IH]; simpl in *; [done|]. lia.
    + destruct Hno. apply Exists_exists. exists (job, (key, Running w)). split; [by apply elem_of_map_to_list|done].
Qed.

Definition settle (c c' : pushCoalescer) : Prop := ∃ l, push_step l c c' ∧ ∀ k, l ≠ Some (k, Trigger).
Lemma settle_sn c : sn settle c.
Proof.
  assert (∀ n c, cost c < n → sn settle c) as H; [|by apply (H (S (cost c))); lia].
  intros n. induction n as [|n IH]; intros c1 Hc; [lia|]. constructor. intros c2 (l & Hs & Hl). apply IH.
  pose proof (cost_decreases _ _ _ Hs Hl). lia.
Qed.
Lemma settle_run c c' last : push_run c last → rtc settle c c' → push_run c' last.
Proof. intros Hr Hs. induction Hs as [|c1 c2 c3 (l & Hs & Hl) _ IH]; [done|]. apply IH. by eapply run_step. Qed.
Lemma settled_empty c last : 0 < maxConcurrent → push_run c last → nf settle c → jobs c = ∅.
Proof.
  intros Hmax Hr Hnf. assert (workers c = ∅) as Hw.
  - destruct (decide (workers c = ∅)) as [|Hne]; [done|]. destruct Hnf.
    destruct (never_stuck c last Hmax (push_run_ok _ _ Hr) Hne) as (l & c' & Hs & Hl). exists c'. by exists l.
  - destruct (push_run_ok _ _ Hr) as ([Hj _] & _). apply map_empty. intros key. apply eq_None_not_Some. intros [job (st & Hst)%Hj].
    by rewrite Hw, lookup_empty in Hst.
Qed.
End push.
End Push.

(** ** The latch of [ACLPusher] *)

Module Latch.
(** [inflight] points to the states; each is made with its goroutine. *)
Inductive gstate := AtPush | InPush | AtLock.
Record wsPushState := MkState { running : bool; pending : bool }.
Record ACLPusher := MkPusher {
  inflight : gmap string nat; states : gmap nat wsPushState; routines : gmap nat (string * gstate); fresh : nat
}.
Definition NewACLPusher : ACLPusher := MkPusher ∅ ∅ ∅ 0.

Definition PushWorkspace (workspaceID : string) (p : ACLPusher) : ACLPusher :=
  if workspaceID ≟ "" then p
  else
    match (inflight p !! workspaceID ≫= λ i, (i,.) <$> states p !! i) with
    | Some (i, MkState true _) => MkPusher (inflight p) (<[i := MkState true true]> (states p)) (routines p) (fresh p)
    | _ =>
        let i := fresh p in
        MkPusher (<[workspaceID := i]> (inflight p)) (<[i := MkState true false]> (states p)) (<[i := (workspaceID, AtPush)]> (routines p)) (S i)
    end.
(** The end of a turn of [runPush], under the mutex. *)
Definition runPush_turn (workspaceID : string) (g : nat) (p : ACLPusher) : ACLPusher :=
  match (inflight p !! workspaceID ≫= λ i, (i,.) <$> states p !! i) with
  | Some (i, MkState r true) => MkPusher (inflight p) (<[i := MkState r false]> (states p)) (<[g := (workspaceID, AtPush)]> (routines p)) (fresh p)
  | _ => MkPusher (delete workspaceID (inflight p)) (states p) (delete g (routines p)) (fresh p)
  end.
Definition move (workspaceID : string) (g : nat) (st : gstate) (p : ACLPusher) : ACLPusher :=
  MkPusher (inflight p) (states p) (<[g := (workspaceID, st)]> (routines p)) (fresh p).

Inductive latch_step : option (string * event) → ACLPusher → ACLPusher → Prop :=
| latch_trigger ws p : ws ≠ "" → latch_step (Some (ws, Trigger)) p (PushWorkspace ws p)
| latch_nothing p : latch_step None p (PushWorkspace "" p)
| latch_start ws g p : routines p !! g = Some (ws, AtPush) → latch_step (Some (ws, Start)) p (move ws g InPush p)
| latch_stop ws g p : routines p !! g = Some (ws, InPush) → latch_step (Some (ws, Stop)) p (move ws g AtLock p)
| latch_turn ws g p : routines p !! g = Some (ws, AtLock) → latch_step None p (runPush_turn ws g p).

Definition latch_phase (p : ACLPusher) (ws : string) : phase :=
  match inflight p !! ws with
  | None => Rest
  | Some g =>
      let more := match states p !! g with Some st => pending st | None => false end in
      match routines p !! g with
      | Some (_, AtPush) => if more then Twice else Queued
      | Some (_, InPush) => if more then BusyQueued else Busy
      | Some (_, AtLock) => if more then Queued else Rest
      | None => Rest
      end
  end.
Definition latch_inv (p : ACLPusher) : Prop :=
  (∀ ws g, inflight p !! ws = Some g ↔ ∃ st, routines p !! g = Some (ws, st)) ∧
  (∀ g kw, routines p !! g = Some kw → g < fresh p ∧ ∃ b, states p !! g = Some (MkState true b)).

Lemma inflight_of p ws g st : latch_inv p → routines p !! g = Some (ws, st) → inflight p !! ws = Some g.
Proof. intros [Hi _] Hr. apply Hi. by exists st. Qed.
Lemma inflight_state p ws g : latch_inv p → inflight p !! ws = Some g → ∃ st b, routines p !! g = Some (ws, st) ∧ states p !! g = Some (MkState true b).
Proof. intros [Hi Hr] (st & Hst)%Hi. destruct (Hr _ _ Hst) as (_ & b & Hb). by exists st, b. Qed.
Lemma other_routine p ws ws' g st i : latch_inv p → routines p !! g = Some (ws, st) → ws ≠ ws' → inflight p !! ws' = Some i → i ≠ g.
Proof. intros Hinv Hr Hne (st' & Hst')%(proj1 Hinv) ->. congruence. Qed.
Lemma latch_frame p p' ws :
  inflight p' !! ws = inflight p !! ws →
  (∀ g, inflight p !! ws = Some g → states p' !! g = states p !! g ∧ routines p' !! g = routines p !! g) → latch_phase p' ws = latch_phase p ws.
Proof.
  intros Hi Hrest. unfold latch_phase. rewrite Hi. destruct (inflight p !! ws) as [g|]; [|done]. by destruct (Hrest g eq_refl) as [-> ->].
Qed.

(** The two cases of a trigger, and of the end of a turn. *)
Lemma PushWorkspace_cases ws p : latch_inv p → ws ≠ "" →
  (∃ g st b, inflight p !! ws = Some g ∧ routines p !! g = Some (ws, st) ∧ states p !! g = Some (MkState true b) ∧
     PushWorkspace ws p = MkPusher (inflight p) (<[g := MkState true true]> (states p)) (routines p) (fresh p)) ∨
  (inflight p !! ws = None ∧
     PushWorkspace ws p = MkPusher (<[ws := fresh p]> (inflight p)) (<[fresh p := MkState true false]> (states p))
       (<[fresh p := (ws, AtPush)]> (routines p)) (S (fresh p))).
Proof.
  intros Hinv Hne. unfold PushWorkspace. rewrite bool_decide_false by done. destruct (inflight p !! ws) as [g|] eqn:E; simpl; [left|by right].
  destruct (inflight_state _ _ _ Hinv E) as (st & b & Hr & Hs). rewrite Hs. simpl. by exists g, st, b.
Qed.
Lemma runPush_cases ws g p : latch_inv p → routines p !! g = Some (ws, AtLock) →
  (states p !! g = Some (MkState true true) ∧
     runPush_turn ws g p = MkPusher (inflight p) (<[g := MkState true false]> (states p)) (<[g := (ws, AtPush)]> (routines p)) (fresh p)) ∨
  (states p !! g = Some (MkState true false) ∧
     runPush_turn ws g p = MkPusher (delete ws (inflight p)) (states p) (delete g (routines p)) (fresh p)).
Proof.
  intros Hinv Hr. unfold runPush_turn. rewrite (inflight_of _ _ _ _ Hinv Hr). simpl.
  destruct (proj2 Hinv _ _ Hr) as (_ & [|] & Hs); rewrite Hs; simpl; auto.
Qed.

Lemma latch_move_inv p ws g st st' m :
  latch_inv p → routines p !! g = Some (ws, st) → (∀ i kw, routines p !! i = Some kw → ∃ b, m !! i = Some (MkState true b)) →
  latch_inv (MkPusher (inflight p) m (<[g := (ws, st')]> (routines p)) (fresh p)).
Proof.
  intros [Hi Hf] Hr Hm. split; simpl.
  - intros k j. rewrite Hi. destruct (decide (j = g)) as [->|Hne]; [rewrite lookup_insert_eq|by rewrite lookup_insert_ne].
    rewrite Hr. split; intros (s & [= -> _]); eauto.
  - intros i kw. rewrite lookup_insert_Some. intros [[<- _]|[_ Hk]].
    + split; [by eapply Hf|by eapply Hm].
    + split; [by eapply Hf|by eapply Hm].
Qed.
Lemma latch_inv_step l p p' : latch_step l p p' → latch_inv p → latch_inv p'.
Proof.
  intros [ws p1 Hne|p1|ws g p1 Hr|ws g p1 Hr|ws g p1 Hr] Hinv.
  - destruct (PushWorkspace_cases ws p1 Hinv Hne) as [(g & st & b & Hi & Hr & Hs & ->)|[Hi ->]].
    + rewrite <-(insert_id (routines p1) g (ws, st)) by done. eapply latch_move_inv; [done|done|].
      intros i kw Hk. destruct (decide (i = g)) as [->|]; [rewrite lookup_insert_eq; by eexists|rewrite lookup_insert_ne by done; by eapply Hinv].
    + destruct Hinv as [Hj Hf]. assert (∀ kw, routines p1 !! fresh p1 ≠ Some kw) as Hfr by (intros kw [Hk _]%Hf; lia). split; simpl.
      * intros k j. setoid_rewrite lookup_insert_Some. rewrite Hj. split.
        -- intros [[<- <-]|[Hn (st & Hst)]]; [by exists AtPush; left|]. exists st. right. split; [|done]. intros <-. by eapply Hfr.
        -- intros (st & [[<- [= <- _]]|[Hn Hst]]); [by left|]. right. split; [|by exists st]. intros <-.
           assert (inflight p1 !! ws = Some j) by (apply Hj; by exists st). congruence.
      * intros j kw. rewrite lookup_insert_Some. intros [[<- _]|[Hn Hk]]; [split; [lia|]; rewrite lookup_insert_eq; by eexists|].
        rewrite lookup_insert_ne by done. destruct (Hf _ _ Hk). split; [lia|done].
  - done.
  - eapply latch_move_inv; [done|done|]. intros i kw Hk. by eapply Hinv.
  - eapply latch_move_inv; [done|done|]. intros i kw Hk. by eapply Hinv.
  - destruct (runPush_cases ws g p1 Hinv Hr) as [[Hs ->]|[Hs ->]].
    + eapply latch_move_inv; [done|done|]. intros i kw Hk.
      destruct (decide (i = g)) as [->|]; [rewrite lookup_insert_eq; by eexists|rewrite lookup_insert_ne by done; by eapply Hinv].
    + pose proof (inflight_of _ _ _ _ Hinv Hr) as Hig. destruct Hinv as [Hj Hf]. split; simpl; [|intros j kw [_ Hk]%lookup_delete_Some; eauto].
      intros k j. rewrite lookup_delete_Some, Hj. setoid_rewrite lookup_delete_Some. split.
      * intros [Hn (st & Hst)]. exists st. split; [|done]. intros <-. congruence.
      * intros (st & Hn & Hst). split; [|by exists st]. intros <-. destruct Hn.
        assert (inflight p1 !! ws = Some j) by (apply Hj; by exists st). congruence.
Qed.
Lemma latch_refines l p p' ws :
  latch_step l p p' → latch_inv p →
  match l with
  | Some (k, e) => if bool_decide (k = ws) then phase_step e (latch_phase p ws) (latch_phase p' ws) else latch_phase p' ws = latch_phase p ws
  | None => latch_phase p' ws = latch_phase p ws
  end.
Proof.
  intros [k p1 Hne|p1|k g p1 Hr|k g p1 Hr|k g p1 Hr] Hinv; [| |case_bool_decide as Hk; [subst|]..|].
  - destruct (PushWorkspace_cases k p1 Hinv Hne) as [(g & st & b & Hi & Hr & Hs & ->)|[Hi ->]]; case_bool_decide as Hk; subst.
    + unfold latch_phase. simpl. rewrite Hi, Hs, Hr, lookup_insert_eq. destruct st, b; constructor.
    + apply latch_frame; [done|]. intros i Hi'. pose proof (other_routine _ _ _ _ _ _ Hinv Hr Hk Hi'). simpl. by rewrite lookup_insert_ne.
    + unfold latch_phase. simpl. rewrite Hi, !lookup_insert_eq. constructor.
    + apply latch_frame; simpl; [by rewrite lookup_insert_ne|]. intros i Hi'. destruct (inflight_state _ _ _ Hinv Hi') as (st & b & Hr & _).
      destruct (proj2 Hinv _ _ Hr). rewrite !lookup_insert_ne by lia. done.
  - done.
  - unfold latch_phase. simpl. rewrite (inflight_of _ _ _ _ Hinv Hr), Hr, lookup_insert_eq. destruct (proj2 Hinv _ _ Hr) as (_ & [|] & ->); constructor.
  - apply latch_frame; [done|]. intros i Hi'. pose proof (other_routine _ _ _ _ _ _ Hinv Hr Hk Hi'). simpl. by rewrite lookup_insert_ne.
  - unfold latch_phase. simpl. rewrite (inflight_of _ _ _ _ Hinv Hr), Hr, lookup_insert_eq. destruct (proj2 Hinv _ _ Hr) as (_ & [|] & ->); constructor.
  - apply latch_frame; [done|]. intros i Hi'. pose proof (other_routine _ _ _ _ _ _ Hinv Hr Hk Hi'). simpl. by rewrite lookup_insert_ne.
  - destruct (decide (k = ws)) as [->|Hk].
    + pose proof (inflight_of _ _ _ _ Hinv Hr) as Hi. unfold latch_phase.
      destruct (runPush_cases ws g p1 Hinv Hr) as [[Hs ->]|[Hs ->]]; simpl; rewrite Hi, Hr, Hs; [by rewrite !lookup_insert_eq|by rewrite lookup_delete_eq].
    + destruct (runPush_cases k g p1 Hinv Hr) as [[Hs ->]|[Hs ->]]; (apply latch_frame; simpl; [by rewrite ?lookup_delete_ne|]);
        intros i Hi'; pose proof (other_routine _ _ _ _ _ _ Hinv Hr Hk Hi'); by rewrite ?lookup_insert_ne, ?lookup_delete_ne.
Qed.
Lemma latch_inv_new : latch_inv NewACLPusher.
Proof.
  split; simpl; [intros ws g|intros g kw; by rewrite lookup_empty]. rewrite lookup_empty. split; [done|].
  intros (st & Hst). by rewrite lookup_empty in Hst.
Qed.
#[global] Instance latch_coalescer : Coalescer ACLPusher := {
  co_init := NewACLPusher; co_step := latch_step; co_inv := latch_inv; co_phase := latch_phase;
  co_inv_init := latch_inv_new; co_rest_init := λ k, eq_refl; co_inv_step := latch_inv_step; co_refines := latch_refines
}.
End Latch.

(** ** What the users get *)

(** C29: no trigger is lost, in either coalescer.  For every key the runs
    alternate: one stops before the next starts; there are never more runs than
    triggers; and whenever the key is at rest, a run that was started after the
    last trigger has stopped. *)
Theorem triggers_served (work : Type) (maxConcurrent : nat) (h : list (string * event)) (key : string) :
  (∀ c : Push.pushCoalescer, @history _ (Push.push_coalescer (work := work) maxConcurrent) h c → promise (Push.push_phase c key) (events_of key h)) ∧
  (∀ p : Latch.ACLPusher, history h p → promise (Latch.latch_phase p key) (events_of key h)).
Proof. split; intros c Hh; [apply (history_promise (H := Push.push_coalescer maxConcurrent) _ _ _ Hh)|apply (history_promise _ _ _ Hh)]. Qed.

(** C40: pushes come to an end.  In every state that triggers and workers can
    reach, no more runs are under way than the semaphore has slots; the work that
    a worker takes is what was triggered last for its key; and without new
    triggers the workers finish in finitely many steps, whatever their order,
    never waiting for one another for ever, and leave nothing behind. *)
Theorem pushes_drain {work : Type} (maxConcurrent : nat) (c : Push.pushCoalescer (work := work)) (last : gmap string work) :
  0 < maxConcurrent → Push.push_run maxConcurrent c last →
  total Push.slots (Push.workers c) <= maxConcurrent ∧
  (∀ key job w c', Push.workers c !! job = Some (key, Push.AtLoop) → Push.worker_turn key job c = (Some w, c') → last !! key = Some w) ∧
  sn (Push.settle maxConcurrent) c ∧
  (∀ c', rtc (Push.settle maxConcurrent) c c' → nf (Push.settle maxConcurrent) c' → Push.jobs c' = ∅).
Proof.
  intros Hmax Hr. destruct (Push.push_run_ok _ _ _ Hr) as (Hinv & Hsem & Hle & Hlast). split_and!.
  - lia.
  - intros key job w c' Hw Ht. unfold Push.worker_turn in Ht. destruct (Push.heap c !! job) as [[w'|]|] eqn:E; simplify_eq.
    eapply Hlast; [by eapply Push.job_of|done].
  - apply Push.settle_sn.
  - intros c' Hs Hnf. eapply Push.settled_empty; [done| |done]. by eapply Push.settle_run.
Qed.

Module Burst.
Definition c2 : Push.pushCoalescer := Push.trigger "shield:s1" 2 (Push.trigger "shield:s1" 1 Push.newPushCoalescer).
Lemma c2_run : Push.push_run 4 c2 (<["shield:s1" := 2]> (<["shield:s1" := 1]> ∅)).
Proof. apply Push.run_trigger, Push.run_trigger, Push.run_new. Qed.
Lemma pushes_drain_witness :
  sn (Push.settle 4) c2 ∧ ∀ c', rtc (Push.settle 4) c2 c' → nf (Push.settle 4) c' → Push.jobs c' = ∅.
Proof. exact (proj2 (proj2 (pushes_drain 4 c2 _ ltac:(lia) c2_run))). Defined.

Definition c1 : Push.pushCoalescer := Push.trigger "shield:s1" 1 Push.newPushCoalescer.
Lemma c1_history : @history _ (Push.push_coalescer 4) [("shield:s1", Trigger)] c1.
Proof. eapply history_event; [apply history_init|]. apply Push.push_trigger. Qed.
Lemma triggers_served_witness : promise (Push.push_phase c1 "shield:s1") [Trigger].
Proof. exact (proj1 (triggers_served nat 4 [("shield:s1", Trigger)] "shield:s1") c1 c1_history). Defined.
End Burst.
