(* ===== verification/Provider.v ===== *)
(** * Operators of the provider plane

    [controller/internal/provider] (identity.go, session.go, totp.go, store.go,
    store_totp.go, operators.go, ratelimit.go, auth_handlers.go,
    totp_handlers.go, operator_handlers.go, authz.go, bootstrap.go) and
    [middleware/provider.go]: sign-in of operators by password and TOTP, the
    tokens that follow from it, and the management of operators.  Each handler
    makes several calls to the database and to Valkey, so each is a [proc] of
    [Conc].  A transaction holds row locks from its first statement on and is one
    call.

    Parameters: the text operations of Go on Unicode, the reading of a uuid,
    HMAC-SHA1, Argon2id, the sealing of secrets, the signing of JWTs, and what a
    request draws at random. *)

From Stdlib Require Import ZArith Lia Ascii.
From S2P Require Import Prelude GoText Sql Conc.
Open Scope Z_scope.
Set Default Proof Using "Type".

(** ** Rows and the shared state *)

Record ProviderUser := MkUser {
  pu_email : string; pu_role : string; pu_disabled : option time; pu_hash : option string; pu_must_change : bool;
  pu_generation : Z; pu_last_login : option time;
  pu_ciphertext : option string; pu_nonce : option string; pu_enabled : option time; pu_last_step : option Z
}.
#[export] Instance ProviderUser_eq_dec : EqDecision ProviderUser.
Proof. solve_decision. Defined.

Record AuditEntry := MkAudit {
  ae_user : option string; ae_email : string; ae_action : string; ae_target_type : string; ae_target : string; ae_ip : string
}.

(** What happened, for the statements of the theorems: request [n] was admitted
    with a token as the operator of a row; it spent a step of the operator's
    TOTP, who then had the generation; the TOTP of an operator was reset. *)
Inductive event :=
| Passed (n : nat) (token : string) (id : uuid) (u : ProviderUser)
| Spent (n : nat) (id : uuid) (generation step : Z)
| Cleared (id : uuid).

Record sys := MkSys {
  users : gmap uuid ProviderUser; audits : list AuditEntry; counters : gmap string (Z * option time); clock : time;
  history : list event
}.
Definition set_users (m : gmap uuid ProviderUser) (w : sys) : sys := MkSys m (audits w) (counters w) (clock w) (history w).
Definition add_audit (e : AuditEntry) (w : sys) : sys := MkSys (users w) (e :: audits w) (counters w) (clock w) (history w).
Definition set_counters (m : gmap string (Z * option time)) (w : sys) : sys :=
  MkSys (users w) (audits w) m (clock w) (history w).
Definition happened (e : event) (w : sys) : sys := MkSys (users w) (audits w) (counters w) (clock w) (e :: history w).

Inductive perror :=
| ErrProviderUserNotFound | ErrInvalidCredentials | ErrHashBusy | ErrTOTPRequired
| ErrTOTPAlreadyEnabled | ErrTOTPNotStarted | ErrTOTPNotEnrolled | ErrNotSuperAdmin
| ErrCannotModifySelf | ErrLastSuperAdmin | ErrAlreadyExists | ErrExistsDisabled | ErrAccountDisabled
| ErrInvalidRole | ErrInvalidEmail | ErrPasswordPolicy | ErrOther.

Abbreviation procP A := (proc sys A).
Abbreviation answerP A := (procP (result perror A)).
(** One call; a failed one is an error of its own. *)
Definition exec {A} (f : sys → result perror A * sys) : answerP A := let~ r := call f in Done (default (Err ErrOther) r).
Definition query {A} (f : sys → result perror A) : answerP A := exec (λ w, (f w, w)).
Definition pbind_ok {A B} (m : answerP A) (k : A → answerP B) : answerP B :=
  pbind m (λ r, match r with Ok a => k a | Err e => Done (Err e) end).
Notation "'let~?' x ':=' m 'in' k" := (pbind_ok m (λ x, k))
  (at level 100, x pattern, m at level 99, k at level 200, right associativity) : zec_scope.
Definition read_clock : procP time := atom (λ w, (clock w, w)).

(** ** Roles and actions (authz.go) *)

Definition RoleSuperAdmin : string := "super-admin".
Definition RoleRelayOps : string := "relay-ops".
Definition ActionRelayDelete : string := "relay.delete".
Definition ActionRelayRevoke : string := "relay.revoke".
Definition ActionProviderUserManage : string := "provider_user.manage".

Record Actor := MkActor { a_user : string; a_email : string; a_role : string }.
Definition superAdminOnlyRelayActions (action : string) : bool := (action ≟ ActionRelayRevoke) || (action ≟ ActionRelayDelete).
(** Whether the action is allowed. *)
Definition decide_action (actor : Actor) (action : string) : bool :=
  if a_role actor ≟ RoleSuperAdmin then true
  else if a_role actor ≟ RoleRelayOps then
    bool_decide (is_Some (strip_prefix (bytes "relay.") (bytes action))) && negb (superAdminOnlyRelayActions action)
  else false.
Definition CanManageProviderUser (actor : Actor) : bool := decide_action actor ActionProviderUserManage.
Definition ValidRole (role : string) : bool := (role ≟ RoleSuperAdmin) || (role ≟ RoleRelayOps).

(** ** TOTP (totp.go) *)

Definition totpPeriodSeconds : Z := 30.
Definition totpDigits : Z := 6.
Definition totpSkewSteps : Z := 1.

(** [binary.BigEndian.PutUint64] of an [int64]. *)
Definition step_bytes (step : Z) : list Z := (λ i, Z.land (Z.shiftr (step mod 2 ^ 64) (8 * i)) 255) <$> [7; 6; 5; 4; 3; 2; 1; 0].
(** [fmt.Sprintf("%06d")] of a number below a million. *)
Definition six_digits (n : Z) : string := of_bytes ((λ i, chr (48 + n / 10 ^ i mod 10)) <$> [5; 4; 3; 2; 1; 0]).
Definition is_digit (c : ascii) : bool := in_range 48 57 c.

Definition RequiresTOTP (u : ProviderUser) : bool := (pu_role u ≟ RoleSuperAdmin) || bool_decide (is_Some (pu_enabled u)).
Definition hasAMR (amr : list string) (method : string) : bool := existsb (λ m, m ≟ method) amr.

Section totp.
Context (hmac : list Z → list Z → list Z) (* secret, message: 20 bytes *).

Definition totpCodeAt (secret : list Z) (step : Z) : string :=
  let sum := hmac secret (step_bytes step) in
  let off := Z.to_nat (Z.land (default 0 (last sum)) 0x0f) in
  let be := foldl (λ n b, n * 256 + b) 0 (take 4 (drop off sum)) in
  six_digits (Z.land be 0x7fffffff mod 1000000).

(** The first of the steps that is new and has the code. *)
Fixpoint match_steps (secret : list Z) (code : string) (lastStep : option Z) (steps : list Z) : option Z :=
  match steps with
  | [] => None
  | step :: steps =>
      if match lastStep with Some last => step <=? last | None => false end then match_steps secret code lastStep steps
      else if totpCodeAt secret step ≟ code then Some step
      else match_steps secret code lastStep steps
  end.
(** [t.Unix()/30] truncates towards zero. *)
Definition matchTOTP (secret : list Z) (code : string) (now : time) (lastStep : option Z) : option Z :=
  if bool_decide (secret = []) || negb (blen code =? totpDigits) then None
  else if negb (forallb is_digit (bytes code)) then None
  else
    let current := Z.quot (time_Unix now) totpPeriodSeconds in
    match_steps secret code lastStep ((λ d, current + d) <$> [-totpSkewSteps; 0; totpSkewSteps]).
End totp.

(** ** Rows after a statement *)

Definition with_generation (g : Z) (u : ProviderUser) : ProviderUser :=
  MkUser (pu_email u) (pu_role u) (pu_disabled u) (pu_hash u) (pu_must_change u) g (pu_last_login u) (pu_ciphertext u) (pu_nonce u)
    (pu_enabled u) (pu_last_step u).
Definition with_password (hash : option string) (must : bool) (u : ProviderUser) : ProviderUser :=
  MkUser (pu_email u) (pu_role u) (pu_disabled u) hash must (pu_generation u) (pu_last_login u) (pu_ciphertext u) (pu_nonce u)
    (pu_enabled u) (pu_last_step u).
Definition with_role (role : string) (u : ProviderUser) : ProviderUser :=
  MkUser (pu_email u) role (pu_disabled u) (pu_hash u) (pu_must_change u) (pu_generation u) (pu_last_login u) (pu_ciphertext u) (pu_nonce u)
    (pu_enabled u) (pu_last_step u).
Definition with_disabled (t : option time) (u : ProviderUser) : ProviderUser :=
  MkUser (pu_email u) (pu_role u) t (pu_hash u) (pu_must_change u) (pu_generation u) (pu_last_login u) (pu_ciphertext u) (pu_nonce u)
    (pu_enabled u) (pu_last_step u).
Definition with_login (t : time) (u : ProviderUser) : ProviderUser :=
  MkUser (pu_email u) (pu_role u) (pu_disabled u) (pu_hash u) (pu_must_change u) (pu_generation u) (Some t) (pu_ciphertext u) (pu_nonce u)
    (pu_enabled u) (pu_last_step u).
Definition with_totp (ct nonce : option string) (enabled : option time) (step : option Z) (u : ProviderUser) : ProviderUser :=
  MkUser (pu_email u) (pu_role u) (pu_disabled u) (pu_hash u) (pu_must_change u) (pu_generation u) (pu_last_login u) ct nonce enabled step.

(** [session_generation + 1], a BIGINT. *)
Definition bumped (u : ProviderUser) : option ProviderUser :=
  if pu_generation u + 1 <? 2 ^ 63 then Some (with_generation (pu_generation u + 1) u) else None.

(** ** The store (store.go, store_totp.go, operators.go) *)

Section store.
Context (fold_case : string → string) (* [strings.ToLower] *)
        (pg_uuid : string → option uuid) (* the database's reading of a uuid *).

Definition normalizeEmail (email : string) : string := fold_case (TrimSpace email).

(** [WHERE id = $1] *)
Definition find_id (raw : string) (w : sys) : result perror (uuid * ProviderUser) :=
  match pg_uuid raw with
  | None => Err ErrOther
  | Some id => match users w !! id with Some u => Ok (id, u) | None => Err ErrProviderUserNotFound end
  end.
(** [email] is UNIQUE. *)
Definition find_email (email : string) (w : sys) : option (uuid * ProviderUser) :=
  list_find (λ kv : uuid * ProviderUser, pu_email kv.2 = email) (map_to_list (users w)) ≫= λ '(_, kv), Some kv.

Definition GetByID (raw : string) : answerP (uuid * ProviderUser) := query (find_id raw).
Definition GetByEmailForLogin (email : string) : answerP (uuid * ProviderUser) :=
  query (λ w, match find_email (normalizeEmail email) w with Some kv => Ok kv | None => Err ErrProviderUserNotFound end).

(** One row changes; the new one is returned. *)
Definition put (id : uuid) (u : ProviderUser) (w : sys) : result perror (uuid * ProviderUser) * sys :=
  (Ok (id, u), set_users (<[id := u]> (users w)) w).
Definition put_bumped (id : uuid) (u : ProviderUser) (w : sys) : result perror (uuid * ProviderUser) * sys :=
  match bumped u with Some u' => put id u' w | None => (Err ErrOther, w) end.
Definition on_row {A} (raw : string) (k : uuid → ProviderUser → sys → result perror A * sys) (w : sys) : result perror A * sys :=
  match find_id raw w with Ok (id, u) => k id u w | Err e => (Err e, w) end.
(** A change and its audit row, in one transaction. *)
Definition audited (e : uuid → ProviderUser → AuditEntry) (r : result perror (uuid * ProviderUser) * sys)
    : result perror (uuid * ProviderUser) * sys :=
  match r with (Ok (id, u), w) => (Ok (id, u), add_audit (e id u) w) | (Err e, w) => (Err e, w) end.

Definition SetPassword (raw hash : string) (mustChange : bool) : answerP (uuid * ProviderUser) :=
  exec (on_row raw (λ id u, put_bumped id (with_password (Some hash) mustChange u))).
Definition BumpSessionGeneration (raw : string) : answerP (uuid * ProviderUser) := exec (on_row raw put_bumped).
Definition RecordLogin (raw : string) : answerP () :=
  exec (λ w, match find_id raw w with
             | Ok (id, u) => (Ok tt, set_users (<[id := with_login (clock w) u]> (users w)) w)
             | Err ErrProviderUserNotFound => (Ok tt, w)
             | Err e => (Err e, w)
             end).
Definition InsertAudit (e : AuditEntry) : answerP () := exec (λ w, (Ok tt, add_audit e w)).

(** *** TOTP columns *)

Record TOTPState := MkTOTP { ts_Ciphertext : string; ts_Nonce : string; ts_EnabledAt : option time; ts_LastStep : option Z }.
Definition GetTOTPState (raw : string) : answerP TOTPState :=
  query (λ w, match find_id raw w with
              | Ok (_, u) => Ok (MkTOTP (default "" (pu_ciphertext u)) (default "" (pu_nonce u)) (pu_enabled u) (pu_last_step u))
              | Err e => Err e
              end).
Definition SetPendingTOTP (raw ciphertext nonce : string) : answerP () :=
  let~? n := exec (λ w, match find_id raw w with
                        | Ok (id, u) =>
                            if bool_decide (is_Some (pu_enabled u)) then (Ok false, w)
                            else (Ok true, set_users (<[id := with_totp (Some ciphertext) (Some nonce) None None u]> (users w)) w)
                        | Err ErrProviderUserNotFound => (Ok false, w)
                        | Err e => (Err e, w)
                        end) in
  if n then Done (Ok tt) else (let~? _ := GetByID raw in Done (Err ErrTOTPAlreadyEnabled)).

Definition audit_enroll (ip : string) (id : uuid) (u : ProviderUser) : AuditEntry :=
  MkAudit (Some id) (pu_email u) "provider_user.totp_enroll" "provider_user" id ip.
(** [n]: the request, for the history. *)
Definition ConfirmTOTP (n : nat) (raw : string) (step : Z) (ip : string) : answerP (uuid * ProviderUser) :=
  exec (λ w, match find_id raw w with
             | Ok (id, u) =>
                 if bool_decide (is_Some (pu_enabled u)) || negb (bool_decide (is_Some (pu_ciphertext u))) then (Err ErrTOTPNotStarted, w)
                 else
                   match bumped (with_totp (pu_ciphertext u) (pu_nonce u) (Some (clock w)) (Some step) u) with
                   | None => (Err ErrOther, w)
                   | Some u' => audited (audit_enroll ip) (put id u' (happened (Spent n id (pu_generation u') step) w))
                   end
             | Err ErrProviderUserNotFound => (Err ErrTOTPNotStarted, w)
             | Err e => (Err e, w)
             end).
Definition AcceptTOTPStep (n : nat) (raw : string) (step : Z) : answerP bool :=
  exec (λ w, match find_id raw w with
             | Ok (id, u) =>
                 if bool_decide (is_Some (pu_enabled u)) && match pu_last_step u with Some last => last <? step | None => true end
                 then (Ok true, set_users (<[id := with_totp (pu_ciphertext u) (pu_nonce u) (pu_enabled u) (Some step) u]> (users w))
                                  (happened (Spent n id (pu_generation u) step) w))
                 else (Ok false, w)
             | Err ErrProviderUserNotFound => (Ok false, w)
             | Err e => (Err e, w)
             end).

(** *** Operators *)

Record AuditActor := MkAuditActor { aa_user : string; aa_email : string; aa_ip : string }.
Definition audit_operator (actor : AuditActor) (action : string) (id : uuid) (_ : ProviderUser) : AuditEntry :=
  MkAudit (Some (aa_user actor)) (aa_email actor) action "provider_user" id (aa_ip actor).

Definition has_totp (u : ProviderUser) : bool := bool_decide (is_Some (pu_enabled u)) || bool_decide (is_Some (pu_ciphertext u)).
Definition ResetOperatorTOTP (actor : AuditActor) (raw : string) : answerP (uuid * ProviderUser) :=
  if raw ≟ aa_user actor then Done (Err ErrCannotModifySelf)
  else exec (on_row raw (λ id u w,
    if bool_decide (is_Some (pu_disabled u)) then (Err ErrAccountDisabled, w)
    else if negb (has_totp u) then (Err ErrTOTPNotEnrolled, w)
    else match bumped (with_totp None None None None u) with
         | None => (Err ErrOther, w)
         | Some u' => audited (audit_operator actor "provider_user.totp_reset") (put id u' (happened (Cleared id) w))
         end)).
(** [None]: not found. *)
Definition RecoverAdmin (email hash : string) : answerP bool :=
  exec (λ w, match find_email (normalizeEmail email) w with
             | None => (Err ErrProviderUserNotFound, w)
             | Some (id, u) =>
                 if negb (pu_role u ≟ RoleSuperAdmin) then (Err ErrNotSuperAdmin, w)
                 else if bool_decide (is_Some (pu_disabled u)) then (Err ErrAccountDisabled, w)
                 else match bumped (with_totp None None None None (with_password (Some hash) true u)) with
                      | None => (Err ErrOther, w)
                      | Some u' =>
                          (Ok (has_totp u),
                           add_audit (MkAudit None "system:cli" "provider_user.recover_admin" "provider_user" id "")
                             (set_users (<[id := u']> (users w)) (happened (Cleared id) w)))
                      end
             end).

(** [INSERT … ON CONFLICT (email) DO NOTHING RETURNING]; [fresh]: [gen_random_uuid()]. *)
Definition new_user (email role : string) (hash : option string) (must : bool) : ProviderUser :=
  MkUser email role None hash must 1 None None None None None.
Definition insert_user (fresh : uuid) (u : ProviderUser) (w : sys) : result perror (option (uuid * ProviderUser)) * sys :=
  match find_email (pu_email u) w with
  | Some _ => (Ok None, w)
  | None =>
      if bool_decide (is_Some (users w !! fresh)) || negb (ValidRole (pu_role u)) then (Err ErrOther, w)
      else (Ok (Some (fresh, u)), set_users (<[fresh := u]> (users w)) w)
  end.
Definition CreateOperator (fresh : uuid) (actor : AuditActor) (email role hash : string) : answerP (uuid * ProviderUser) :=
  if negb (ValidRole role) then Done (Err ErrInvalidRole)
  else exec (λ w,
    match insert_user fresh (new_user email role (Some hash) true) w with
    | (Err e, w') => (Err e, w)
    | (Ok (Some kv), w') => audited (audit_operator actor "provider_user.create") (Ok kv, w')
    | (Ok None, _) =>
        (Err (match find_email email w with
              | Some (_, u) => if bool_decide (is_Some (pu_disabled u)) then ErrExistsDisabled else ErrAlreadyExists
              | None => ErrOther
              end), w)
    end).

Definition active_admin (u : ProviderUser) : bool := (pu_role u ≟ RoleSuperAdmin) && negb (bool_decide (is_Some (pu_disabled u))).
Definition lockActiveSuperAdmins (w : sys) : list uuid := (map_to_list (users w)) ≫= λ '(id, u), if active_admin u then [id] else [].

(** The row, and whether it changed. *)
Definition ChangeRole (actor : AuditActor) (raw role : string) : answerP (uuid * ProviderUser * bool) :=
  if negb (ValidRole role) then Done (Err ErrInvalidRole)
  else if raw ≟ aa_user actor then Done (Err ErrCannotModifySelf)
  else exec (on_row raw (λ id u w,
    if pu_role u ≟ role then (Ok (id, u, false), w)
    else if active_admin u && (length (lockActiveSuperAdmins w) <=? 1)%nat then (Err ErrLastSuperAdmin, w)
    else match audited (audit_operator actor "provider_user.role_change") (put_bumped id (with_role role u) w) with
         | (Ok kv, w') => (Ok (kv, true), w')
         | (Err e, _) => (Err e, w)
         end)).
Definition SetDisabled (actor : AuditActor) (raw : string) (disabled : bool) : answerP bool :=
  if disabled && (raw ≟ aa_user actor) then Done (Err ErrCannotModifySelf)
  else exec (on_row raw (λ id u w,
    if eqb (bool_decide (is_Some (pu_disabled u))) disabled then (Ok false, w)
    else if disabled && (pu_role u ≟ RoleSuperAdmin) && (length (lockActiveSuperAdmins w) <=? 1)%nat then (Err ErrLastSuperAdmin, w)
    else
      let u' := if disabled then with_disabled (Some (clock w)) u else with_disabled None (with_password None false u) in
      match audited (audit_operator actor (if disabled then "provider_user.disable" else "provider_user.enable")) (put_bumped id u' w) with
      | (Ok _, w') => (Ok true, w')
      | (Err e, _) => (Err e, w)
      end)).
Definition ResetOperatorPassword (actor : AuditActor) (raw hash : string) : answerP (uuid * ProviderUser) :=
  if raw ≟ aa_user actor then Done (Err ErrCannotModifySelf)
  else exec (on_row raw (λ id u w,
    if bool_decide (is_Some (pu_disabled u)) then (Err ErrAccountDisabled, w)
    else audited (audit_operator actor "provider_user.password_reset") (put_bumped id (with_password (Some hash) true u) w))).

(** *** Bootstrap *)

Inductive BootstrapResult := BootstrapCreated (id : uuid) | BootstrapSkippedAdminExists | BootstrapEmailTaken | BootstrapNotConfigured.
Definition any_admin (w : sys) : bool := existsb (λ kv : uuid * ProviderUser, pu_role kv.2 ≟ RoleSuperAdmin) (map_to_list (users w)).
Definition HasSuperAdmin : answerP bool := query (λ w, Ok (any_admin w)).
Definition CreateBootstrapSuperAdminIfNone (fresh : uuid) (email hash : string) : answerP BootstrapResult :=
  exec (λ w,
    if any_admin w then (Ok BootstrapSkippedAdminExists, w)
    else match insert_user fresh (new_user (normalizeEmail email) RoleSuperAdmin (Some hash) true) w with
         | (Err e, _) => (Err e, w)
         | (Ok None, _) => (Ok BootstrapEmailTaken, w)
         | (Ok (Some (id, _)), w') =>
             (Ok (BootstrapCreated id),
              add_audit (MkAudit None "system:bootstrap" "provider_user.bootstrap_create" "provider_user" id "") w')
         end).
End store.

(** ** The limiter (ratelimit.go) *)

Definition loginFailWindow : duration := 15 * Minute.
Definition loginFailMaxPerEmail : Z := 5.
Definition loginFailMaxPerIP : Z := 20.
Definition loginPrefix : string := "provider:login:fail:".
Definition totpPrefix : string := "provider:totp:fail:".

Definition live_counter (key : string) (w : sys) : option (Z * option time) :=
  match counters w !! key with
  | Some (n, t) => if match t with Some t => clock w <? t | None => true end then Some (n, t) else None
  | None => None
  end.
Definition get_counter (key : string) (w : sys) : option Z := fst <$> live_counter key w.
(** [TTL], in whole seconds; negative without key or without expiry. *)
Definition ttl_counter (key : string) (w : sys) : duration :=
  match live_counter key w with
  | None => -2
  | Some (_, None) => -1
  | Some (_, Some t) => ((t - clock w) / 1000000 + 500) / 1000 * Second
  end.
Definition expire_counter (key : string) (ttl : duration) (w : sys) : sys :=
  match live_counter key w with
  | Some (n, _) => set_counters (<[key := (n, Some (clock w + ttl))]> (counters w)) w
  | None => w
  end.
(** [INCR]: keeps the expiry, and starts at 0 without one. *)
Definition incr_counter (key : string) (w : sys) : Z * sys :=
  let '(n, t) := default (0, None) (live_counter key w) in
  (n + 1, set_counters (<[key := (n + 1, t)]> (counters w)) w).

Section limiter.
Context (fold_case : string → string) (prefix : string).
Definition emailKey (email : string) : string := prefix +:+ "email:" +:+ normalizeEmail fold_case email.
Definition ipKey (ip : string) : string := prefix +:+ "ip:" +:+ ip.

(** The counter and its remaining window; [None]: an error. *)
Definition count (key : string) : procP (option (Z * duration)) :=
  let~ v := call (λ w, (get_counter key w, w)) in
  match v with
  | None => Done None
  | Some None => Done (Some (0, 0))
  | Some (Some n) =>
      let~ t := call (λ w, (ttl_counter key w, w)) in
      match t with
      | None => Done None
      | Some t =>
          if t <? 0 then
            let~ e := call (λ w, (tt, expire_counter key loginFailWindow w)) in
            Done ((λ _, (n, loginFailWindow)) <$> e)
          else Done (Some (n, t))
      end
  end.
Fixpoint blocked_keys (keys : list (string * Z)) (blocked : bool) (retry : duration) : procP (option (bool * duration)) :=
  match keys with
  | [] => Done (Some (blocked, retry))
  | (key, max) :: keys =>
      let~ c := count key in
      match c with
      | None => Done None
      | Some (n, ttl) =>
          if max <=? n then blocked_keys keys true (Z.max ttl retry) else blocked_keys keys blocked retry
      end
  end.
Definition Blocked (email ip : string) : procP (option (bool * duration)) :=
  blocked_keys [(emailKey email, loginFailMaxPerEmail); (ipKey ip, loginFailMaxPerIP)] false 0.

Record LimitTrip := MkTrip { lt_scope : string; lt_value : string; lt_failures : Z; lt_retry : duration }.
Definition trip_of (scope value key : string) (n max : Z) : procP (list LimitTrip) :=
  if n =? max then
    let~ t := call (λ w, (ttl_counter key w, w)) in
    Done [MkTrip scope value n (match t with Some t => if t <? 0 then loginFailWindow else t | None => loginFailWindow end)]
  else Done [].
Fixpoint record_keys (keys : list (string * string * string * Z)) (trips : list LimitTrip) : procP (option (list LimitTrip)) :=
  match keys with
  | [] => Done (Some trips)
  | (scope, value, key, max) :: keys =>
      let~ r := call (incr_counter key) in
      match r with
      | None => Done None
      | Some n =>
          let~ ok := (if n =? 1 then call (λ w, (tt, expire_counter key loginFailWindow w)) else Done (Some tt)) in
          match ok with
          | None => Done None
          | Some _ => let~ t := trip_of scope value key n max in record_keys keys (trips ++ t)
          end
      end
  end.
Definition RecordFailure (email ip : string) : procP (option (list LimitTrip)) :=
  record_keys [("email", normalizeEmail fold_case email, emailKey email, loginFailMaxPerEmail);
               ("ip", ip, ipKey ip, loginFailMaxPerIP)] [].
Definition Reset (email : string) : procP (option ()) :=
  call (λ w, (tt, set_counters (delete (emailKey email) (counters w)) w)).
End limiter.

(** ** Tokens (session.go, identity.go) *)

Definition AMRPassword : string := "pwd".
Definition AMROTP : string := "otp".
Definition MFAStageVerify : string := "verify".
Definition MFAStageEnroll : string := "enroll".
Definition ProviderSessionTTL : duration := 15 * Minute.
Definition PasswordChangeTokenTTL : duration := 10 * Minute.
Definition MFATokenTTL : duration := 5 * Minute.
Definition ProviderIssuer : string := "zecurity-provider".
Definition ProviderAudience : string := "provider".

Record ProviderClaims := MkClaims {
  c_Role : string; c_Email : string; c_Gen : Z; c_PWC : bool; c_AMR : list string; c_MFA : string;
  c_Subject : string; c_Issuer : string; c_Audience : list string; c_IssuedAt : time; c_ExpiresAt : option time
}.

(** [jwt.NewNumericDate]: whole seconds. *)
Definition numeric_date (t : time) : time := t / Second * Second.

(** A response: an error; a token with its seconds, whether the password must be
    changed and the MFA stage; a secret to scan; a temporary password; a row;
    the listed rows; or none of them. *)
Inductive response :=
| Fail (status : Z) (code : string)
| Token (token : string) (expires_in : Z) (pwc : bool) (mfa : string)
| Secret (secret : list Z)
| Temporary (password : string)
| User (u : ProviderUser)
| Roster (us : list ProviderUser)
| NoContent.

(** What a request draws at random. *)
Record draws := MkDraws {
  d_salt : list Z; d_secret : list Z; d_seal : list Z; d_temporary : string; d_id : uuid
}.

Section service.
Context (fold_case : string → string) (equal_fold : string → string → bool) (pg_uuid uuid_parse : string → option uuid)
        (hmac : list Z → list Z → list Z)
        (argon : list Z → string → string) (* salt and password to PHC text *)
        (verify_hash : string → string → option bool) (* password, PHC text; [None]: malformed *)
        (seal : list Z → list Z → string → option (string * string)) (* nonce, secret, context *)
        (unseal : string → string → string → option (list Z))
        (sign : ProviderClaims → option string)
        (signed : string → option ProviderClaims) (* HS256 with the provider key *).

(** *** Passwords *)

Definition VerifyPassword (password phc : string) : procP (result perror (option bool)) :=
  match verify_hash password phc with
  | None => Done (Ok None)
  | Some ok => let~ r := call (λ w, (ok, w)) in Done (match r with Some ok => Ok (Some ok) | None => Err ErrHashBusy end)
  end.
Definition HashPassword (d : draws) (password : string) : answerP string :=
  let~ r := call (λ w, (argon (d_salt d) password, w)) in Done (match r with Some h => Ok h | None => Err ErrHashBusy end).
Definition VerifyDummy (password : string) : answerP () :=
  let~ r := call (λ w, (tt, w)) in Done (match r with Some _ => Ok tt | None => Err ErrHashBusy end).

Definition ValidateNewPassword (password email current : string) : result perror () :=
  let n := RuneCountInString password in
  if (n <? 12) || (128 <? n) then Err ErrPasswordPolicy
  else if equal_fold (TrimSpace password) (TrimSpace email) then Err ErrPasswordPolicy
  else if negb (current ≟ "") && (password ≟ current) then Err ErrPasswordPolicy
  else Ok tt.

Definition reject (password : string) : answerP (uuid * ProviderUser) :=
  let~? _ := VerifyDummy password in Done (Err ErrInvalidCredentials).
Definition Authenticate (email password : string) : answerP (uuid * ProviderUser) :=
  let~ r := GetByEmailForLogin fold_case email in
  match r with
  | Err ErrProviderUserNotFound => reject password
  | Err e => Done (Err e)
  | Ok (id, u) =>
      if bool_decide (is_Some (pu_disabled u)) || (default "" (pu_hash u) ≟ "") then reject password
      else
        let~ v := VerifyPassword password (default "" (pu_hash u)) in
        match v with
        | Ok None => reject password
        | Err e => Done (Err e)
        | Ok (Some false) => Done (Err ErrInvalidCredentials)
        | Ok (Some true) => Done (Ok (id, u))
        end
  end.

(** *** Sessions *)

Definition issueProviderToken (id : uuid) (u : ProviderUser) (amr : list string) (pwc : bool) (mfa : string) (ttl : duration) : answerP string :=
  let~ now := read_clock in
  Done (match sign (MkClaims (pu_role u) (pu_email u) (pu_generation u) pwc amr mfa id ProviderIssuer [ProviderAudience]
                      (numeric_date now) (Some (numeric_date (now + ttl)))) with
        | Some t => Ok t
        | None => Err ErrOther
        end).
Definition checkSessionUser (id : uuid) (u : ProviderUser) (amr : list string) : bool :=
  negb ((id ≟ "") || (pu_email u ≟ "") || (pu_role u ≟ "")) && negb (bool_decide (amr = [])).
Definition IssueSession (id : uuid) (u : ProviderUser) (amr : list string) (pwcOnly : bool) : answerP (string * Z) :=
  if negb (checkSessionUser id u amr) then Done (Err ErrOther)
  else if negb pwcOnly && RequiresTOTP u && negb (hasAMR amr AMROTP) then Done (Err ErrTOTPRequired)
  else
    let ttl := if pwcOnly then PasswordChangeTokenTTL else ProviderSessionTTL in
    let~? token := issueProviderToken id u amr pwcOnly "" ttl in
    Done (Ok (token, ttl / Second)).
Definition IssueMFAToken (id : uuid) (u : ProviderUser) (stage : string) : answerP (string * Z) :=
  if negb ((stage ≟ MFAStageVerify) || (stage ≟ MFAStageEnroll)) then Done (Err ErrOther)
  else if negb (checkSessionUser id u [AMRPassword]) then Done (Err ErrOther)
  else
    let~? token := issueProviderToken id u [AMRPassword] false stage MFATokenTTL in
    Done (Ok (token, MFATokenTTL / Second)).

(** *** The gate (middleware/provider.go) *)

Definition VerifyProviderToken (now : time) (token : string) : option ProviderClaims :=
  match signed token with
  | Some c =>
      if (c_Issuer c ≟ ProviderIssuer) && bool_decide (ProviderAudience ∈ c_Audience c)
         && match c_ExpiresAt c with Some t => now <? t | None => false end && negb (c_Subject c ≟ "")
      then Some c else None
  | None => None
  end.
(** The token of the header, or the refusal. *)
Definition bearer (header : string) : option string :=
  match cut_on " "%char (bytes header) with
  | Some (p, rest) => if (p ≟ bytes "Bearer") && negb (bool_decide (rest = [])) then Some (of_bytes rest) else None
  | None => None
  end.
Record options := MkOptions { allowPasswordChangeToken : bool; allowMFAStage : string }.

(** The checks on the row, in their order. *)
Definition row_refusal (o : options) (c : ProviderClaims) (u : ProviderUser) : option (Z * string) :=
  if bool_decide (is_Some (pu_disabled u)) then Some (403, "not a provider user")
  else if negb (c_Gen c =? pu_generation u) then Some (401, "provider session revoked")
  else if negb (c_Email c ≟ pu_email u) then Some (401, "provider session revoked")
  else if negb (c_MFA c ≟ allowMFAStage o) then Some (403, "mfa_required")
  else if c_PWC c && negb (allowPasswordChangeToken o) then Some (403, "password_change_required")
  else if negb (c_PWC c) && (c_MFA c ≟ "") && RequiresTOTP u && negb (hasAMR (c_AMR c) AMROTP) then Some (403, "mfa_required")
  else None.
Definition RequireProvider (n : nat) (o : options) (header : string) (next : Actor → procP response) : procP response :=
  match bearer header with
  | None => Done (Fail 401 (if header ≟ "" then "missing Authorization header" else "malformed Authorization header"))
  | Some raw =>
      let~ now := read_clock in
      match VerifyProviderToken now raw with
      | None => Done (Fail 401 "invalid or expired provider token")
      | Some claims =>
          let~ r := exec (λ w, match find_id pg_uuid (c_Subject claims) w with
                               | Ok (id, u) => (Ok (id, u), match row_refusal o claims u with None => happened (Passed n raw id u) w | Some _ => w end)
                               | Err e => (Err e, w)
                               end) in
          match r with
          | Err ErrProviderUserNotFound => Done (Fail 403 "not a provider user")
          | Err _ => Done (Fail 500 "provider lookup failed")
          | Ok (id, u) =>
              match row_refusal o claims u with
              | Some (status, code) => Done (Fail status code)
              | None => next (MkActor id (pu_email u) (pu_role u))
              end
          end
      end
  end.
Definition full_route : options := MkOptions false "".
Definition password_route : options := MkOptions true "".
Definition mfa_route (stage : string) : options := MkOptions false stage.

(** *** Handlers *)

Definition clientIP (remote : string) : string := match SplitHostPort remote with Some (host, _) => host | None => remote end.

(** [None]: the attempt may proceed. *)
Definition checkLimiter (prefix email ip : string) : procP (option response) :=
  let~ r := Blocked fold_case prefix email ip in
  Done (match r with
        | None => Some (Fail 503 "login_unavailable")
        | Some (true, _) => Some (Fail 429 "too_many_attempts")
        | Some (false, _) => None
        end).
Definition limited (prefix email ip : string) (k : procP response) : procP response :=
  let~ r := checkLimiter prefix email ip in match r with Some f => Done f | None => k end.

Fixpoint audit_trips (entry : LimitTrip → AuditEntry) (trips : list LimitTrip) : procP () :=
  match trips with
  | [] => Done tt
  | t :: trips => InsertAudit (entry t) ;~ audit_trips entry trips
  end.
Definition recordFailure (email ip : string) : procP response :=
  let~ r := RecordFailure fold_case loginPrefix email ip in
  match r with
  | None => Done (Fail 503 "login_unavailable")
  | Some trips =>
      audit_trips (λ t, MkAudit None (normalizeEmail fold_case email) "provider_auth.rate_limit" "provider_login"
                          (lt_scope t +:+ ":" +:+ lt_value t) ip) trips ;~
      Done (Fail 401 "invalid_credentials")
  end.

(** The token that a correct password earns. *)
Definition sessionAfterPassword (id : uuid) (u : ProviderUser) (method : string) : answerP response :=
  if pu_must_change u then
    let~? t := IssueSession id u [method] true in Done (Ok (Token t.1 t.2 true ""))
  else if RequiresTOTP u then
    let stage := if bool_decide (is_Some (pu_enabled u)) then MFAStageVerify else MFAStageEnroll in
    let~? t := IssueMFAToken id u stage in Done (Ok (Token t.1 t.2 false stage))
  else
    let~? t := IssueSession id u [method] false in Done (Ok (Token t.1 t.2 false "")).

Definition Login (body : option (string * string)) (remote : string) : procP response :=
  match body with
  | None => Done (Fail 400 "invalid_request")
  | Some (email, password) =>
      if (email ≟ "") || (password ≟ "") then Done (Fail 400 "invalid_request")
      else
        let ip := clientIP remote in
        limited loginPrefix email ip (
          let~ r := Authenticate email password in
          match r with
          | Err ErrInvalidCredentials => recordFailure email ip
          | Err ErrHashBusy => Done (Fail 503 "login_unavailable")
          | Err _ => Done (Fail 500 "server_error")
          | Ok (id, u) =>
              Reset fold_case loginPrefix email ;~
              RecordLogin pg_uuid id ;~
              let~ s := sessionAfterPassword id u AMRPassword in
              match s with
              | Err _ => Done (Fail 500 "server_error")
              | Ok resp =>
                  let~ a := InsertAudit (MkAudit (Some id) (pu_email u) "provider_session.login" "provider_user" id ip) in
                  Done (match a with Ok _ => resp | Err _ => Fail 500 "server_error" end)
              end
          end)
  end.

(** Whether the current password is right. *)
Definition password_matches (u : ProviderUser) (password : string) : answerP bool :=
  if default "" (pu_hash u) ≟ "" then Done (Ok false)
  else
    let~? v := VerifyPassword password (default "" (pu_hash u)) in
    Done (Ok (default false v)).
Definition change_to (d : draws) (id : uuid) (u : ProviderUser) (newPassword ip : string) : procP response :=
  let~ h := HashPassword d newPassword in
  match h with
  | Err _ => Done (Fail 503 "login_unavailable")
  | Ok hash =>
      let~ r := SetPassword pg_uuid id hash false in
      match r with
      | Err _ => Done (Fail 500 "server_error")
      | Ok (_, updated) =>
          InsertAudit (MkAudit (Some id) (pu_email u) "provider_user.password_change" "provider_user" id ip) ;~
          let~ s := sessionAfterPassword id updated AMRPassword in
          Done (match s with Ok resp => resp | Err _ => Fail 500 "server_error" end)
      end
  end.
Definition ChangePassword (d : draws) (body : option (string * string)) (remote : string) (actor : Actor) : procP response :=
  match body with
  | None => Done (Fail 400 "invalid_request")
  | Some (current, new) =>
      if (current ≟ "") || (new ≟ "") then Done (Fail 400 "invalid_request")
      else
        let ip := clientIP remote in
        limited loginPrefix (a_email actor) ip (
          let~ r := GetByID pg_uuid (a_user actor) in
          match r with
          | Err _ => Done (Fail 500 "server_error")
          | Ok (id, u) =>
              let~ m := password_matches u current in
              match m with
              | Err _ => Done (Fail 503 "login_unavailable")
              | Ok false => recordFailure (a_email actor) ip
              | Ok true =>
                  match ValidateNewPassword new (pu_email u) current with
                  | Err _ => Done (Fail 400 "password_policy")
                  | Ok _ => change_to d id u new ip
                  end
              end
          end)
  end.

Definition Logout (remote : string) (actor : Actor) : procP response :=
  let~ r := BumpSessionGeneration pg_uuid (a_user actor) in
  match r with
  | Err _ => Done (Fail 500 "server_error")
  | Ok _ =>
      InsertAudit (MkAudit (Some (a_user actor)) (a_email actor) "provider_session.logout" "provider_user" (a_user actor) (clientIP remote)) ;~
      Done NoContent
  end.

(** *** TOTP handlers *)

Definition totpContext (id : string) : string := "provider-totp:" +:+ id.

Definition begin (body : option string) (remote : string) (actor : Actor) (k : uuid → ProviderUser → string → string → procP response)
    : procP response :=
  match body with
  | None => Done (Fail 400 "invalid_request")
  | Some code =>
      if code ≟ "" then Done (Fail 400 "invalid_request")
      else
        let ip := clientIP remote in
        limited totpPrefix (a_email actor) ip (
          let~ r := GetByID pg_uuid (a_user actor) in
          match r with
          | Err _ => Done (Fail 500 "server_error")
          | Ok (id, u) => k id u code ip
          end)
  end.
Definition totpFailure (id : uuid) (u : ProviderUser) (ip : string) : procP response :=
  let~ r := RecordFailure fold_case totpPrefix (pu_email u) ip in
  match r with
  | None => Done (Fail 503 "login_unavailable")
  | Some trips =>
      audit_trips (λ _, MkAudit (Some id) (pu_email u) "provider_auth.totp_rate_limit" "provider_user" id ip) trips ;~
      Done (Fail 401 "invalid_code")
  end.

(** The session after a code, and its answer. *)
Definition totp_session (id : uuid) (u : ProviderUser) : answerP response :=
  Reset fold_case totpPrefix (pu_email u) ;~
  let~? t := IssueSession id u [AMRPassword; AMROTP] false in
  Done (Ok (Token t.1 t.2 false "")).
(** The step that the code matches, if the operator may spend one. *)
Definition spend_step (n : nat) (id : uuid) (code : string) (st : TOTPState) (secret : list Z) : answerP bool :=
  let~ now := read_clock in
  match matchTOTP hmac secret code now (ts_LastStep st) with
  | None => Done (Ok false)
  | Some step => AcceptTOTPStep pg_uuid n id step
  end.
Definition Verify (n : nat) (body : option string) (remote : string) (actor : Actor) : procP response :=
  begin body remote actor (λ id u code ip,
    let~ r := GetTOTPState pg_uuid id in
    match r with
    | Err _ => Done (Fail 500 "server_error")
    | Ok st =>
        if negb (bool_decide (is_Some (ts_EnabledAt st))) || (ts_Ciphertext st ≟ "") then Done (Fail 409 "totp_not_enrolled")
        else
          match unseal (ts_Ciphertext st) (ts_Nonce st) (totpContext id) with
          | None => Done (Fail 500 "server_error")
          | Some secret =>
              let~ m := spend_step n id code st secret in
              match m with
              | Err _ => Done (Fail 500 "server_error")
              | Ok false => totpFailure id u ip
              | Ok true =>
                  let~ s := totp_session id u in
                  match s with
                  | Err _ => Done (Fail 500 "server_error")
                  | Ok resp =>
                      let~ a := InsertAudit (MkAudit (Some id) (pu_email u) "provider_session.mfa_verify" "provider_user" id ip) in
                      Done (match a with Ok _ => resp | Err _ => Fail 500 "server_error" end)
                  end
              end
          end
    end).

Definition Enroll (d : draws) (actor : Actor) : procP response :=
  let~ r := GetByID pg_uuid (a_user actor) in
  match r with
  | Err _ => Done (Fail 500 "server_error")
  | Ok (id, u) =>
      if bool_decide (is_Some (pu_enabled u)) then Done (Fail 409 "totp_already_enabled")
      else
        match seal (d_seal d) (d_secret d) (totpContext id) with
        | None => Done (Fail 500 "server_error")
        | Some (ct, nonce) =>
            let~ s := SetPendingTOTP pg_uuid id ct nonce in
            Done (match s with
                  | Err ErrTOTPAlreadyEnabled => Fail 409 "totp_already_enabled"
                  | Err _ => Fail 500 "server_error"
                  | Ok _ => Secret (d_secret d)
                  end)
        end
  end.

Definition confirm_step (n : nat) (id : uuid) (u : ProviderUser) (ip : string) (step : Z) : procP response :=
  let~ c := ConfirmTOTP pg_uuid n id step ip in
  match c with
  | Err ErrTOTPNotStarted => Done (Fail 409 "totp_not_started")
  | Err _ => Done (Fail 500 "server_error")
  | Ok (_, updated) =>
      Reset fold_case totpPrefix (pu_email u) ;~
      let~ s := IssueSession id updated [AMRPassword; AMROTP] false in
      Done (match s with Ok (token, exp) => Token token exp false "" | Err _ => Fail 500 "server_error" end)
  end.
Definition ConfirmEnroll (n : nat) (body : option string) (remote : string) (actor : Actor) : procP response :=
  begin body remote actor (λ id u code ip,
    let~ r := GetTOTPState pg_uuid id in
    match r with
    | Err _ => Done (Fail 500 "server_error")
    | Ok st =>
        if bool_decide (is_Some (ts_EnabledAt st)) then Done (Fail 409 "totp_already_enabled")
        else if ts_Ciphertext st ≟ "" then Done (Fail 409 "totp_not_started")
        else
          match unseal (ts_Ciphertext st) (ts_Nonce st) (totpContext id) with
          | None => Done (Fail 500 "server_error")
          | Some secret =>
              let~ now := read_clock in
              match matchTOTP hmac secret code now None with
              | None => totpFailure id u ip
              | Some step => confirm_step n id u ip step
              end
          end
    end).

(** *** Operator handlers *)

(** [writeOperatorError] *)
Definition operator_error (e : perror) : response :=
  match e with
  | ErrProviderUserNotFound => Fail 404 "not_found"
  | ErrCannotModifySelf => Fail 409 "cannot_modify_self"
  | ErrLastSuperAdmin => Fail 409 "last_super_admin"
  | ErrAlreadyExists => Fail 409 "already_exists"
  | ErrExistsDisabled => Fail 409 "exists_disabled"
  | ErrAccountDisabled => Fail 409 "account_disabled"
  | ErrTOTPNotEnrolled => Fail 409 "totp_not_enrolled"
  | ErrInvalidRole => Fail 400 "invalid_role"
  | ErrInvalidEmail => Fail 400 "invalid_email"
  | ErrHashBusy => Fail 503 "service_unavailable"
  | _ => Fail 500 "server_error"
  end.
Definition answer_op {A} (m : answerP A) (ok : A → response) : procP response :=
  let~ r := m in Done (match r with Ok a => ok a | Err e => operator_error e end).

Definition authorize (remote : string) (actor : Actor) (k : AuditActor → procP response) : procP response :=
  if CanManageProviderUser actor then k (MkAuditActor (a_user actor) (a_email actor) (clientIP remote))
  else Done (Fail 403 "forbidden").
(** The path's id as it is given, if it is a uuid. *)
Definition targetID (path : string) (k : string → procP response) : procP response :=
  match uuid_parse path with Some _ => k path | None => Done (Fail 404 "not_found") end.

Definition NormalizeOperatorEmail (raw : string) : result perror string :=
  let email := normalizeEmail fold_case raw in
  if (email ≟ "") || (254 <? blen email) || existsb (λ c, bool_decide (c ∈ [chr 32; chr 9; chr 13; chr 10])) (bytes email) then Err ErrInvalidEmail
  else
    match cut_on "@"%char (bytes email) with
    | None => Err ErrInvalidEmail
    | Some (local, domain) =>
        if bool_decide (local = []) || bool_decide (domain = []) || contains_byte "@"%char domain then Err ErrInvalidEmail else Ok email
    end.

Definition Create (d : draws) (body : option (string * string)) (remote : string) (actor : Actor) : procP response :=
  authorize remote actor (λ aa,
    match body with
    | None => Done (Fail 400 "invalid_request")
    | Some (rawEmail, role) =>
        match NormalizeOperatorEmail rawEmail with
        | Err _ => Done (Fail 400 "invalid_email")
        | Ok email =>
            if negb (ValidRole role) then Done (Fail 400 "invalid_role")
            else
              let~ h := HashPassword d (d_temporary d) in
              match h with
              | Err e => Done (operator_error e)
              | Ok hash => answer_op (CreateOperator (d_id d) aa email role hash) (λ _, Temporary (d_temporary d))
              end
        end
    end).
Definition ChangeRoleHandler (path : string) (body : option string) (remote : string) (actor : Actor) : procP response :=
  authorize remote actor (λ aa, targetID path (λ id,
    match body with
    | None => Done (Fail 400 "invalid_request")
    | Some role =>
        if negb (ValidRole role) then Done (Fail 400 "invalid_role")
        else answer_op (ChangeRole pg_uuid aa id role) (λ '(_, u, _), User u)
    end)).
Definition setDisabled (path : string) (disabled : bool) (remote : string) (actor : Actor) : procP response :=
  authorize remote actor (λ aa, targetID path (λ id, answer_op (SetDisabled pg_uuid aa id disabled) (λ _, NoContent))).
Definition ResetPassword (d : draws) (path remote : string) (actor : Actor) : procP response :=
  authorize remote actor (λ aa, targetID path (λ id,
    if id ≟ aa_user aa then Done (operator_error ErrCannotModifySelf)
    else
      let~ t := GetByID pg_uuid id in
      match t with
      | Err e => Done (operator_error e)
      | Ok (_, u) =>
          if bool_decide (is_Some (pu_disabled u)) then Done (operator_error ErrAccountDisabled)
          else
            let~ h := HashPassword d (d_temporary d) in
            match h with
            | Err e => Done (operator_error e)
            | Ok hash => answer_op (ResetOperatorPassword pg_uuid aa id hash) (λ _, Temporary (d_temporary d))
            end
      end)).
Definition ResetTOTP (path : string) (body : option string) (remote : string) (actor : Actor) : procP response :=
  authorize remote actor (λ aa, targetID path (λ id,
    match body with
    | None => Done (Fail 400 "invalid_request")
    | Some rawReason =>
        let reason := TrimSpace rawReason in
        if reason ≟ "" then Done (Fail 400 "reason_required")
        else if 500 <? RuneCountInString reason then Done (Fail 400 "reason_too_long")
        else if id ≟ aa_user aa then Done (operator_error ErrCannotModifySelf)
        else answer_op (ResetOperatorTOTP pg_uuid aa id) (λ _, NoContent)
    end)).

Definition Me (actor : Actor) : procP response :=
  let~ r := GetByID pg_uuid (a_user actor) in Done (match r with Ok (_, u) => User u | Err _ => Fail 500 "provider lookup failed" end).
Definition ListUsers (actor : Actor) : procP response :=
  if CanManageProviderUser actor then
    let~ r := query (λ w, Ok (snd <$> map_to_list (users w))) in
    Done (match r with Ok us => Roster us | Err _ => Fail 500 "list provider users failed" end)
  else Done (Fail 403 "forbidden").

(** *** The command line and the start of the server *)

Definition RecoverAdminCLI (d : draws) (email : string) : procP response :=
  let~ h := HashPassword d (d_temporary d) in
  match h with
  | Err e => Done (operator_error e)
  | Ok hash => answer_op (RecoverAdmin fold_case email hash) (λ _, Temporary (d_temporary d))
  end.
Definition Bootstrap (d : draws) (rawEmail password : string) : answerP BootstrapResult :=
  let~? exists_ := HasSuperAdmin in
  if exists_ then Done (Ok BootstrapSkippedAdminExists)
  else
    let email := TrimSpace rawEmail in
    if email ≟ "" then Done (Ok BootstrapNotConfigured)
    else if password ≟ "" then Done (Err ErrOther)
    else
      match ValidateNewPassword password email "" with
      | Err e => Done (Err e)
      | Ok _ =>
          let~? hash := HashPassword d password in
          CreateBootstrapSuperAdminIfNone fold_case (d_id d) email hash
      end.

(** ** The routes (cmd/server/main.go) *)

Inductive request :=
| POST_login (body : option (string * string)) (remote : string)
| POST_password (header : string) (body : option (string * string)) (remote : string)
| POST_logout (header remote : string)
| POST_verify (header : string) (body : option string) (remote : string)
| POST_enroll (header : string)
| POST_confirm (header : string) (body : option string) (remote : string)
| GET_me (header : string)
| GET_users (header : string)
| POST_users (header : string) (body : option (string * string)) (remote : string)
| PATCH_user (header path : string) (body : option string) (remote : string)
| POST_disable (header path remote : string)
| POST_enable (header path remote : string)
| POST_reset_password (header path remote : string)
| POST_reset_totp (header path : string) (body : option string) (remote : string)
| CLI_recover (email : string)
| CLI_bootstrap (email password : string).

(** The route's gate and handler. *)
Definition route (n : nat) (d : draws) (r : request) : option (options * string * (Actor → procP response)) :=
  match r with
  | POST_login _ _ | CLI_recover _ | CLI_bootstrap _ _ => None
  | POST_password h b rm => Some (password_route, h, ChangePassword d b rm)
  | POST_logout h rm => Some (full_route, h, Logout rm)
  | POST_verify h b rm => Some (mfa_route MFAStageVerify, h, Verify n b rm)
  | POST_enroll h => Some (mfa_route MFAStageEnroll, h, Enroll d)
  | POST_confirm h b rm => Some (mfa_route MFAStageEnroll, h, ConfirmEnroll n b rm)
  | GET_me h => Some (full_route, h, Me)
  | GET_users h => Some (full_route, h, ListUsers)
  | POST_users h b rm => Some (full_route, h, Create d b rm)
  | PATCH_user h p b rm => Some (full_route, h, ChangeRoleHandler p b rm)
  | POST_disable h p rm => Some (full_route, h, setDisabled p true rm)
  | POST_enable h p rm => Some (full_route, h, setDisabled p false rm)
  | POST_reset_password h p rm => Some (full_route, h, ResetPassword d p rm)
  | POST_reset_totp h p b rm => Some (full_route, h, ResetTOTP p b rm)
  end.
Definition serve (n : nat) (d : draws) (r : request) : procP response :=
  match route n d r with
  | Some (o, header, handler) => RequireProvider n o header handler
  | None =>
      match r with
      | POST_login body remote => Login body remote
      | CLI_recover email => RecoverAdminCLI d email
      | CLI_bootstrap email password => Bootstrap d email password ;~ Done NoContent
      | _ => Done NoContent
      end
  end.
End service.
