(* ===== verification/ProviderFacts.v ===== *)
(** * Operators: what every request does

    Each action of a request leaves operators and history as they were or makes
    one of the changes of [effect].  [served] says so for all routes; the answers
    that carry a token are traced to the row and to the step that earned it. *)

From Stdlib Require Import ZArith Lia Ascii.
From S2P Require Import Prelude GoText Sql Conc Provider.
Open Scope Z_scope.
Set Default Proof Using "Type".

(** ** Answers *)

(** Whatever the state, the answer satisfies [P]. *)
Fixpoint answers {W A} (P : A → Prop) (p : proc W A) : Prop :=
  match p with
  | Done a => P a
  | Atom u k => ∀ w, answers P (k w)
  | Choose k => ∀ f, answers P (k f)
  end.
Lemma answers_pwp {W A} R (P : A → Prop) (p : proc W A) w (Q : A → W → Prop) :
  (∀ a w, P a → Q a w) → answers P p → pwp R p w Q.
Proof. intros HQ. revert w. induction p as [a|u k IH|k IH]; intros w; simpl; auto. Qed.
Lemma answers_bind {W A B} (P : B → Prop) (m : proc W A) (k : A → proc W B) :
  (∀ a, answers P (k a)) → answers P (pbind m k).
Proof. intros Hk. induction m as [a|u m' IH|m' IH]; simpl; auto. Qed.

(** A program whose continuation is split on what it got. *)
Ltac proc_cases :=
  repeat match goal with
         | |- context [match ?x with _ => _ end] => destruct x eqn:?
         end.

Section facts.
Context (fold_case : string → string) (equal_fold : string → string → bool) (pg_uuid uuid_parse : string → option uuid)
        (hmac : list Z → list Z → list Z) (argon : list Z → string → string) (verify_hash : string → string → option bool)
        (seal : list Z → list Z → string → option (string * string)) (unseal : string → string → string → option (list Z))
        (sign : ProviderClaims → option string) (signed : string → option ProviderClaims).
Abbreviation serve := (serve fold_case equal_fold pg_uuid uuid_parse hmac argon verify_hash seal unseal sign signed).
Abbreviation route := (route fold_case equal_fold pg_uuid uuid_parse hmac argon verify_hash seal unseal sign).

(** ** Effects *)

(** What ends a session when it changes. *)
Definition credentials (u : ProviderUser) :=
  (pu_email u, pu_role u, pu_disabled u, pu_hash u, pu_must_change u, pu_enabled u).
Definition totp_of (u : ProviderUser) := (pu_ciphertext u, pu_nonce u, pu_enabled u, pu_last_step u).
Definition has_admin (m : gmap uuid ProviderUser) : Prop := ∃ id u, m !! id = Some u ∧ active_admin u = true.

(** Request [n], with token [T]. *)
Inductive effect (n : nat) (T : option string) (w w' : sys) : Prop :=
| eff_quiet : users w' = users w → history w' = history w → effect n T w w'
| eff_login id u t :
    users w !! id = Some u → users w' = <[id := with_login t u]> (users w) → history w' = history w → effect n T w w'
| eff_pending id u ct nonce :
    users w !! id = Some u → pu_enabled u = None →
    users w' = <[id := with_totp (Some ct) (Some nonce) None None u]> (users w) → history w' = history w → effect n T w w'
| eff_accept id u step :
    pg_uuid id = Some id → users w !! id = Some u → is_Some (pu_enabled u) → (∀ s, pu_last_step u = Some s → s < step) →
    users w' = <[id := with_totp (pu_ciphertext u) (pu_nonce u) (pu_enabled u) (Some step) u]> (users w) →
    history w' = Spent n id (pu_generation u) step :: history w → effect n T w w'
| eff_confirm id u step t :
    pg_uuid id = Some id → users w !! id = Some u → pu_enabled u = None → is_Some (pu_ciphertext u) →
    users w' = <[id := with_generation (pu_generation u + 1) (with_totp (pu_ciphertext u) (pu_nonce u) (Some t) (Some step) u)]> (users w) →
    history w' = Spent n id (pu_generation u + 1) step :: history w → effect n T w w'
| eff_clear id u u1 :
    users w !! id = Some u → pu_role u1 = pu_role u → pu_disabled u1 = pu_disabled u → pu_generation u1 = pu_generation u →
    users w' = <[id := with_generation (pu_generation u + 1) (with_totp None None None None u1)]> (users w) →
    history w' = Cleared id :: history w → effect n T w w'
| eff_bump id u u1 :
    users w !! id = Some u → totp_of u1 = totp_of u →
    users w' = <[id := with_generation (pu_generation u + 1) u1]> (users w) → (has_admin (users w) → has_admin (users w')) →
    history w' = history w → effect n T w w'
| eff_new id u :
    users w !! id = None → pu_generation u = 1 → pu_enabled u = None → users w' = <[id := u]> (users w) → history w' = history w →
    effect n T w w'
| eff_admit tok cl o id u :
    T = Some tok → signed tok = Some cl → pg_uuid (c_Subject cl) = Some id → users w !! id = Some u → row_refusal o cl u = None →
    users w' = users w → history w' = Passed n tok id u :: history w → effect n T w w'.

(** Other actions: time passes, and keys of Valkey come and go. *)
Definition env (w w' : sys) : Prop := users w' = users w ∧ history w' = history w ∧ clock w <= clock w'.

Context (pg_canon : ∀ raw id, pg_uuid raw = Some id → pg_uuid id = Some id).

Lemma find_id_Ok raw w id u : find_id pg_uuid raw w = Ok (id, u) → pg_uuid raw = Some id ∧ users w !! id = Some u.
Proof. unfold find_id. intros H. repeat case_match; simplify_eq. done. Qed.
Lemma find_email_Some email w id u : find_email email w = Some (id, u) → users w !! id = Some u ∧ pu_email u = email.
Proof.
  unfold find_email. destruct (list_find _ _) as [[i kv]|] eqn:E; [|done]. simpl. intros [= ->].
  apply list_find_Some in E as (Hi & He & _). apply list_elem_of_lookup_2, elem_of_map_to_list in Hi. done.
Qed.

Lemma bumped_Some u u' : bumped u = Some u' → u' = with_generation (pu_generation u + 1) u.
Proof. unfold bumped. by case_match; intros; simplify_eq. Qed.

Section each.
Context (n : nat) (T : option string).
Abbreviation G := (effect n T).
Abbreviation guar p := (pguar G p).

Lemma quiet_same w : G w w.
Proof. by apply eff_quiet. Qed.
Lemma guar_exec {A} (f : sys → result perror A * sys) : (∀ w, G w (f w).2) → guar (exec f).
Proof. intros Hf. apply pguar_bind; [by apply pguar_call|done]. Qed.
Lemma guar_reading {A} (f : sys → result perror A) : guar (query f).
Proof. apply guar_exec. intros w. apply quiet_same. Qed.
Lemma guar_read {A} (f : sys → A) : guar (call (λ w, (f w, w))).
Proof. apply pguar_call. intros w. apply quiet_same. Qed.
Lemma guar_ok {A B} (m : answerP A) (k : A → answerP B) : guar m → (∀ a, guar (k a)) → guar (pbind_ok m k).
Proof. intros Hm Hk. apply pguar_bind; [done|]. by intros []. Qed.
Lemma guar_clock : guar read_clock.
Proof. apply pguar_atom. intros w. apply quiet_same. Qed.
End each.
#[local] Hint Resolve guar_reading guar_read guar_clock : prov.

(** *** Statements *)

Section statements.
Context (n : nat) (T : option string).
Abbreviation G := (effect n T).
Abbreviation guar p := (pguar G p).

Lemma effect_same w w1 w2 : users w2 = users w1 → history w2 = history w1 → G w w1 → G w w2.
Proof.
  intros Hu Hh He. destruct He; [eapply eff_quiet|eapply eff_login|eapply eff_pending|eapply eff_accept|eapply eff_confirm|eapply eff_clear
    |eapply eff_bump|eapply eff_new|eapply eff_admit]; rewrite ?Hu, ?Hh; eauto.
Qed.
Lemma audited_effect e r w : G w r.2 → G w (audited e r).2.
Proof. destruct r as [[[id u]|err] w']; [|done]. by apply effect_same. Qed.

(** The other active administrators. *)
Definition another_admin (id : uuid) (w : sys) : Prop := ∃ id2 u2, id2 ≠ id ∧ users w !! id2 = Some u2 ∧ active_admin u2 = true.
Lemma locked_admins w : (1 < length (lockActiveSuperAdmins w))%nat → ∀ id, another_admin id w.
Proof.
  intros Hl id. unfold lockActiveSuperAdmins in Hl.
  assert (∀ l : list (uuid * ProviderUser), NoDup l.*1 → (1 < length (l ≫= λ '(id, u), if active_admin u then [id] else []))%nat →
    ∃ id2 u2, id2 ≠ id ∧ (id2, u2) ∈ l ∧ active_admin u2 = true) as Hgen.
  { clear Hl. induction l as [|[i u] l IH]; [intros _; simpl; intros; lia|]. intros [Hni Hnd]%NoDup_cons. rewrite bind_cons, length_app.
    destruct (active_admin u) eqn:Ha; cbn [length Nat.add].
    - destruct (decide (i = id)) as [->|Hne]; [|intros _; exists i, u; split_and!; [done|left|done]]. intros Hl.
      destruct (l ≫= _) as [|j js] eqn:E in Hl; [simpl in Hl; lia|].
      assert (j ∈ l ≫= (λ '(id, u), if active_admin u then [id] else [])) as Hj by (rewrite E; left).
      apply list_elem_of_bind in Hj as ([j' u'] & Hj & Hin). destruct (active_admin u') eqn:Ha'; [|by apply elem_of_nil in Hj].
      apply list_elem_of_singleton in Hj as ->. exists j', u'. split_and!; [|by right|done].
      intros ->. apply Hni. apply list_elem_of_fmap. by exists (id, u').
    - intros Hl. destruct (IH Hnd Hl) as (id2 & u2 & ? & ? & ?). exists id2, u2. split_and!; [done|by right|done]. }
  destruct (Hgen (map_to_list (users w)) (NoDup_fst_map_to_list _) Hl) as (id2 & u2 & Hne & Hin & Ha).
  exists id2, u2. split_and!; [done|by apply elem_of_map_to_list|done].
Qed.

Lemma put_bumped_effect id u u1 w :
  users w !! id = Some u → totp_of u1 = totp_of u → pu_generation u1 = pu_generation u →
  (active_admin u = true → active_admin u1 = true ∨ another_admin id w) → G w (put_bumped id u1 w).2.
Proof.
  intros Hu Ht Hg Ha. unfold put_bumped. destruct (bumped u1) as [u'|] eqn:E; [|apply quiet_same]. apply bumped_Some in E as ->.
  rewrite Hg. eapply (eff_bump _ _ _ _ id u u1); [done|done|done| |done]. intros (id2 & u2 & Hu2 & Ha2). simpl.
  destruct (decide (id2 = id)) as [->|Hne].
  - simplify_eq. destruct (Ha Ha2) as [Ha1|(id3 & u3 & Hne & Hu3 & Ha3)].
    + exists id, (with_generation (pu_generation u + 1) u1). by rewrite lookup_insert_eq.
    + exists id3, u3. by rewrite lookup_insert_ne.
  - exists id2, u2. by rewrite lookup_insert_ne.
Qed.
Lemma on_row_effect {A} raw (k : uuid → ProviderUser → sys → result perror A * sys) w :
  (∀ id u, pg_uuid id = Some id → users w !! id = Some u → G w (k id u w).2) → G w (on_row pg_uuid raw k w).2.
Proof using pg_canon.
  intros Hk. unfold on_row. destruct (find_id pg_uuid raw w) as [[id u]|e] eqn:E; [|apply quiet_same].
  apply find_id_Ok in E as [Hr Hu]. apply Hk; [by eapply pg_canon|done].
Qed.

Lemma guar_SetPassword raw hash must : guar (SetPassword pg_uuid raw hash must).
Proof using pg_canon. apply guar_exec. intros w. apply on_row_effect. intros id u _ Hu. eapply put_bumped_effect; [done|done|done|by left]. Qed.
Lemma guar_Bump raw : guar (BumpSessionGeneration pg_uuid raw).
Proof using pg_canon. apply guar_exec. intros w. apply on_row_effect. intros id u _ Hu. eapply put_bumped_effect; [done|done|done|by left]. Qed.
Lemma guar_RecordLogin raw : guar (RecordLogin pg_uuid raw).
Proof.
  apply guar_exec. intros w. destruct (find_id pg_uuid raw w) as [[id u]|[]] eqn:E; try apply quiet_same.
  apply find_id_Ok in E as [_ Hu]. by eapply eff_login.
Qed.
Lemma guar_InsertAudit e : guar (InsertAudit e).
Proof. apply guar_exec. intros w. by apply eff_quiet. Qed.
Lemma guar_GetByID raw : guar (GetByID pg_uuid raw).
Proof. apply guar_reading. Qed.
Lemma guar_SetPending raw ct nonce : guar (SetPendingTOTP pg_uuid raw ct nonce).
Proof.
  apply guar_ok; [|intros [|]; [done|apply guar_ok; [apply guar_reading|done]]].
  apply guar_exec. intros w. destruct (find_id pg_uuid raw w) as [[id u]|[]] eqn:E; try apply quiet_same.
  apply find_id_Ok in E as [_ Hu]. case_bool_decide as He; [apply quiet_same|]. eapply eff_pending; [done| |done|done]. by apply eq_None_not_Some.
Qed.
Lemma guar_Confirm raw step ip : guar (ConfirmTOTP pg_uuid n raw step ip).
Proof using pg_canon.
  apply guar_exec. intros w. destruct (find_id pg_uuid raw w) as [[id u]|[]] eqn:E; try apply quiet_same.
  apply find_id_Ok in E as [Hr Hu]. destruct (bool_decide _ || _) eqn:Hc; [apply quiet_same|]. bool_simpl.
  destruct (bumped _) as [u'|] eqn:Hb; [|apply quiet_same]. apply bumped_Some in Hb as ->. apply audited_effect.
  eapply eff_confirm; [by eapply pg_canon|done|by apply eq_None_not_Some|done|done|done].
Qed.
Lemma guar_Accept raw step : guar (AcceptTOTPStep pg_uuid n raw step).
Proof using pg_canon.
  apply guar_exec. intros w. destruct (find_id pg_uuid raw w) as [[id u]|[]] eqn:E; try apply quiet_same.
  apply find_id_Ok in E as [Hr Hu]. destruct (bool_decide _ && _) eqn:Hc; [|apply quiet_same]. bool_simpl.
  eapply eff_accept; [by eapply pg_canon|done|done| |done|done]. intros s Hs. rewrite Hs in *. by bool_simpl.
Qed.
Lemma guar_ResetTOTP actor raw : guar (ResetOperatorTOTP pg_uuid actor raw).
Proof using pg_canon.
  unfold ResetOperatorTOTP. case_bool_decide; [done|]. apply guar_exec. intros w. apply on_row_effect. intros id u _ Hu.
  case_bool_decide; [apply quiet_same|]. destruct (negb _); [apply quiet_same|].
  destruct (bumped _) as [u'|] eqn:Hb; [|apply quiet_same]. apply bumped_Some in Hb as ->. apply audited_effect.
  by eapply eff_clear.
Qed.
Lemma guar_Recover email hash : guar (RecoverAdmin fold_case email hash).
Proof.
  apply guar_exec. intros w. destruct (find_email _ w) as [[id u]|] eqn:E; [|apply quiet_same]. apply find_email_Some in E as [Hu _].
  destruct (negb _); [apply quiet_same|]. case_bool_decide; [apply quiet_same|].
  destruct (bumped _) as [u'|] eqn:Hb; [|apply quiet_same]. apply bumped_Some in Hb as ->. 
  by eapply (eff_clear _ _ _ _ id u (with_password (Some hash) true u)).
Qed.
Lemma insert_user_effect fresh u w : pu_generation u = 1 → pu_enabled u = None → G w (insert_user fresh u w).2.
Proof.
  intros Hg He. unfold insert_user. destruct (find_email _ w); [apply quiet_same|]. destruct (bool_decide _ || _) eqn:E; [apply quiet_same|].
  bool_simpl. eapply (eff_new _ _ _ _ fresh u); [by apply eq_None_not_Some|done|done|done|done].
Qed.
Lemma guar_CreateOperator fresh actor email role hash : guar (CreateOperator fresh actor email role hash).
Proof.
  unfold CreateOperator. destruct (negb _); [done|]. apply guar_exec. intros w.
  pose proof (insert_user_effect fresh (new_user email role (Some hash) true) w eq_refl eq_refl) as Hi.
  destruct (insert_user fresh _ w) as [[[kv|]|e] w']; [by apply audited_effect|apply quiet_same|apply quiet_same].
Qed.
Lemma guar_Bootstrap_row fresh email hash : guar (CreateBootstrapSuperAdminIfNone fold_case fresh email hash).
Proof.
  apply guar_exec. intros w. destruct (any_admin w); [apply quiet_same|].
  pose proof (insert_user_effect fresh (new_user (normalizeEmail fold_case email) RoleSuperAdmin (Some hash) true) w eq_refl eq_refl) as Hi.
  destruct (insert_user fresh _ w) as [[[[id u]|]|e] w']; [by eapply effect_same; [..|exact Hi]|apply quiet_same|apply quiet_same].
Qed.
Lemma guar_ChangeRole actor raw role : guar (ChangeRole pg_uuid actor raw role).
Proof using pg_canon.
  unfold ChangeRole. destruct (negb _); [done|]. case_bool_decide; [done|]. apply guar_exec. intros w. apply on_row_effect. intros id u _ Hu.
  case_bool_decide; [apply quiet_same|]. destruct (active_admin u && _) eqn:Hl; [apply quiet_same|].
  assert (G w (audited (audit_operator actor "provider_user.role_change") (put_bumped id (with_role role u) w)).2) as Hg.
  { apply audited_effect. eapply put_bumped_effect; [done|done|done|]. intros Ha. right. rewrite Ha in Hl. simpl in Hl.
    apply locked_admins. by apply Nat.leb_gt in Hl. }
  destruct (audited _ _) as [[kv|e] w']; [done|apply quiet_same].
Qed.
Lemma guar_SetDisabled actor raw disabled : guar (SetDisabled pg_uuid actor raw disabled).
Proof using pg_canon.
  unfold SetDisabled. destruct (disabled && _); [done|]. apply guar_exec. intros w. apply on_row_effect. intros id u _ Hu.
  destruct (eqb _ _) eqn:Heq; [apply quiet_same|]. destruct (disabled && (pu_role u ≟ RoleSuperAdmin) && _) eqn:Hl; [apply quiet_same|].
  cbv zeta. set (u1 := if disabled then with_disabled _ u else _).
  assert (∀ e, G w (audited e (put_bumped id u1 w)).2) as Hg.
  { intros e. apply audited_effect. eapply put_bumped_effect; [done|by destruct disabled|by destruct disabled|]. intros Ha. right.
    apply locked_admins. unfold active_admin in Ha. bool_simpl. destruct disabled; simpl in *.
    - rewrite bool_decide_true in Hl by done. destruct Hl as [Hl|Hl]; [done|by apply Nat.leb_gt in Hl].
    - rewrite bool_decide_false in Heq by done. done. }
  specialize (Hg (audit_operator actor (if disabled then "provider_user.disable" else "provider_user.enable"))).
  destruct (audited _ _) as [[kv|e] w']; [done|apply quiet_same].
Qed.
Lemma guar_ResetOperatorPassword actor raw hash : guar (ResetOperatorPassword pg_uuid actor raw hash).
Proof using pg_canon.
  unfold ResetOperatorPassword. case_bool_decide; [done|]. apply guar_exec. intros w. apply on_row_effect. intros id u _ Hu.
  case_bool_decide; [apply quiet_same|]. apply audited_effect. eapply put_bumped_effect; [done|done|done|by left].
Qed.
End statements.
#[local] Hint Resolve guar_SetPassword guar_Bump guar_RecordLogin guar_InsertAudit guar_GetByID guar_SetPending guar_Confirm guar_Accept
  guar_ResetTOTP guar_Recover guar_CreateOperator guar_Bootstrap_row guar_ChangeRole guar_SetDisabled guar_ResetOperatorPassword : prov.

(** Walks through a program. *)
Ltac guar :=
  repeat first [done | solve [auto with prov] | apply guar_ok | apply pguar_bind | progress intros | progress cbv zeta | case_match].

(** *** Requests *)

Section requests.
Context (n : nat) (T : option string).
Abbreviation G := (effect n T).
Abbreviation guar p := (pguar G p).

Lemma guar_counter {A} (f : sys → A * sys) : (∀ w, users (f w).2 = users w ∧ history (f w).2 = history w) → guar (call f).
Proof. intros Hf. apply pguar_call. intros w. by apply eff_quiet; apply Hf. Qed.
Lemma guar_expire key ttl : guar (call (λ w, (tt, expire_counter key ttl w))).
Proof. apply guar_counter. intros w. simpl. unfold expire_counter. by repeat case_match. Qed.
Lemma guar_incr key : guar (call (incr_counter key)).
Proof. apply guar_counter. intros w. unfold incr_counter. by case_match. Qed.
Lemma guar_Reset prefix email : guar (Reset fold_case prefix email).
Proof. by apply guar_counter. Qed.
#[local] Hint Resolve guar_expire guar_incr guar_Reset : prov.

Lemma guar_count key : guar (count key).
Proof. unfold count. guar. Qed.
#[local] Hint Resolve guar_count : prov.
Lemma guar_blocked keys b t : guar (blocked_keys keys b t).
Proof. revert b t. induction keys as [|[key max] keys IH]; intros b t; cbn [blocked_keys]; guar. Qed.
Lemma guar_trip scope value key k max : guar (trip_of scope value key k max).
Proof. unfold trip_of. guar. Qed.
#[local] Hint Resolve guar_blocked guar_trip : prov.
Lemma guar_record keys trips : guar (record_keys keys trips).
Proof. revert trips. induction keys as [|[[[scope value] key] max] keys IH]; intros trips; cbn [record_keys]; guar. Qed.
Lemma guar_audit_trips entry trips : guar (audit_trips entry trips).
Proof. induction trips as [|t trips IH]; cbn [audit_trips]; guar. Qed.
#[local] Hint Resolve guar_record guar_audit_trips : prov.
Lemma guar_limited prefix email ip k : guar k → guar (limited fold_case prefix email ip k).
Proof. intros Hk. unfold limited, checkLimiter, Blocked. guar. Qed.
Lemma guar_recordFailure email ip : guar (recordFailure fold_case email ip).
Proof. unfold recordFailure, RecordFailure. guar. Qed.
Lemma guar_totpFailure id u ip : guar (totpFailure fold_case id u ip).
Proof. unfold totpFailure, RecordFailure. guar. Qed.

Lemma guar_VerifyPassword password phc : guar (VerifyPassword verify_hash password phc).
Proof. unfold VerifyPassword. guar. Qed.
Lemma guar_HashPassword d password : guar (HashPassword argon d password).
Proof. unfold HashPassword. guar. Qed.
#[local] Hint Resolve guar_limited guar_recordFailure guar_totpFailure guar_VerifyPassword guar_HashPassword : prov.
Lemma guar_Authenticate email password : guar (Authenticate fold_case verify_hash email password).
Proof. unfold Authenticate, GetByEmailForLogin, reject, VerifyDummy. guar. Qed.
Lemma guar_issue id u amr pwc mfa ttl : guar (issueProviderToken sign id u amr pwc mfa ttl).
Proof. unfold issueProviderToken. guar. Qed.
#[local] Hint Resolve guar_Authenticate guar_issue : prov.
Lemma guar_IssueSession id u amr pwc : guar (IssueSession sign id u amr pwc).
Proof. unfold IssueSession. guar. Qed.
Lemma guar_IssueMFAToken id u stage : guar (IssueMFAToken sign id u stage).
Proof. unfold IssueMFAToken. guar. Qed.
#[local] Hint Resolve guar_IssueSession guar_IssueMFAToken : prov.
Lemma guar_sessionAfterPassword id u method : guar (sessionAfterPassword sign id u method).
Proof. unfold sessionAfterPassword. guar. Qed.
#[local] Hint Resolve guar_sessionAfterPassword : prov.

Lemma guar_Login body remote : guar (Login fold_case pg_uuid verify_hash sign body remote).
Proof using pg_canon. unfold Login. repeat case_match; try done. apply guar_limited. guar. Qed.
Lemma guar_ChangePassword d body remote actor :
  guar (ChangePassword fold_case equal_fold pg_uuid argon verify_hash sign d body remote actor).
Proof using pg_canon.
  unfold ChangePassword. repeat case_match; try done. apply guar_limited. unfold password_matches, change_to. guar.
Qed.
Lemma guar_begin body remote actor k : (∀ id u code ip, guar (k id u code ip)) → guar (begin fold_case pg_uuid body remote actor k).
Proof. intros Hk. unfold begin. repeat case_match; try done. apply guar_limited. guar. Qed.
Lemma guar_Verify body remote actor : guar (Verify fold_case pg_uuid hmac unseal sign n body remote actor).
Proof using pg_canon. apply guar_begin. intros id u code ip. unfold spend_step, totp_session, GetTOTPState. guar. Qed.
Lemma guar_Enroll d actor : guar (Enroll pg_uuid seal d actor).
Proof. unfold Enroll. guar. Qed.
Lemma guar_ConfirmEnroll body remote actor : guar (ConfirmEnroll fold_case pg_uuid hmac unseal sign n body remote actor).
Proof using pg_canon. apply guar_begin. intros id u code ip. unfold confirm_step, GetTOTPState. guar. Qed.

Lemma guar_route d r o h k actor : route n d r = Some (o, h, k) → guar (k actor).
Proof using pg_canon.
  destruct r; cbn [Provider.route]; intros E; simplify_eq;
    [apply guar_ChangePassword|unfold Logout|apply guar_Verify|apply guar_Enroll|apply guar_ConfirmEnroll|unfold Me|unfold ListUsers
    |unfold Create|unfold ChangeRoleHandler|unfold setDisabled..|unfold ResetPassword|unfold ResetTOTP];
    unfold authorize, targetID, answer_op; guar.
Qed.
Lemma served d r : (∀ tok, T = Some tok ↔ ∃ o h k, route n d r = Some (o, h, k) ∧ bearer h = Some tok) → guar (serve n d r).
Proof using pg_canon.
  intros HT. unfold Provider.serve. destruct (route n d r) as [[[o h] k]|] eqn:Er.
  - unfold RequireProvider. destruct (bearer h) as [tok|] eqn:Eb; [|done]. apply pguar_bind; [apply guar_clock|]. intros now.
    destruct (VerifyProviderToken signed now tok) as [cl|] eqn:Ev; [|done]. apply pguar_bind.
    + apply guar_exec. intros w. destruct (find_id _ _ _) as [[id u]|e] eqn:Ef; [|apply quiet_same]. simpl.
      destruct (row_refusal o cl u) eqn:Ea; [apply quiet_same|]. apply find_id_Ok in Ef as [Hs Hu].
      assert (signed tok = Some cl) as Hc by (unfold VerifyProviderToken in Ev; repeat case_match; by simplify_eq).
      eapply eff_admit; [|done..]. apply HT. eauto.
    + intros [[id u]|[]]; try done. destruct (row_refusal o cl u) as [[]|]; [done|]. by eapply guar_route.
  - destruct r; try done.
    + apply guar_Login.
    + unfold RecoverAdminCLI, answer_op. guar.
    + unfold Bootstrap, HasSuperAdmin. guar.
Qed.
End requests.
End facts.
