(* ===== verification/ProviderSafety.v ===== *)
(** * Operators: what every interleaving keeps

    Requests of all routes run in any interleaving, while time passes and Valkey
    loses keys.  A step of an operator's TOTP is spent once; whoever acts as an
    operator that needs a second factor has spent a step since the operator's
    credentials last changed; a change of credentials ends every session; and an
    administrator always remains. *)

From Stdlib Require Import ZArith Lia Ascii Sorted.
From S2P Require Import Prelude GoText Sql Conc Provider ProviderFacts.
Open Scope Z_scope.
Set Default Proof Using "Type".

(** The steps of an operator spent since the TOTP was last cleared, the latest first. *)
Fixpoint spent_since (id : uuid) (h : list event) : list Z :=
  match h with
  | [] => []
  | Spent _ id' _ s :: h => if id' ≟ id then s :: spent_since id h else spent_since id h
  | Cleared id' :: h => if id' ≟ id then [] else spent_since id h
  | Passed _ _ _ _ :: h => spent_since id h
  end.

Section safety.
Context (fold_case : string → string) (equal_fold : string → string → bool) (pg_uuid uuid_parse : string → option uuid)
        (hmac : list Z → list Z → list Z) (argon : list Z → string → string) (verify_hash : string → string → option bool)
        (seal : list Z → list Z → string → option (string * string)) (unseal : string → string → string → option (list Z))
        (sign : ProviderClaims → option string) (signed : string → option ProviderClaims)
        (rnd : nat → draws) (* what the n-th request draws *).
Abbreviation serve := (serve fold_case equal_fold pg_uuid uuid_parse hmac argon verify_hash seal unseal sign signed).
Abbreviation route := (route fold_case equal_fold pg_uuid uuid_parse hmac argon verify_hash seal unseal sign).
Abbreviation effect := (effect pg_uuid signed).

(** ** The pool *)

Definition header_of (r : request) : option string :=
  match r with
  | POST_login _ _ | CLI_recover _ | CLI_bootstrap _ _ => None
  | POST_password h _ _ | POST_logout h _ | POST_verify h _ _ | POST_enroll h | POST_confirm h _ _ | GET_me h | GET_users h
  | POST_users h _ _ | PATCH_user h _ _ _ | POST_disable h _ _ | POST_enable h _ _ | POST_reset_password h _ _
  | POST_reset_totp h _ _ _ => Some h
  end.
Definition token_of (r : request) : option string := header_of r ≫= bearer.
(** Nobody can sign a token: one that verifies was handed out. *)
Definition known (ps : list (proc sys response)) (tok : string) : Prop :=
  ∃ (j : nat) exp pwc mfa, ps !! j = Some (Done (Token tok exp pwc mfa)).
Definition may_ask (ps : list (proc sys response)) (r : request) : Prop :=
  ∀ tok, token_of r = Some tok → is_Some (signed tok) → known ps tok.
Definition start (w : sys) (ps : list (proc sys response)) (p : proc sys response) : Prop :=
  ∃ r, p = serve (length ps) (rnd (length ps)) r ∧ may_ask ps r.

Abbreviation config := (sys * list (proc sys response))%type.
Abbreviation steps := (rtc (pool_any env start)).
(** One more request arrives. *)
Definition asked (c : config) (r : request) : config := (c.1, c.2 ++ [serve (length c.2) (rnd (length c.2)) r]).
(** Some operators, and nothing done yet. *)
Definition initial (m : gmap uuid ProviderUser) (now : time) : config := (MkSys m [] ∅ now [], []).

(** Uuids are read as their canonical text, and JWTs are what was signed. *)
Record services : Prop := {
  pg_canon : ∀ raw id, pg_uuid raw = Some id → pg_uuid id = Some id;
  jwt_ok : ∀ c t, sign c = Some t → signed t = Some c
}.
Context (Hs : services).

Lemma route_token n d r : token_of r = match route n d r with Some (_, header, _) => bearer header | None => None end.
Proof. by destruct r. Qed.
Lemma serve_effect n d r : pguar (effect n (token_of r)) (serve n d r).
Proof using Hs.
  apply served; [apply Hs|]. intros tok. rewrite (route_token n d). destruct (route n d r) as [[[o h] k]|]; [|by split; [|intros (? & ? & ? & ? & ?)]].
  split; [by intros Hb; exists o, h, k|]. by intros (? & ? & ? & [= <- <- <-] & ?).
Qed.

(** ** Generations *)

(** The generation of an operator never falls, and rises when the credentials
    change; admissions are what the gate lets through at the time. *)
Definition moves (w w' : sys) : Prop :=
  (∀ id u, users w !! id = Some u → ∃ u', users w' !! id = Some u' ∧ pu_generation u <= pu_generation u' ∧
     (pu_generation u' = pu_generation u → credentials u' = credentials u)) ∧
  ∃ l, history w' = l ++ history w ∧
    ∀ n tok id u, Passed n tok id u ∈ l →
      (∃ o cl, signed tok = Some cl ∧ pg_uuid (c_Subject cl) = Some id ∧ row_refusal o cl u = None) ∧
      ∀ u0, users w !! id = Some u0 → pu_generation u0 <= pu_generation u.
#[export] Instance moves_preorder : PreOrder moves.
Proof.
  split.
  - intros w. split; [intros id u Hu; exists u; split_and!; [done|lia|done]|]. exists []. split; [done|]. by intros ???? ?%elem_of_nil.
  - intros w1 w2 w3 [H1 (l1 & E1 & A1)] [H2 (l2 & E2 & A2)]. split.
    + intros id u1 Hu1. destruct (H1 id u1 Hu1) as (u2 & Hu2 & Hle1 & Hc1). destruct (H2 id u2 Hu2) as (u3 & Hu3 & Hle2 & Hc2).
      exists u3. split_and!; [done|lia|]. intros E. rewrite Hc2, Hc1 by lia. done.
    + exists (l2 ++ l1). split; [by rewrite E2, E1, app_assoc|]. intros n tok id u [Hi|Hi]%elem_of_app.
      * destruct (A2 _ _ _ _ Hi) as [Ho Hle]. split; [done|]. intros u0 Hu0. destruct (H1 id u0 Hu0) as (u2 & Hu2 & ? & _).
        specialize (Hle _ Hu2). lia.
      * by apply A1 in Hi as [Ho Hle].
Qed.

(** One row changes. *)
Lemma moves_row w w' id u u' l :
  users w !! id = Some u → users w' = <[id := u']> (users w) → pu_generation u <= pu_generation u' →
  (pu_generation u' = pu_generation u → credentials u' = credentials u) → history w' = l ++ history w →
  (∀ n tok id u, Passed n tok id u ∉ l) → moves w w'.
Proof.
  intros Hu Hus Hle Hc Hh Hl. split; [|exists l; split; [done|]; intros ???? Hi; by apply Hl in Hi].
  intros id2 u2 Hu2. rewrite Hus. destruct (decide (id2 = id)) as [->|Hne].
  - simplify_eq. exists u'. by rewrite lookup_insert_eq.
  - exists u2. rewrite lookup_insert_ne by done. split_and!; [done|lia|done].
Qed.
Lemma moves_same w w' l :
  users w' = users w → history w' = l ++ history w →
  (∀ n tok id u, Passed n tok id u ∈ l → users w !! id = Some u ∧
     ∃ o cl, signed tok = Some cl ∧ pg_uuid (c_Subject cl) = Some id ∧ row_refusal o cl u = None) → moves w w'.
Proof.
  intros Hus Hh Hl. split; [intros id u Hu; exists u; rewrite Hus; split_and!; [done|lia|done]|].
  exists l. split; [done|]. intros n tok id u Hi. destruct (Hl _ _ _ _ Hi) as [Hu Ho]. split; [done|]. intros u0 Hu0. simplify_eq. lia.
Qed.
Lemma effect_moves n T w w' : effect n T w w' → moves w w'.
Proof.
  intros [Hu Hh|id u t Hu Hus Hh|id u ct nonce Hu He Hus Hh|id u step Hc Hu He Hl Hus Hh|id u step t Hc Hu He Hct Hus Hh
         |id u u1 Hu Hr Hd Hg Hus Hh|id u u1 Hu Ht Hus Ha Hh|id u Hu Hg He Hus Hh|tok cl o id u HT Htok Hcl Hu Ha Hus Hh].
  - apply (moves_same _ _ []); [done|done|]. by intros ???? ?%elem_of_nil.
  - eapply (moves_row _ _ id u _ []); [done|done|simpl; lia|done|done|]. by intros ???? ?%elem_of_nil.
  - eapply (moves_row _ _ id u _ []); [done|done|simpl; lia| |done|by intros ???? ?%elem_of_nil].
    intros _. unfold credentials. simpl. by rewrite He.
  - eapply (moves_row _ _ id u _ [_]); [done|done|simpl; lia|done|done|]. by intros ???? ?%list_elem_of_singleton.
  - eapply (moves_row _ _ id u _ [_]); [done|done|simpl; lia|simpl; lia|done|]. by intros ???? ?%list_elem_of_singleton.
  - eapply (moves_row _ _ id u _ [_]); [done|done|simpl; lia|simpl; lia|done|]. by intros ???? ?%list_elem_of_singleton.
  - eapply (moves_row _ _ id u _ []); [done|done|simpl; lia|simpl; lia|done|]. by intros ???? ?%elem_of_nil.
  - split; [|exists []; split; [done|]; by intros ???? ?%elem_of_nil]. intros id2 u2 Hu2. exists u2. rewrite Hus.
    rewrite lookup_insert_ne by congruence. split_and!; [done|lia|done].
  - apply (moves_same _ _ [Passed n tok id u]); [done|done|]. intros ???? [= -> -> -> ->]%list_elem_of_singleton. eauto 6.
Qed.
Lemma env_moves w w' : env w w' → moves w w'.
Proof. intros (Hu & Hh & _). apply (moves_same _ _ []); [done|done|]. by intros ???? ?%elem_of_nil. Qed.
Lemma serve_moves n d r : pguar moves (serve n d r).
Proof using Hs. eapply pguar_mono; [|apply serve_effect]. intros w w'. apply effect_moves. Qed.

(** ** Spent steps *)

Definition sorted_history (h : list event) : Prop := ∀ id l1 l2, h = l1 ++ l2 → StronglySorted Z.gt (spent_since id l2).
Record otp_inv (w : sys) : Prop := {
  otp_sorted : sorted_history (history w);
  otp_last : ∀ id s l, spent_since id (history w) = s :: l →
    ∃ u, users w !! id = Some u ∧ is_Some (pu_enabled u) ∧ pu_last_step u = Some s;
  otp_generation : ∀ n id g s, Spent n id g s ∈ history w → ∃ u, users w !! id = Some u ∧ g <= pu_generation u
}.
Lemma sorted_cons e h :
  sorted_history h → (∀ id, StronglySorted Z.gt (spent_since id (e :: h))) → sorted_history (e :: h).
Proof. intros Hh He id [|x l1] l2 E; simplify_eq/=; [apply He|by eapply Hh]. Qed.

(** The rows that stay enabled with their last step. *)
Lemma otp_inv_rows w w' :
  otp_inv w → history w' = history w →
  (∀ id u, users w !! id = Some u → ∃ u', users w' !! id = Some u' ∧ pu_generation u <= pu_generation u' ∧
     (is_Some (pu_enabled u) → pu_enabled u' = pu_enabled u ∧ pu_last_step u' = pu_last_step u)) → otp_inv w'.
Proof.
  intros [Hsort Hlast Hgen] Hh Hrows. split; rewrite Hh; [done| |].
  - intros id s l E. destruct (Hlast _ _ _ E) as (u & Hu & He & Hl). destruct (Hrows _ _ Hu) as (u' & Hu' & _ & H).
    exists u'. destruct (H He) as [-> ->]. done.
  - intros n id g s Hi. destruct (Hgen _ _ _ _ Hi) as (u & Hu & Hle). destruct (Hrows _ _ Hu) as (u' & Hu' & ? & _). exists u'. split; [done|lia].
Qed.
Lemma otp_inv_row w w' id u u' :
  otp_inv w → history w' = history w → users w !! id = Some u → users w' = <[id := u']> (users w) → pu_generation u <= pu_generation u' →
  (is_Some (pu_enabled u) → pu_enabled u' = pu_enabled u ∧ pu_last_step u' = pu_last_step u) → otp_inv w'.
Proof.
  intros Hi Hh Hu Hus Hg He. eapply otp_inv_rows; [done|done|]. intros id2 u2 Hu2. rewrite Hus. destruct (decide (id2 = id)) as [->|Hne].
  - simplify_eq. exists u'. by rewrite lookup_insert_eq.
  - exists u2. rewrite lookup_insert_ne by done. split_and!; [done|lia|done].
Qed.
(** A step is spent. *)
Lemma otp_inv_spend n w w' id u u' step :
  otp_inv w → users w !! id = Some u → (∀ s l, spent_since id (history w) = s :: l → s < step) →
  users w' = <[id := u']> (users w) → pu_generation u <= pu_generation u' → is_Some (pu_enabled u') → pu_last_step u' = Some step →
  history w' = Spent n id (pu_generation u') step :: history w → otp_inv w'.
Proof.
  intros [Hsort Hlast Hgen] Hu Hnew Hus Hg He Hl Hh. split; rewrite Hh.
  - apply sorted_cons; [done|]. intros id2. simpl. pose proof (Hsort id2 [] (history w) eq_refl) as Hss. case_bool_decide as Hid; [|done]. subst id2.
    constructor; [done|]. destruct (spent_since id (history w)) as [|s l] eqn:E; [constructor|]. specialize (Hnew _ _ eq_refl).
    apply StronglySorted_inv in Hss as [_ Hss]. constructor; [lia|]. eapply Forall_impl; [exact Hss|]. simpl. intros; lia.
  - intros id2 s l. simpl. rewrite Hus. case_bool_decide as Hid.
    + subst id2. intros [= <- _]. exists u'. by rewrite lookup_insert_eq.
    + rewrite lookup_insert_ne by done. apply Hlast.
  - intros m id2 g s [[= -> -> -> ->]|Hi]%elem_of_cons; rewrite Hus.
    + exists u'. rewrite lookup_insert_eq. split; [done|lia].
    + destruct (Hgen _ _ _ _ Hi) as (u2 & Hu2 & Hle). destruct (decide (id2 = id)) as [->|Hne].
      * simplify_eq. exists u'. rewrite lookup_insert_eq. split; [done|lia].
      * exists u2. by rewrite lookup_insert_ne.
Qed.
Lemma effect_otp n T w w' : effect n T w w' → otp_inv w → otp_inv w'.
Proof.
  intros [Hu Hh|id u t Hu Hus Hh|id u ct nonce Hu He Hus Hh|id u step Hc Hu He Hl Hus Hh|id u step t Hc Hu He Hct Hus Hh
         |id u u1 Hu Hr Hd Hg Hus Hh|id u u1 Hu Ht Hus Ha Hh|id u Hu Hg He Hus Hh|tok cl o id u HT Htok Hcl Hu Ha Hus Hh] Hi.
  - eapply otp_inv_rows; [done|done|]. intros id u Hid. exists u. rewrite Hu. split_and!; [done|lia|done].
  - eapply otp_inv_row; [done|done|done|done|simpl; lia|done].
  - eapply otp_inv_row; [done|done|done|done|simpl; lia|]. rewrite He. by intros [].
  - eapply (otp_inv_spend n w w' id u); [done|done| |done|simpl; lia|done|done|done].
    intros s l E. destruct (otp_last _ Hi _ _ _ E) as (u2 & Hu2 & _ & Hls). simplify_eq. by apply Hl.
  - eapply (otp_inv_spend n w w' id u); [done|done| |done|simpl; lia|done|done|done].
    intros s l E. destruct (otp_last _ Hi _ _ _ E) as (u2 & Hu2 & [x Hx] & _). simplify_eq.
  - destruct Hi as [Hsort Hlast Hgen]. split; rewrite Hh.
    + apply sorted_cons; [done|]. intros id2. simpl. case_bool_decide; [constructor|]. by apply (Hsort id2 []).
    + intros id2 s l. simpl. case_bool_decide as Hid; [done|]. rewrite Hus, lookup_insert_ne by done. apply Hlast.
    + intros m id2 g s [?|Hin]%elem_of_cons; [done|]. destruct (Hgen _ _ _ _ Hin) as (u2 & Hu2 & Hle). rewrite Hus.
      destruct (decide (id2 = id)) as [->|Hne]; [|exists u2; by rewrite lookup_insert_ne].
      simplify_eq. rewrite lookup_insert_eq. eexists. split; [done|]. simpl. lia.
  - eapply otp_inv_row; [done|done|done|done|simpl; lia|]. unfold totp_of in Ht. simplify_eq/=. done.
  - eapply otp_inv_rows; [done|done|]. intros id2 u2 Hu2. exists u2. rewrite Hus, lookup_insert_ne by congruence. split_and!; [done|lia|done].
  - destruct Hi as [Hsort Hlast Hgen]. split; rewrite Hh, ?Hus.
    + apply sorted_cons; [done|]. intros id2. exact (Hsort id2 [] (history w) eq_refl).
    + apply Hlast.
    + intros m id2 g s [?|Hin]%elem_of_cons; [done|]. by eapply Hgen.
Qed.
Lemma env_otp w w' : env w w' → otp_inv w → otp_inv w'.
Proof. intros (Hu & Hh & _) Hi. eapply otp_inv_rows; [done|done|]. intros id u Hid. exists u. rewrite Hu. split_and!; [done|lia|done]. Qed.

(** Between two equal steps the TOTP was cleared. *)
Lemma spent_twice id h l1 n g l2 m g' s l3 :
  sorted_history h → h = l1 ++ Spent n id g s :: l2 ++ Spent m id g' s :: l3 → Cleared id ∈ l2.
Proof.
  intros Hsort ->. pose proof (Hsort id l1 _ eq_refl) as Hss. simpl in Hss. rewrite bool_decide_true in Hss by done.
  apply StronglySorted_inv in Hss as [_ Hf]. clear Hsort. induction l2 as [|e l2 IH]; simpl in Hf.
  - rewrite bool_decide_true in Hf by done. apply Forall_inv in Hf. lia.
  - destruct e as [k tok id' u|k id' g'' s'|id']; [right; by apply IH| |].
    + case_bool_decide; [apply Forall_inv_tail in Hf|]; right; by apply IH.
    + case_bool_decide; [subst; left|right; by apply IH].
Qed.

(** ** What a token is worth *)

Definition code_of (r : request) : option string :=
  match r with POST_verify _ b _ | POST_confirm _ b _ => b | _ => None end.
(** Request [n] has spent a step of the operator, with a code of a secret that is
    sealed for the operator. *)
Definition spent_code (n : nat) (r : request) (id : uuid) (gen : Z) (s : Z) (w : sys) : Prop :=
  (∃ g, Spent n id g s ∈ history w ∧ gen <= g) ∧
  ∃ code ct nonce secret, code_of r = Some code ∧ unseal ct nonce (totpContext id) = Some secret ∧ totpCodeAt hmac secret s = code.
(** A token that carries the second factor comes from a request that spent a step. *)
Definition earned (n : nat) (r : request) (a : response) (w : sys) : Prop :=
  match a with
  | Token tok _ _ _ =>
      ∃ cl, signed tok = Some cl ∧
        (hasAMR (c_AMR cl) AMROTP = true →
         pg_uuid (c_Subject cl) = Some (c_Subject cl) ∧ ∃ s, spent_code n r (c_Subject cl) (c_Gen cl) s w)
  | _ => True
  end.

Lemma history_mono w w' e : moves w w' → e ∈ history w → e ∈ history w'.
Proof. intros [_ (l & -> & _)] He. apply elem_of_app. by right. Qed.
Lemma spent_code_mono n r id gen s w w' : moves w w' → spent_code n r id gen s w → spent_code n r id gen s w'.
Proof. intros Hm [(g & Hg & Hle) Hc]. split; [|done]. exists g. split; [by eapply history_mono|done]. Qed.

Lemma pwp_exec {A B} (f : sys → result perror A * sys) (k : result perror A → proc sys B) w Q :
  (∀ w', moves w w' → pwp moves (k (f w').1) (f w').2 Q) →
  (∀ w', pwp moves (k (Err ErrOther)) w' Q) → pwp moves (pbind (exec f) k) w Q.
Proof. intros H1 H2 [| |]; simpl; [done|by apply H2|]. intros w' Hw. apply H2. Qed.
(** The rest of a program, of which only the answers matter. *)
Lemma pwp_rest {A} (P : A → Prop) (p : proc sys A) w (Q : A → sys → Prop) :
  pguar moves p → answers P p → (∀ a w', moves w w' → P a → Q a w') → pwp moves p w Q.
Proof.
  intros Hg Ha HQ. assert (pwp moves p w (λ a w', P a ∧ moves w w')) as Hp.
  { clear HQ. revert w. induction p as [a|u k IH|k IH]; intros w; simpl in *; [done| |by intros f; apply IH].
    intros w' Hw. destruct (Hg w') as [Hu Hk]. eapply pwp_mono; [|by apply IH]. intros a w'' [HP Hw'']. split; [done|]. by do 2 (etrans; [done|]). }
  eapply pwp_mono; [|exact Hp]. intros a w' [HP Hw]. by apply HQ.
Qed.

(** The claims of a token that was issued. *)
Definition issued (id : uuid) (u : ProviderUser) (amr : list string) (tok : string) : Prop :=
  ∃ cl, signed tok = Some cl ∧ c_Subject cl = id ∧ c_Gen cl = pu_generation u ∧ c_AMR cl = amr.
Lemma answers_token id u amr pwc mfa ttl :
  answers (λ r, ∀ tok, r = Ok tok → issued id u amr tok) (issueProviderToken sign id u amr pwc mfa ttl).
Proof using Hs.
  unfold issueProviderToken. apply answers_bind. intros now. simpl. destruct (sign _) as [t|] eqn:E; [|done].
  intros tok [= <-]. apply (jwt_ok Hs) in E. eexists. split; [exact E|done].
Qed.
Lemma answers_ok {A B} (P : result perror A → Prop) (P' : result perror B → Prop) (m : answerP A) (k : A → answerP B) :
  answers P m → (∀ a, P (Ok a) → answers P' (k a)) → (∀ e, P' (Err e)) → answers P' (pbind_ok m k).
Proof.
  intros Hm Hk He. unfold pbind_ok. induction m as [[a|e]|u m' IH|m' IH]; simpl in *; auto.
Qed.
Lemma answers_Session id u amr pwc :
  answers (λ r, ∀ t, r = Ok t → issued id u amr t.1) (IssueSession sign id u amr pwc).
Proof using Hs.
  unfold IssueSession. repeat (case_match; [done|]). eapply answers_ok; [apply answers_token| |done].
  intros tok Ht t [= <-]. by apply Ht.
Qed.
Lemma answers_MFA id u stage :
  answers (λ r, ∀ t, r = Ok t → issued id u [AMRPassword] t.1) (IssueMFAToken sign id u stage).
Proof using Hs.
  unfold IssueMFAToken. repeat (case_match; [done|]). eapply answers_ok; [apply answers_token| |done].
  intros tok Ht t [= <-]. by apply Ht.
Qed.

(** An answer without a second factor. *)
Definition first_factor (a : response) : Prop :=
  match a with Token tok _ _ _ => ∃ cl, signed tok = Some cl ∧ hasAMR (c_AMR cl) AMROTP = false | _ => True end.
Lemma first_factor_earned n r a w : first_factor a → earned n r a w.
Proof. destruct a; try done. intros (cl & Hc & Hf). exists cl. split; [done|]. by rewrite Hf. Qed.
Lemma issued_first id u tok : issued id u [AMRPassword] tok → ∃ cl, signed tok = Some cl ∧ hasAMR (c_AMR cl) AMROTP = false.
Proof. intros (cl & Hc & _ & _ & Ha). exists cl. by rewrite Ha. Qed.
Lemma answers_first id u (m : answerP (string * Z)) pwc mfa :
  answers (λ r, ∀ t, r = Ok t → issued id u [AMRPassword] t.1) m →
  answers (λ r, ∀ a, r = Ok a → first_factor a) (pbind_ok m (λ t, Done (Ok (Token t.1 t.2 pwc mfa)))).
Proof.
  intros Hm. eapply answers_ok; [exact Hm| |done]. intros t Ht a [= <-]. eapply issued_first, Ht, eq_refl.
Qed.
Lemma answers_password id u :
  answers (λ r, ∀ a, r = Ok a → first_factor a) (sessionAfterPassword sign id u AMRPassword).
Proof using Hs.
  unfold sessionAfterPassword. case_match; [|case_match]; eapply answers_first; first [apply answers_Session|apply answers_MFA].
Qed.

(** What a program answers after one whose answers are known. *)
Lemma answers_after {A B} (P : A → Prop) (P' : B → Prop) (m : proc sys A) (k : A → proc sys B) :
  answers P m → (∀ a, P a → answers P' (k a)) → answers P' (pbind m k).
Proof. intros Hm Hk. induction m as [a|u m' IH|m' IH]; simpl in *; auto. Qed.
Ltac plain :=
  repeat first [done | apply answers_bind; intros | progress cbn [answers] | progress intros | progress cbv zeta | case_match].

Lemma answers_limited prefix email ip k : answers first_factor k → answers first_factor (limited fold_case prefix email ip k).
Proof.
  intros Hk. unfold limited, checkLimiter. eapply (answers_after (λ o, ∀ f, o = Some f → first_factor f)).
  - apply answers_bind. intros [[[] ?]|]; simpl; intros f; by intros [= <-].
  - intros [f|] Hf; [by apply Hf|done].
Qed.
Lemma answers_Login body remote : answers first_factor (Login fold_case pg_uuid verify_hash sign body remote).
Proof using Hs.
  unfold Login. destruct body as [[email password]|]; [|done]. destruct (_ || _); [done|]. apply answers_limited, answers_bind.
  intros [[id u]|[]]; try done; [|unfold recordFailure; plain]. do 2 (apply answers_bind; intros ?).
  eapply answers_after; [apply answers_password|]. intros [resp|e] Hr; [|done]. apply answers_bind. intros [[]|]; [by apply Hr|done].
Qed.
Lemma answers_ChangePassword d body remote actor :
  answers first_factor (ChangePassword fold_case equal_fold pg_uuid argon verify_hash sign d body remote actor).
Proof using Hs.
  unfold ChangePassword. destruct body as [[current new]|]; [|done]. destruct (_ || _); [done|]. apply answers_limited, answers_bind.
  intros [[id u]|e]; [|done]. apply answers_bind. intros [[|]|e]; [|unfold recordFailure; plain|done].
  destruct (ValidateNewPassword _ _ _ _); [|done]. unfold change_to. apply answers_bind. intros [hash|e]; [|done].
  apply answers_bind. intros [[? updated]|e]; [|done]. apply answers_bind. intros _.
  eapply answers_after; [apply answers_password|]. intros [resp|e] Hr; [by apply Hr|done].
Qed.

(** *** The second factor *)

Lemma match_steps_code secret code last l s : match_steps hmac secret code last l = Some s → totpCodeAt hmac secret s = code.
Proof. induction l as [|x l IH]; cbn [match_steps]; [done|]. case_match; [done|]. case_bool_decide; [by intros [= <-]|done]. Qed.
Lemma matchTOTP_code secret code now last s : matchTOTP hmac secret code now last = Some s → totpCodeAt hmac secret s = code.
Proof. unfold matchTOTP. repeat (case_match; [done|]). apply match_steps_code. Qed.

Lemma moves_of {A} (p : proc sys A) : pguar (effect 0 None) p → pguar moves p.
Proof. apply pguar_mono. intros w w'. apply effect_moves. Qed.
Lemma moves_limiter prefix email ip : pguar moves (checkLimiter fold_case prefix email ip).
Proof. apply pguar_bind; [apply moves_of, guar_blocked|done]. Qed.
Lemma answers_limiter prefix email ip : answers (λ o, ∀ f, o = Some f → first_factor f) (checkLimiter fold_case prefix email ip).
Proof. apply answers_bind. intros [[[] ?]|]; simpl; intros f; by intros [= <-]. Qed.
Lemma pwp_limited prefix email ip k n r w :
  (∀ w1, moves w w1 → pwp moves k w1 (earned n r)) → pwp moves (limited fold_case prefix email ip k) w (earned n r).
Proof.
  intros Hk. apply pwp_bind; [apply _|]. eapply pwp_rest; [apply moves_limiter|apply answers_limiter|].
  intros [f|] w1 Hw Hf; [|by apply Hk]. intros w2 _. by apply first_factor_earned, Hf.
Qed.
Lemma pwp_fail status code n r w : pwp moves (Done (Fail status code)) w (earned n r).
Proof. done. Qed.

Lemma pwp_begin body remote actor k n r w :
  (∀ id u code ip w1, body = Some code → pg_uuid id = Some id → users w1 !! id = Some u → pwp moves (k id u code ip) w1 (earned n r)) →
  pwp moves (begin fold_case pg_uuid body remote actor k) w (earned n r).
Proof using Hs.
  intros Hk. unfold begin. destruct body as [code|]; [|done]. case_bool_decide; [done|]. apply pwp_limited. intros w1 _.
  apply pwp_exec; [|done]. intros w2 _. simpl. destruct (find_id pg_uuid (a_user actor) w2) as [[id u]|e] eqn:E; [|done].
  apply find_id_Ok in E as [Hr Hu]. apply Hk; [done|by eapply (pg_canon Hs)|done].
Qed.

(** The answer after a step is spent. *)
Lemma issued_earned n r id u tok s w :
  issued id u [AMRPassword; AMROTP] tok → pg_uuid id = Some id → spent_code n r id (pu_generation u) s w →
  ∀ e b m, earned n r (Token tok e b m) w.
Proof. intros (cl & Hc & <- & Hg & _) Hid Hsp e b m. exists cl. split; [done|]. intros _. split; [done|]. exists s. by rewrite Hg. Qed.
Lemma find_canon id w id' u : pg_uuid id = Some id → find_id pg_uuid id w = Ok (id', u) → id' = id ∧ users w !! id = Some u.
Proof. intros Hc Hf. apply find_id_Ok in Hf as [Hr Hu]. simplify_eq. done. Qed.
Lemma moves_row_gen w w' id u u' :
  moves w w' → users w !! id = Some u → users w' !! id = Some u' → pu_generation u <= pu_generation u'.
Proof. intros [Hm _] Hu Hu'. destruct (Hm _ _ Hu) as (u2 & ? & ? & _). by simplify_eq. Qed.

Lemma answers_totp_session id u :
  answers (λ s, ∀ a, s = Ok a → ∃ tok e b m, a = Token tok e b m ∧ issued id u [AMRPassword; AMROTP] tok) (totp_session fold_case sign id u).
Proof using Hs.
  unfold totp_session. apply answers_bind. intros _. eapply answers_ok; [apply answers_Session| |done].
  intros t Ht a [= <-]. do 4 eexists. split; [done|]. by apply Ht.
Qed.
Lemma moves_totp_session id u : pguar moves (totp_session fold_case sign id u).
Proof. apply moves_of, pguar_bind; [apply guar_Reset|]. intros _. apply guar_ok; [apply guar_IssueSession|done]. Qed.

(** One call at the end. *)
Lemma pwp_exec_last {A} (f : sys → result perror A * sys) w (Q : result perror A → sys → Prop) :
  (∀ w' w'', moves w w' → moves (f w').2 w'' → Q (f w').1 w'') → (∀ w'', Q (Err ErrOther) w'') → pwp moves (exec f) w Q.
Proof. intros H1 H2 [| |]; simpl; [|done|]; intros w' Hw w'' Hw''; [by apply H1|apply H2]. Qed.

Lemma accept_pwp n id u step w :
  pg_uuid id = Some id → users w !! id = Some u →
  pwp moves (AcceptTOTPStep pg_uuid n id step) w (λ res w', res = Ok true → ∃ g, Spent n id g step ∈ history w' ∧ pu_generation u <= g).
Proof.
  intros Hid Hu. apply pwp_exec_last; [|done]. intros w1 w2 Hw1. destruct (find_id pg_uuid id w1) as [[id2 u2]|[]] eqn:Ef; try done.
  apply find_canon in Ef as [-> Hu2]; [|done]. destruct (bool_decide _ && _); [|done]. simpl. intros Hw2 _.
  exists (pu_generation u2). split; [|exact (moves_row_gen w w1 id u u2 Hw1 Hu Hu2)]. eapply history_mono; [done|]. left.
Qed.
Lemma spend_pwp n id u code st secret w :
  pg_uuid id = Some id → users w !! id = Some u →
  pwp moves (spend_step pg_uuid hmac n id code st secret) w (λ res w', res = Ok true →
    ∃ step g, Spent n id g step ∈ history w' ∧ pu_generation u <= g ∧ totpCodeAt hmac secret step = code).
Proof.
  intros Hid Hu. unfold spend_step. intros w1 Hw1. cbn [pbind]. destruct (matchTOTP _ _ _ _ _) as [step|] eqn:Hm; [|done].
  destruct (proj1 Hw1 _ _ Hu) as (u1 & Hu1 & Hle & _). eapply pwp_mono; [|by apply accept_pwp].
  intros res w' H Hres. destruct (H Hres) as (g & Hg & ?). exists step, g. split_and!; [done|lia|by eapply matchTOTP_code].
Qed.
Lemma verify_earned n r header body remote actor w :
  r = POST_verify header body remote → pwp moves (Verify fold_case pg_uuid hmac unseal sign n body remote actor) w (earned n r).
Proof using Hs.
  intros Hr. apply pwp_begin. intros id u code ip w1 -> Hid Hu. apply pwp_exec; [|done]. intros w2 Hw2. cbn [fst snd].
  destruct (proj1 Hw2 _ _ Hu) as (u2 & Hu2 & Hle & _). destruct (find_id pg_uuid id w2) as [[id' u']|e]; [|done]. destruct (_ || _); [done|].
  destruct (unseal _ _ _) as [secret|] eqn:Hun; [|done]. apply pwp_bind; [apply _|]. eapply pwp_mono; [|by apply (spend_pwp n id u2)].
  intros [[|]|e] w3 Hsp; [| |done].
  - destruct (Hsp eq_refl) as (step & g & Hin & Hg & Hcode). apply pwp_bind; [apply _|].
    eapply pwp_rest; [apply moves_totp_session|apply answers_totp_session|]. intros [resp|e] w4 Hw4 Hresp; [|done].
    destruct (Hresp _ eq_refl) as (tok & e & b & m & -> & Htok). apply pwp_skip; [apply _|apply moves_of, guar_InsertAudit|].
    intros [[]|] w5 Hw5; [|done]. intros w6 Hw6. eapply (issued_earned _ _ id u _ step); [done|done|].
    split; [exists g; split; [|lia]; eapply history_mono; [|exact Hin]; by do 2 (etrans; [done|])|].
    exists code, (ts_Ciphertext (MkTOTP (default "" (pu_ciphertext u')) (default "" (pu_nonce u')) (pu_enabled u') (pu_last_step u'))),
      (default "" (pu_nonce u')), secret. subst r. done.
  - eapply pwp_rest; [apply moves_of, guar_totpFailure| |intros a w' _ Ha; by apply first_factor_earned, Ha].
    unfold totpFailure. plain.
Qed.

Lemma confirm_pwp n id u step ip w :
  pg_uuid id = Some id → users w !! id = Some u →
  pwp moves (ConfirmTOTP pg_uuid n id step ip) w (λ res w', ∀ id' u', res = Ok (id', u') → Spent n id (pu_generation u') step ∈ history w').
Proof.
  intros Hid Hu. apply pwp_exec_last; [|done]. intros w1 w2 Hw1. destruct (find_id pg_uuid id w1) as [[id2 u2]|[]] eqn:Ef; try done.
  apply find_canon in Ef as [-> Hu2]; [|done]. destruct (bool_decide _ || _); [done|]. destruct (bumped _) as [u3|]; [|done].
  simpl. intros Hw2 id' u' [= <- <-]. eapply history_mono; [done|]. left.
Qed.
Lemma confirm_earned n r header body remote actor w :
  r = POST_confirm header body remote → pwp moves (ConfirmEnroll fold_case pg_uuid hmac unseal sign n body remote actor) w (earned n r).
Proof using Hs.
  intros Hr. apply pwp_begin. intros id u code ip w1 -> Hid Hu. apply pwp_exec; [|done]. intros w2 Hw2. cbn [fst snd].
  destruct (proj1 Hw2 _ _ Hu) as (u2 & Hu2 & _ & _). destruct (find_id pg_uuid id w2) as [[id' u']|e]; [|done].
  case_bool_decide; [done|]. case_bool_decide; [done|]. destruct (unseal _ _ _) as [secret|] eqn:Hun; [|done].
  intros w3 Hw3. cbn [pbind]. destruct (proj1 Hw3 _ _ Hu2) as (u3 & Hu3 & _ & _). destruct (matchTOTP _ _ _ _ _) as [step|] eqn:Hm.
  - unfold confirm_step. apply pwp_bind; [apply _|]. eapply pwp_mono; [|by apply (confirm_pwp n id u3)].
    intros [[id4 u4]|[]] w4 Hc; try done. specialize (Hc _ _ eq_refl). apply pwp_skip; [apply _|apply moves_of, guar_Reset|]. intros _ w5 Hw5.
    apply pwp_bind; [apply _|]. eapply pwp_rest; [apply moves_of, guar_IssueSession|apply answers_Session|].
    intros [[tok exp]|e] w6 Hw6 Htok; [|done]. intros w7 Hw7. eapply (issued_earned _ _ id u4 _ step); [by apply (Htok (tok, exp))|done|].
    split; [exists (pu_generation u4); split; [|lia]; eapply history_mono; [|exact Hc]; by do 2 (etrans; [done|])|].
    exists code, (default "" (pu_ciphertext u')), (default "" (pu_nonce u')), secret. subst r. split_and!; [done|done|]. by eapply matchTOTP_code.
  - eapply pwp_rest; [apply moves_of, guar_totpFailure| |intros a w' _ Ha; by apply first_factor_earned, Ha].
    unfold totpFailure. plain.
Qed.

Lemma route_earned n d r o h k actor w : route n d r = Some (o, h, k) → pwp moves (k actor) w (earned n r).
Proof using Hs.
  destruct r; cbn [Provider.route]; intros E; simplify_eq; try (by eapply verify_earned); try (by eapply confirm_earned);
    (eapply answers_pwp; [intros a w'; apply first_factor_earned|]); [apply answers_ChangePassword|..];
    unfold Logout, Enroll, Me, ListUsers, Create, ChangeRoleHandler, setDisabled, ResetPassword, ResetTOTP, authorize, targetID, answer_op; plain;
    unfold operator_error; by case_match.
Qed.
Lemma serve_earned n d r w : pwp moves (serve n d r) w (earned n r).
Proof using Hs.
  unfold Provider.serve. destruct (route n d r) as [[[o h] k]|] eqn:Er.
  - unfold RequireProvider. destruct (bearer h); [|done]. apply pwp_skip; [apply _|apply moves_of, guar_clock|]. intros now w1 _.
    destruct (VerifyProviderToken _ _ _) as [cl|]; [|done]. apply pwp_exec; [|done]. intros w2 _.
    destruct (find_id _ _ _) as [[id u]|[]]; cbn [fst snd]; try done. destruct (row_refusal o cl u) as [[]|]; [done|]. by eapply route_earned.
  - destruct r; try done; (eapply answers_pwp; [intros a w'; apply first_factor_earned|]); [apply answers_Login| |].
    + unfold RecoverAdminCLI, answer_op. plain; unfold operator_error; by case_match.
    + plain.
Qed.

(** ** Every configuration *)

(** Request [n] was admitted with a token; if that carries the second factor, the
    request that answered it had spent a step under the present generation. *)
Definition admission (ps : list (proc sys response)) (before : list event) (tok : string) (id : uuid) (u : ProviderUser) : Prop :=
  ∃ cl o, signed tok = Some cl ∧ pg_uuid (c_Subject cl) = Some id ∧ row_refusal o cl u = None ∧
    (hasAMR (c_AMR cl) AMROTP = true →
     ∃ (m : nat) s exp pwc mfa, ps !! m = Some (Done (Token tok exp pwc mfa)) ∧ Spent m id (pu_generation u) s ∈ before).
Record inv (c : config) : Prop := {
  inv_otp : otp_inv c.1;
  inv_promised : promised moves (λ i a w, ∃ r, earned i r a w) c;
  inv_effect : ∀ (i : nat) p, c.2 !! i = Some p →
    ∃ T, (∀ tok, T = Some tok → is_Some (signed tok) → known c.2 tok) ∧ pguar (effect i T) p;
  inv_admitted : ∀ l1 l2 n tok id u, history c.1 = l1 ++ Passed n tok id u :: l2 → admission c.2 l2 tok id u
}.

Lemma known_step l c c' tok : pool_step env start l c c' → known c.2 tok → known c'.2 tok.
Proof. intros Hst (j & e & b & m & Hj). exists j, e, b, m. by eapply step_done. Qed.
Lemma admission_step l c c' h tok id u : pool_step env start l c c' → admission c.2 h tok id u → admission c'.2 h tok id u.
Proof.
  intros Hst (cl & o & Hc & Hp & Ha & Hotp). exists cl, o. split_and!; [done..|]. intros Ho.
  destruct (Hotp Ho) as (m & s & e & b & f & Hm & Hin). exists m, s, e, b, f. split; [by eapply step_done|done].
Qed.

(** The history grows by at most one event. *)
Lemma effect_history n T w w' l1 l2 m tok id u :
  effect n T w w' → history w' = l1 ++ Passed m tok id u :: l2 →
  (∃ l1', history w = l1' ++ Passed m tok id u :: l2) ∨
  (l2 = history w ∧ T = Some tok ∧ users w !! id = Some u ∧
   ∃ cl o, signed tok = Some cl ∧ pg_uuid (c_Subject cl) = Some id ∧ row_refusal o cl u = None).
Proof.
  intros He Hh. assert (∀ e, (∀ m tok id u, e ≠ Passed m tok id u) → history w' = e :: history w → ∃ l1', history w = l1' ++ Passed m tok id u :: l2) as Hcons.
  { intros e Hne He'. rewrite He' in Hh. destruct l1 as [|x l1]; simplify_eq/=; [by edestruct Hne|eauto]. }
  destruct He as [Hu Hh'|id0 u0 t Hu Hus Hh'|id0 u0 ct nonce Hu He Hus Hh'|id0 u0 step Hc Hu He Hl Hus Hh'|id0 u0 step t Hc Hu He Hct Hus Hh'
    |id0 u0 u1 Hu Hr Hd Hg Hus Hh'|id0 u0 u1 Hu Ht Hus Ha Hh'|id0 u0 Hu Hg He Hus Hh'|tok0 cl o id0 u0 HT Htok Hcl Hu Ha Hus Hh'];
    try (left; rewrite <-Hh'; by eauto); try (left; eapply Hcons; [|exact Hh']; done).
  rewrite Hh' in Hh. destruct l1 as [|x l1]; simplify_eq/=; [right|left; by eauto]. split_and!; [done..|]. by exists cl, o.
Qed.

Lemma admit_generation o cl u : row_refusal o cl u = None → c_Gen cl = pu_generation u.
Proof. unfold row_refusal. intros H. repeat (case_match; [done|]). by bool_simpl. Qed.
Lemma inv_new_admission c i T tok cl o id u :
  inv c → (∀ tok, T = Some tok → is_Some (signed tok) → known c.2 tok) → T = Some tok → signed tok = Some cl →
  pg_uuid (c_Subject cl) = Some id → users c.1 !! id = Some u → row_refusal o cl u = None → (i < length c.2)%nat →
  admission c.2 (history c.1) tok id u.
Proof.
  intros Hi HT HTt Hcl Hp Hu Ha _. exists cl, o. split_and!; [done..|]. intros Hotp.
  destruct (HT tok HTt ltac:(eauto)) as (j & e & b & f & Hj).
  destruct (proj2 (inv_promised _ Hi) _ _ Hj c.1 ltac:(reflexivity)) as (r & cl' & Hcl' & Hsp). simplify_eq.
  destruct (Hsp Hotp) as (Hsub & s & (g & Hg & Hle) & _). simplify_eq.
  exists j, s, e, b, f. split; [done|]. destruct (otp_generation _ (inv_otp _ Hi) _ _ _ _ Hg) as (u' & Hu' & Hle'). simplify_eq.
  apply admit_generation in Ha. replace (pu_generation u) with g by lia. done.
Qed.

Lemma inv_start w ps p : start w ps p → pguar moves p ∧ pwp moves p w (λ a w, ∃ r, earned (length ps) r a w).
Proof using Hs.
  intros (r & -> & _). split; [apply serve_moves|]. eapply pwp_mono; [|apply serve_earned]. intros a w' Ha. by exists r.
Qed.
Lemma inv_step l c c' : pool_step env start l c c' → inv c → inv c' ∧ moves c.1 c'.1.
Proof using Hs.
  intros Hst Hi. destruct (promised_step env start moves _ l c c' env_moves inv_start Hst (inv_promised _ Hi)) as [Hpr Hmv].
  split; [|done]. destruct Hi as [Hotp Hpr0 Heff Hadm]. pose proof (Build_inv c Hotp Hpr0 Heff Hadm) as Hi. split; [| done | |].
  - destruct Hst as [i u k w ps Hi'|i k f w ps Hi'|w w' ps He|p w ps Hp]; simpl in *; [|done|by eapply env_otp|done].
    destruct (Heff _ _ Hi') as (T & _ & Hg). by eapply effect_otp, Hotp; apply (Hg w).
  - assert (∀ i (p : proc sys response), (∃ T, (∀ tok, T = Some tok → is_Some (signed tok) → known c.2 tok) ∧ pguar (effect i T) p) →
      ∃ T, (∀ tok, T = Some tok → is_Some (signed tok) → known c'.2 tok) ∧ pguar (effect i T) p) as Hmono.
    { intros i p (T & HT & Hg). exists T. split; [|done]. intros tok Ht Hsg. by eapply known_step, HT. }
    intros i p Hp'. apply Hmono.
    destruct Hst as [j u k w ps Hj|j k f w ps Hj|w w' ps He|q w ps Hq]; simpl in *; [| |by apply Heff|].
    + apply list_lookup_insert_Some in Hp' as [(<- & <- & _)|[_ Hp']]; [|by apply Heff].
      destruct (Heff _ _ Hj) as (T & HT & Hg). exists T. split; [done|apply (Hg w)].
    + apply list_lookup_insert_Some in Hp' as [(<- & <- & _)|[_ Hp']]; [|by apply Heff].
      destruct (Heff _ _ Hj) as (T & HT & Hg). exists T. split; [done|apply (Hg f)].
    + apply lookup_snoc_Some in Hp' as [[_ Hp']|[-> <-]]; [by apply Heff|]. destruct Hq as (r & -> & Hask).
      exists (token_of r). split; [done|apply serve_effect].
  - intros l1 l2 n tok id u Hh. eapply admission_step; [exact Hst|].
    destruct Hst as [j a k w ps Hj|j k f w ps Hj|w w' ps (_ & Hh' & _)|q w ps Hq]; simpl in *;
      [|by eapply Hadm|rewrite Hh' in Hh; by eapply Hadm|by eapply Hadm].
    destruct (Heff _ _ Hj) as (T & HT & Hg). destruct (effect_history _ _ _ _ _ _ _ _ _ _ (proj1 (Hg w)) Hh)
      as [(l1' & Hold)|(-> & HTt & Hu & cl & o & Hcl & Hp & Ha)]; [by eapply Hadm|].
    by eapply (inv_new_admission (w, ps) j T tok cl o id u); [..|eapply lookup_lt_Some].
Qed.
Lemma inv_steps c c' : steps c c' → inv c → inv c' ∧ moves c.1 c'.1.
Proof using Hs.
  induction 1 as [c|c1 c2 c3 [l Hst] _ IH]; intros Hi; [split; [done|reflexivity]|]. destruct (inv_step _ _ _ Hst Hi) as [Hi2 Hm].
  destruct (IH Hi2). split; [done|]. by etrans.
Qed.
Lemma inv_initial m now : inv (initial m now).
Proof.
  split; simpl.
  - split; simpl; [|done|by intros ???? ?%elem_of_nil]. intros id l1 l2 E. symmetry in E. apply app_nil in E as [_ ->]. constructor.
  - split; intros i p Hp; done.
  - done.
  - intros l1 l2 n tok id u E. by destruct l1.
Qed.

Lemma asked_inv c r : inv c → may_ask c.2 r → inv (asked c r).
Proof using Hs. intros Hi Ha. eapply (inv_step None c); [|done]. destruct c as [w ps]. apply step_start. by exists r. Qed.
(** A request and its answer. *)
Lemma asked_answered c r c' a Q :
  inv c → may_ask c.2 r → pwp moves (serve (length c.2) (rnd (length c.2)) r) c.1 Q → steps (asked c r) c' →
  c'.2 !! length c.2 = Some (Done a) → inv c' ∧ Q a c'.1.
Proof using Hs.
  intros Hi Ha Hp Hr Hd.
  destruct (steps_pwp env start moves inv _ _ (length c.2) _ Q inv_step Hr (asked_inv c r Hi Ha) (list_lookup_middle _ _ _ _ eq_refl) Hp)
    as (Hi' & _ & p & Hp' & Hw).
  split; [done|]. simplify_eq. apply (Hw c'.1). reflexivity.
Qed.

(** *** Management of operators *)

Definition managing (r : request) : Prop :=
  match r with
  | GET_users _ | POST_users _ _ _ | PATCH_user _ _ _ _ | POST_disable _ _ _ | POST_enable _ _ _ | POST_reset_password _ _ _
  | POST_reset_totp _ _ _ _ => True
  | _ => False
  end.
Definition succeeded (a : response) : Prop := match a with Fail _ _ => False | _ => True end.
Lemma manage_role actor : CanManageProviderUser actor = true → a_role actor = RoleSuperAdmin.
Proof.
  unfold CanManageProviderUser, decide_action. case_bool_decide; [done|]. by case_bool_decide.
Qed.
Lemma managing_route n d r : managing r →
  ∃ h k, route n d r = Some (full_route, h, k) ∧
         ∀ actor, CanManageProviderUser actor = false → k actor = Done (Fail 403 "forbidden").
Proof.
  destruct r; intros Hr; try done; do 2 eexists; (split; [done|]); intros actor Ha;
    unfold ListUsers, Create, ChangeRoleHandler, setDisabled, ResetPassword, ResetTOTP, authorize; by rewrite Ha.
Qed.
Lemma managing_pwp n d r w :
  managing r →
  pwp moves (serve n d r) w (λ a w', succeeded a → ∃ tok cl id u,
    token_of r = Some tok ∧ signed tok = Some cl ∧ row_refusal full_route cl u = None ∧ pu_role u = RoleSuperAdmin ∧
    Passed n tok id u ∈ history w').
Proof using Hs.
  intros Hr. destruct (managing_route n d r Hr) as (h & k & Er & Hk). rewrite (route_token n d). unfold Provider.serve. rewrite Er.
  unfold RequireProvider. destruct (bearer h) as [tok|]; [|by intros w' _ []]. apply pwp_skip; [apply _|apply moves_of, guar_clock|]. intros now w1 _.
  destruct (VerifyProviderToken signed now tok) as [cl|] eqn:Ev; [|by intros w' _ []]. apply pwp_exec; [|by intros w' w'' _ []]. intros w2 _.
  destruct (find_id _ _ _) as [[id u]|[]]; cbn [fst snd]; try by intros w' _ [].
  destruct (row_refusal full_route cl u) as [[]|] eqn:Ea; [by intros w' _ []|].
  assert (signed tok = Some cl) as Hc by (unfold VerifyProviderToken in Ev; repeat case_match; by simplify_eq).
  destruct (CanManageProviderUser (MkActor id (pu_email u) (pu_role u))) eqn:Hm.
  - eapply (pwp_rest (λ _, True)); [|by induction (k _); simpl|].
    + eapply (pguar_mono (effect n None)); [intros ??; apply effect_moves|]. eapply guar_route; [apply Hs|exact Er].
    + intros a w' Hw _ _. exists tok, cl, id, u. split_and!; [done..|by apply manage_role in Hm|]. eapply history_mono; [done|]. left.
  - rewrite (Hk _ Hm). by intros w' _ [].
Qed.

Lemma full_requires cl u : row_refusal full_route cl u = None → RequiresTOTP u = true → hasAMR (c_AMR cl) AMROTP = true ∧ pu_disabled u = None.
Proof.
  unfold row_refusal. intros H HT. case_bool_decide as Hd; [done|]. split; [|by apply eq_None_not_Some].
  do 2 (destruct (negb _) in H; [done|]). destruct (c_MFA cl ≟ allowMFAStage full_route) eqn:Hm; [|done]. simpl in H, Hm.
  destruct (c_PWC cl); [done|]. rewrite Hm, HT in H. by destruct (hasAMR (c_AMR cl) AMROTP).
Qed.

(** C17: operators are managed with a second factor.  In every interleaving, a
    management request (listing, creating, changing, disabling, enabling or
    resetting operators) that does not fail was admitted as an active super-admin
    with a token that the answer to a TOTP request had handed out; that request
    had spent a step of the operator's TOTP, and since then neither password, role,
    state nor TOTP of the operator changed, nor did the operator sign out (the
    generation is the same). *)
Theorem management_needs_second_factor (m : gmap uuid ProviderUser) (now : time) (c c' : config) (r : request) (a : response) :
  steps (initial m now) c → may_ask c.2 r → managing r → steps (asked c r) c' →
  c'.2 !! length c.2 = Some (Done a) → succeeded a →
  ∃ tok id u (j : nat) s l1 l2,
    token_of r = Some tok ∧ history c'.1 = l1 ++ Passed (length c.2) tok id u :: l2 ∧
    pu_role u = RoleSuperAdmin ∧ pu_disabled u = None ∧ Spent j id (pu_generation u) s ∈ l2 ∧
    ∃ exp pwc mfa, c'.2 !! j = Some (Done (Token tok exp pwc mfa)).
Proof using Hs.
  intros Hr Hask Hman Hr' Hd Hok. destruct (inv_steps _ _ Hr (inv_initial m now)) as [Hi _].
  destruct (asked_answered c r c' a _ Hi Hask (managing_pwp _ _ r _ Hman) Hr' Hd) as [Hi' HQ].
  destruct (HQ Hok) as (tok & cl & id & u & Htok & Hcl & Ha & Hrole & Hin). apply list_elem_of_split in Hin as (l1 & l2 & Hh).
  destruct (inv_admitted _ Hi' _ _ _ _ _ _ Hh) as (cl' & o & Hcl' & _ & _ & Hotp). simplify_eq.
  destruct (full_requires _ _ Ha ltac:(unfold RequiresTOTP; rewrite bool_decide_true by done; done)) as [Hamr Hdis].
  destruct (Hotp Hamr) as (j & s & e & b & f & Hj & Hsp). exists tok, id, u, j, s, l1, l2. split_and!; eauto.
Qed.

(** Between the steps that two requests spent, the operator's TOTP was cleared. *)
Definition cleared_between (id : uuid) (i j : nat) (h : list event) : Prop :=
  ∃ k1 k2 g1 g2 s1 s2 l1 l2 l3, h = l1 ++ Spent k1 id g1 s1 :: l2 ++ Spent k2 id g2 s2 :: l3 ∧ Cleared id ∈ l2 ∧
    (k1 = i ∧ k2 = j ∨ k1 = j ∧ k2 = i).

(** C18: a step of TOTP is good for one sign-in.  If two requests, interleaved in
    any way, both answered with a token that carries the second factor of one
    operator, then each spent a step of which its code is the code, and the steps
    differ, or the operator's TOTP was reset between the two. *)
Theorem otp_spent_once (m : gmap uuid ProviderUser) (now : time) (c1 c2 c3 : config) (r1 r2 : request)
    (tok1 tok2 mfa1 mfa2 : string) (exp1 exp2 : Z) (pwc1 pwc2 : bool) (cl1 cl2 : ProviderClaims) :
  steps (initial m now) c1 → may_ask c1.2 r1 → steps (asked c1 r1) c2 → may_ask c2.2 r2 → steps (asked c2 r2) c3 →
  c3.2 !! length c1.2 = Some (Done (Token tok1 exp1 pwc1 mfa1)) → c3.2 !! length c2.2 = Some (Done (Token tok2 exp2 pwc2 mfa2)) →
  signed tok1 = Some cl1 → signed tok2 = Some cl2 → hasAMR (c_AMR cl1) AMROTP = true → hasAMR (c_AMR cl2) AMROTP = true →
  c_Subject cl1 = c_Subject cl2 →
  ∃ s1 s2, spent_code (length c1.2) r1 (c_Subject cl1) (c_Gen cl1) s1 c3.1 ∧ spent_code (length c2.2) r2 (c_Subject cl2) (c_Gen cl2) s2 c3.1 ∧
    (s1 ≠ s2 ∨ cleared_between (c_Subject cl1) (length c1.2) (length c2.2) (history c3.1)).
Proof using Hs.
  intros Hr1 Ha1 Hr2 Ha2 Hr3 Hd1 Hd2 Hc1 Hc2 Ho1 Ho2 Hsub. destruct (inv_steps _ _ Hr1 (inv_initial m now)) as [Hi1 _].
  destruct (inv_steps _ _ Hr2 (asked_inv _ _ Hi1 Ha1)) as [Hi2 _].
  assert (steps (asked c1 r1) c3) as Hr13.
  { etrans; [exact Hr2|]. eapply rtc_l; [|exact Hr3]. exists None. destruct c2 as [w2 ps2]. apply step_start. by exists r2. }
  destruct (asked_answered c1 r1 c3 _ _ Hi1 Ha1 (serve_earned _ _ r1 _) Hr13 Hd1) as [Hi3 (cl1' & Hc1' & He1)].
  destruct (asked_answered c2 r2 c3 _ _ Hi2 Ha2 (serve_earned _ _ r2 _) Hr3 Hd2) as [_ (cl2' & Hc2' & He2)]. simplify_eq.
  destruct (He1 Ho1) as (_ & s1 & Hs1). destruct (He2 Ho2) as (_ & s2 & Hs2). exists s1, s2. split_and!; [done|done|].
  destruct (decide (s1 = s2)) as [<-|Hne]; [right|by left]. pose proof (otp_sorted _ (inv_otp _ Hi3)) as Hsort.
  destruct Hs1 as [(g1 & Hin1 & _) _], Hs2 as [(g2 & Hin2 & _) _]. rewrite <-Hsub in Hin2.
  assert (length c1.2 ≠ length c2.2) as Hlen.
  { assert (∀ c c', steps c c' → length c.2 ≤ length c'.2)%nat as Hl.
    { induction 1 as [|x y z [l Hst] _ IH]; [done|]. etrans; [by eapply step_length|done]. }
    apply Hl in Hr2. unfold asked in Hr2. simpl in Hr2. rewrite length_app in Hr2. simpl in Hr2. lia. }
  apply list_elem_of_split in Hin1 as (l1 & l2 & Hh). rewrite Hh in Hin2. apply elem_of_app in Hin2 as [Hin2|Hin2].
  - apply list_elem_of_split in Hin2 as (l3 & l4 & ->). rewrite <-app_assoc in Hh. simpl in Hh.
    do 9 eexists. split_and!; [exact Hh|by eapply spent_twice; [exact Hsort|exact Hh]|by right].
  - apply elem_of_cons in Hin2 as [?|Hin2]; [congruence|]. apply list_elem_of_split in Hin2 as (l3 & l4 & ->).
    do 9 eexists. split_and!; [exact Hh|by eapply spent_twice; [exact Hsort|exact Hh]|by left].
Qed.

(** C19: a change of credentials ends every session.  Once the email, role, state,
    password or TOTP of an operator differs from what it was, no token from before
    is ever admitted again, in every interleaving. *)
Theorem change_ends_sessions (m : gmap uuid ProviderUser) (now : time) (c c' c'' : config) (id : uuid) (u u' : ProviderUser)
    (tok : string) (cl : ProviderClaims) :
  steps (initial m now) c → steps c c' → steps c' c'' →
  users c.1 !! id = Some u → users c'.1 !! id = Some u' → credentials u' ≠ credentials u →
  signed tok = Some cl → pg_uuid (c_Subject cl) = Some id → c_Gen cl <= pu_generation u →
  ∃ l, history c''.1 = l ++ history c'.1 ∧ ∀ n id2 u2, Passed n tok id2 u2 ∉ l.
Proof using Hs.
  intros Hr Hr' Hr'' Hu Hu' Hne Hcl Hp Hle. destruct (inv_steps _ _ Hr (inv_initial m now)) as [Hi _].
  destruct (inv_steps _ _ Hr' Hi) as [Hi' [Hm _]]. destruct (inv_steps _ _ Hr'' Hi') as [_ [_ (l & Hh & Hl)]].
  exists l. split; [done|]. intros n id2 u2 Hin. destruct (Hl _ _ _ _ Hin) as [(o & cl' & Hcl' & Hp' & Ha) Hge]. simplify_eq.
  specialize (Hge _ Hu'). apply admit_generation in Ha. destruct (Hm _ _ Hu) as (u3 & Hu3 & Hle3 & Hc). simplify_eq.
  apply Hne, Hc. lia.
Qed.

(** *** Administrators *)

Lemma effect_admin n T w w' : effect n T w w' → has_admin (users w) → has_admin (users w').
Proof.
  assert (∀ id u u', users w !! id = Some u → active_admin u' = active_admin u → users w' = <[id := u']> (users w) →
    has_admin (users w) → has_admin (users w')) as Hrow.
  { intros id u u' Hu Ha Hus (id2 & u2 & Hu2 & Ha2). rewrite Hus. destruct (decide (id2 = id)) as [->|Hne].
    - simplify_eq. exists id, u'. rewrite lookup_insert_eq. split; [done|congruence].
    - exists id2, u2. by rewrite lookup_insert_ne. }
  intros [Hu Hh|id u t Hu Hus Hh|id u ct nonce Hu He Hus Hh|id u step Hc Hu He Hl Hus Hh|id u step t Hc Hu He Hct Hus Hh
         |id u u1 Hu Hr Hd Hg Hus Hh|id u u1 Hu Ht Hus Ha Hh|id u Hu Hg He Hus Hh|tok cl o id u HT Htok Hcl Hu Ha Hus Hh];
    [by rewrite Hu|by eapply Hrow, Hus|by eapply Hrow, Hus|by eapply Hrow, Hus|by eapply Hrow, Hus| |exact Ha| |by rewrite Hus].
  - eapply Hrow, Hus; [done|]. unfold active_admin. simpl. by rewrite Hr, Hd.
  - intros (id2 & u2 & Hu2 & Ha2). rewrite Hus. exists id2, u2. rewrite lookup_insert_ne by congruence. done.
Qed.

(** C20: an administrator remains.  However requests interleave, once there is an
    active super-admin there always is one. *)
Theorem super_admin_remains (m : gmap uuid ProviderUser) (now : time) (c c' : config) :
  steps (initial m now) c → has_admin (users c.1) → steps c c' → has_admin (users c'.1).
Proof using Hs.
  intros Hr Ha Hr'. destruct (inv_steps _ _ Hr (inv_initial m now)) as [Hi _]. clear Hr.
  induction Hr' as [c|c1 c2 c3 [l Hst] Hrest IH]; [done|]. apply IH; [|by eapply inv_step].
  destruct Hst as [i u k w ps Hi'|i k f w ps Hi'|w w' ps (Hu & _)|p w ps Hp]; simpl in *; [|done|by rewrite Hu|done].
  destruct (inv_effect _ Hi _ _ Hi') as (T & _ & Hg). eapply effect_admin; [apply (Hg w)|done].
Qed.
End safety.
