(* ===== verification/ProviderRun.v ===== *)
(** * Operators: runs

    Two operators, concrete services, and the runs that show the theorems of
    [ProviderSafety] at work; and two runs that the code's comments exclude. *)

From Stdlib Require Import ZArith Lia Ascii.
From S2P Require Import Prelude GoText Sql Conc Provider ProviderFacts ProviderSafety.
Open Scope Z_scope.
Set Default Proof Using "Type".

#[local] Instance ProviderClaims_eq_dec : EqDecision ProviderClaims.
Proof. solve_decision. Defined.

(** ** Services *)

Definition root : uuid := "a1".
Definition ops : uuid := "b2".
(** Also in upper case. *)
Definition read_uuid (s : string) : option uuid :=
  if (s ≟ "a1") || (s ≟ "A1") then Some "a1" else if s ≟ "b2" then Some "b2" else None.
Definition mac (k m : list Z) : list Z := default 0 (head k) :: take 3 (reverse m) ++ repeat 0 16.
Definition phc (_ : list Z) (password : string) : string := "phc:" +:+ password.
Definition check_phc (password hash : string) : option bool := Some (hash ≟ "phc:" +:+ password).
Definition seal0 (_ secret : list Z) (context : string) : option (string * string) := Some (of_bytes (chr <$> secret), context).
Definition unseal0 (ct nonce context : string) : option (list Z) := if nonce ≟ context then Some (code <$> bytes ct) else None.

Definition t0 : time := 63900000000 * Second.
Definition t1 : time := t0 + 30 * Second.
Definition root_email : string := "root@example.org".
Definition claims (id email role : string) (gen : Z) (amr : list string) (mfa : string) (now : time) (ttl : duration) : ProviderClaims :=
  MkClaims role email gen false amr mfa id ProviderIssuer [ProviderAudience] now (Some (now + ttl)).
Definition signatures : list (string * ProviderClaims) :=
  [("enroll", claims root root_email RoleSuperAdmin 1 [AMRPassword] MFAStageEnroll t0 MFATokenTTL);
   ("full", claims root root_email RoleSuperAdmin 2 [AMRPassword; AMROTP] "" t0 ProviderSessionTTL);
   ("verify", claims root root_email RoleSuperAdmin 2 [AMRPassword] MFAStageVerify t1 MFATokenTTL);
   ("full2", claims root root_email RoleSuperAdmin 2 [AMRPassword; AMROTP] "" t1 ProviderSessionTTL);
   ("ops", claims ops "ops@example.org" RoleRelayOps 1 [AMRPassword] "" t0 ProviderSessionTTL)].
Definition sign0 (c : ProviderClaims) : option string := (λ p, p.2.1) <$> list_find (λ p, p.2 = c) signatures.
Definition signed0 (t : string) : option ProviderClaims := (λ p, p.2.2) <$> list_find (λ p, p.1 = t) signatures.
Definition rnd0 (n : nat) : draws := MkDraws [] [Z.of_nat n + 40; 1; 2] [] "temporary" "c3".

Lemma services0 : services read_uuid sign0 signed0.
Proof.
  split.
  - intros raw id. unfold read_uuid. repeat case_match; intros; by simplify_eq.
  - intros c t. unfold sign0. intros ([i [t' c']] & Hf & ->)%fmap_Some. apply list_find_Some in Hf as (Hi & Hc & _). simpl in *. subst c'.
    do 5 (destruct i as [|i]; [injection Hi as <- <-; by vm_compute|]). done.
Qed.

Definition operators : gmap uuid ProviderUser :=
  list_to_map [(root, MkUser root_email RoleSuperAdmin None (Some "phc:correct horse") false 1 None None None None None);
               (ops, MkUser "ops@example.org" RoleRelayOps None (Some "phc:battery staple") false 1 None None None None None)].
Abbreviation asked0 := (asked id (λ _ _, false) read_uuid read_uuid mac phc check_phc seal0 unseal0 sign0 signed0 rnd0).
Abbreviation steps0 :=
  (rtc (pool_any env (start id (λ _ _, false) read_uuid read_uuid mac phc check_phc seal0 unseal0 sign0 signed0 rnd0))).
Abbreviation config := (sys * list (proc sys response))%type.
Abbreviation run := (run_threads (W := sys) (A := response)).
Definition c0 : config := initial operators t0.
Definition remote : string := "192.0.2.7:4711".
Definition bearing (t : string) : string := "Bearer " +:+ t.
(** Request [r], to its end. *)
Definition ask (r : request) (c : config) : config := run (repeat (length c.2) 60) (asked0 c r).

(** ** The first sign-in *)

Definition secret0 : list Z := d_secret (rnd0 1).
Definition step0 : Z := Z.quot (time_Unix t0) 30.
Definition code0 : string := totpCodeAt mac secret0 step0.
Definition c_login : config := ask (POST_login (Some (root_email, "correct horse")) remote) c0.
Definition c_enroll : config := ask (POST_enroll (bearing "enroll")) c_login.
Definition confirm : request := POST_confirm (bearing "enroll") (Some code0) remote.
Definition c_full : config := ask confirm c_enroll.
Definition promote : request := PATCH_user (bearing "full") ops (Some RoleSuperAdmin) remote.
Definition c_promoted : config := ask promote c_full.

Lemma asking_steps c r : may_ask signed0 c.2 r → steps0 c (ask r c).
Proof.
  intros Hm. eapply rtc_l; [|apply run_threads_steps]. exists None. destruct c as [w ps]. apply step_start. by exists r.
Qed.
Lemma run_steps c r l : may_ask signed0 c.2 r → steps0 c (run l (asked0 c r)).
Proof. intros Hm. eapply rtc_l; [|apply run_threads_steps]. exists None. destruct c as [w ps]. apply step_start. by exists r. Qed.
(** A token that an earlier request answered. *)
Lemma may_ask_token (c : config) r tok (j : nat) exp pwc mfa :
  token_of r = Some tok → c.2 !! j = Some (Done (Token tok exp pwc mfa)) → may_ask signed0 c.2 r.
Proof. intros Ht Hj tok' Ht' _. simplify_eq. by exists j, exp, pwc, mfa. Qed.

Lemma sign_in_done : c_login.2 !! 0%nat = Some (Done (Token "enroll" 300 false "enroll")).
Proof. by vm_compute. Qed.
Lemma enroll_done : c_enroll.2 !! 0%nat = Some (Done (Token "enroll" 300 false "enroll")) ∧ c_enroll.2 !! 1%nat = Some (Done (Secret secret0)).
Proof. by vm_compute. Qed.
Lemma full_done : c_full.2 !! length c_enroll.2 = Some (Done (Token "full" 900 false "")).
Proof. by vm_compute. Qed.
Lemma full_length : length c_full.2 = 3%nat ∧ length c_enroll.2 = 2%nat.
Proof. by vm_compute. Qed.
Definition promoted_row : ProviderUser :=
  MkUser "ops@example.org" RoleSuperAdmin None (Some "phc:battery staple") false 2 None None None None None.
Lemma promoted_done : c_promoted.2 !! length c_full.2 = Some (Done (User promoted_row)).
Proof. by vm_compute. Qed.

Lemma sign_in_steps : steps0 c0 c_login.
Proof. by apply asking_steps. Qed.
Lemma may_enroll : may_ask signed0 c_login.2 (POST_enroll (bearing "enroll")).
Proof. eapply may_ask_token; [by vm_compute|exact sign_in_done]. Qed.
Lemma enroll_steps : steps0 c0 c_enroll.
Proof. etrans; [exact sign_in_steps|]. by apply asking_steps, may_enroll. Qed.
Lemma may_confirm : may_ask signed0 c_enroll.2 confirm.
Proof. eapply may_ask_token; [by vm_compute|exact (proj1 enroll_done)]. Qed.
Lemma full_steps : steps0 c0 c_full.
Proof. etrans; [exact enroll_steps|]. by apply asking_steps, may_confirm. Qed.
Lemma may_promote : may_ask signed0 c_full.2 promote.
Proof. eapply (may_ask_token _ _ "full" 2); [by vm_compute|]. rewrite <-(proj2 full_length). exact full_done. Qed.
Lemma promoted_steps : steps0 (asked0 c_full promote) c_promoted.
Proof. apply run_threads_steps. Qed.

Lemma management_needs_second_factor_witness :
  ∃ tok id u (j : nat) s l1 l2,
    token_of promote = Some tok ∧ history c_promoted.1 = l1 ++ Passed (length c_full.2) tok id u :: l2 ∧
    pu_role u = RoleSuperAdmin ∧ pu_disabled u = None ∧ Spent j id (pu_generation u) s ∈ l2 ∧
    ∃ exp pwc mfa, c_promoted.2 !! j = Some (Done (Token tok exp pwc mfa)).
Proof.
  exact (management_needs_second_factor id (λ _ _, false) read_uuid read_uuid mac phc check_phc seal0 unseal0 sign0 signed0 rnd0 services0
    operators t0 c_full c_promoted promote (User promoted_row) full_steps may_promote I promoted_steps promoted_done I).
Defined.

(** ** The next one, a step later *)

Definition at_time (t : time) (c : config) : config :=
  (MkSys (users c.1) (audits c.1) (counters c.1) t (history c.1), c.2).
Lemma at_time_steps t c : clock c.1 <= t → steps0 c (at_time t c).
Proof. intros Hle. apply rtc_once. exists None. destruct c as [w ps]. apply step_env. by split_and!. Qed.
Definition c_later : config := at_time t1 c_full.
Lemma later_steps : steps0 c_full c_later.
Proof. apply at_time_steps. by vm_compute. Qed.
Definition c_login2 : config := ask (POST_login (Some (root_email, "correct horse")) remote) c_later.
Definition code1 : string := totpCodeAt mac secret0 (step0 + 1).
Definition verify : request := POST_verify (bearing "verify") (Some code1) remote.
Definition c_verified : config := ask verify c_login2.
Lemma login2_done : c_login2.2 !! 3%nat = Some (Done (Token "verify" 300 false "verify")).
Proof. by vm_compute. Qed.
Lemma verified_done :
  c_verified.2 !! length c_enroll.2 = Some (Done (Token "full" 900 false "")) ∧
  c_verified.2 !! length c_login2.2 = Some (Done (Token "full2" 900 false "")).
Proof. by vm_compute. Qed.
Lemma confirmed_steps : steps0 (asked0 c_enroll confirm) c_login2.
Proof.
  transitivity c_full; [apply run_threads_steps|]. transitivity c_later; [exact later_steps|]. apply asking_steps. intros tok [=].
Qed.
Lemma may_verify : may_ask signed0 c_login2.2 verify.
Proof. eapply may_ask_token; [by vm_compute|exact login2_done]. Qed.

Lemma otp_spent_once_witness :
  ∃ s1 s2, spent_code mac unseal0 (length c_enroll.2) confirm root 2 s1 c_verified.1 ∧
           spent_code mac unseal0 (length c_login2.2) verify root 2 s2 c_verified.1 ∧
           (s1 ≠ s2 ∨ cleared_between root (length c_enroll.2) (length c_login2.2) (history c_verified.1)).
Proof.
  exact (otp_spent_once id (λ _ _, false) read_uuid read_uuid mac phc check_phc seal0 unseal0 sign0 signed0 rnd0 services0
    operators t0 c_enroll c_login2 c_verified confirm verify "full" "full2" "" "" 900 900 false false
    (claims root root_email RoleSuperAdmin 2 [AMRPassword; AMROTP] "" t0 ProviderSessionTTL)
    (claims root root_email RoleSuperAdmin 2 [AMRPassword; AMROTP] "" t1 ProviderSessionTTL)
    enroll_steps may_confirm confirmed_steps may_verify (run_threads_steps _ _ _ _) (proj1 verified_done) (proj2 verified_done)
    eq_refl eq_refl eq_refl eq_refl eq_refl).
Defined.

(** ** A promotion ends the session *)

Definition ops_row : ProviderUser := MkUser "ops@example.org" RoleRelayOps None (Some "phc:battery staple") false 1 None None None None None.
Lemma ops_before : users c_full.1 !! ops = Some ops_row.
Proof. by vm_compute. Qed.
Lemma ops_after : users c_promoted.1 !! ops = Some promoted_row.
Proof. by vm_compute. Qed.
Lemma promote_steps : steps0 c_full c_promoted.
Proof. by apply asking_steps, may_promote. Qed.
Lemma change_ends_sessions_witness :
  ∃ l, history c_promoted.1 = l ++ history c_promoted.1 ∧ ∀ n id2 u2, Passed n "ops" id2 u2 ∉ l.
Proof.
  exact (change_ends_sessions id (λ _ _, false) read_uuid read_uuid mac phc check_phc seal0 unseal0 sign0 signed0 rnd0 services0
    operators t0 c_full c_promoted c_promoted ops ops_row promoted_row "ops"
    (claims ops "ops@example.org" RoleRelayOps 1 [AMRPassword] "" t0 ProviderSessionTTL)
    full_steps promote_steps (rtc_refl _ _) ops_before ops_after ltac:(done) eq_refl eq_refl ltac:(done)).
Defined.
Lemma super_admin_remains_witness : has_admin (users c_promoted.1).
Proof.
  refine (super_admin_remains id (λ _ _, false) read_uuid read_uuid mac phc check_phc seal0 unseal0 sign0 signed0 rnd0 services0
    operators t0 c0 c_promoted (rtc_refl _ _) _ (transitivity full_steps promote_steps)).
  exists root, (MkUser root_email RoleSuperAdmin None (Some "phc:correct horse") false 1 None None None None None). split; by vm_compute.
Defined.

(** ** A confirmation of another secret *)

(** While a confirmation has read the pending secret and matched its code, another
    enrolment replaces the secret. *)
Definition c_race : config :=
  run (repeat 2%nat 40) (ask (POST_enroll (bearing "enroll")) (run (repeat 2%nat 12) (asked0 c_enroll confirm))).
Definition secret1 : list Z := d_secret (rnd0 3).

(** a confirmation can enable a secret that nobody confirmed.  The operator
    enrols and confirms with a code of the new secret; when an enrolment with the
    same token replaces the secret between the confirmation's read and its update,
    the confirmation succeeds and the row holds the other secret, of which the
    code is not a code. *)
Theorem confirm_enables_another_secret :
  steps0 c0 c_race ∧
  c_race.2 !! 1%nat = Some (Done (Secret secret0)) ∧ c_race.2 !! 3%nat = Some (Done (Secret secret1)) ∧
  c_race.2 !! 2%nat = Some (Done (Token "full" 900 false "")) ∧
  (∃ u, users c_race.1 !! root = Some u ∧ is_Some (pu_enabled u) ∧
        unseal0 (default "" (pu_ciphertext u)) (default "" (pu_nonce u)) (totpContext root) = Some secret1) ∧
  matchTOTP mac secret1 code0 t0 None = None.
Proof.
  split_and!; [|by vm_compute|by vm_compute|by vm_compute| |by vm_compute].
  - etrans; [exact enroll_steps|]. etrans; [apply (run_steps _ confirm (repeat 2%nat 12)), may_confirm|].
    etrans; [apply asking_steps|apply run_threads_steps]. eapply (may_ask_token _ _ "enroll" 0); [by vm_compute|].
    eapply (steps_done env (start id (λ _ _, false) read_uuid read_uuid mac phc check_phc seal0 unseal0 sign0 signed0 rnd0));
      [apply run_threads_steps|]. apply lookup_app_l_Some. exact (proj1 enroll_done).
  - eexists. split; [by vm_compute|]. split; [by eexists|by vm_compute].
Qed.

(** ** An operator's own account *)

(** The id of the path is compared as text with the operator's own id, and then
    read by the database: in upper case it passes for another's. *)
Definition demote (path : string) : request := PATCH_user (bearing "full") path (Some RoleRelayOps) remote.
Example own_id_in_upper_case :
  (ask (demote "a1") c_promoted).2 !! 4%nat = Some (Done (Fail 409 "cannot_modify_self")) ∧
  pu_role <$> users (ask (demote "a1") c_promoted).1 !! root = Some RoleSuperAdmin ∧
  pu_role <$> users (ask (demote "A1") c_promoted).1 !! root = Some RoleRelayOps.
Proof. by vm_compute. Qed.
