(* ===== verification/GoNet.v ===== *)
(** * Addresses as Go reads and writes them

    [net.ParseIP], [IP.String] and the classes of addresses that the controller
    asks for, after the standard library.  An IPv4 address and its IPv6-mapped
    form are one value, as for [IP.Equal]. *)

From Stdlib Require Import ZArith Lia Ascii.
From S2P Require Import Prelude GoText NetTarget ResourceHost.
Open Scope Z_scope.

Inductive IP := IP4 (a b c d : Z) | IP6 (groups : list Z).
#[export] Instance IP_eq_dec : EqDecision IP.
Proof. solve_decision. Defined.

(** [netip.parseIPv6]: [n] of the eight groups are left; [ellipsis] is where the
    double colon stood, [acc] the groups before. *)
Fixpoint ip6_groups (n : nat) (ellipsis : option nat) (acc : list Z) (s : list ascii) : option (list Z * option nat) :=
  match n with
  | O => if bool_decide (s = []) then Some (acc, ellipsis) else None
  | S n' =>
      let '(ds, rest) := digits 16 s in
      if (4 <? length ds)%nat || bool_decide (ds = []) then None
      else
        let acc' := acc ++ [foldl (λ v d, v * 16 + d) 0 ds] in
        match rest with
        | [] => Some (acc', ellipsis)
        | c :: rest' =>
            if c ≟ dot then
              if bool_decide (ellipsis = None) && negb (n =? 2)%nat then None
              else if (n <? 2)%nat then None
              else match parseIPv4 s with
                   | Some [x; y; z; t] => Some (acc ++ [x * 256 + y; z * 256 + t], ellipsis)
                   | _ => None
                   end
            else if negb (c ≟ colon) then None
            else match rest' with
                 | [] => None
                 | c' :: rest'' =>
                     if c' ≟ colon then
                       if bool_decide (is_Some ellipsis) then None
                       else if bool_decide (rest'' = []) then Some (acc', Some (length acc'))
                       else ip6_groups n' (Some (length acc')) acc' rest''
                     else ip6_groups n' ellipsis acc' rest'
                 end
        end
  end.
Definition ip6_expand (acc : list Z) (ellipsis : option nat) : option (list Z) :=
  match ellipsis with
  | None => if (length acc =? 8)%nat then Some acc else None
  | Some k => if (length acc <? 8)%nat then Some (take k acc ++ repeat 0 (8 - length acc) ++ drop k acc) else None
  end.
Definition ip_of_groups (g : list Z) : IP :=
  match g with
  | [0; 0; 0; 0; 0; 65535; x; y] => IP4 (x / 256) (x mod 256) (y / 256) (y mod 256)
  | _ => IP6 g
  end.
(** A zone makes [net.ParseIP] refuse. *)
Definition parse_ip6 (s : list ascii) : option IP :=
  if contains_byte "%"%char s then None
  else
    match s with
    | c :: c' :: s' =>
        if (c ≟ colon) && (c' ≟ colon) then
          if bool_decide (s' = []) then Some (IP6 (repeat 0 8))
          else '(acc, e) ← ip6_groups 8 (Some O) [] s'; ip_of_groups <$> ip6_expand acc e
        else '(acc, e) ← ip6_groups 8 None [] s; ip_of_groups <$> ip6_expand acc e
    | _ => '(acc, e) ← ip6_groups 8 None [] s; ip_of_groups <$> ip6_expand acc e
    end.
Definition ParseIP (s : string) : option IP :=
  let l := bytes s in
  match list_find (λ c, addr_marker c = true) l with
  | Some (_, c) =>
      if c ≟ dot then match parseIPv4 l with Some [x; y; z; t] => Some (IP4 x y z t) | _ => None end
      else if c ≟ colon then parse_ip6 l
      else None
  | None => None
  end.

(** *** [IP.String] *)

Definition hex_digit (d : Z) : ascii := if d <? 10 then chr (48 + d) else chr (87 + d).
Definition hex_group (g : Z) : list ascii :=
  let ds := hex_digit <$> [g / 4096; g / 256 mod 16; g / 16 mod 16; g mod 16] in
  if g <? 16 then drop 3 ds else if g <? 256 then drop 2 ds else if g <? 4096 then drop 1 ds else ds.
(** The number of zeros at the front. *)
Fixpoint zeros (g : list Z) : nat := match g with 0 :: g => S (zeros g) | _ => O end.
(** The first longest run of at least two zero groups, as start and length. *)
Fixpoint longest_run (i : nat) (g : list Z) (best : nat * nat) : nat * nat :=
  match g with
  | [] => best
  | _ :: g' =>
      let l := zeros g in
      longest_run (S i) g' (if (2 <=? l)%nat && (best.2 <? l)%nat then (i, l) else best)
  end.
Fixpoint join_groups (g : list Z) : list ascii :=
  match g with
  | [] => []
  | [x] => hex_group x
  | x :: g => hex_group x ++ colon :: join_groups g
  end.
Definition ip6_text (g : list Z) : list ascii :=
  match longest_run O g (O, O) with
  | (_, O) => join_groups g
  | (i, l) => join_groups (take i g) ++ [colon; colon] ++ join_groups (drop (i + l) g)
  end.
Definition IP_String (ip : IP) : string :=
  of_bytes (match ip with IP4 a b c d => ipv4_text a b c d | IP6 g => ip6_text g end).

(** *** Classes *)

Definition first_group (g : list Z) : Z := default 0 (head g).
Definition IsLoopback (ip : IP) : bool :=
  match ip with IP4 a _ _ _ => a =? 127 | IP6 g => bool_decide (g = [0; 0; 0; 0; 0; 0; 0; 1]) end.
Definition IsPrivate (ip : IP) : bool :=
  match ip with
  | IP4 a b _ _ => (a =? 10) || ((a =? 172) && (Z.land b 240 =? 16)) || ((a =? 192) && (b =? 168))
  | IP6 g => Z.land (first_group g) 0xfe00 =? 0xfc00
  end.
Definition IsLinkLocalUnicast (ip : IP) : bool :=
  match ip with
  | IP4 a b _ _ => (a =? 169) && (b =? 254)
  | IP6 g => Z.land (first_group g) 0xffc0 =? 0xfe80
  end.
Definition IsMulticast (ip : IP) : bool :=
  match ip with IP4 a _ _ _ => Z.land a 240 =? 224 | IP6 g => Z.land (first_group g) 0xff00 =? 0xff00 end.
Definition IsUnspecified (ip : IP) : bool :=
  match ip with IP4 a b c d => bool_decide ([a; b; c; d] = [0; 0; 0; 0]) | IP6 g => bool_decide (g = repeat 0 8) end.
Definition IsGlobalUnicast (ip : IP) : bool :=
  negb (ip ≟ IP4 255 255 255 255) && negb (IsUnspecified ip) && negb (IsLoopback ip) && negb (IsMulticast ip) &&
  negb (IsLinkLocalUnicast ip).

Example texts :
  (λ s, IP_String <$> ParseIP s) <$>
    ["192.0.2.7"; "2001:DB8:0:0::1"; "::ffff:192.0.2.7"; "::"; "1:0:0:2:0:0:0:3"; "fe80::1%eth0"; "1.2.3.04"; "1:2:3:4:5:6:7::"; "0:1::"] =
  [Some "192.0.2.7"; Some "2001:db8::1"; Some "192.0.2.7"; Some "::"; Some "1:0:0:2::3"; None; None; Some "1:2:3:4:5:6:7:0"; Some "0:1::"].
Proof. by vm_compute. Qed.
