(* ===== verification/RelayPool.v ===== *)
(** * Relays: rows, capacity labels and the published list

    [controller/internal/relay] capacity_label.go, eligible/eligible.go and, of
    store.go, [EvaluateCapacityLabel], [BuildLabelledRelayList] and
    [relayListVersion]: from the counts a relay reports to the list that
    connectors choose from. *)

From Stdlib Require Import ZArith Lia Ascii.
From stdpp Require Import pretty.
From S2P Require Import Prelude GoFloat GoText SnapshotText.
Open Scope Z_scope.
Set Default Proof Using "Type".

(** ** Rows *)

Record RelayRow := MkRelay {
  rl_name : string; rl_status : string; rl_dns : list string; rl_ip : list string; rl_jti : option string;
  rl_serial : option string; rl_not_after : option time; rl_version : option string; rl_hostname : option string;
  rl_public : option string; rl_observed : option string; rl_port : option Z; rl_scope : option string;
  rl_count : Z; rl_max : Z; rl_count_at : option time;
  rl_label : string; rl_pending : option string; rl_pending_since : option time; rl_label_at : time;
  rl_drain : option time; rl_heartbeat : option time
}.

(** ** Capacity labels (capacity_label.go) *)

Definition CapacityLabelHigh : string := "high".
Definition CapacityLabelMedium : string := "medium".
Definition CapacityLabelLow : string := "low".

(** The constants as [float64], and the quotient of two [uint32] that are. *)
Definition tier1EnterFill : Z * Z := fl_ratio 45 100.
Definition tier1ExitFill : Z * Z := fl_ratio 50 100.
Definition tier2EnterFill : Z * Z := fl_ratio 75 100.
Definition tier2ExitFill : Z * Z := fl_ratio 80 100.

Definition cold_start (fill : Z * Z) : string :=
  if fl_lt fill tier1EnterFill then CapacityLabelHigh
  else if fl_lt fill tier2EnterFill then CapacityLabelMedium
  else CapacityLabelLow.
Definition computeCandidateLabel (current : string) (count max : Z) : string :=
  if max =? 0 then CapacityLabelLow
  else
    let fill := fl_ratio count max in
    if current ≟ CapacityLabelHigh then
      if fl_ge fill tier2ExitFill then CapacityLabelLow
      else if fl_ge fill tier1ExitFill then CapacityLabelMedium
      else CapacityLabelHigh
    else if current ≟ CapacityLabelMedium then
      if fl_ge fill tier2ExitFill then CapacityLabelLow
      else if fl_lt fill tier1EnterFill then CapacityLabelHigh
      else CapacityLabelMedium
    else cold_start fill.

Record hysteresisDecision := MkDecision {
  NewLabel : string; NewPending : option string; NewPendingSince : option time; Promoted : bool
}.
Definition decideHysteresis (current : string) (pending : option string) (pendingSince : option time)
    (candidate : string) (now : time) (holdDown : duration) : hysteresisDecision :=
  if candidate ≟ current then MkDecision current None None false
  else if negb (pending ≟ Some candidate) then MkDecision current (Some candidate) (Some now) false
  else if match pendingSince with Some since => holdDown <=? time_Sub now since | None => false end
       then MkDecision candidate None None true
  else MkDecision current pending pendingSince false.

(** The row after [EvaluateCapacityLabel]; [dbnow] is [NOW()], [now] the
    controller's clock. *)
Definition with_label (d : hysteresisDecision) (dbnow : time) (r : RelayRow) : RelayRow :=
  MkRelay (rl_name r) (rl_status r) (rl_dns r) (rl_ip r) (rl_jti r) (rl_serial r) (rl_not_after r) (rl_version r) (rl_hostname r)
    (rl_public r) (rl_observed r) (rl_port r) (rl_scope r) (rl_count r) (rl_max r) (rl_count_at r)
    (NewLabel d) (NewPending d) (NewPendingSince d) (if Promoted d then dbnow else rl_label_at r) (rl_drain r) (rl_heartbeat r).
Definition label_decision (now : time) (holdDown : duration) (r : RelayRow) : hysteresisDecision :=
  decideHysteresis (rl_label r) (rl_pending r) (rl_pending_since r)
    (computeCandidateLabel (rl_label r) (rl_count r) (rl_max r)) now holdDown.
Definition label_row (dbnow now : time) (holdDown : duration) (r : RelayRow) : RelayRow :=
  with_label (label_decision now holdDown r) dbnow r.

(** ** Eligible relays and their list *)

(** [eligible.Where]: a NULL column makes a comparison unknown, which is not
    eligible. *)
Definition eligible (r : RelayRow) : bool :=
  (rl_status r ≟ "active") && ((rl_label r ≟ "high") || (rl_label r ≟ "medium")) && bool_decide (rl_drain r = None) &&
  (negb (default "" (rl_public r) ≟ "") || ((rl_scope r ≟ Some "public") && bool_decide (is_Some (rl_observed r)))).

Inductive RelayCapacityLabel := RELAY_CAPACITY_HIGH | RELAY_CAPACITY_MEDIUM.
Definition label_number (l : RelayCapacityLabel) : Z := match l with RELAY_CAPACITY_HIGH => 0 | RELAY_CAPACITY_MEDIUM => 1 end.
Record LabelledRelayInfo := MkInfo { li_id : string; li_addr : string; li_spiffe : string; li_label : RelayCapacityLabel }.

Definition RelaySPIFFEID (relayID : string) : string := "spiffe://zecurity.in/relay/" +:+ relayID.
Definition labelledRelayDefaultPort : string := "9093".
Definition labelled_addr (r : RelayRow) : string :=
  let public := default "" (rl_public r) in
  if (public ≟ "") && (default "" (rl_scope r) ≟ "public") && negb (default "" (rl_observed r) ≟ "")
  then JoinHostPort (default "" (rl_observed r)) labelledRelayDefaultPort else public.
Definition labelled_label (r : RelayRow) : option RelayCapacityLabel :=
  if rl_label r ≟ CapacityLabelHigh then Some RELAY_CAPACITY_HIGH
  else if rl_label r ≟ CapacityLabelMedium then Some RELAY_CAPACITY_MEDIUM
  else None.
Definition labelled_info (kv : uuid * RelayRow) : option LabelledRelayInfo :=
  if labelled_addr kv.2 ≟ "" then None
  else (λ l, MkInfo kv.1 (labelled_addr kv.2) (RelaySPIFFEID kv.1) l) <$> labelled_label kv.2.

(** FNV-1a, 64 bits. *)
Definition fnv_step (h : Z) (c : ascii) : Z := (Z.lxor h (code c) * 1099511628211) mod 2 ^ 64.
Definition fnv64a (l : list ascii) : Z := foldl fnv_step 14695981039346656037 l.

Definition info_text (i : LabelledRelayInfo) : list ascii :=
  bytes (li_id i) ++ zero :: bytes (li_addr i) ++ zero :: bytes (pretty (label_number (li_label i))) ++ [zero].
Definition list_text (relays : list LabelledRelayInfo) : list ascii :=
  merge_sort (rel_on String.le li_id) relays ≫= info_text.
Definition relayListVersion (relays : list LabelledRelayInfo) : Z := fnv64a (list_text relays).

(** [rows]: the eligible rows in the order the database gives them. *)
Definition BuildLabelledRelayList (rows : list (uuid * RelayRow)) : list LabelledRelayInfo * Z :=
  let relays := omap labelled_info rows in (relays, relayListVersion relays).

(** ** The thresholds are exact *)

(** The label as ADR-016 states it, with exact fractions. *)
Definition candidate_spec (current : string) (count max : Z) : string :=
  let reaches n d := n * max <=? d * count in
  if max =? 0 then CapacityLabelLow
  else if current ≟ CapacityLabelHigh then
    if reaches 4 5 then CapacityLabelLow else if reaches 1 2 then CapacityLabelMedium else CapacityLabelHigh
  else if current ≟ CapacityLabelMedium then
    if reaches 4 5 then CapacityLabelLow else if reaches 9 20 then CapacityLabelMedium else CapacityLabelHigh
  else if reaches 3 4 then CapacityLabelLow else if reaches 9 20 then CapacityLabelMedium else CapacityLabelHigh.

Section thresholds.
Context (count max : Z) (Hcount : 0 <= count < 2 ^ 32) (Hmax : 0 < max < 2 ^ 32).
Lemma fill_t1_enter : fl_ge (fl_ratio count max) tier1EnterFill = (9 * max <=? 20 * count).
Proof using All. apply (fl_ge_threshold 9 20 8106479329266893 54); [lia..|by vm_compute|by vm_compute|done|done]. Qed.
Lemma fill_t1_exit : fl_ge (fl_ratio count max) tier1ExitFill = (1 * max <=? 2 * count).
Proof using All. apply (fl_ge_threshold 1 2 (2 ^ 52) 53); [lia..|by vm_compute|by vm_compute|done|done]. Qed.
Lemma fill_t2_enter : fl_ge (fl_ratio count max) tier2EnterFill = (3 * max <=? 4 * count).
Proof using All. apply (fl_ge_threshold 3 4 6755399441055744 53); [lia..|by vm_compute|by vm_compute|done|done]. Qed.
Lemma fill_t2_exit : fl_ge (fl_ratio count max) tier2ExitFill = (4 * max <=? 5 * count).
Proof using All. apply (fl_ge_threshold 4 5 7205759403792794 53); [lia..|by vm_compute|by vm_compute|done|done]. Qed.
End thresholds.
Lemma candidate_exact current count max :
  0 <= count < 2 ^ 32 → 0 <= max < 2 ^ 32 → computeCandidateLabel current count max = candidate_spec current count max.
Proof.
  intros Hc Hm. unfold computeCandidateLabel, candidate_spec, cold_start, fl_lt.
  destruct (Z.eqb_spec max 0) as [|Hne]; [done|].
  rewrite fill_t1_enter, fill_t1_exit, fill_t2_enter, fill_t2_exit by lia.
  repeat case_bool_decide; try done; by destruct (Z.leb_spec (9 * max) (20 * count)), (Z.leb_spec (3 * max) (4 * count)), (Z.leb_spec (4 * max) (5 * count)); try lia.
Qed.
Lemma candidate_spec_stable current count max :
  0 <= max → candidate_spec (candidate_spec current count max) count max = candidate_spec current count max.
Proof.
  intros Hm. unfold candidate_spec. destruct (Z.eqb_spec max 0); [done|].
  destruct (Z.leb_spec (9 * max) (20 * count)), (Z.leb_spec (3 * max) (4 * count)), (Z.leb_spec (4 * max) (5 * count)),
    (Z.leb_spec (1 * max) (2 * count)); try lia; repeat case_bool_decide; try done; lia.
Qed.

(** the label of a relay is the one of ADR-016.  For all 32-bit counts the
    comparisons of the [float64] quotient with the thresholds decide as exact
    fractions do, equal ones included; and the dead bands rule out oscillation:
    a relay that was given its candidate label keeps it while the counts stay. *)
Theorem capacity_label_exact (current : string) (count max : Z) :
  0 <= count < 2 ^ 32 → 0 <= max < 2 ^ 32 →
  computeCandidateLabel current count max = candidate_spec current count max ∧
  computeCandidateLabel (computeCandidateLabel current count max) count max = computeCandidateLabel current count max.
Proof. intros Hc Hm. split; [by apply candidate_exact|]. rewrite !candidate_exact by done. apply candidate_spec_stable. lia. Qed.
Lemma capacity_label_exact_witness :
  computeCandidateLabel "high" 4 5 = "low" ∧ candidate_spec "high" 4 5 = "low" ∧
  computeCandidateLabel "medium" 3435973836 4294967295 = "low" ∧ candidate_spec "medium" 3435973836 4294967295 = "low" ∧
  computeCandidateLabel "medium" 3435973835 4294967295 = "medium".
Proof.
  destruct (capacity_label_exact "high" 4 5) as [-> _]; [lia..|].
  destruct (capacity_label_exact "medium" 3435973836 4294967295) as [-> _]; [lia..|]. by vm_compute.
Defined.

(** ** A label changes only after the hold-down *)

(** A heartbeat: the counts are stored and the label is evaluated. *)
Record beat := MkBeat { bt_time : time; bt_count : Z; bt_max : Z }.
Definition with_counts (count max : Z) (r : RelayRow) : RelayRow :=
  MkRelay (rl_name r) (rl_status r) (rl_dns r) (rl_ip r) (rl_jti r) (rl_serial r) (rl_not_after r) (rl_version r) (rl_hostname r)
    (rl_public r) (rl_observed r) (rl_port r) (rl_scope r) count max (rl_count_at r)
    (rl_label r) (rl_pending r) (rl_pending_since r) (rl_label_at r) (rl_drain r) (rl_heartbeat r).
Section hold.
Context (hold : duration).
Definition heard (r : RelayRow) (b : beat) : RelayRow := label_row (bt_time b) (bt_time b) hold (with_counts (bt_count b) (bt_max b) r).
Definition beats (r : RelayRow) (l : list beat) : RelayRow := foldl heard r l.
Definition candidate (label : string) (b : beat) : string := computeCandidateLabel label (bt_count b) (bt_max b).

(** From some earlier beat on, at least the hold-down ago, every beat asked for
    [new] while the label was [old]. *)
Definition held (r : RelayRow) (l : list beat) (b : beat) (old new : string) : Prop :=
  ∃ l1 b1 l2, l = l1 ++ b1 :: l2 ∧ hold <= time_Sub (bt_time b) (bt_time b1) ∧
    (∀ x, x ∈ b1 :: l2 ++ [b] → candidate old x = new) ∧
    (∀ l', l1 `prefix_of` l' → l' `prefix_of` l → rl_label (beats r l') = old).

Lemma beats_app r l1 l2 : beats r (l1 ++ l2) = beats (beats r l1) l2.
Proof. apply foldl_app. Qed.
Lemma beats_snoc r l b : beats r (l ++ [b]) = heard (beats r l) b.
Proof. by rewrite beats_app. Qed.

(** What a beat does, by what the row holds. *)
Lemma heard_cases r b :
  let new := candidate (rl_label r) b in
  (new = rl_label r ∧ rl_label (heard r b) = rl_label r ∧ rl_pending (heard r b) = None) ∨
  (new ≠ rl_label r ∧ rl_pending r ≠ Some new ∧ rl_label (heard r b) = rl_label r ∧
   rl_pending (heard r b) = Some new ∧ rl_pending_since (heard r b) = Some (bt_time b)) ∨
  (new ≠ rl_label r ∧ rl_pending r = Some new ∧ rl_label (heard r b) = rl_label r ∧ (∀ t, rl_pending_since r = Some t → time_Sub (bt_time b) t < hold) ∧
   rl_pending (heard r b) = Some new ∧ rl_pending_since (heard r b) = rl_pending_since r) ∨
  (new ≠ rl_label r ∧ rl_pending r = Some new ∧ rl_label (heard r b) = new ∧ rl_pending (heard r b) = None ∧
   ∃ t, rl_pending_since r = Some t ∧ hold <= time_Sub (bt_time b) t).
Proof.
  unfold heard, label_row, label_decision, candidate. simpl. set (new := computeCandidateLabel _ _ _). clearbody new.
  unfold decideHysteresis. case_bool_decide as H1; [left; by subst|]. right. case_bool_decide as H2; simpl; [|left; done]. right.
  destruct (rl_pending_since r) as [t|] eqn:E; [|left; simpl; split_and!; done].
  destruct (Z.leb_spec hold (time_Sub (bt_time b) t)); simpl; [right|left].
  - split_and!; eauto.
  - split_and!; try done. intros t' [= ->]. done.
Qed.

(** The pending label of a row is backed by the beats since it is pending. *)
Definition backed (r : RelayRow) (l : list beat) : Prop :=
  ∀ new, rl_pending (beats r l) = Some new →
    let old := rl_label (beats r l) in
    new ≠ old ∧ ∃ l1 b1 l2, l = l1 ++ b1 :: l2 ∧ rl_pending_since (beats r l) = Some (bt_time b1) ∧
      (∀ x, x ∈ b1 :: l2 → candidate old x = new) ∧
      (∀ l', l1 `prefix_of` l' → l' `prefix_of` l → rl_label (beats r l') = old).
Lemma prefix_snoc_cases {A} (l' l : list A) x : l' `prefix_of` l ++ [x] → l' = l ++ [x] ∨ l' `prefix_of` l.
Proof.
  intros [k Hk]. destruct k as [|y k _] using rev_ind; [left; by rewrite app_nil_r in Hk|]. right.
  rewrite app_assoc in Hk. apply app_inj_tail in Hk as [-> _]. by apply prefix_app_r.
Qed.
Lemma backed_all r l : rl_pending r = None → backed r l.
Proof.
  intros Hr. induction l as [|b l IH] using rev_ind; intros new; [simpl; congruence|]. rewrite beats_snoc.
  destruct (heard_cases (beats r l) b) as [(_ & _ & ->)|[(Hn & Hp & Hl & -> & Hs)|[(Hn & Hp & Hl & _ & -> & Hs)|(_ & _ & _ & -> & _)]]];
    [done| | |done]; intros [= <-]; rewrite Hl, Hs; (split; [done|]).
  - exists l, b, []. split_and!; [done|done|by intros x ->%list_elem_of_singleton|]. intros l' H1 [->|H2]%prefix_snoc_cases.
    + by rewrite beats_snoc.
    + by rewrite (anti_symm prefix l' l).
  - destruct (IH _ Hp) as (_ & l1 & b1 & l2 & -> & -> & Hx & Hold). exists l1, b1, (l2 ++ [b]). split_and!; [by rewrite <-app_assoc|done| |].
    + intros x Hin. rewrite app_comm_cons, elem_of_app, list_elem_of_singleton in Hin. destruct Hin as [Hin| ->]; [by apply Hx|done].
    + intros l' H1 [->|H2]%prefix_snoc_cases; [by rewrite beats_snoc|]. by apply Hold.
Qed.

Lemma time_Sub_anti t s1 s2 : s1 <= s2 → time_Sub t s2 <= time_Sub t s1.
Proof. unfold time_Sub. lia. Qed.
(** While a label is asked for and not given, it is pending since some earlier beat. *)
Lemma pending_since r l1 b1 l2 old new :
  rl_pending r = None → new ≠ old → StronglySorted Z.le (bt_time <$> l1 ++ b1 :: l2) →
  (∀ x, x ∈ b1 :: l2 → candidate old x = new) →
  (∀ l', l1 `prefix_of` l' → l' `prefix_of` l1 ++ b1 :: l2 → rl_label (beats r l') = old) →
  ∃ t, rl_pending (beats r (l1 ++ b1 :: l2)) = Some new ∧ rl_pending_since (beats r (l1 ++ b1 :: l2)) = Some t ∧ t <= bt_time b1.
Proof.
  intros Hr Hne. revert b1. induction l2 as [|b l2 IH] using rev_ind; intros b1 Hs Hx Hold.
  - assert (rl_label (beats r l1) = old) as Ho by (apply Hold; [done|by apply prefix_app_r]).
    assert (rl_label (beats r (l1 ++ [b1])) = old) as Ho' by (apply Hold; [by apply prefix_app_r|done]).
    rewrite beats_snoc in *. pose proof (Hx b1 ltac:(left)) as Hc. rewrite <-Ho in Hc.
    destruct (heard_cases (beats r l1) b1) as [(Hn & _)|[(_ & _ & _ & Hp & Hsi)|[(_ & Hp & _ & _ & Hp' & Hsi)|(_ & _ & Hl & _)]]];
      rewrite Hc in *; [congruence|by exists (bt_time b1)| |congruence].
    destruct (backed_all r l1 Hr _ Hp) as (_ & k1 & c1 & k2 & -> & Hsi' & _). exists (bt_time c1). split_and!; [done|congruence|].
    rewrite <-app_assoc, fmap_app in Hs. simpl in Hs. apply StronglySorted_app in Hs as (_ & _ & Hs). inversion_clear Hs as [|? ? _ Hf].
    rewrite Forall_forall in Hf. apply Hf. rewrite fmap_app. set_solver.
  - rewrite app_comm_cons, app_assoc in *. assert (rl_label (beats r (l1 ++ b1 :: l2)) = old) as Ho
      by (apply Hold; [by apply prefix_app_r|by apply prefix_app_r]).
    destruct (IH b1) as (t & Hp & Hsi & Hle).
    { rewrite fmap_app in Hs. by apply StronglySorted_app in Hs as (_ & Hs & _). }
    { intros x Hin. apply Hx. set_solver. }
    { intros l' H1 H2. apply Hold; [done|]. by apply prefix_app_r. }
    assert (rl_label (beats r ((l1 ++ b1 :: l2) ++ [b])) = old) as Ho'.
    { apply Hold; [|done]. apply prefix_app_r. by apply prefix_app_r. }
    rewrite beats_snoc in *. pose proof (Hx b ltac:(set_solver)) as Hc. rewrite <-Ho in Hc.
    destruct (heard_cases (beats r (l1 ++ b1 :: l2)) b) as [(Hn & _)|[(_ & Hp' & _)|[(_ & _ & _ & _ & Hp' & Hsi')|(_ & _ & Hl & _)]]];
      rewrite Hc in *; [congruence|congruence| |congruence]. exists t. split_and!; [done|congruence|done].
Qed.
End hold.


Module Load.
(** A relay of 100 connections: half full from the start, the label follows
    after a minute. *)
Definition fresh : RelayRow :=
  MkRelay "r" "active" [] [] None None None None None None None None None 0 100 None "high" None None 0 None None.
Definition half (s : Z) : beat := MkBeat (s * Second) 50 100.
End Load.

(** ** The version names the content *)

Definition nul_free (i : LabelledRelayInfo) : Prop := zero ∉ bytes (li_id i) ∧ zero ∉ bytes (li_addr i).
(** What connectors see: the SPIFFE id follows from the id. *)
Definition shown (i : LabelledRelayInfo) : string * string * RelayCapacityLabel := (li_id i, li_addr i, li_label i).
Lemma info_text_inj i1 i2 t1 t2 :
  nul_free i1 → nul_free i2 → info_text i1 ++ t1 = info_text i2 ++ t2 → shown i1 = shown i2 ∧ t1 = t2.
Proof.
  intros [Ha1 Hb1] [Ha2 Hb2]. unfold info_text. rewrite <-!app_assoc. simpl. rewrite <-!app_assoc. simpl. intros E.
  apply split_at in E as [E1 E]; [|done..]. rewrite <-!app_assoc in E. simpl in E. apply split_at in E as [E2 E]; [|done..].
  unfold shown. rewrite (bytes_inj _ _ E1), (bytes_inj _ _ E2). destruct (li_label i1), (li_label i2); simpl in E; simplify_eq; done.
Qed.
Lemma list_text_inj l1 l2 :
  Forall nul_free l1 → Forall nul_free l2 → l1 ≫= info_text = l2 ≫= info_text → shown <$> l1 = shown <$> l2.
Proof.
  intros H1. revert l2. induction H1 as [|i1 l1 Hi1 _ IH]; intros l2 H2 E; destruct H2 as [|i2 l2 Hi2 H2]; simpl in *; [done| | |].
  - exfalso. revert E. unfold info_text. by destruct (bytes (li_id i2)).
  - exfalso. revert E. unfold info_text. by destruct (bytes (li_id i1)).
  - apply info_text_inj in E as [-> E]; [|done..]. f_equal. by apply IH.
Qed.

Lemma sorted_shown l : StronglySorted (rel_on String.le (λ x : string * string * RelayCapacityLabel, x.1.1)) (shown <$> merge_sort (rel_on String.le li_id) l).
Proof.
  pose proof (StronglySorted_merge_sort (rel_on String.le li_id) l) as Hs.
  induction Hs as [|i l' _ IH Hf]; simpl; constructor; [done|]. by apply Forall_fmap.
Qed.
Lemma texts_of_shown l1 l2 : shown <$> l1 = shown <$> l2 → l1 ≫= info_text = l2 ≫= info_text.
Proof.
  revert l2. induction l1 as [|i1 l1 IH]; intros [|i2 l2] E; simplify_eq/=; [done|]. rewrite (IH l2) by done.
  by destruct i1, i2; unfold shown, info_text in *; simplify_eq/=.
Qed.

(** the version of the published list names its content.  Lists of relays
    with distinct ids that connectors cannot tell apart, in whatever order the
    database gives the rows, have the same version; and when the hashed texts are
    equal the lists have the same relays, addresses and labels. *)
Theorem list_version_names_content (l1 l2 : list LabelledRelayInfo) :
  NoDup (li_id <$> l1) → Forall nul_free l1 → Forall nul_free l2 →
  (shown <$> l1 ≡ₚ shown <$> l2 → relayListVersion l1 = relayListVersion l2) ∧
  (list_text l1 = list_text l2 → shown <$> l1 ≡ₚ shown <$> l2).
Proof.
  intros Hnd H1 H2. split.
  - intros Hp. unfold relayListVersion, list_text. f_equal. apply texts_of_shown.
    apply (StronglySorted_unique_strong (rel_on String.le (λ x : string * string * RelayCapacityLabel, x.1.1))); [|apply sorted_shown..|].
    + intros x1 x2. rewrite !merge_sort_Permutation, <-Hp. intros (i & -> & Hi)%list_elem_of_fmap (j & -> & Hj)%list_elem_of_fmap Hij Hji.
      assert (li_id i = li_id j) as E by (by apply (anti_symm String.le)).
      apply list_elem_of_lookup in Hi as [a Ha], Hj as [b Hb]. f_equal.
      assert (a = b) as ->; [|congruence]. apply (NoDup_lookup (li_id <$> l1) a b (li_id i)); [done|by rewrite list_lookup_fmap, Ha|by rewrite list_lookup_fmap, Hb, E].
    + by rewrite !merge_sort_Permutation.
  - intros E. rewrite <-(merge_sort_Permutation (rel_on String.le li_id) l1), <-(merge_sort_Permutation (rel_on String.le li_id) l2).
    apply list_text_inj in E; [by rewrite E|by rewrite merge_sort_Permutation..].
Qed.
Lemma list_version_names_content_witness :
  let a := MkInfo "a" "192.0.2.1:9093" (RelaySPIFFEID "a") RELAY_CAPACITY_HIGH in
  let b := MkInfo "b" "192.0.2.2:9093" (RelaySPIFFEID "b") RELAY_CAPACITY_MEDIUM in
  relayListVersion [a; b] = relayListVersion [b; a].
Proof.
  intros a b. apply (list_version_names_content [a; b] [b; a]).
  - apply (bool_decide_unpack _). by vm_compute.
  - repeat constructor; apply (bool_decide_unpack _); by vm_compute.
  - repeat constructor; apply (bool_decide_unpack _); by vm_compute.
  - apply Permutation_swap.
Defined.
