(* ===== verification/Relay.v ===== *)
(** * Relays: registration, certificates, heartbeats and drains

    [controller/internal/relay] (store.go, provision.go, token.go, renew.go,
    heartbeat.go, expiry.go, drain.go, admin_handler.go, crl_handler.go), the
    signer of [pki/relay.go], [connector/relay_revocation.go] and the relay part of
    the interceptor in [connector/spiffe.go].  Each request is a [proc] of [Conc]:
    between its calls to the database and to Valkey other requests run.  A
    transaction locks the relay's row first and is one call; [NOW()] is its start,
    which is read before.  The service is configured as main.go does, with Valkey.

    Parameters: [strings.ToLower], the reading of a uuid, JWT signing, the
    fingerprint of a public key, and what a request draws at random. *)

From Stdlib Require Import ZArith Lia Ascii.
From stdpp Require Import pretty.
From S2P Require Import Prelude GoText NetTarget Sql Conc Provider GoNet RelayPool.
Open Scope Z_scope.
Set Default Proof Using "Type".

(** ** The shared state *)

Record CertRow := MkCert {
  ct_relay : uuid; ct_issued : time; ct_not_after : time; ct_revoked : option time; ct_reason : option string
}.

(** A relay certificate: the relay of its SPIFFE id, serial, end, key and names. *)
Record leaf := MkLeaf {
  lf_id : string; lf_serial : string; lf_not_after : time; lf_key : string; lf_dns : list string; lf_ips : list IP
}.
Record cachedRenewal := MkCached { cr_cert : leaf; cr_not_before : Z; cr_not_after : Z; cr_key : string }.

(** A value in Valkey is what the code formats or marshals. *)
Inductive value := VText (s : string) | VUnix (s : Z) | VRenewal (r : cachedRenewal).

(** For the statements of the theorems: request [n] has stored a provisioning
    token's id for a relay, has burned one, or has renewed a certificate. *)
Inductive fevent :=
| Stored (n : nat) (jti id : string)
| Burned (n : nat) (jti id : string)
| Renewed (n : nat) (presented new : string).

Record fleet := MkFleet {
  ft_relays : gmap uuid RelayRow; ft_certs : gmap string CertRow; ft_keys : gmap string (value * time);
  ft_audits : list AuditEntry; ft_revoked : gset string; ft_ready : bool; ft_told : list uuid; ft_clock : time;
  ft_history : list fevent
}.
Definition set_relays (m : gmap uuid RelayRow) (w : fleet) : fleet :=
  MkFleet m (ft_certs w) (ft_keys w) (ft_audits w) (ft_revoked w) (ft_ready w) (ft_told w) (ft_clock w) (ft_history w).
Definition set_certs (m : gmap string CertRow) (w : fleet) : fleet :=
  MkFleet (ft_relays w) m (ft_keys w) (ft_audits w) (ft_revoked w) (ft_ready w) (ft_told w) (ft_clock w) (ft_history w).
Definition set_keys (m : gmap string (value * time)) (w : fleet) : fleet :=
  MkFleet (ft_relays w) (ft_certs w) m (ft_audits w) (ft_revoked w) (ft_ready w) (ft_told w) (ft_clock w) (ft_history w).
Definition log_audit (e : AuditEntry) (w : fleet) : fleet :=
  MkFleet (ft_relays w) (ft_certs w) (ft_keys w) (e :: ft_audits w) (ft_revoked w) (ft_ready w) (ft_told w) (ft_clock w) (ft_history w).
Definition set_revoked (s : gset string) (w : fleet) : fleet :=
  MkFleet (ft_relays w) (ft_certs w) (ft_keys w) (ft_audits w) s true (ft_told w) (ft_clock w) (ft_history w).
Definition add_told (id : uuid) (w : fleet) : fleet :=
  MkFleet (ft_relays w) (ft_certs w) (ft_keys w) (ft_audits w) (ft_revoked w) (ft_ready w) (id :: ft_told w) (ft_clock w) (ft_history w).
Definition record (e : fevent) (w : fleet) : fleet :=
  MkFleet (ft_relays w) (ft_certs w) (ft_keys w) (ft_audits w) (ft_revoked w) (ft_ready w) (ft_told w) (ft_clock w) (e :: ft_history w).

Inductive rerror :=
| ErrRelayNotFound | ErrRelayNotRenewable | ErrPresentedCertInvalid
| errAlreadyRevoked | errAlreadyDeleted | errConfirmationMismatch | errInvalidState | errLastEligibleRelay | errRelay.

Abbreviation procF A := (proc fleet A).
Abbreviation answerF A := (procF (result rerror A)).
Definition rexec {A} (f : fleet → result rerror A * fleet) : answerF A := let~ r := call f in Done (default (Err errRelay) r).
Definition rquery {A} (f : fleet → result rerror A) : answerF A := rexec (λ w, (f w, w)).
Definition rclock : procF time := atom (λ w, (ft_clock w, w)).
(** A transaction that begins at [NOW()] and may wait for its locks. *)
Definition in_tx {A} (f : time → fleet → result rerror A * fleet) : answerF A := let~ now := rclock in rexec (f now).
(** A statement that only may fail. *)
Definition ping : procF (option ()) := call (λ w, (tt, w)).

(** *** Valkey *)

Definition live_key (key : string) (w : fleet) : option value :=
  match ft_keys w !! key with Some (v, t) => if ft_clock w <? t then Some v else None | None => None end.
(** [None]: an error; [Some None]: no such key. *)
Definition vget (key : string) : procF (option (option value)) := call (λ w, (live_key key w, w)).
Definition vset (key : string) (v : value) (ttl : duration) : procF (option ()) :=
  call (λ w, (tt, set_keys (<[key := (v, ft_clock w + ttl)]> (ft_keys w)) w)).
Definition vdel (key : string) : procF (option ()) := call (λ w, (tt, set_keys (delete key (ft_keys w)) w)).
Definition vsetnx (key : string) (v : value) (ttl : duration) : procF (option bool) :=
  call (λ w, if bool_decide (is_Some (live_key key w)) then (false, w)
             else (true, set_keys (<[key := (v, ft_clock w + ttl)]> (ft_keys w)) w)).

(** ** Rows after a statement *)

Definition nullif (s : string) : option string := if s ≟ "" then None else Some s.
Definition with_status (status : string) (r : RelayRow) : RelayRow :=
  MkRelay (rl_name r) status (rl_dns r) (rl_ip r) (rl_jti r) (rl_serial r) (rl_not_after r) (rl_version r) (rl_hostname r)
    (rl_public r) (rl_observed r) (rl_port r) (rl_scope r) (rl_count r) (rl_max r) (rl_count_at r)
    (rl_label r) (rl_pending r) (rl_pending_since r) (rl_label_at r) (rl_drain r) (rl_heartbeat r).
Definition with_provision (serial : string) (not_after : time) (version hostname : string) (r : RelayRow) : RelayRow :=
  MkRelay (rl_name r) "active" (rl_dns r) (rl_ip r) None (Some serial) (Some not_after) (nullif version) (nullif hostname)
    (rl_public r) (rl_observed r) (rl_port r) (rl_scope r) (rl_count r) (rl_max r) (rl_count_at r)
    (rl_label r) (rl_pending r) (rl_pending_since r) (rl_label_at r) (rl_drain r) (rl_heartbeat r).
Definition with_cert (serial : string) (not_after : time) (r : RelayRow) : RelayRow :=
  MkRelay (rl_name r) (rl_status r) (rl_dns r) (rl_ip r) (rl_jti r) (Some serial) (Some not_after) (rl_version r) (rl_hostname r)
    (rl_public r) (rl_observed r) (rl_port r) (rl_scope r) (rl_count r) (rl_max r) (rl_count_at r)
    (rl_label r) (rl_pending r) (rl_pending_since r) (rl_label_at r) (rl_drain r) (rl_heartbeat r).
Definition with_drain (t : option time) (r : RelayRow) : RelayRow :=
  MkRelay (rl_name r) (rl_status r) (rl_dns r) (rl_ip r) (rl_jti r) (rl_serial r) (rl_not_after r) (rl_version r) (rl_hostname r)
    (rl_public r) (rl_observed r) (rl_port r) (rl_scope r) (rl_count r) (rl_max r) (rl_count_at r)
    (rl_label r) (rl_pending r) (rl_pending_since r) (rl_label_at r) t (rl_heartbeat r).
Definition with_heartbeat (t : time) (r : RelayRow) : RelayRow :=
  MkRelay (rl_name r) (rl_status r) (rl_dns r) (rl_ip r) (rl_jti r) (rl_serial r) (rl_not_after r) (rl_version r) (rl_hostname r)
    (rl_public r) (rl_observed r) (rl_port r) (rl_scope r) (rl_count r) (rl_max r) (rl_count_at r)
    (rl_label r) (rl_pending r) (rl_pending_since r) (rl_label_at r) (rl_drain r) (Some t).

(** What a heartbeat says of the relay. *)
Record relayAddressObservation := MkObserved { oa_ip : string; oa_port : Z; oa_scope : string; oa_public : string }.
Record report := MkReport {
  rp_serial : string; rp_not_after : time; rp_version : string; rp_hostname : string; rp_addr : relayAddressObservation;
  rp_count : Z; rp_max : Z
}.
(** The [UPDATE] of [RecordHeartbeat]; a count measured earlier does not replace a
    later one. *)
Definition with_report (p : report) (measured now : time) (r : RelayRow) : RelayRow :=
  let newer := match rl_count_at r with Some t => t <=? measured | None => true end in
  MkRelay (rl_name r) "active" (rl_dns r) (rl_ip r) (rl_jti r) (Some (rp_serial p)) (Some (rp_not_after p))
    (nullif (rp_version p)) (nullif (rp_hostname p)) (nullif (oa_public (rp_addr p))) (nullif (oa_ip (rp_addr p)))
    (if oa_port (rp_addr p) =? 0 then None else Some (oa_port (rp_addr p))) (nullif (oa_scope (rp_addr p)))
    (if newer then rp_count p else rl_count r) (rp_max p)
    (Some (match rl_count_at r with Some t => Z.max t measured | None => measured end))
    (rl_label r) (rl_pending r) (rl_pending_since r) (rl_label_at r) (rl_drain r) (Some now).

(** ** The store (store.go, drain.go) *)

Section relays.
Context (lower : string → string) (uuid_parse pg_uuid : string → option uuid).

(** [WHERE id = $1] *)
Definition find_relay (raw : string) (w : fleet) : result rerror (uuid * RelayRow) :=
  match pg_uuid raw with
  | None => Err errRelay
  | Some id => match ft_relays w !! id with Some r => Ok (id, r) | None => Err ErrRelayNotFound end
  end.
Definition put_relay (id : uuid) (r : RelayRow) (w : fleet) : fleet := set_relays (<[id := r]> (ft_relays w)) w.

Definition LoadRelayByID (raw : string) : answerF (uuid * RelayRow) := rquery (find_relay raw).

Definition terminal (status : string) : bool := (status ≟ "revoked") || (status ≟ "deleted").
(** [ON CONFLICT (serial) DO NOTHING] *)
Definition add_cert (serial : string) (c : CertRow) (m : gmap string CertRow) : gmap string CertRow :=
  match m !! serial with Some _ => m | None => <[serial := c]> m end.
Definition MarkProvisioned (raw serial : string) (not_after : time) (version hostname : string) : answerF () :=
  in_tx (λ now w,
    match find_relay raw w with
    | Err e => (Err e, w)
    | Ok (id, r) =>
        if terminal (rl_status r) then (Err ErrRelayNotFound, w)
        else (Ok tt, set_certs (add_cert serial (MkCert id now not_after None None) (ft_certs w))
                       (put_relay id (with_provision serial not_after version hostname r) w))
    end).

Definition RelayCertStatus (raw serial : string) : answerF (bool * bool) :=
  rquery (λ w, match pg_uuid raw with
               | None => Err errRelay
               | Some id => match ft_certs w !! serial with
                            | Some c => if ct_relay c ≟ id then Ok (true, bool_decide (is_Some (ct_revoked c))) else Ok (false, false)
                            | None => Ok (false, false)
                            end
               end).

Definition supersededRenewalReason : string := "superseded by renewal retry".
Definition revoke_cert (now : time) (reason : option string) (c : CertRow) : CertRow :=
  MkCert (ct_relay c) (ct_issued c) (ct_not_after c) (Some now) reason.
(** The unrevoked certificates of the relay issued after the presented one. *)
Definition superseded (id : uuid) (presented : string) (issued : time) (serial : string) (c : CertRow) : bool :=
  (ct_relay c ≟ id) && negb (serial ≟ presented) && bool_decide (ct_revoked c = None) && (issued <? ct_issued c).
Definition supersede (now : time) (id : uuid) (presented : string) (issued : time) (m : gmap string CertRow) : gmap string CertRow :=
  map_imap (λ s c, Some (if superseded id presented issued s c then revoke_cert now (Some supersededRenewalReason) c else c)) m.
(** [n]: the request, for the history. *)
Definition RecordRenewedCert (n : nat) (raw presented serial : string) (not_after : time) : answerF Z :=
  in_tx (λ now w,
    match find_relay raw w with
    | Err e => (Err e, w)
    | Ok (id, r) =>
        if negb ((rl_status r ≟ "active") || (rl_status r ≟ "inactive")) then (Err ErrRelayNotRenewable, w)
        else match ft_certs w !! presented with
             | None => (Err ErrPresentedCertInvalid, w)
             | Some c =>
                 if negb (ct_relay c ≟ id) || bool_decide (is_Some (ct_revoked c)) then (Err ErrPresentedCertInvalid, w)
                 else if bool_decide (is_Some (ft_certs w !! serial)) then (Err errRelay, w)
                 else
                   (Ok (Z.of_nat (size (filter (λ sc : string * CertRow, superseded id presented (ct_issued c) sc.1 sc.2 = true) (ft_certs w)))),
                    record (Renewed n presented serial)
                      (set_certs (<[serial := MkCert id now not_after None None]> (supersede now id presented (ct_issued c) (ft_certs w)))
                        (put_relay id (with_cert serial not_after r) w)))
             end
    end).

Definition revoke_all (now : time) (reason : string) (id : uuid) (m : gmap string CertRow) : gmap string CertRow :=
  (λ c, if (ct_relay c ≟ id) && bool_decide (ct_revoked c = None) then revoke_cert now (nullif reason) c else c) <$> m.
(** [after]: the status that the transaction leaves, for a relay with the status. *)
Definition RevokeRelayGuarded (raw reason : string) (guard : string → string → option rerror) (after : string → string)
    (audit : AuditEntry) : answerF () :=
  in_tx (λ now w,
    match find_relay raw w with
    | Err e => (Err e, w)
    | Ok (id, r) =>
        match guard (rl_name r) (rl_status r) with
        | Some e => (Err e, w)
        | None => (Ok tt, log_audit audit (set_certs (revoke_all now reason id (ft_certs w))
                                             (put_relay id (with_status (after (rl_status r)) r) w)))
        end
    end).

Definition listed (now : time) (c : CertRow) : bool := bool_decide (is_Some (ct_revoked c)) && (now <? ct_not_after c).
Definition ListRevokedRelaySerials (w : fleet) : list string :=
  (map_to_list (ft_certs w)) ≫= λ '(s, c), if listed (ft_clock w) c then [s] else [].

Definition ListEvictionCandidates (before : time) (w : fleet) : list uuid :=
  (map_to_list (ft_relays w)) ≫= λ '(id, r),
    if (rl_status r ≟ "active") && match rl_heartbeat r with Some t => t <? before | None => false end then [id] else [].
Definition RefreshLastHeartbeat (id : uuid) (seen : time) : answerF () :=
  rexec (λ w, (Ok tt, match ft_relays w !! id with
                      | Some r => if (rl_status r ≟ "active") && match rl_heartbeat r with Some t => t <? seen | None => false end
                                  then put_relay id (with_heartbeat seen r) w else w
                      | None => w
                      end)).
(** The relays of the list that are still stale, one after the other. *)
Fixpoint evict_rows (ids : list uuid) (before : time) (m : gmap uuid RelayRow) : list uuid * gmap uuid RelayRow :=
  match ids with
  | [] => ([], m)
  | id :: ids =>
      match m !! id with
      | Some r =>
          if (rl_status r ≟ "active") && match rl_heartbeat r with Some t => t <? before | None => false end then
            let '(out, m') := evict_rows ids before (<[id := with_status "inactive" r]> m) in (id :: out, m')
          else evict_rows ids before m
      | None => evict_rows ids before m
      end
  end.
Definition EvictRelays (ids : list uuid) (before : time) : answerF (list uuid) :=
  if bool_decide (ids = []) then Done (Ok [])
  else rexec (λ w, let '(out, m) := evict_rows ids before (ft_relays w) in (Ok out, set_relays m w)).

Definition EvaluateCapacityLabel (raw : string) (holdDown : duration) : answerF bool :=
  in_tx (λ now w,
    match find_relay raw w with
    | Err e => (Err e, w)
    | Ok (id, r) =>
        if rl_status r ≟ "deleted" then (Err ErrRelayNotFound, w)
        else (Ok (Promoted (label_decision (ft_clock w) holdDown r)), put_relay id (label_row now (ft_clock w) holdDown r) w)
    end).
Definition RecordHeartbeat (raw : string) (p : report) (measured : time) : answerF () :=
  in_tx (λ now w,
    match find_relay raw w with
    | Err e => (Err e, w)
    | Ok (id, r) => if terminal (rl_status r) then (Err ErrRelayNotFound, w) else (Ok tt, put_relay id (with_report p measured now r) w)
    end).

(** *** Drains *)

Definition eligible_relays (w : fleet) : list (uuid * RelayRow) := filter (λ kv, eligible kv.2 = true) (map_to_list (ft_relays w)).
(** The row is found by the text of its id; the clock is the controller's, read
    under the locks. *)
Definition DrainRelay (raw : string) (audit : AuditEntry) : answerF bool :=
  rexec (λ w,
    match pg_uuid raw with
    | None => (Err errRelay, w)
    | Some _ =>
        match ft_relays w !! raw with
        | None => (Err ErrRelayNotFound, w)
        | Some r =>
            if rl_status r ≟ "deleted" then (Err errAlreadyDeleted, w)
            else if rl_status r ≟ "revoked" then (Err errAlreadyRevoked, w)
            else if rl_status r ≟ "pending" then (Err errInvalidState, w)
            else if bool_decide (is_Some (rl_drain r)) then (Ok false, w)
            else if eligible r && (length (eligible_relays w) =? 1)%nat then (Err errLastEligibleRelay, w)
            else (Ok true, log_audit audit (put_relay raw (with_drain (Some (ft_clock w)) r) w))
        end
    end).
Definition ResumeRelay (raw : string) (audit : AuditEntry) : answerF bool :=
  rexec (λ w,
    match find_relay raw w with
    | Err e => (Err e, w)
    | Ok (id, r) =>
        if rl_status r ≟ "deleted" then (Err errAlreadyDeleted, w)
        else if rl_status r ≟ "revoked" then (Err errAlreadyRevoked, w)
        else if bool_decide (rl_drain r = None) then (Ok false, w)
        else (Ok true, log_audit audit (put_relay id (with_drain None r) w))
    end).
Definition ListDrainingRelayIDs (w : fleet) : list uuid :=
  (map_to_list (ft_relays w)) ≫= λ '(id, r),
    if bool_decide (is_Some (rl_drain r)) && ((rl_status r ≟ "active") || (rl_status r ≟ "inactive")) then [id] else [].

Definition relayHeartbeatDrainingPrefix : string := "relay:heartbeat:draining:".
Definition drainingFlagTTL : duration := 10 * Minute.
Definition MarkDraining (id : string) : procF (option ()) := vset (relayHeartbeatDrainingPrefix +:+ id) (VText "1") drainingFlagTTL.
Definition ClearDraining (id : string) : procF (option ()) := vdel (relayHeartbeatDrainingPrefix +:+ id).
Definition drainingFlagSet (id : string) : procF (option bool) :=
  let~ r := vget (relayHeartbeatDrainingPrefix +:+ id) in Done ((λ v, bool_decide (is_Some v)) <$> r).
Fixpoint mark_all (ids : list uuid) : procF () :=
  match ids with [] => Done tt | id :: ids => MarkDraining id ;~ mark_all ids end.
Definition ReconcileDrainFlags : procF () :=
  let~ r := rquery (λ w, Ok (ListDrainingRelayIDs w)) in
  match r with Err _ => Done tt | Ok ids => mark_all ids end.
End relays.

(** ** Provisioning tokens (token.go) *)

Definition provisioningJTIPrefix : string := "relay:provisioning:jti:".
Definition provisioningAudience : string := "relay-provisioning".
Definition ControllerIssuer : string := "zecurity-controller".
Definition ProvisioningTokenTTL : duration := 24 * Hour.
Record ProvisioningClaims := MkProv {
  pc_ID : string; pc_Subject : string; pc_Issuer : string; pc_Audience : list string; pc_IssuedAt : time;
  pc_ExpiresAt : option time; pc_RelayID : string
}.

(** ** Requests *)

Record CSR := MkCSR {
  cs_signed : bool; cs_uris : list string; cs_p384 : bool; cs_key : string; cs_dns : list string; cs_ips : list IP
}.
Record ProvisionRequest := MkProvision {
  pq_relay : string; pq_dns : list string; pq_ips : list string; pq_csr : option CSR; pq_token : string;
  pq_version : string; pq_hostname : string
}.
Record HeartbeatRequest := MkHeartbeat {
  hb_peer : option string; hb_listen_port : Z; hb_version : string; hb_hostname : string; hb_count : Z; hb_max : Z
}.
(** What a request draws at random. *)
Record fdraws := MkFdraws { fd_id : uuid; fd_jti : string; fd_serial : string; fd_lock : string }.

Inductive code :=
| InvalidArgument | Unauthenticated | FailedPrecondition | PermissionDenied | Internal | NotFound | Aborted | Unavailable.
Inductive answer :=
| Status (c : code) (msg : string)
| Certificate (l : leaf)
| Accepted
| Http (status : Z) (error : string)
| Registered (id token : string)
| Serials (l : list string)
| Ran.

Section service.
Context (lower : string → string) (uuid_parse pg_uuid : string → option uuid)
        (sign : ProvisioningClaims → option string) (signed : string → option ProvisioningClaims)
        (fingerprint : string → option string)
        (certTTL labelHoldDown dbWriteInterval : duration) (allowPrivate : bool).

Definition issue_claims (d : fdraws) (id : uuid) (now : time) : ProvisioningClaims :=
  MkProv (fd_jti d) id ControllerIssuer [provisioningAudience] (numeric_date now) (Some (numeric_date (now + ProvisioningTokenTTL))) id.
Definition VerifyProvisioningToken (now : time) (token : string) : option ProvisioningClaims :=
  match signed token with
  | Some c => if (pc_Issuer c ≟ ControllerIssuer) && bool_decide (provisioningAudience ∈ pc_Audience c) &&
                 match pc_ExpiresAt c with Some t => now <? t | None => false end
              then Some c else None
  | None => None
  end.
Definition StoreProvisioningJTI (n : nat) (jti id : string) : procF (option ()) :=
  call (λ w, (tt, record (Stored n jti id)
                    (set_keys (<[provisioningJTIPrefix +:+ jti := (VText id, ft_clock w + ProvisioningTokenTTL)]> (ft_keys w)) w))).
(** [GETDEL] *)
Definition BurnProvisioningJTI (n : nat) (jti : string) : procF (option (option string)) :=
  call (λ w, match live_key (provisioningJTIPrefix +:+ jti) w with
             | Some (VText id) => (Some id, record (Burned n jti id) (set_keys (delete (provisioningJTIPrefix +:+ jti) (ft_keys w)) w))
             | Some _ => (Some "", set_keys (delete (provisioningJTIPrefix +:+ jti) (ft_keys w)) w)
             | None => (None, w)
             end).

(** ** Names and addresses of a certificate (provision.go) *)

Definition canonicalRelayID (raw : string) : option string := if uuid_parse raw ≟ Some raw then Some raw else None.
Definition has_char (c : ascii) (s : string) : bool := contains_byte c (bytes s).
Definition bad_name (name : string) : bool := (name ≟ "") || has_char "*"%char name || has_char " "%char name || has_char "/"%char name.
Definition ends_with_dot (s : string) : bool := bool_decide (last (bytes s) = Some "."%char).
Definition trim_dot (s : string) : string := if ends_with_dot s then of_bytes (removelast (bytes s)) else s.
Definition canonicalDNSName (value : string) : option string :=
  let name := trim_dot (lower value) in
  if bad_name name || ends_with_dot name then None else Some name.

Fixpoint validateDNSSANs (seen values : list string) : option (list string) :=
  match values with
  | [] => Some []
  | v :: vs =>
      if bad_name v || negb (v ≟ lower v) || bool_decide (v ∈ seen) then None
      else (v ::.) <$> validateDNSSANs (v :: seen) vs
  end.
Fixpoint validateIPSANs (seen values : list string) : option (list IP) :=
  match values with
  | [] => Some []
  | v :: vs =>
      match ParseIP v with
      | Some ip => if negb (IP_String ip ≟ v) || bool_decide (v ∈ seen) then None else (ip ::.) <$> validateIPSANs (v :: seen) vs
      | None => None
      end
  end.
Fixpoint canonicalRequestDNSSANs (seen values : list string) : option (list string) :=
  match values with
  | [] => Some []
  | v :: vs =>
      match canonicalDNSName v with
      | Some name => if bool_decide (name ∈ seen) then None else (name ::.) <$> canonicalRequestDNSSANs (name :: seen) vs
      | None => None
      end
  end.
(** Duplicates are detected on the text that [String] gives. *)
Fixpoint parseRequestIPSANs (seen values : list string) : option (list IP) :=
  match values with
  | [] => Some []
  | v :: vs =>
      match ParseIP v with
      | Some ip => if bool_decide (IP_String ip ∈ seen) then None else (ip ::.) <$> parseRequestIPSANs (IP_String ip :: seen) vs
      | None => None
      end
  end.

Record relaySANAllowlist := MkAllow { al_dns : list string; al_ips : list IP }.
Fixpoint allow_dns (seen values : list string) : option (list string) :=
  match values with
  | [] => Some []
  | v :: vs =>
      match canonicalDNSName v with
      | Some name => if bool_decide (name ∈ seen) then allow_dns seen vs else (name ::.) <$> allow_dns (name :: seen) vs
      | None => None
      end
  end.
Definition newRelaySANAllowlist (dns ips : list string) : option relaySANAllowlist :=
  names ← allow_dns [] dns; addrs ← mapM ParseIP ips; Some (MkAllow names addrs).
Definition allowsDNS (a : relaySANAllowlist) (name : string) : bool := bool_decide (name ∈ al_dns a).
Definition allowsIP (a : relaySANAllowlist) (ip : IP) : bool := bool_decide (ip ∈ al_ips a).

(** [None]: accepted. *)
Fixpoint precheck_dns (allow : relaySANAllowlist) (names : list string) : option code :=
  match names with
  | [] => None
  | name :: names =>
      match canonicalDNSName name with
      | None => Some InvalidArgument
      | Some canonical =>
          if negb (canonical ≟ name) then Some InvalidArgument
          else if negb (allowsDNS allow canonical) then Some PermissionDenied
          else precheck_dns allow names
      end
  end.
Definition precheckRelayCSR (id : string) (csr : CSR) (allow : relaySANAllowlist) : option code :=
  if negb (cs_signed csr) then Some InvalidArgument
  else if negb (cs_uris csr ≟ [RelaySPIFFEID id]) then Some InvalidArgument
  else if negb (cs_p384 csr) then Some InvalidArgument
  else match precheck_dns allow (cs_dns csr) with
       | Some c => Some c
       | None => if forallb (allowsIP allow) (cs_ips csr) then None else Some PermissionDenied
       end.

(** ** The signer (pki/relay.go) *)

Definition validateRelayCSR (id : string) (csr : CSR) (dnsNames : list string) (ips : list IP) : bool :=
  (uuid_parse id ≟ Some id) && cs_signed csr && (cs_uris csr ≟ [RelaySPIFFEID id]) && cs_p384 csr &&
  forallb (λ name, bool_decide (name ∈ dnsNames)) (cs_dns csr) && forallb (λ ip, bool_decide (ip ∈ ips)) (cs_ips csr).
(** A certificate holds whole seconds; the database gets the exact end. *)
Record RelayCertResult := MkResult { rc_leaf : leaf; rc_not_before : time; rc_not_after : time }.
Definition SignRelayCert (d : fdraws) (id : string) (csr : CSR) (dnsNames : list string) (ips : list IP) : procF (option RelayCertResult) :=
  if negb (validateRelayCSR id csr dnsNames ips) then Done None
  else
    let~ now := rclock in
    let~ pem := ping in
    Done (match pem with
          | None => None
          | Some _ => Some (MkResult (MkLeaf id (fd_serial d) (numeric_date (now + certTTL)) (cs_key csr) (cs_dns csr) (cs_ips csr))
                              (now - Hour) (now + certTTL))
          end).

(** ** [Provision] *)

Definition sign_and_record (d : fdraws) (id : string) (csr : CSR) (allow : relaySANAllowlist) (version hostname : string) : procF answer :=
  let~ cert := SignRelayCert d id csr (al_dns allow) (al_ips allow) in
  match cert with
  | None => Done (Status Internal "sign Relay certificate")
  | Some c =>
      let~ r := MarkProvisioned pg_uuid id (fd_serial d) (rc_not_after c) version hostname in
      Done (match r with
            | Ok _ => Certificate (rc_leaf c)
            | Err ErrRelayNotFound => Status FailedPrecondition "relay not registered"
            | Err _ => Status Internal "record Relay provisioning"
            end)
  end.
Definition burn_and_sign (n : nat) (d : fdraws) (jti id : string) (csr : CSR) (allow : relaySANAllowlist) (version hostname : string) : procF answer :=
  let~ b := BurnProvisioningJTI n jti in
  match b with
  | None => Done (Status Internal "burn provisioning token")
  | Some None => Done (Status PermissionDenied "provisioning token already used or unknown")
  | Some (Some burned) =>
      if negb (burned ≟ id) then Done (Status PermissionDenied "token relay mismatch")
      else sign_and_record d id csr allow version hostname
  end.
(** The request's names and addresses, its CSR against the row's lists. *)
Definition request_refused (id : string) (dns : list string) (ips : list IP) (csr : CSR) (allow : relaySANAllowlist) : option code :=
  if negb (forallb (allowsDNS allow) dns) then Some PermissionDenied
  else if negb (forallb (allowsIP allow) ips) then Some PermissionDenied
  else precheckRelayCSR id csr allow.
Definition Provision (n : nat) (d : fdraws) (q : ProvisionRequest) : procF answer :=
  match canonicalRelayID (pq_relay q), canonicalRequestDNSSANs [] (pq_dns q), parseRequestIPSANs [] (pq_ips q), pq_csr q with
  | Some id, Some dns, Some ips, Some csr =>
      if pq_token q ≟ "" then Done (Status Unauthenticated "provisioning token required")
      else
        let~ now := rclock in
        match VerifyProvisioningToken now (pq_token q) with
        | None => Done (Status PermissionDenied "invalid provisioning token")
        | Some claims =>
            if negb (pc_RelayID claims ≟ id) then Done (Status PermissionDenied "token relay mismatch")
            else
              let~ r := LoadRelayByID pg_uuid id in
              match r with
              | Err ErrRelayNotFound => Done (Status FailedPrecondition "relay not registered")
              | Err _ => Done (Status Internal "load Relay registration")
              | Ok (_, row) =>
                  if negb (rl_status row ≟ "pending") then Done (Status FailedPrecondition "relay is not awaiting provisioning")
                  else
                    match newRelaySANAllowlist (rl_dns row) (rl_ip row) with
                    | None => Done (Status FailedPrecondition "relay SAN allowlist is invalid")
                    | Some allow =>
                        match request_refused id dns ips csr allow with
                        | Some c => Done (Status c "rejected")
                        | None => burn_and_sign n d (pc_ID claims) id csr allow (pq_version q) (pq_hostname q)
                        end
                    end
              end
        end
  | _, _, _, _ => Done (Status InvalidArgument "invalid request")
  end.

(** ** Calls of a relay: the interceptor (connector/spiffe.go, relay_revocation.go) *)

Definition normalizeHexSerial (s : string) : string := if Nat.odd (length (bytes s)) then "0" +:+ s else s.
Definition is_hex (c : ascii) : bool := in_range 48 57 c || in_range 97 102 c || in_range 65 70 c.
Definition IsRevoked (serial : string) (revoked : gset string) : bool :=
  if negb (forallb is_hex (bytes (normalizeHexSerial serial))) then true
  else bool_decide (normalizeHexSerial serial ∈ revoked).
(** Two refreshes may overlap: the set is loaded first and stored later. *)
Definition Refresh : procF () :=
  let~ r := rquery (λ w, Ok (ListRevokedRelaySerials w)) in
  match r with
  | Err _ => Done tt
  | Ok serials => atom (λ w, (tt, set_revoked (list_to_set (normalizeHexSerial <$> serials)) w))
  end.
Definition RelayInterceptor (l : leaf) (handler : procF answer) : procF answer :=
  let~ now := rclock in
  if lf_not_after l <? now then Done (Status Unauthenticated "relay certificate verification failed")
  else
    let~ ca := ping in
    match ca with
    | None => Done (Status Unauthenticated "relay certificate verification failed")
    | Some _ =>
        let~ ready := atom (λ w, (ft_ready w, w)) in
        if negb ready then Done (Status Unavailable "relay revocation state unavailable")
        else
          let~ revoked := atom (λ w, (IsRevoked (lf_serial l) (ft_revoked w), w)) in
          if revoked then ping ;~ Done (Status PermissionDenied "relay certificate revoked") else handler
    end.

(** ** [RenewCert] *)

Definition relayRenewResultPrefix : string := "relay:renew:result:".
Definition relayRenewLockPrefix : string := "relay:renew:lock:".
Definition relayRenewResultTTL : duration := Hour.
Definition relayRenewLockTTL : duration := 30 * Second.
Definition renewalKey (prefix id presented : string) : string := prefix +:+ id +:+ ":" +:+ presented.

(** The renewal of the presented certificate, if it is for the key and still
    live. *)
Definition cachedRenewal_of (id presented key : string) : procF (option leaf) :=
  let~ raw := vget (renewalKey relayRenewResultPrefix id presented) in
  match raw with
  | Some (Some (VRenewal c)) =>
      if negb (cr_key c ≟ key) then Done None
      else
        let~ r := RelayCertStatus pg_uuid id (lf_serial (cr_cert c)) in
        Done (match r with Ok (true, false) => Some (cr_cert c) | _ => None end)
  | _ => Done None
  end.
(** [None]: held by another; else what the release does. *)
Definition acquireRenewLock (d : fdraws) (id presented : string) : procF (option (procF ())) :=
  let key := renewalKey relayRenewLockPrefix id presented in
  let~ r := vsetnx key (VText (fd_lock d)) relayRenewLockTTL in
  Done (match r with
        | None => Some (Done tt)
        | Some false => None
        | Some true =>
            Some (let~ cur := vget key in
                  match cur with
                  | Some (Some (VText t)) => if t ≟ fd_lock d then vdel key ;~ Done tt else Done tt
                  | _ => Done tt
                  end)
        end).
Definition sign_renewal (n : nat) (d : fdraws) (id presented key : string) (csr : CSR) (allow : relaySANAllowlist) : procF answer :=
  let~ cert := SignRelayCert d id csr (al_dns allow) (al_ips allow) in
  match cert with
  | None => Done (Status Internal "sign Relay certificate")
  | Some c =>
      let~ r := RecordRenewedCert pg_uuid n id presented (fd_serial d) (rc_not_after c) in
      match r with
      | Err ErrRelayNotFound | Err ErrRelayNotRenewable => Done (Status FailedPrecondition "relay is not in a renewable state")
      | Err ErrPresentedCertInvalid => Done (Status PermissionDenied "presented relay certificate is unknown or revoked")
      | Err _ => Done (Status Internal "record renewed Relay certificate")
      | Ok _ =>
          vset (renewalKey relayRenewResultPrefix id presented)
            (VRenewal (MkCached (rc_leaf c) (time_Unix (rc_not_before c)) (time_Unix (rc_not_after c)) key)) relayRenewResultTTL ;~
          Done (Certificate (rc_leaf c))
      end
  end.
Definition renew_checked (n : nat) (d : fdraws) (id presented key : string) (csr : CSR) (allow : relaySANAllowlist) : procF answer :=
  let~ cached := cachedRenewal_of id presented key in
  match cached with
  | Some l => Done (Certificate l)
  | None =>
      let~ lock := acquireRenewLock d id presented in
      match lock with
      | None => Done (Status Aborted "relay renewal already in progress; retry")
      | Some release =>
          let~ answer :=
            (let~ cached := cachedRenewal_of id presented key in
             match cached with
             | Some l => Done (Certificate l)
             | None => sign_renewal n d id presented key csr allow
             end) in
          release ;~ Done answer
      end
  end.
Definition RenewCert (n : nat) (d : fdraws) (l : leaf) (body : option CSR) : procF answer :=
  match canonicalRelayID (lf_id l) with
  | None => Done (Status Unauthenticated "authenticated Relay ID is invalid")
  | Some id =>
      let~ now := rclock in
      if lf_not_after l <=? now then Done (Status FailedPrecondition "relay certificate has expired; the relay must be replaced")
      else
        match body with
        | None => Done (Status InvalidArgument "parse Relay CSR")
        | Some csr =>
            if negb (cs_key csr ≟ lf_key l) then Done (Status PermissionDenied "renewal CSR must be signed by the relay's existing key")
            else
              let~ r := LoadRelayByID pg_uuid id in
              match r with
              | Err ErrRelayNotFound => Done (Status FailedPrecondition "relay not registered")
              | Err _ => Done (Status Internal "load Relay registration")
              | Ok (_, row) =>
                  if negb ((rl_status row ≟ "active") || (rl_status row ≟ "inactive"))
                  then Done (Status FailedPrecondition "relay is not in a renewable state")
                  else
                    let~ s := RelayCertStatus pg_uuid id (lf_serial l) in
                    match s with
                    | Err _ => Done (Status Internal "load presented Relay certificate")
                    | Ok (false, _) | Ok (_, true) => Done (Status PermissionDenied "presented relay certificate is unknown or revoked")
                    | Ok (true, false) =>
                        match newRelaySANAllowlist (rl_dns row) (rl_ip row) with
                        | None => Done (Status FailedPrecondition "relay SAN allowlist is invalid")
                        | Some allow =>
                            match precheckRelayCSR id csr allow with
                            | Some c => Done (Status c "rejected")
                            | None =>
                                match fingerprint (lf_key l) with
                                | None => Done (Status InvalidArgument "presented relay certificate public key is invalid")
                                | Some key => renew_checked n d id (lf_serial l) key csr allow
                                end
                            end
                        end
                    end
              end
        end
  end.
End service.

(** ** [Heartbeat] (heartbeat.go) *)

Definition defaultHeartbeatInterval : duration := 30 * Second.
Definition defaultRelayPublicPort : string := "9093".
Definition relayHeartbeatLastPrefix : string := "relay:heartbeat:last:".
Definition relayHeartbeatDBWritePrefix : string := "relay:heartbeat:db-write:".
Definition relayHeartbeatMetadataPrefix : string := "relay:heartbeat:metadata:".

(** [strconv.Atoi] of a port. *)
Definition port_number (s : string) : Z :=
  match digits 10 (bytes s) with (ds, []) => if bool_decide (ds = []) then 0 else foldl (λ v d, v * 10 + d) 0 ds | _ => 0 end.
Definition observeRelayPeerAddress (peer : option string) (listenPort : Z) (allowPrivate : bool) : relayAddressObservation :=
  let unknown := MkObserved "" 0 "unknown" "" in
  match peer ≫= SplitHostPort with
  | None => unknown
  | Some (host, portText) =>
      match ParseIP host with
      | None => unknown
      | Some ip =>
          let advertised := JoinHostPort (IP_String ip) (if (0 <? listenPort) && (listenPort <=? 65535) then pretty listenPort else defaultRelayPublicPort) in
          let seen scope public := MkObserved (IP_String ip) (port_number portText) scope public in
          if IsLoopback ip then seen "loopback" ""
          else if IsPrivate ip then seen "private" (if allowPrivate then advertised else "")
          else if IsLinkLocalUnicast ip then seen "link_local" ""
          else if IsGlobalUnicast ip then seen "public" advertised
          else seen "unknown" ""
      end
  end.
Fixpoint join_nul (parts : list string) : list ascii :=
  match parts with [] => [] | [p] => bytes p | p :: ps => bytes p ++ zero :: join_nul ps end.
Definition relayHeartbeatMetadataValue (p : report) : string :=
  of_bytes (join_nul [rp_serial p; pretty (time_Unix (rp_not_after p)); rp_version p; rp_hostname p;
                      oa_ip (rp_addr p); pretty (oa_port (rp_addr p)); oa_scope (rp_addr p); oa_public (rp_addr p)]).

Section heartbeat.
Context (uuid_parse pg_uuid : string → option uuid) (labelHoldDown dbWriteInterval : duration) (allowPrivate : bool).

(** Whether to write the database, and whether the metadata changed; [None]: an
    error. *)
Definition cacheRelayHeartbeat (id : string) (p : report) : procF (option (bool * bool)) :=
  let~ now := rclock in
  let ttl := if 3 * defaultHeartbeatInterval <? dbWriteInterval then dbWriteInterval + defaultHeartbeatInterval else 3 * defaultHeartbeatInterval in
  let~ r := vset (relayHeartbeatLastPrefix +:+ id) (VUnix (time_Unix now)) ttl in
  match r with
  | None => Done None
  | Some _ =>
      let metadata := relayHeartbeatMetadataValue p in
      let~ previous := vget (relayHeartbeatMetadataPrefix +:+ id) in
      match previous with
      | None => Done None
      | Some v =>
          let changed := match v with Some (VText m) => negb (m ≟ metadata) | _ => true end in
          let~ marker := vget (relayHeartbeatDBWritePrefix +:+ id) in
          match marker with
          | None => Done None
          | Some m =>
              let~ due := (if bool_decide (is_Some m)
                           then let~ flag := drainingFlagSet id in Done (match flag with Some draining => draining | None => true end)
                           else Done true) in
              let~ r := vset (relayHeartbeatMetadataPrefix +:+ id) (VText metadata) ttl in
              match r with None => Done None | Some _ => Done (Some (changed || due, changed)) end
          end
      end
  end.
Definition markRelayHeartbeatDBWritten (id : string) : procF (option ()) :=
  let~ now := rclock in
  vset (relayHeartbeatDBWritePrefix +:+ id) (VUnix (time_Unix now)) (if dbWriteInterval <=? 0 then 5 * Minute else dbWriteInterval).
(** [notifyRelayTopology] and the broadcast of the list. *)
Definition announce (id : uuid) : procF () := atom (λ w, (tt, add_told id w)).

Definition record_heartbeat (id : string) (p : report) (received : time) (changed : bool) : procF answer :=
  let~ r := RecordHeartbeat pg_uuid id p received in
  match r with
  | Err ErrRelayNotFound => Done (Status NotFound "Relay registration not found")
  | Err _ => Done (Status Internal "record Relay heartbeat")
  | Ok _ =>
      markRelayHeartbeatDBWritten id ;~
      let~ t := EvaluateCapacityLabel pg_uuid id labelHoldDown in
      let promoted := match t with Ok b => b | Err _ => false end in
      (if changed || promoted then announce id else Done tt) ;~
      Done Accepted
  end.
Definition Heartbeat (l : leaf) (q : HeartbeatRequest) : procF answer :=
  let~ received := rclock in
  match canonicalRelayID uuid_parse (lf_id l) with
  | None => Done (Status Unauthenticated "authenticated Relay ID is invalid")
  | Some id =>
      let addr := observeRelayPeerAddress (hb_peer q) (hb_listen_port q) allowPrivate in
      let p := MkReport (lf_serial l) (lf_not_after l) (hb_version q) (hb_hostname q) addr (hb_count q) (hb_max q) in
      let~ c := cacheRelayHeartbeat id p in
      let '(write, changed) := default (true, true) c in
      if write then record_heartbeat id p received changed else Done Accepted
  end.
End heartbeat.

(** ** Eviction (expiry.go) *)

Definition unixToTime (s : Z) : time := (s + unixToInternal) * Second.
(** [None]: an error. *)
Definition LastHeartbeat (id : string) : procF (option (option time)) :=
  let~ r := vget (relayHeartbeatLastPrefix +:+ id) in
  Done (match r with
        | None => None
        | Some None => Some None
        | Some (Some (VUnix s)) => Some (Some (unixToTime s))
        | Some (Some _) => None
        end).
Definition ClearHeartbeatThrottle (id : string) : procF (option ()) :=
  let~ r := vdel (relayHeartbeatDBWritePrefix +:+ id) in
  match r with None => Done None | Some _ => vdel (relayHeartbeatMetadataPrefix +:+ id) end.
(** The candidates without a fresh liveness key; the others are refreshed. *)
Fixpoint dead_relays (ids : list uuid) (threshold : time) : procF (list uuid) :=
  match ids with
  | [] => Done []
  | id :: ids =>
      let~ seen := LastHeartbeat id in
      match seen with
      | Some (Some t) =>
          if threshold <=? t then RefreshLastHeartbeat id t ;~ dead_relays ids threshold
          else let~ rest := dead_relays ids threshold in Done (id :: rest)
      | _ => let~ rest := dead_relays ids threshold in Done (id :: rest)
      end
  end.
Fixpoint announce_evicted (ids : list uuid) : procF () :=
  match ids with [] => Done tt | id :: ids => ClearHeartbeatThrottle id ;~ announce id ;~ announce_evicted ids end.
Definition runEviction (expiry : duration) : procF () :=
  let~ now := rclock in
  let threshold := now - expiry in
  let~ r := rquery (λ w, Ok (ListEvictionCandidates threshold w)) in
  match r with
  | Err _ => Done tt
  | Ok candidates =>
      let~ dead := dead_relays candidates threshold in
      let~ r := EvictRelays dead threshold in
      match r with Err _ => Done tt | Ok evicted => announce_evicted evicted end
  end.

(** ** Administration (admin_handler.go) *)

Definition ActionRelayCreate : string := "relay.create".
Definition ActionRelayIssueToken : string := "relay.issue_token".
Definition ActionRelayDrain : string := "relay.drain".
Definition ActionRelayResume : string := "relay.resume".
Definition maxRelayNameRunes : Z := 128.
Definition maxReasonRunes : Z := 500.
(** [unicode.IsControl]: U+0000–U+001F, U+007F and U+0080–U+009F, of which the
    last are encoded with C2. *)
Fixpoint has_control (l : list ascii) : bool :=
  match l with
  | [] => false
  | c :: l' => in_range 0 31 c || (GoText.code c =? 127) ||
               ((GoText.code c =? 194) && match l' with c' :: _ => in_range 128 159 c' | [] => false end) || has_control l'
  end.
Definition validRelayName (name : string) : bool :=
  negb (name ≟ "") && (RuneCountInString name <=? maxRelayNameRunes) && negb (has_control (bytes name)).
Definition relay_audit (actor : Actor) (action id remote : string) : AuditEntry :=
  MkAudit (Some (a_user actor)) (a_email actor) action "relay" id (clientIP remote).
Definition pending_relay (name : string) (dns ips : list string) (jti : string) (now : time) : RelayRow :=
  MkRelay name "pending" dns ips (Some jti) None None None None None None None None 0 0 None "high" None None now None None.

Section admin.
Context (lower : string → string) (uuid_parse pg_uuid : string → option uuid) (sign : ProvisioningClaims → option string).

(** The row is inserted, the token is issued and stored in Valkey, and the
    transaction commits row, token id and audit.  The token id that reached
    Valkey comes with an error, to be removed. *)
Definition CreateRelayAudited (n : nat) (d : fdraws) (name : string) (dns ips : list string) (audit : uuid → AuditEntry)
    : procF (option (uuid * string) * option string) :=
  let id := fd_id d in
  let~ begun := rclock in
  let~ inserted := rquery (λ w, if bool_decide (is_Some (ft_relays w !! id)) then Err errRelay else Ok tt) in
  match inserted with
  | Err _ => Done (None, None)
  | Ok _ =>
      let~ now := rclock in
      match sign (issue_claims d id now) with
      | None => Done (None, None)
      | Some token =>
          let~ s := StoreProvisioningJTI n (fd_jti d) id in
          match s with
          | None => Done (None, None)
          | Some _ =>
              let~ r := rexec (λ w,
                if bool_decide (is_Some (ft_relays w !! id)) then (Err errRelay, w)
                else (Ok tt, log_audit (audit id) (put_relay id (pending_relay name dns ips (fd_jti d) begun) w))) in
              Done (match r with Ok _ => Some (id, token) | Err _ => None end, Some (fd_jti d))
          end
      end
  end.
Definition Create (n : nat) (d : fdraws) (actor : Actor) (body : option (string * list string * list string)) (remote : string) : procF answer :=
  if negb (decide_action actor ActionRelayIssueToken) then Done (Http 403 "forbidden")
  else
    match body with
    | None => Done (Http 400 "invalid_request")
    | Some (rawName, rawDNS, rawIP) =>
        let name := TrimSpace rawName in
        if negb (validRelayName name) then Done (Http 400 "invalid_name")
        else
          match validateDNSSANs lower [] rawDNS, validateIPSANs [] rawIP with
          | None, _ => Done (Http 400 "invalid_dns_san")
          | _, None => Done (Http 400 "invalid_ip_san")
          | Some dns, Some ips =>
              let~ ca := ping in
              match ca with
              | None => Done (Http 500 "server_error")
              | Some _ =>
                  let~ r := CreateRelayAudited n d name dns (IP_String <$> ips) (λ id, relay_audit actor ActionRelayCreate id remote) in
                  match r with
                  | (Some (id, token), _) => Done (Registered id token)
                  | (None, jti) =>
                      match jti with Some j => vdel (provisioningJTIPrefix +:+ j) ;~ Done tt | None => Done tt end ;~
                      Done (Http 500 "server_error")
                  end
              end
          end
    end.

Definition authorizeRelayAction (actor : Actor) (path action : string) (k : string → procF answer) : procF answer :=
  if path ≟ "" then Done (Http 400 "invalid_request")
  else if negb (decide_action actor action) then Done (Http 403 "forbidden")
  else match uuid_parse path with None => Done (Http 404 "not_found") | Some _ => k path end.
Definition admin_error (e : rerror) : answer :=
  match e with
  | ErrRelayNotFound => Http 404 "not_found"
  | errAlreadyDeleted => Http 409 "already_deleted"
  | errAlreadyRevoked => Http 409 "already_revoked"
  | errConfirmationMismatch => Http 400 "confirmation_mismatch"
  | errInvalidState => Http 409 "invalid_state"
  | errLastEligibleRelay => Http 409 "last_eligible_relay"
  | _ => Http 500 "server_error"
  end.
Definition destructive_guard (action confirm name status : string) : option rerror :=
  if status ≟ "deleted" then Some errAlreadyDeleted
  else if (action ≟ ActionRelayRevoke) && (status ≟ "revoked") then Some errAlreadyRevoked
  else if negb (confirm ≟ name) then Some errConfirmationMismatch
  else None.
Definition destructive (action : string) (actor : Actor) (path : string) (body : option (string * string)) (remote : string) : procF answer :=
  authorizeRelayAction actor path action (λ id,
    match body with
    | None => Done (Http 400 "invalid_request")
    | Some (rawReason, confirm) =>
        let reason := TrimSpace rawReason in
        if reason ≟ "" then Done (Http 400 "reason_required")
        else if maxReasonRunes <? RuneCountInString reason then Done (Http 400 "reason_too_long")
        else
          let~ r := RevokeRelayGuarded pg_uuid id reason (destructive_guard action confirm)
                      (λ status, if action ≟ ActionRelayDelete then "deleted" else if status ≟ "deleted" then status else "revoked")
                      (relay_audit actor action id remote) in
          match r with
          | Err e => Done (admin_error e)
          | Ok _ => Refresh ;~ announce id ;~ Done (Http 204 "")
          end
    end).

(** [finishDrainChange] and [DrainFanout] *)
Definition finishDrainChange (id : string) (draining : bool) (r : result rerror bool) : procF answer :=
  match r with
  | Err e => Done (admin_error e)
  | Ok changed =>
      (if changed then (if draining then MarkDraining id else ClearDraining id) ;~ announce id else Done tt) ;~
      Done (Http 204 "")
  end.
(** [body]: the reason, if any; [None] cannot be decoded. *)
Definition Drain (actor : Actor) (path : string) (body : option string) (remote : string) : procF answer :=
  authorizeRelayAction actor path ActionRelayDrain (λ id,
    match body with
    | None => Done (Http 400 "invalid_request")
    | Some reason =>
        if maxReasonRunes <? RuneCountInString (TrimSpace reason) then Done (Http 400 "reason_too_long")
        else let~ r := DrainRelay pg_uuid id (relay_audit actor ActionRelayDrain id remote) in finishDrainChange id true r
    end).
Definition Resume (actor : Actor) (path : string) (body : option ()) (remote : string) : procF answer :=
  authorizeRelayAction actor path ActionRelayResume (λ id,
    match body with
    | None => Done (Http 400 "invalid_request")
    | Some _ => let~ r := ResumeRelay pg_uuid id (relay_audit actor ActionRelayResume id remote) in finishDrainChange id false r
    end).
End admin.

(** ** All requests *)

Inductive call_of :=
| Admin_create (actor : Actor) (body : option (string * list string * list string)) (remote : string)
| Admin_revoke (actor : Actor) (path : string) (body : option (string * string)) (remote : string)
| Admin_delete (actor : Actor) (path : string) (body : option (string * string)) (remote : string)
| Admin_drain (actor : Actor) (path : string) (body : option string) (remote : string)
| Admin_resume (actor : Actor) (path : string) (body : option ()) (remote : string)
| Rpc_provision (q : ProvisionRequest)
| Rpc_renew (l : leaf) (csr : option CSR)
| Rpc_heartbeat (l : leaf) (q : HeartbeatRequest)
| Get_crl
| Worker_evict
| Worker_refresh
| Worker_drain_flags.

Section serving.
Context (lower : string → string) (uuid_parse pg_uuid : string → option uuid)
        (sign : ProvisioningClaims → option string) (signed : string → option ProvisioningClaims)
        (fingerprint : string → option string) (certTTL labelHoldDown dbWriteInterval : duration) (allowPrivate : bool).

Definition RelayCRLHandler : procF answer :=
  let~ r := rquery (λ w, Ok (ListRevokedRelaySerials w)) in
  Done (match r with Ok l => Serials l | Err _ => Http 500 "internal server error" end).
(** Request [n]. *)
Definition serve_relay (n : nat) (d : fdraws) (r : call_of) : procF answer :=
  match r with
  | Admin_create actor body remote => Create lower sign n d actor body remote
  | Admin_revoke actor path body remote => destructive uuid_parse pg_uuid ActionRelayRevoke actor path body remote
  | Admin_delete actor path body remote => destructive uuid_parse pg_uuid ActionRelayDelete actor path body remote
  | Admin_drain actor path body remote => Drain uuid_parse pg_uuid actor path body remote
  | Admin_resume actor path body remote => Resume uuid_parse pg_uuid actor path body remote
  | Rpc_provision q => Provision lower uuid_parse pg_uuid signed certTTL n d q
  | Rpc_renew l csr => RelayInterceptor l (RenewCert lower uuid_parse pg_uuid fingerprint certTTL n d l csr)
  | Rpc_heartbeat l q => RelayInterceptor l (Heartbeat uuid_parse pg_uuid labelHoldDown dbWriteInterval allowPrivate l q)
  | Get_crl => RelayCRLHandler
  | Worker_evict => runEviction (90 * Second) ;~ Done Ran
  | Worker_refresh => Refresh ;~ Done Ran
  | Worker_drain_flags => ReconcileDrainFlags ;~ Done Ran
  end.
End serving.
