(* ===== verification/RelaySafety.v ===== *)
(** * Relays: what holds in every interleaving

    A pool of requests of [Relay], each with its own rely and guarantee (file
    [Rely]).  All actions keep rows and certificates in place ([moves]) and keep
    the invariant [J]: a terminal relay has no unrevoked certificate, the id of a
    provisioning token is burned at most once, each certificate has at most one
    live renewal. *)

From Stdlib Require Import ZArith Lia Ascii.
From S2P Require Import Prelude GoText SnapshotText Sql Conc Rely Provider ProviderFacts GoNet RelayPool Relay.
Open Scope Z_scope.
Set Default Proof Using "Type".

Section safety.
Context (lower : string → string) (uuid_parse pg_uuid : string → option uuid)
        (sign : ProvisioningClaims → option string) (signed : string → option ProvisioningClaims)
        (fingerprint : string → option string) (certTTL labelHoldDown dbWriteInterval : duration) (allowPrivate : bool)
        (rnd : nat → fdraws).
Abbreviation serve := (serve_relay lower uuid_parse pg_uuid sign signed fingerprint certTTL labelHoldDown dbWriteInterval allowPrivate).
Abbreviation config := (fleet * list (procF answer))%type.

(** ** The pool *)

(** A relay presents a certificate that it was given, after the instant of its
    issue. *)
Definition presents (w : fleet) (ps : list (procF answer)) (l : leaf) : Prop :=
  (∃ j : nat, ps !! j = Some (Done (Certificate l))) ∧
  ∀ c, ft_certs w !! lf_serial l = Some c → ct_issued c < ft_clock w.
Definition may_call (w : fleet) (ps : list (procF answer)) (r : call_of) : Prop :=
  match r with Rpc_renew l _ | Rpc_heartbeat l _ => presents w ps l | _ => True end.
Definition fstart (w : fleet) (ps : list (procF answer)) (p : procF answer) : Prop :=
  ∃ r, p = serve (length ps) (rnd (length ps)) r ∧ may_call w ps r.
(** Time passes. *)
Definition fenv (w w' : fleet) : Prop :=
  ft_relays w' = ft_relays w ∧ ft_certs w' = ft_certs w ∧ ft_keys w' = ft_keys w ∧ ft_history w' = ft_history w ∧ ft_clock w <= ft_clock w'.
Abbreviation steps := (rtc (pool_any fenv fstart)).
Definition called (c : config) (r : call_of) : config := (c.1, c.2 ++ [serve (length c.2) (rnd (length c.2)) r]).
Definition empty_fleet (now : time) : config := (MkFleet ∅ ∅ ∅ [] ∅ false [] now [], []).

(** Canonical uuids are read as they are, and have no colon; what is drawn at
    random is new. *)
Record fleet_services : Prop := {
  pg_agrees : ∀ id, uuid_parse id = Some id → pg_uuid id = Some id;
  uuid_chars : ∀ id, uuid_parse id = Some id → colon ∉ bytes id;
  fresh_ids : ∀ i j, fd_id (rnd i) = fd_id (rnd j) → i = j;
  fresh_jtis : ∀ i j, fd_jti (rnd i) = fd_jti (rnd j) → i = j;
  fresh_serials : ∀ i j, fd_serial (rnd i) = fd_serial (rnd j) → i = j
}.
Context (Hs : fleet_services).

(** ** Rows and certificates stay *)

Definition same_relay (r r' : RelayRow) : Prop :=
  rl_dns r' = rl_dns r ∧ rl_ip r' = rl_ip r ∧ (terminal (rl_status r) = true → terminal (rl_status r') = true).
Definition same_cert (c c' : CertRow) : Prop :=
  ct_relay c' = ct_relay c ∧ ct_issued c' = ct_issued c ∧ ct_not_after c' = ct_not_after c ∧
  (is_Some (ct_revoked c) → ct_revoked c' = ct_revoked c).
Record moves (w w' : fleet) : Prop := {
  mv_relays : ∀ id r, ft_relays w !! id = Some r → ∃ r', ft_relays w' !! id = Some r' ∧ same_relay r r';
  mv_certs : ∀ s c, ft_certs w !! s = Some c → ∃ c', ft_certs w' !! s = Some c' ∧ same_cert c c';
  mv_history : ∀ e, e ∈ ft_history w → e ∈ ft_history w';
  mv_clock : ft_clock w <= ft_clock w'
}.
#[local] Instance same_relay_preorder : PreOrder same_relay.
Proof. split; [by intros r|]. intros r1 r2 r3 (? & ? & ?) (? & ? & ?). split_and!; [congruence..|auto]. Qed.
#[local] Instance same_cert_preorder : PreOrder same_cert.
Proof.
  split; [by intros c|]. intros c1 c2 c3 (? & ? & ? & Hr1) (? & ? & ? & Hr2). split_and!; [congruence..|]. intros Hr.
  rewrite Hr2; [auto|]. by rewrite Hr1.
Qed.
#[local] Instance moves_preorder : PreOrder moves.
Proof.
  split.
  - intros w. split; [intros id r Hr; exists r; by split|intros s c Hc; exists c; by split|done|lia].
  - intros w1 w2 w3 [A1 A2 A3 A4] [B1 B2 B3 B4]. split.
    + intros id r Hr. destruct (A1 _ _ Hr) as (r2 & Hr2 & H12). destruct (B1 _ _ Hr2) as (r3 & Hr3 & H23). exists r3. split; [done|by etrans].
    + intros s c Hc. destruct (A2 _ _ Hc) as (c2 & Hc2 & H12). destruct (B2 _ _ Hc2) as (c3 & Hc3 & H23). exists c3. split; [done|by etrans].
    + auto.
    + lia.
Qed.

(** A certificate of the table, within the lists of its relay. *)
Definition good_leaf (l : leaf) (w : fleet) : Prop :=
  ∃ ct r allow, ft_certs w !! lf_serial l = Some ct ∧ ct_relay ct = lf_id l ∧ lf_not_after l = numeric_date (ct_not_after ct) ∧
    ft_relays w !! lf_id l = Some r ∧ newRelaySANAllowlist lower (rl_dns r) (rl_ip r) = Some allow ∧
    lf_dns l ⊆ al_dns allow ∧ lf_ips l ⊆ al_ips allow.
Lemma good_leaf_moves l w w' : moves w w' → good_leaf l w → good_leaf l w'.
Proof.
  intros Hm (ct & r & allow & Hc & Hid & Hna & Hr & Ha & Hd & Hi). destruct (mv_certs _ _ Hm _ _ Hc) as (ct' & Hc' & E1 & _ & E3 & _).
  destruct (mv_relays _ _ Hm _ _ Hr) as (r' & Hr' & D1 & D2 & _). exists ct', r', allow. split_and!; try done; [congruence|congruence|].
  by rewrite D1, D2.
Qed.

(** ** The invariant *)

Abbreviation jti_key j := (provisioningJTIPrefix +:+ j).
Record J (w : fleet) : Prop := {
  J_dead : ∀ id r s c, ft_relays w !! id = Some r → terminal (rl_status r) = true → ft_certs w !! s = Some c → ct_relay c = id →
    is_Some (ct_revoked c);
  J_stored : ∀ n j id, Stored n j id ∈ ft_history w → j = fd_jti (rnd n) ∧ id = fd_id (rnd n);
  J_key : ∀ j v t, ft_keys w !! jti_key j = Some (v, t) → ∃ n id, Stored n j id ∈ ft_history w ∧ v = VText id;
  J_burned : ∀ m j id, Burned m j id ∈ ft_history w →
    (∃ n, Stored n j id ∈ ft_history w) ∧ ft_keys w !! jti_key j = None ∧ ∀ m' id', Burned m' j id' ∈ ft_history w → m' = m;
  J_renewed : ∀ n p s, Renewed n p s ∈ ft_history w →
    ∃ cp cs, ft_certs w !! p = Some cp ∧ ft_certs w !! s = Some cs ∧ ct_relay cs = ct_relay cp ∧ ct_issued cp < ct_issued cs;
  J_single : ∀ n1 n2 p s1 s2 c1 c2, Renewed n1 p s1 ∈ ft_history w → Renewed n2 p s2 ∈ ft_history w →
    ft_certs w !! s1 = Some c1 → ft_certs w !! s2 = Some c2 → ct_revoked c1 = None → ct_revoked c2 = None → s1 = s2;
  J_cache : ∀ k c t, ft_keys w !! k = Some (VRenewal c, t) →
    ∃ n id p, k = renewalKey relayRenewResultPrefix id p ∧ colon ∉ bytes id ∧ Renewed n p (lf_serial (cr_cert c)) ∈ ft_history w ∧
      good_leaf (cr_cert c) w
}.
Definition unused (n : nat) (w : fleet) : Prop := ft_certs w !! fd_serial (rnd n) = None ∧ ∀ j id, Stored n j id ∉ ft_history w.
(** What thread [n] relies on: the others keep [J], do not store under its serial
    and record nothing in its name. *)
Definition spared (n : nat) (w w' : fleet) : Prop :=
  (ft_certs w !! fd_serial (rnd n) = None → ft_certs w' !! fd_serial (rnd n) = None) ∧
  ∀ j id, Stored n j id ∈ ft_history w' → Stored n j id ∈ ft_history w.
Definition R (n : nat) (w w' : fleet) : Prop := moves w w' ∧ (J w → J w') ∧ spared n w w'.
Definition G (n : nat) (w w' : fleet) : Prop := moves w w' ∧ (J w → J w') ∧ ∀ m, m ≠ n → spared m w w'.
#[local] Instance R_preorder n : PreOrder (R n).
Proof.
  split.
  - intros w. split_and!; [reflexivity|done|]. by split.
  - intros w1 w2 w3 (A & B & C & D) (A' & B' & C' & D'). split_and!; [by etrans|auto|]. split; auto.
Qed.
Lemma env_R n w w' : fenv w w' → R n w w'.
Proof.
  destruct w, w'. intros (E1 & E2 & E3 & E4 & Hc). simpl in *. subst. split_and!; [split; simpl; [intros id r Hr; exists r; by split|intros s c Hx; exists c; by split|done|done]| |by split].
  intros [A1 A2 A3 A4 A5 A6 A7]. split; simpl in *; try done.
Qed.
Lemma G_R i j w w' : i ≠ j → G j w w' → R i w w'.
Proof. intros Hne (A & B & C). split_and!; [done|done|]. by apply C. Qed.

(** ** Actions *)

Definition other_key (k : string) : Prop := ∀ j, k ≠ jti_key j.
Definition plain_value (v : value) : Prop := match v with VRenewal _ => False | _ => True end.
(** Rows, certificates and history stay, and no key of a token or a renewal is set. *)
Definition quiet (w w' : fleet) : Prop :=
  ft_relays w' = ft_relays w ∧ ft_certs w' = ft_certs w ∧ ft_history w' = ft_history w ∧ ft_clock w' = ft_clock w ∧
  ∀ k v t, ft_keys w' !! k = Some (v, t) → ft_keys w !! k = Some (v, t) ∨ (other_key k ∧ plain_value v).
Lemma quiet_keeps w w' : quiet w w' → moves w w' ∧ (J w → J w') ∧ ∀ m, spared m w w'.
Proof.
  intros (E1 & E2 & E3 & E4 & Hk). split_and!.
  - split; rewrite ?E1, ?E2, ?E3, ?E4; [|..|done|lia]; intros x y Hx; by exists y.
  - intros [A1 A2 A3 A4 A5 A6 A7]. split; rewrite ?E1, ?E2, ?E3; try done.
    + intros j v t Hj. destruct (Hk _ _ _ Hj) as [Hj'|[Hne _]]; [by eapply A3|]. by destruct (Hne j).
    + intros m j id Hb. destruct (A4 _ _ _ Hb) as (HS & Hn & Hu). split_and!; [done| |done].
      destruct (ft_keys w' !! jti_key j) as [[v t]|] eqn:E; [|done]. destruct (Hk _ _ _ E) as [?|[Hne _]]; [congruence|]. by destruct (Hne j).
    + intros k c t Hc. destruct (Hk _ _ _ Hc) as [Hc'|[_ []]]. destruct (A7 _ _ _ Hc') as (n0 & id & p & ? & ? & ? & Hg).
      exists n0, id, p. split_and!; try done. unfold good_leaf. by rewrite E1, E2.
  - intros m. unfold spared. by rewrite E2, E3.
Qed.
Lemma quiet_G n w w' : quiet w w' → G n w w'.
Proof. intros (A & B & C)%quiet_keeps. by split_and!. Qed.
Lemma quiet_R n w w' : quiet w w' → R n w w'.
Proof. intros (A & B & C)%quiet_keeps. by split_and!. Qed.
Lemma quiet_refl' w : quiet w w.
Proof. split_and!; try done. by left. Qed.

(** Rows change; no relay becomes terminal. *)
Lemma rows_G n w w' :
  ft_certs w' = ft_certs w → ft_history w' = ft_history w → ft_clock w' = ft_clock w → ft_keys w' = ft_keys w →
  (∀ id r, ft_relays w !! id = Some r → ∃ r', ft_relays w' !! id = Some r' ∧ same_relay r r') →
  (∀ id r', ft_relays w' !! id = Some r' → terminal (rl_status r') = true →
     ∃ r, ft_relays w !! id = Some r ∧ terminal (rl_status r) = true) → G n w w'.
Proof.
  intros E2 E3 E4 E5 Hrel Hterm. assert (moves w w') as Hm.
  { split; rewrite ?E2, ?E3, ?E4; [done| |done|lia]. intros s c Hc. by exists c. }
  split_and!; [done| |intros m _; unfold spared; by rewrite E2, E3].
  intros [A1 A2 A3 A4 A5 A6 A7]. split; rewrite ?E2, ?E3, ?E5; try done.
  - intros id r s c Hr Ht Hc Hid. destruct (Hterm _ _ Hr Ht) as (r0 & Hr0 & Ht0). by eapply A1.
  - intros k c t Hc. destruct (A7 _ _ _ Hc) as (n0 & id & p & ? & ? & ? & Hg). exists n0, id, p. split_and!; try done.
    by eapply good_leaf_moves.
Qed.
(** One row changes. *)
Lemma row_G n id r r' w w' :
  ft_relays w !! id = Some r → ft_relays w' = <[id := r']> (ft_relays w) → same_relay r r' → terminal (rl_status r') = terminal (rl_status r) →
  ft_certs w' = ft_certs w → ft_history w' = ft_history w → ft_clock w' = ft_clock w → ft_keys w' = ft_keys w → G n w w'.
Proof.
  intros Hr E1 Hsame Ht E2 E3 E4 E5. apply rows_G; try done; rewrite E1.
  - intros i x Hx. destruct (decide (i = id)) as [->|Hne]; [rewrite lookup_insert_eq; simplify_eq; by exists r'|].
    rewrite lookup_insert_ne by done. by exists x.
  - intros i x. destruct (decide (i = id)) as [->|Hne]; [rewrite lookup_insert_eq; intros [= <-]; rewrite Ht; by exists r|].
    rewrite lookup_insert_ne by done. by exists x.
Qed.

Lemma row_moves id r r' w w' :
  ft_relays w !! id = Some r → ft_relays w' = <[id := r']> (ft_relays w) → same_relay r r' →
  ∀ i x, ft_relays w !! i = Some x → ∃ x', ft_relays w' !! i = Some x' ∧ same_relay x x'.
Proof.
  intros Hr -> Hsame i x Hx. destruct (decide (i = id)) as [->|Hne]; [rewrite lookup_insert_eq; simplify_eq; by exists r'|].
  rewrite lookup_insert_ne by done. by exists x.
Qed.
Lemma cache_moves w w' k c t : moves w w' → J w → ft_keys w !! k = Some (VRenewal c, t) →
  ∃ n id p, k = renewalKey relayRenewResultPrefix id p ∧ colon ∉ bytes id ∧ Renewed n p (lf_serial (cr_cert c)) ∈ ft_history w' ∧
    good_leaf (cr_cert c) w'.
Proof.
  intros Hm HJ Hk. destruct (J_cache _ HJ _ _ _ Hk) as (n0 & id & p & ? & ? & ? & Hg). exists n0, id, p.
  split_and!; [done|done|by apply (mv_history _ _ Hm)|by eapply good_leaf_moves].
Qed.

(** A token's id is stored. *)
Lemma store_G n t w :
  (∀ j id, Stored n j id ∉ ft_history w) →
  G n w (record (Stored n (fd_jti (rnd n)) (fd_id (rnd n)))
           (set_keys (<[jti_key (fd_jti (rnd n)) := (VText (fd_id (rnd n)), t)]> (ft_keys w)) w)).
Proof using Hs.
  intros Hun. set (w' := record _ _). assert (moves w w') as Hm.
  { split; simpl; [intros id r Hr; exists r; by split|intros s c Hc; exists c; by split| |lia]. intros e He. by right. }
  split_and!; [done| |].
  - intros HJ. pose proof HJ as [A1 A2 A3 A4 A5 A6 A7]. split; simpl; [done| | | | | |].
    + intros m j id [[= -> -> ->]|He]%elem_of_cons; [done|by apply A2].
    + intros j v t'. rewrite lookup_insert_Some. intros [[Hj [= <- <-]]|[Hne Hj]].
      * apply (inj (String.append _)) in Hj as <-. exists n, (fd_id (rnd n)). split; [left|done].
      * destruct (A3 _ _ _ Hj) as (m & id & He & ->). exists m, id. split; [by right|done].
    + intros m j id [[=]|He]%elem_of_cons. destruct (A4 _ _ _ He) as ((n' & Hst) & Hk & Hu). split_and!.
      * exists n'. by right.
      * rewrite lookup_insert_ne; [done|]. intros Hj%(inj (String.append _)). subst j.
        destruct (A2 _ _ _ Hst) as [Hj _]. apply (fresh_jtis Hs) in Hj as ->. by eapply Hun.
      * intros m' id' [[=]|He']%elem_of_cons. by eapply Hu.
    + intros m p s [[=]|He]%elem_of_cons. by apply A5 in He.
    + intros n1 n2 p s1 s2 c1 c2 [[=]|H1]%elem_of_cons [[=]|H2]%elem_of_cons. by eapply A6.
    + intros k c t'. rewrite lookup_insert_Some. intros [[_ [=]]|[_ Hk]]. exact (cache_moves w w' k c t' Hm HJ Hk).
  - intros m Hne. split; [done|]. simpl. intros j id [[= -> _ _]|He]%elem_of_cons; done.
Qed.
(** A token's id is burned. *)
Lemma burn_G n jti id t w :
  ft_keys w !! jti_key jti = Some (VText id, t) →
  G n w (record (Burned n jti id) (set_keys (delete (jti_key jti) (ft_keys w)) w)).
Proof.
  intros Hkey. set (w' := record _ _). assert (moves w w') as Hm.
  { split; simpl; [intros i r Hr; exists r; by split|intros s c Hc; exists c; by split| |lia]. intros e He. by right. }
  split_and!; [done| |].
  - intros HJ. pose proof HJ as [A1 A2 A3 A4 A5 A6 A7]. split; simpl; [done| | | | | |].
    + intros m j i [[=]|He]%elem_of_cons. by apply A2.
    + intros j v t' [Hne Hj]%lookup_delete_Some. destruct (A3 _ _ _ Hj) as (m & i & He & ->). exists m, i. split; [by right|done].
    + intros m j i Hin.
      assert (∀ m' i', Burned m' jti i' ∉ ft_history w) as Hno by (intros m' i' Hb; by destruct (A4 _ _ _ Hb) as (_ & ? & _); simplify_eq).
      apply elem_of_cons in Hin as [[= -> -> ->]|He].
      * split_and!; [|by rewrite lookup_delete_eq|].
        -- destruct (A3 _ _ _ Hkey) as (m & i & He & [= ->]). exists m. by right.
        -- intros m' i' [[= -> ->]|Hb]%elem_of_cons; [done|]. by destruct (Hno m' i').
      * destruct (A4 _ _ _ He) as ((n' & Hst) & Hk & Hu). split_and!; [exists n'; by right|by rewrite lookup_delete_None; right|].
        intros m' i' [[= -> -> ->]|Hb]%elem_of_cons; [by destruct (Hno m i)|by eapply Hu].
    + intros m p s [[=]|He]%elem_of_cons. by apply A5 in He.
    + intros n1 n2 p s1 s2 c1 c2 [[=]|H1]%elem_of_cons [[=]|H2]%elem_of_cons. by eapply A6.
    + intros k c t' [_ Hk]%lookup_delete_Some. exact (cache_moves w w' k c t' Hm HJ Hk).
  - intros m Hne. split; [done|]. simpl. by intros j i [[=]|He]%elem_of_cons.
Qed.

(** A relay is provisioned under a new serial. *)
Lemma provision_G n id r r' c w :
  ft_relays w !! id = Some r → terminal (rl_status r) = false → same_relay r r' → terminal (rl_status r') = false → ct_relay c = id →
  ft_certs w !! fd_serial (rnd n) = None →
  G n w (set_certs (<[fd_serial (rnd n) := c]> (ft_certs w)) (put_relay id r' w)).
Proof using Hs.
  intros Hr Ht Hsame Ht' Hc Hnew. set (w' := set_certs _ _). assert (moves w w') as Hm.
  { split; [by apply (row_moves id r r' w w')| |done|done]. intros s c' Hc'. simpl. exists c'. split; [|by split]. rewrite lookup_insert_ne; [done|congruence]. }
  assert (∀ s c', ft_certs w !! s = Some c' → ft_certs w' !! s = Some c') as Hold.
  { intros s c' Hc'. simpl. rewrite lookup_insert_ne; [done|congruence]. }
  split_and!; [done| |].
  - intros HJ. pose proof HJ as [A1 A2 A3 A4 A5 A6 A7]. split; simpl; [| done|done|done| | |].
    + intros i x s c'. rewrite !lookup_insert_Some. intros [[<- <-]|[Hne Hx]] Hx'; [congruence|]. intros [[<- <-]|[_ Hc']] Hi; [congruence|].
      by eapply A1.
    + intros m p s He. destruct (A5 _ _ _ He) as (cp & cs & Hp & Hc' & ? & ?). exists cp, cs. split_and!; try done; by apply Hold.
    + intros n1 n2 p s1 s2 c1 c2 H1 H2. destruct (A5 _ _ _ H1) as (_ & x1 & _ & Hx1 & _), (A5 _ _ _ H2) as (_ & x2 & _ & Hx2 & _).
      rewrite !lookup_insert_ne by congruence. by eapply A6.
    + intros k c' t Hk. exact (cache_moves w w' k c' t Hm HJ Hk).
  - intros m Hne. split; [|done]. simpl. rewrite lookup_insert_ne; [done|]. by intros ?%(fresh_serials Hs).
Qed.

Lemma lookup_supersede now id p issued m s :
  supersede now id p issued m !! s =
  (λ c, if superseded id p issued s c then revoke_cert now (Some supersededRenewalReason) c else c) <$> m !! s.
Proof. unfold supersede. rewrite map_lookup_imap. by destruct (m !! s). Qed.
Lemma superseded_live id p issued s c : superseded id p issued s c = true → ct_revoked c = None.
Proof. unfold superseded. intros H. by bool_simpl. Qed.
(** A certificate is renewed under a new serial. *)
Lemma renew_G n id r p c now na w :
  ft_relays w !! id = Some r → terminal (rl_status r) = false → ft_certs w !! p = Some c → ct_relay c = id → ct_issued c < now →
  ft_certs w !! fd_serial (rnd n) = None →
  G n w (record (Renewed n p (fd_serial (rnd n)))
           (set_certs (<[fd_serial (rnd n) := MkCert id now na None None]> (supersede now id p (ct_issued c) (ft_certs w)))
              (put_relay id (with_cert (fd_serial (rnd n)) na r) w))).
Proof using Hs.
  intros Hr Ht Hp Hid Hlt Hnew. set (w' := record _ _). set (sn := fd_serial (rnd n)) in *.
  assert (∀ s x, ft_certs w !! s = Some x → ∃ x', ft_certs w' !! s = Some x' ∧ same_cert x x') as Hcerts.
  { intros s x Hx. simpl. rewrite lookup_insert_ne by congruence. rewrite lookup_supersede, Hx. simpl. eexists. split; [done|].
    destruct (superseded _ _ _ _ x) eqn:E; [|by split]. apply superseded_live in E. split_and!; try done. rewrite E. by intros []. }
  assert (∀ s x', s ≠ sn → ft_certs w' !! s = Some x' → ct_revoked x' = None → ∃ x, ft_certs w !! s = Some x ∧ ct_revoked x = None ∧
            superseded id p (ct_issued c) s x = false) as Hlive.
  { intros s x' Hne. simpl. rewrite lookup_insert_ne by done. rewrite lookup_supersede. intros (x & Hx & ->)%fmap_Some.
    destruct (superseded _ _ _ _ x) eqn:E; [done|]. by exists x. }
  assert (moves w w') as Hm.
  { split; [by apply (row_moves id r (with_cert sn na r) w w')|done| |done]. intros e He. by right. }
  split_and!; [done| |].
  - intros HJ. pose proof HJ as [A1 A2 A3 A4 A5 A6 A7].
    assert (∀ n1 s1 x, Renewed n1 p s1 ∈ ft_history w → ft_certs w' !! s1 = Some x → ct_revoked x = None → False) as Hkill.
    { intros n1 s1 x He Hx Hl. destruct (A5 _ _ _ He) as (cp & cs & Hcp & Hcs & Hrel & Hiss). simplify_eq.
      destruct (Hlive s1 x ltac:(congruence) Hx Hl) as (y & Hy & Hly & Hsup). simplify_eq. revert Hsup. unfold superseded.
      rewrite (bool_decide_true (ct_revoked _ = None)), (bool_decide_true (ct_relay _ = _)), (proj2 (Z.ltb_lt _ _) Hiss) by done.
      rewrite (bool_decide_false (s1 = p)); [done|]. intros ->. simplify_eq. lia. }
    split.
    + intros i x s x' Hx Hxt Hx' Hi. simpl in Hx. rewrite lookup_insert_Some in Hx. destruct Hx as [[<- <-]|[Hne Hx]]; [simpl in Hxt; congruence|].
      destruct (ct_revoked x') eqn:El; [by eexists|]. exfalso. destruct (decide (s = sn)) as [->|Hns].
      * simpl in Hx'. rewrite lookup_insert_eq in Hx'. simplify_eq/=.
      * destruct (Hlive s x' Hns Hx' El) as (y & Hy & Hly & _). destruct (Hcerts _ _ Hy) as (y' & Hy' & E & _).
        assert (y' = x') as -> by congruence. destruct (A1 i x s y Hx Hxt Hy ltac:(congruence)) as [? ?]. congruence.
    + intros m j i [[=]|He]%elem_of_cons. by apply A2.
    + intros j v t Hk. destruct (A3 _ _ _ Hk) as (m & i & He & ->). exists m, i. split; [by right|done].
    + intros m j i [[=]|He]%elem_of_cons. destruct (A4 _ _ _ He) as ((n' & Hst) & Hk & Hu). split_and!; [exists n'; by right|done|].
      intros m' i' [[=]|Hb]%elem_of_cons. by eapply Hu.
    + intros m q s [[= -> -> ->]|He]%elem_of_cons.
      * destruct (Hcerts _ _ Hp) as (c' & Hc' & E1 & E2 & _). exists c', (MkCert id now na None None). simpl.
        split_and!; [done|by rewrite lookup_insert_eq|congruence|lia].
      * destruct (A5 _ _ _ He) as (cp & cs & Hcp & Hcs & ? & ?). destruct (Hcerts _ _ Hcp) as (cp' & Hcp' & E1 & E2 & _).
        destruct (Hcerts _ _ Hcs) as (cs' & Hcs' & E3 & E4 & _). exists cp', cs'. split_and!; [done|done|congruence|lia].
    + intros n1 n2 q s1 s2 c1 c2 H1 H2 Hc1 Hc2 Hl1 Hl2. apply elem_of_cons in H1 as [H1|H1], H2 as [H2|H2].
      * congruence.
      * exfalso. injection H1 as -> -> ->. by eapply Hkill.
      * exfalso. injection H2 as -> -> ->. by eapply Hkill.
      * destruct (A5 _ _ _ H1) as (_ & x1 & _ & Hx1 & _), (A5 _ _ _ H2) as (_ & x2 & _ & Hx2 & _).
        destruct (Hlive s1 c1 ltac:(congruence) Hc1 Hl1) as (y1 & Hy1 & Hly1 & _).
        destruct (Hlive s2 c2 ltac:(congruence) Hc2 Hl2) as (y2 & Hy2 & Hly2 & _). by eapply A6.
    + intros k c' t Hk. exact (cache_moves w w' k c' t Hm HJ Hk).
  - intros m Hne. split.
    + simpl. intros Hn. rewrite lookup_insert_ne; [|by intros ?%(fresh_serials Hs)]. by rewrite lookup_supersede, Hn.
    + simpl. by intros j i [[=]|He]%elem_of_cons.
Qed.

(** A relay and its certificates are revoked. *)
Lemma revoke_G n id r status reason now audit w :
  ft_relays w !! id = Some r → terminal status = true →
  G n w (log_audit audit (set_certs (revoke_all now reason id (ft_certs w)) (put_relay id (with_status status r) w))).
Proof.
  intros Hr Ht. set (w' := log_audit _ _).
  assert (∀ s x', ft_certs w' !! s = Some x' → ∃ x, ft_certs w !! s = Some x ∧ same_cert x x' ∧ (ct_relay x = id → is_Some (ct_revoked x'))) as Hback.
  { intros s x'. simpl. unfold revoke_all. rewrite lookup_fmap. intros (x & Hx & ->)%fmap_Some. exists x. split; [done|].
    case_bool_decide as E1; simpl; [case_bool_decide as E2; simpl|].
    - split; [split_and!; try done; rewrite E2; by intros []|]. by eexists.
    - split; [by split|]. intros _. by apply not_eq_None_Some.
    - by split. }
  assert (∀ s x, ft_certs w !! s = Some x → ∃ x', ft_certs w' !! s = Some x' ∧ same_cert x x') as Hcerts.
  { intros s x Hx. destruct (ft_certs w' !! s) as [x'|] eqn:E.
    - destruct (Hback _ _ E) as (y & Hy & Hsame & _). simplify_eq. by exists x'.
    - simpl in E. unfold revoke_all in E. by rewrite lookup_fmap, Hx in E. }
  assert (moves w w') as Hm.
  { split; [|done|done|done]. apply (row_moves id r (with_status status r) w w'); [done..|]. split_and!; [done|done|]. by intros _. }
  split_and!; [done| |intros m _; split; [|done]].
  - intros HJ. pose proof HJ as [A1 A2 A3 A4 A5 A6 A7]. split; [|done|done|done| | |].
    + intros i x s x' Hx Hxt Hx' Hi. destruct (Hback _ _ Hx') as (y & Hy & (E1 & _ & _ & E4) & Hrev). simpl in Hx.
      rewrite lookup_insert_Some in Hx. destruct Hx as [[<- <-]|[Hne Hx]]; [by apply Hrev; congruence|].
      assert (is_Some (ct_revoked y)) as Hy' by (eapply A1; [done..|congruence]). by rewrite E4.
    + intros m p s He. destruct (A5 _ _ _ He) as (cp & cs & Hp & Hc & ? & ?).
      destruct (Hcerts _ _ Hp) as (cp' & Hp' & E1 & E2 & _), (Hcerts _ _ Hc) as (cs' & Hc' & E3 & E4 & _). exists cp', cs'.
      split_and!; [done|done|congruence|lia].
    + intros n1 n2 p s1 s2 c1 c2 H1 H2 Hc1 Hc2 Hl1 Hl2.
      destruct (Hback _ _ Hc1) as (y1 & Hy1 & (_ & _ & _ & E1) & _), (Hback _ _ Hc2) as (y2 & Hy2 & (_ & _ & _ & E2) & _).
      eapply A6; [done..| |]; [destruct (ct_revoked y1) eqn:E|destruct (ct_revoked y2) eqn:E]; try done; exfalso.
      * rewrite E1 in Hl1 by done. congruence.
      * rewrite E2 in Hl2 by done. congruence.
    + intros k c t Hk. exact (cache_moves w w' k c t Hm HJ Hk).
  - simpl. unfold revoke_all. rewrite lookup_fmap. by intros ->.
Qed.

(** A renewal is cached. *)
Lemma cache_G n m id p c t w :
  colon ∉ bytes id → Renewed m p (lf_serial (cr_cert c)) ∈ ft_history w → good_leaf (cr_cert c) w →
  G n w (set_keys (<[renewalKey relayRenewResultPrefix id p := (VRenewal c, t)]> (ft_keys w)) w).
Proof.
  intros Hid He Hg. split_and!; [split; simpl; [intros i r Hr; exists r; by split|intros s c' Hc; exists c'; by split|done|lia]| |by intros m' _].
  intros HJ. pose proof HJ as [A1 A2 A3 A4 A5 A6 A7]. split; simpl; try done.
  - intros j v t'. rewrite lookup_insert_Some. intros [[[=] _]|[_ Hk]]. by eapply A3.
  - intros m' j i Hb. destruct (A4 _ _ _ Hb) as (? & Hk & ?). split_and!; [done|by rewrite lookup_insert_ne|done].
  - intros k c' t'. rewrite lookup_insert_Some. intros [[<- [= <- <-]]|[_ Hk]]; [by exists m, id, p|]. by eapply A7.
Qed.

(** ** Programs whose actions need no knowledge *)

Section quiet.
Context (X : fleet → fleet → Prop) (HX : ∀ w w', quiet w w' → X w w').
Lemma quiet_keys w m :
  (∀ k v t, m !! k = Some (v, t) → ft_keys w !! k = Some (v, t) ∨ (other_key k ∧ plain_value v)) → quiet w (set_keys m w).
Proof. intros Hm. by split_and!. Qed.
Lemma quiet_insert w k v t : other_key k → plain_value v → quiet w (set_keys (<[k := (v, t)]> (ft_keys w)) w).
Proof. intros Hk Hv. apply quiet_keys. intros k' v' t'. rewrite lookup_insert_Some. intros [[<- [= <- <-]]|[_ Hk']]; [by right|by left]. Qed.
Lemma guar_rquery {A} (f : fleet → result rerror A) : pguar X (rquery f).
Proof using HX. apply pguar_bind; [apply pguar_call; intros w; apply HX, quiet_refl'|done]. Qed.
Lemma guar_rclock : pguar X rclock.
Proof using HX. apply pguar_atom. intros w. apply HX, quiet_refl'. Qed.
Lemma guar_look {A} (f : fleet → A) : pguar X (atom (λ w, (f w, w))).
Proof using HX. apply pguar_atom. intros w. apply HX, quiet_refl'. Qed.
Lemma guar_ping : pguar X ping.
Proof using HX. apply pguar_call. intros w. apply HX, quiet_refl'. Qed.
Lemma guar_vget k : pguar X (vget k).
Proof using HX. apply pguar_call. intros w. apply HX, quiet_refl'. Qed.
Lemma guar_vset k v ttl : other_key k → plain_value v → pguar X (vset k v ttl).
Proof using HX. intros Hk Hv. apply pguar_call. intros w. by apply HX, quiet_insert. Qed.
Lemma guar_vdel k : pguar X (vdel k).
Proof using HX. apply pguar_call. intros w. apply HX, quiet_keys. intros k' v t [_ Hk]%lookup_delete_Some. by left. Qed.
Lemma guar_vsetnx k v ttl : other_key k → plain_value v → pguar X (vsetnx k v ttl).
Proof using HX. intros Hk Hv. apply pguar_call. intros w. case_bool_decide; simpl; [apply HX, quiet_refl'|by apply HX, quiet_insert]. Qed.
Lemma guar_announce id : pguar X (announce id).
Proof using HX. apply pguar_atom. intros w. apply HX. split_and!; try done. by left. Qed.
Lemma guar_Refresh : pguar X Refresh.
Proof using HX.
  apply pguar_bind; [apply guar_rquery|]. intros [serials|]; [|done]. apply pguar_atom. intros w. apply HX. split_and!; try done. by left.
Qed.
Lemma other_last id : other_key (relayHeartbeatLastPrefix +:+ id). Proof. by intros j. Qed.
Lemma other_marker id : other_key (relayHeartbeatDBWritePrefix +:+ id). Proof. by intros j. Qed.
Lemma other_metadata id : other_key (relayHeartbeatMetadataPrefix +:+ id). Proof. by intros j. Qed.
Lemma other_draining id : other_key (relayHeartbeatDrainingPrefix +:+ id). Proof. by intros j. Qed.
Lemma other_lock id p : other_key (renewalKey relayRenewLockPrefix id p). Proof. by intros j. Qed.
End quiet.
Create HintDb rel discriminated.
#[local] Hint Resolve guar_rquery guar_rclock guar_look guar_ping guar_vget guar_vset guar_vdel guar_vsetnx guar_announce guar_Refresh
  other_last other_marker other_metadata other_draining other_lock quiet_G quiet_R : rel.
#[local] Hint Extern 1 (plain_value _) => exact I : rel.
#[local] Hint Extern 1 (pguar _ (Done _)) => exact I : rel.

(** Split a program into its parts. *)
Ltac guar_steps :=
  repeat first
    [ progress (cbv beta iota zeta)
    | match goal with |- pguar _ (pbind _ _) => apply pguar_bind; [|intros ?] end
    | match goal with |- pguar _ (match ?x with _ => _ end) => destruct x eqn:? end
    | solve [eauto 3 with rel] ].

Section each.
Context (n : nat).
Lemma guar_rexec {A} (f : fleet → result rerror A * fleet) : (∀ w, G n w (f w).2) → pguar (G n) (rexec f).
Proof. intros Hf. apply pguar_bind; [by apply pguar_call|done]. Qed.
Lemma guar_in_tx {A} (f : time → fleet → result rerror A * fleet) : (∀ now w, G n w (f now w).2) → pguar (G n) (in_tx f).
Proof. intros Hf. apply pguar_bind; [auto with rel|]. intros now. apply guar_rexec. auto. Qed.
Lemma find_relay_Ok raw w id r : find_relay pg_uuid raw w = Ok (id, r) → pg_uuid raw = Some id ∧ ft_relays w !! id = Some r.
Proof. unfold find_relay. intros H. by repeat case_match; simplify_eq. Qed.
Lemma same_status r r' : rl_dns r' = rl_dns r → rl_ip r' = rl_ip r → terminal (rl_status r') = terminal (rl_status r) → same_relay r r'.
Proof. intros ? ? E. split_and!; [done..|]. by rewrite E. Qed.
Lemma put_G id r r' w :
  ft_relays w !! id = Some r → rl_dns r' = rl_dns r → rl_ip r' = rl_ip r → terminal (rl_status r') = terminal (rl_status r) →
  G n w (put_relay id r' w).
Proof. intros Hr Hd Hi Ht. by eapply row_G; [exact Hr|reflexivity|apply same_status|..]. Qed.
Lemma put_audit_G id r r' e w :
  ft_relays w !! id = Some r → rl_dns r' = rl_dns r → rl_ip r' = rl_ip r → terminal (rl_status r') = terminal (rl_status r) →
  G n w (log_audit e (put_relay id r' w)).
Proof. intros Hr Hd Hi Ht. by eapply row_G; [exact Hr|reflexivity|apply same_status|..]. Qed.
Lemma same_G w : G n w w.
Proof. apply quiet_G, quiet_refl'. Qed.

Lemma guar_RecordHeartbeat raw p measured : pguar (G n) (RecordHeartbeat pg_uuid raw p measured).
Proof.
  apply guar_in_tx. intros now w. destruct (find_relay _ _ _) as [[id r]|] eqn:E; [|apply same_G]. destruct (terminal _) eqn:Et; [apply same_G|].
  apply find_relay_Ok in E as [_ E]. by eapply put_G; [exact E|..].
Qed.
Lemma guar_Evaluate raw hold : pguar (G n) (EvaluateCapacityLabel pg_uuid raw hold).
Proof.
  apply guar_in_tx. intros now w. destruct (find_relay _ _ _) as [[id r]|] eqn:E; [|apply same_G]. case_bool_decide; [apply same_G|].
  apply find_relay_Ok in E as [_ E]. by eapply put_G; [exact E|..].
Qed.
Lemma guar_RefreshLast id seen : pguar (G n) (RefreshLastHeartbeat id seen).
Proof.
  apply guar_rexec. intros w. simpl. destruct (ft_relays w !! id) as [r|] eqn:E; [|apply same_G]. destruct (_ && _); [|apply same_G].
  by eapply put_G; [exact E|..].
Qed.
Lemma evict_rows_keep ids before m out m' :
  evict_rows ids before m = (out, m') →
  (∀ id r, m !! id = Some r → ∃ r', m' !! id = Some r' ∧ rl_dns r' = rl_dns r ∧ rl_ip r' = rl_ip r ∧ terminal (rl_status r') = terminal (rl_status r)) ∧
  (∀ id r', m' !! id = Some r' → ∃ r, m !! id = Some r ∧ terminal (rl_status r') = terminal (rl_status r)).
Proof.
  revert m out m'. induction ids as [|id ids IH]; intros m out m'; simpl; [intros [= _ <-]; split; eauto|].
  destruct (m !! id) as [r|] eqn:Hr; [|by apply IH]. destruct ((rl_status r ≟ "active") && _) eqn:Eb; [|by apply IH].
  apply andb_true_iff in Eb as [Ea%bool_decide_eq_true_1 _].
  destruct (evict_rows ids before _) as [o m1] eqn:Ee. intros [= _ <-]. destruct (IH _ _ _ Ee) as [H1 H2].
  assert (terminal (rl_status (with_status "inactive" r)) = terminal (rl_status r)) as Hst by (by rewrite Ea). split.
  - intros i x Hx. destruct (decide (i = id)) as [->|Hne].
    + assert (x = r) as -> by congruence. destruct (H1 id (with_status "inactive" r)) as (x' & ? & ? & ? & ?); [by rewrite lookup_insert_eq|].
      exists x'. split_and!; try done. congruence.
    + destruct (H1 i x) as (x' & ?); [by rewrite lookup_insert_ne|]. by exists x'.
  - intros i x' Hx'. destruct (H2 i x' Hx') as (x & Hx & Ht). rewrite lookup_insert_Some in Hx. destruct Hx as [[<- <-]|[Hne Hx]].
    + exists r. split; [done|]. congruence.
    + by exists x.
Qed.
Lemma guar_Evict ids before : pguar (G n) (EvictRelays ids before).
Proof.
  unfold EvictRelays. case_bool_decide; [done|]. apply guar_rexec. intros w. destruct (evict_rows _ _ _) as [out m] eqn:E. simpl.
  destruct (evict_rows_keep _ _ _ _ _ E) as [H1 H2]. apply rows_G; try done; simpl.
  - intros id r Hr. destruct (H1 _ _ Hr) as (r' & ? & ? & ? & ?). exists r'. split; [done|by apply same_status].
  - intros id r' Hr' Ht. destruct (H2 _ _ Hr') as (r & ? & Et). exists r. split; [done|congruence].
Qed.
Lemma guar_DrainRelay raw e : pguar (G n) (DrainRelay pg_uuid raw e).
Proof.
  apply guar_rexec. intros w. repeat case_match; try apply same_G. simpl. by eapply put_audit_G.
Qed.
Lemma guar_ResumeRelay raw e : pguar (G n) (ResumeRelay pg_uuid raw e).
Proof.
  apply guar_rexec. intros w. destruct (find_relay _ _ _) as [[id r]|] eqn:E; [|apply same_G]. repeat case_match; try apply same_G.
  apply find_relay_Ok in E as [_ E]. simpl. by eapply put_audit_G.
Qed.
Lemma guar_Revoke raw reason guard after e :
  (∀ name status, guard name status = None → terminal (after status) = true) →
  pguar (G n) (RevokeRelayGuarded pg_uuid raw reason guard after e).
Proof.
  intros Ha. apply guar_in_tx. intros now w. destruct (find_relay _ _ _) as [[id r]|] eqn:E; [|apply same_G].
  destruct (guard _ _) eqn:Eg; [apply same_G|]. apply find_relay_Ok in E as [_ E]. simpl. eapply revoke_G; [exact E|by eapply Ha].
Qed.
End each.
#[local] Hint Resolve guar_RecordHeartbeat guar_Evaluate guar_RefreshLast guar_Evict guar_DrainRelay guar_ResumeRelay same_G : rel.

Definition no_cert (a : answer) : Prop := match a with Certificate _ => False | _ => True end.
Ltac answer_steps :=
  repeat first
    [ exact I
    | progress (cbv beta iota zeta)
    | match goal with |- answers _ (pbind _ _) => apply answers_bind; intros ? end
    | match goal with |- answers _ (match ?x with _ => _ end) => destruct x eqn:? end
    | match goal with |- answers _ (Done (match ?x with _ => _ end)) => destruct x eqn:? end ].

Section handlers.
Context (n : nat).
Lemma guar_cache id p : pguar (G n) (cacheRelayHeartbeat dbWriteInterval id p).
Proof. unfold cacheRelayHeartbeat, drainingFlagSet. guar_steps. Qed.
Lemma guar_mark id : pguar (G n) (markRelayHeartbeatDBWritten dbWriteInterval id).
Proof. unfold markRelayHeartbeatDBWritten. guar_steps. Qed.
#[local] Hint Resolve guar_cache guar_mark : rel.
Lemma guar_Heartbeat l q : pguar (G n) (Heartbeat uuid_parse pg_uuid labelHoldDown dbWriteInterval allowPrivate l q).
Proof. unfold Heartbeat, record_heartbeat. guar_steps. Qed.
Lemma answers_Heartbeat l q : answers no_cert (Heartbeat uuid_parse pg_uuid labelHoldDown dbWriteInterval allowPrivate l q).
Proof. unfold Heartbeat, record_heartbeat. answer_steps. Qed.

Lemma guar_LastHeartbeat id : pguar (G n) (LastHeartbeat id).
Proof. unfold LastHeartbeat. guar_steps. Qed.
Lemma guar_Clear id : pguar (G n) (ClearHeartbeatThrottle id).
Proof. unfold ClearHeartbeatThrottle. guar_steps. Qed.
#[local] Hint Resolve guar_LastHeartbeat guar_Clear : rel.
Lemma guar_dead ids t : pguar (G n) (dead_relays ids t).
Proof. induction ids; cbn [dead_relays]; guar_steps. Qed.
Lemma guar_evicted ids : pguar (G n) (announce_evicted ids).
Proof. induction ids; cbn [announce_evicted]; guar_steps. Qed.
#[local] Hint Resolve guar_dead guar_evicted : rel.
Lemma guar_runEviction expiry : pguar (G n) (runEviction expiry).
Proof. unfold runEviction. guar_steps. Qed.
Lemma guar_marks ids : pguar (G n) (mark_all ids).
Proof. induction ids; cbn [mark_all]; unfold MarkDraining; guar_steps. Qed.
#[local] Hint Resolve guar_marks : rel.
Lemma guar_Reconcile : pguar (G n) ReconcileDrainFlags.
Proof. unfold ReconcileDrainFlags. guar_steps. Qed.

Lemma guar_authorize actor path action k : (∀ id, pguar (G n) (k id)) → pguar (G n) (authorizeRelayAction uuid_parse actor path action k).
Proof. intros Hk. unfold authorizeRelayAction. guar_steps. Qed.
Lemma guard_terminal action confirm name status :
  destructive_guard action confirm name status = None →
  terminal (if action ≟ ActionRelayDelete then "deleted" else if status ≟ "deleted" then status else "revoked") = true.
Proof. unfold destructive_guard. case_bool_decide; [done|]. intros _. by case_bool_decide. Qed.
Lemma guar_destructive action actor path body remote :
  pguar (G n) (destructive uuid_parse pg_uuid action actor path body remote).
Proof.
  apply guar_authorize. intros id. guar_steps. apply guar_Revoke. intros name status. apply guard_terminal.
Qed.
Lemma guar_finish id draining r : pguar (G n) (finishDrainChange id draining r).
Proof. unfold finishDrainChange, MarkDraining, ClearDraining. guar_steps. Qed.
#[local] Hint Resolve guar_finish : rel.
Lemma guar_Drain actor path body remote : pguar (G n) (Drain uuid_parse pg_uuid actor path body remote).
Proof. apply guar_authorize. intros id. guar_steps. Qed.
Lemma guar_Resume actor path body remote : pguar (G n) (Resume uuid_parse pg_uuid actor path body remote).
Proof. apply guar_authorize. intros id. guar_steps. Qed.
Lemma answers_destructive action actor path body remote : answers no_cert (destructive uuid_parse pg_uuid action actor path body remote).
Proof. unfold destructive, authorizeRelayAction, admin_error. answer_steps. Qed.
Lemma answers_Drain actor path body remote : answers no_cert (Drain uuid_parse pg_uuid actor path body remote).
Proof. unfold Drain, authorizeRelayAction, finishDrainChange, admin_error. answer_steps. Qed.
Lemma answers_Resume actor path body remote : answers no_cert (Resume uuid_parse pg_uuid actor path body remote).
Proof. unfold Resume, authorizeRelayAction, finishDrainChange, admin_error. answer_steps. Qed.
End handlers.

(** ** Programs that use what they know *)

Section knowing.
Context (n : nat).
Abbreviation rely p w Q := (prely (R n) (G n) p w Q).

Lemma rely_guar (p : procF answer) w (Q : answer → fleet → Prop) :
  pguar (G n) p → answers no_cert p → (∀ a w, no_cert a → Q a w) → rely p w Q.
Proof.
  intros Hg Ha HQ. revert w Hg Ha. induction p as [a|u k IH|k IH]; intros w; simpl; [auto|..]; intros Hg Ha; [|auto].
  intros w' _. destruct (Hg w'). auto.
Qed.
Lemma rely_quiet {A B} (P : A → Prop) (m : procF A) (k : A → procF B) w Q :
  pguar quiet m → answers P m → (∀ a w', R n w w' → P a → rely (k a) w' Q) → rely (pbind m k) w Q.
Proof.
  revert w. induction m as [a|u m' IH|m' IH]; intros w; simpl; intros Hm Ha Hk; [apply Hk; [reflexivity|done]| |auto].
  intros w' HR. destruct (Hm w') as [Hq Hm']. split; [by apply quiet_G|]. apply IH; [done|done|]. intros a w'' HR'. apply Hk.
  etrans; [exact HR|]. etrans; [by apply quiet_R|done].
Qed.
Lemma answers_True {A} (p : procF A) : answers (λ _, True) p.
Proof. induction p; simpl; auto. Qed.
Lemma rely_skip {A B} (m : procF A) (k : A → procF B) w Q :
  pguar quiet m → (∀ a w', R n w w' → rely (k a) w' Q) → rely (pbind m k) w Q.
Proof. intros Hm Hk. eapply rely_quiet; [done|apply answers_True|]. auto. Qed.
Lemma rely_clock {B} (k : time → procF B) w Q : (∀ w', R n w w' → rely (k (ft_clock w')) w' Q) → rely (pbind rclock k) w Q.
Proof. intros Hk w' HR. split; [apply same_G|]. by apply Hk. Qed.
Lemma rely_call {A B} (f : fleet → A * fleet) (k : option A → procF B) w Q :
  (∀ w', R n w w' → G n w' (f w').2 ∧ rely (k (Some (f w').1)) (f w').2 Q ∧ rely (k None) (f w').2 Q) →
  (∀ w', R n w w' → rely (k None) w' Q) → rely (pbind (call f) k) w Q.
Proof.
  intros Hf Hn [| |]; simpl; [..|intros w' HR]; [intros w' HR|apply Hn; reflexivity|]; destruct (Hf w' HR) as (HG & H1 & H2); done.
Qed.
Lemma rely_exec {A B} (f : fleet → result rerror A * fleet) (k : result rerror A → procF B) w Q :
  (∀ w', R n w w' → G n w' (f w').2 ∧ rely (k (f w').1) (f w').2 Q ∧ rely (k (Err errRelay)) (f w').2 Q) →
  (∀ w', R n w w' → rely (k (Err errRelay)) w' Q) → rely (pbind (rexec f) k) w Q.
Proof.
  intros Hf Hn [| |]; simpl; [..|intros w' HR]; [intros w' HR|apply Hn; reflexivity|]; destruct (Hf w' HR) as (HG & H1 & H2); done.
Qed.
Lemma rely_query {A B} (f : fleet → result rerror A) (k : result rerror A → procF B) w Q :
  (∀ w', R n w w' → rely (k (f w')) w' Q) → (∀ w', R n w w' → rely (k (Err errRelay)) w' Q) → rely (pbind (rquery f) k) w Q.
Proof. intros Hf Hn. apply rely_exec; [|done]. intros w' HR. split_and!; [apply same_G|by apply Hf|by apply Hn]. Qed.
Lemma rely_done {A} (a : A) w (Q : A → fleet → Prop) : (∀ w', R n w w' → Q a w') → rely (Done a) w Q.
Proof. done. Qed.

(** What the thread knows of itself. *)
Definition K (w : fleet) : Prop := J w ∧ unused n w.
Lemma K_R w w' : R n w w' → K w → K w'.
Proof. intros (_ & HJ & Hc & Hst) (HJw & Hn & Hst'). split; [auto|]. split; [auto|]. intros j id He. by eapply Hst', Hst. Qed.
Lemma R_moves w w' : R n w w' → moves w w'.
Proof. by intros (Hm & _). Qed.

Lemma create_G id r e w : ft_relays w !! id = None → terminal (rl_status r) = false → G n w (log_audit e (put_relay id r w)).
Proof.
  intros Hn Ht. apply rows_G; try done; simpl.
  - intros i x Hx. exists x. split; [|by split]. rewrite lookup_insert_ne; [done|congruence].
  - intros i x. rewrite lookup_insert_Some. intros [[<- <-]|[_ Hx]] Hxt; [congruence|by exists x].
Qed.
(** Answer without a certificate. *)
Ltac refuse := apply rely_done; intros ? _; first [exact I | match goal with HQ : ∀ a w, no_cert a → _ |- _ => apply HQ; exact I end].
Lemma rely_Create actor body remote w (Q : answer → fleet → Prop) :
  K w → (∀ a w, no_cert a → Q a w) → rely (Create lower sign n (rnd n) actor body remote) w Q.
Proof using Hs.
  intros HK HQ. unfold Create. destruct (decide_action _ _); cbn [negb]; [|refuse].
  destruct body as [[[name dns] ips]|]; [|refuse]. case_match; [refuse|].
  destruct (validateDNSSANs _ _ _) as [dns'|]; [|refuse]. destruct (validateIPSANs _ _) as [ips'|]; [|refuse].
  apply rely_skip; [auto with rel|]. intros [[]|] w1 HR1; [|refuse]. unfold CreateRelayAudited.
  eapply prely_bind; [apply _|]. apply rely_clock. intros w2 HR2. apply rely_query; [|intros w3 HR3 w4 HR4; refuse].
  intros w3 HR3. case_bool_decide; [intros w4 HR4; refuse|]. apply rely_clock. intros w4 HR4.
  destruct (sign _) as [token|]; [|intros w5 HR5; refuse]. unfold StoreProvisioningJTI.
  assert (K w4) as HK4 by (do 4 (eapply K_R; [eassumption|]); done).
  apply rely_call; [|intros w5 HR5 w6 HR6; refuse]. intros w5 HR5. pose proof (K_R _ _ HR5 HK4) as (_ & _ & Hun). cbn [fst snd].
  split_and!; [by apply store_G| |intros w6 HR6; refuse].
  apply rely_exec; [|intros w6 HR6 w7 HR7; apply rely_guar; [guar_steps|answer_steps|done]].
  intros w6 HR6. case_bool_decide as Eid; cbn [fst snd]; (split_and!; [|intros w7 HR7; cbv beta iota..]).
  - apply same_G.
  - apply rely_guar; [guar_steps|answer_steps|done].
  - apply rely_guar; [guar_steps|answer_steps|done].
  - apply create_G; [|done]. by apply eq_None_not_Some.
  - refuse.
  - apply rely_guar; [guar_steps|answer_steps|done].
Qed.

(** *** Certificates *)

Lemma rely_in_tx {A B} (f : time → fleet → result rerror A * fleet) (k : result rerror A → procF B) w Q :
  (∀ now w', R n w w' → ft_clock w <= now →
     G n w' (f now w').2 ∧ rely (k (f now w').1) (f now w').2 Q ∧ rely (k (Err errRelay)) (f now w').2 Q) →
  (∀ w', R n w w' → rely (k (Err errRelay)) w' Q) → rely (pbind (in_tx f) k) w Q.
Proof.
  intros Hf Hn w1 HR1. split; [apply same_G|].
  assert (∀ w', R n w1 w' → R n w w') as Ht by (intros w' HR; by etrans). pose proof (mv_clock _ _ (R_moves _ _ HR1)) as Hc.
  intros [| |]; simpl; [..|intros w' HR]; [intros w' HR|apply Hn, Ht; reflexivity|];
    destruct (Hf (ft_clock w1) w' (Ht _ HR) Hc) as (HG & H1 & H2); done.
Qed.
(** The row still has the lists that were read. *)
Definition row_known (id : uuid) (row : RelayRow) (w : fleet) : Prop :=
  ∃ r, ft_relays w !! id = Some r ∧ rl_dns r = rl_dns row ∧ rl_ip r = rl_ip row.
Lemma row_known_moves id row w w' : moves w w' → row_known id row w → row_known id row w'.
Proof.
  intros Hm (r & Hr & Hd & Hi). destruct (mv_relays _ _ Hm _ _ Hr) as (r' & Hr' & Hd' & Hi' & _). exists r'. split_and!; [done|congruence..].
Qed.
Lemma validate_SANs id csr names ips : validateRelayCSR uuid_parse id csr names ips = true → cs_dns csr ⊆ names ∧ cs_ips csr ⊆ ips.
Proof.
  unfold validateRelayCSR. intros [[_ Hd]%andb_true_iff Hi]%andb_true_iff. rewrite forallb_forall in Hd, Hi.
  split; intros x Hx; apply list_elem_of_In in Hx; [apply Hd in Hx|apply Hi in Hx]; by apply bool_decide_eq_true in Hx.
Qed.
Lemma rely_Sign {B} id csr names ips (k : option RelayCertResult → procF B) w Q :
  (∀ w', R n w w' → rely (k None) w' Q) →
  (∀ now w', R n w w' → cs_dns csr ⊆ names → cs_ips csr ⊆ ips →
     rely (k (Some (MkResult (MkLeaf id (fd_serial (rnd n)) (numeric_date (now + certTTL)) (cs_key csr) (cs_dns csr) (cs_ips csr))
                      (now - Hour) (now + certTTL)))) w' Q) →
  rely (pbind (SignRelayCert uuid_parse certTTL (rnd n) id csr names ips) k) w Q.
Proof.
  intros Hn Hk. unfold SignRelayCert. destruct (validateRelayCSR _ _ _ _ _) eqn:E; cbn [negb]; [|apply Hn; reflexivity].
  apply validate_SANs in E as [Hd Hi]. eapply prely_bind; [apply _|]. apply rely_clock. intros w1 HR1.
  apply rely_skip; [auto with rel|]. intros [[]|] w2 HR2 w3 HR3; [apply Hk|apply Hn]; try done; etrans; [exact HR1| |exact HR1|]; by etrans.
Qed.
Lemma add_cert_new s c m : m !! s = None → add_cert s c m = <[s := c]> m.
Proof. unfold add_cert. by intros ->. Qed.

Definition provisioned (a : answer) (w : fleet) : Prop :=
  match a with Certificate l => good_leaf l w ∧ ∃ j, Burned n j (lf_id l) ∈ ft_history w | _ => True end.
Lemma rely_sign_and_record id csr allow row version hostname j w :
  pg_uuid id = Some id → K w → row_known id row w → newRelaySANAllowlist lower (rl_dns row) (rl_ip row) = Some allow →
  Burned n j id ∈ ft_history w →
  rely (sign_and_record uuid_parse pg_uuid certTTL (rnd n) id csr allow version hostname) w provisioned.
Proof using Hs.
  intros Hpg HK Hrow Ha Hb. unfold sign_and_record. apply rely_Sign; [intros w1 _; refuse|].
  intros now w1 HR1 Hd Hi. unfold MarkProvisioned. apply rely_in_tx; [|intros w2 _; refuse]. intros now' w2 HR2 _. cbn [rc_not_after rc_leaf].
  assert (R n w w2) as HR by (by etrans). pose proof (K_R _ _ HR HK) as (_ & Hnew & _). pose proof (R_moves _ _ HR) as Hm.
  destruct (row_known_moves _ _ _ _ Hm Hrow) as (r & Hr & Hrd & Hri). unfold find_relay. rewrite Hpg, Hr.
  destruct (terminal (rl_status r)) eqn:Et; cbn [fst snd]; [split_and!; [apply same_G|refuse|refuse]|]. rewrite add_cert_new by done.
  split_and!; [apply (provision_G n id r); try done; by apply same_status; rewrite ?Et| |refuse].
  apply rely_done. intros w3 HR3. pose proof (R_moves _ _ HR3) as Hm3. split.
  - eapply good_leaf_moves; [exact Hm3|]. eexists _, _, allow. simpl. rewrite !lookup_insert_eq. split_and!; try done. simpl. congruence.
  - exists j. apply (mv_history _ _ Hm3). simpl. by apply (mv_history _ _ Hm).
Qed.
Lemma live_key_Some k w v : live_key k w = Some v → ∃ t, ft_keys w !! k = Some (v, t).
Proof. unfold live_key. destruct (ft_keys w !! k) as [[v' t]|]; [|done]. case_match; [|done]. intros [= ->]. by exists t. Qed.
Lemma rely_burn_and_sign id csr allow row version hostname jti w :
  pg_uuid id = Some id → K w → row_known id row w → newRelaySANAllowlist lower (rl_dns row) (rl_ip row) = Some allow →
  rely (burn_and_sign uuid_parse pg_uuid certTTL n (rnd n) jti id csr allow version hostname) w provisioned.
Proof using Hs.
  intros Hpg HK Hrow Ha. unfold burn_and_sign, BurnProvisioningJTI. apply rely_call; [|intros w1 _; refuse]. intros w1 HR1.
  pose proof (K_R _ _ HR1 HK) as HK1. destruct (live_key _ w1) as [v|] eqn:E; [|cbn [fst snd]; split_and!; [apply same_G|refuse|refuse]].
  apply live_key_Some in E as (t & E). destruct HK1 as (HJ1 & Hnew & Hun). destruct (J_key _ HJ1 _ _ _ E) as (m & id' & _ & ->). cbn [fst snd].
  pose proof (burn_G n jti id' t w1 E) as HG. split_and!; [done| |refuse]. case_bool_decide as Eid; cbn [negb]; [|refuse]. subst id'.
  eapply rely_sign_and_record; [done| | |exact Ha|simpl; by left].
  - split; [by apply HG|]. split; [done|]. simpl. intros j i [[=]|Hx]%elem_of_cons. by eapply Hun.
  - apply (row_known_moves id row w1); [apply HG|]. eapply row_known_moves; [by apply R_moves|done].
Qed.
Lemma canonical_Some raw id : canonicalRelayID uuid_parse raw = Some id → raw = id ∧ uuid_parse id = Some id.
Proof. unfold canonicalRelayID. case_bool_decide; intros [= <-]. done. Qed.
Lemma rely_Provision q w : K w → rely (Provision lower uuid_parse pg_uuid signed certTTL n (rnd n) q) w provisioned.
Proof using Hs.
  intros HK. unfold Provision. destruct (canonicalRelayID _ _) as [id|] eqn:Eid; [|refuse]. apply canonical_Some in Eid as [_ Eid].
  pose proof (pg_agrees Hs _ Eid) as Hpg. repeat (case_match; try refuse). apply rely_clock. intros w1 HR1.
  destruct (VerifyProvisioningToken _ _ _) as [claims|]; [|refuse]. case_match; [refuse|]. unfold LoadRelayByID.
  apply rely_query; [|intros w2 _; refuse]. intros w2 HR2. destruct (find_relay _ _ _) as [[id' row]|e] eqn:Ef; [|destruct e; refuse].
  apply find_relay_Ok in Ef as [Epg Hrow]. assert (id' = id) as -> by congruence. case_match; [refuse|].
  destruct (newRelaySANAllowlist _ _ _) as [allow|] eqn:Ea; [|refuse]. case_match; [refuse|].
  eapply rely_burn_and_sign; [done|by do 2 (eapply K_R; [eassumption|])|by exists row|done].
Qed.

(** *** Renewals *)

Lemma renewalKey_inj prefix id id' p p' :
  colon ∉ bytes id → colon ∉ bytes id' → renewalKey prefix id p = renewalKey prefix id' p' → id = id' ∧ p = p'.
Proof.
  unfold renewalKey. intros H H' E%(f_equal bytes). rewrite !bytes_app in E. apply app_inj_1 in E as [_ E]; [|done].
  apply (split_at colon) in E as [E1 E2]; [|done..]. by split; apply bytes_inj.
Qed.
Definition renewed (l : leaf) (a : answer) (w : fleet) : Prop :=
  match a with Certificate l' => good_leaf l' w ∧ ∃ m, Renewed m (lf_serial l) (lf_serial l') ∈ ft_history w | _ => True end.
Lemma renewed_moves l a w w' : moves w w' → renewed l a w → renewed l a w'.
Proof.
  intros Hm. destruct a as [|l'| | | | |]; simpl; try done. intros (Hg & m & He). split; [by eapply good_leaf_moves|].
  exists m. by apply (mv_history _ _ Hm).
Qed.
Lemma rely_cached {B} id l key (k : option leaf → procF B) w Q :
  colon ∉ bytes id → K w → (∀ w', R n w w' → rely (k None) w' Q) →
  (∀ l' w', R n w w' → renewed l (Certificate l') w' → rely (k (Some l')) w' Q) →
  rely (pbind (cachedRenewal_of pg_uuid id (lf_serial l) key) k) w Q.
Proof.
  intros Hc HK Hn Hk. unfold cachedRenewal_of. eapply prely_bind; [apply _|].
  assert (∀ w', R n w w' → rely (Done None) w' (λ a w'0, prely (R n) (G n) (k a) w'0 Q)) as Hnone.
  { intros w' HR w'' HR'. apply Hn. by etrans. }
  unfold vget. apply rely_call; [|intros w1 HR1; by apply Hnone]. intros w1 HR1. cbn [fst snd]. split_and!; [apply same_G| |by apply Hnone].
  destruct (live_key _ w1) as [[| |c]|] eqn:E; [by apply Hnone..| |by apply Hnone]. case_match; [by apply Hnone|].
  apply live_key_Some in E as (t & E). destruct (K_R _ _ HR1 HK) as [HJ1 _].
  destruct (J_cache _ HJ1 _ _ _ E) as (m & id' & p & Ek & Hc' & He & Hg). apply renewalKey_inj in Ek as [<- <-]; [|done..].
  unfold RelayCertStatus. apply rely_query; [|intros w2 HR2; apply Hnone; by etrans].
  intros w2 HR2 w3 HR3. assert (R n w w3) as HR by (etrans; [exact HR1|]; by etrans).
  assert (∀ b1 b2, rely (k (if b1 && negb b2 then Some (cr_cert c) else None)) w3 Q) as Hend.
  { intros b1 b2. destruct (_ && _); [apply Hk; [done|]|by apply Hn]. eapply (renewed_moves _ _ w1); [|by split; [|exists m]].
    apply R_moves. by etrans. }
  destruct (pg_uuid id); [|by apply Hn]. repeat case_match; simplify_eq; (try by apply Hn); by apply (Hend true false).
Qed.
Lemma quiet_acquire id p : pguar quiet (acquireRenewLock (rnd n) id p).
Proof. unfold acquireRenewLock. guar_steps. Qed.
Lemma acquire_release id p : answers (λ o, ∀ p, o = Some p → pguar quiet p) (acquireRenewLock (rnd n) id p).
Proof.
  unfold acquireRenewLock. apply answers_bind. intros [[]|] q Hq; [apply (inj Some) in Hq as <-|done|apply (inj Some) in Hq as <-]; guar_steps.
Qed.

(** The presented certificate is in the table, and was issued before. *)
Definition shown (l : leaf) (w : fleet) : Prop := ∃ c, ft_certs w !! lf_serial l = Some c ∧ ct_issued c < ft_clock w.
Lemma shown_moves l w w' : moves w w' → shown l w → shown l w'.
Proof.
  intros Hm (c & Hc & Hlt). destruct (mv_certs _ _ Hm _ _ Hc) as (c' & Hc' & _ & E & _). pose proof (mv_clock _ _ Hm). exists c'.
  split; [done|]. rewrite E. lia.
Qed.
Lemma rely_sign_renewal id l key csr allow row w :
  pg_uuid id = Some id → colon ∉ bytes id → K w → row_known id row w → newRelaySANAllowlist lower (rl_dns row) (rl_ip row) = Some allow →
  shown l w → rely (sign_renewal uuid_parse pg_uuid certTTL n (rnd n) id (lf_serial l) key csr allow) w (renewed l).
Proof using Hs.
  intros Hpg Hcolon HK Hrow Ha Hsh. unfold sign_renewal. apply rely_Sign; [intros w1 _; refuse|].
  intros now w1 HR1 Hd Hi. unfold RecordRenewedCert. apply rely_in_tx; [|intros w2 _; refuse]. intros now' w2 HR2 Hnow. cbn [rc_not_after rc_leaf].
  assert (R n w w2) as HR by (by etrans). pose proof (K_R _ _ HR HK) as (_ & Hnew & _). pose proof (R_moves _ _ HR) as Hm.
  destruct (row_known_moves _ _ _ _ Hm Hrow) as (r & Hr & Hrd & Hri). unfold find_relay. rewrite Hpg, Hr.
  case_match eqn:Est; [split_and!; [apply same_G|refuse|refuse]|].
  destruct (shown_moves _ _ _ (R_moves _ _ HR1) Hsh) as (c1 & Hc1 & Hlt1).
  destruct (mv_certs _ _ (R_moves _ _ HR2) _ _ Hc1) as (c & Hc & _ & Eiss & _). rewrite Hc, Hnew.
  destruct (negb (ct_relay c ≟ id) || bool_decide (is_Some (ct_revoked c))) eqn:Eb; [split_and!; [apply same_G|refuse|refuse]|].
  apply orb_false_iff in Eb as [Eid%negb_false_iff%bool_decide_eq_true _]. rewrite bool_decide_false by (by intros []). cbn [fst snd].
  assert (terminal (rl_status r) = false) as Ht.
  { apply negb_false_iff, orb_true_iff in Est as [E%bool_decide_eq_true|E%bool_decide_eq_true]; by rewrite E. }
  set (cached := MkCached _ _ _ _).
  pose proof (renew_G n id r (lf_serial l) c now' (now + certTTL) w2 Hr Ht Hc Eid ltac:(lia) Hnew) as HG. split_and!; [exact HG| |refuse].
  set (w3 := record _ _) in *.
  assert (good_leaf (cr_cert cached) w3) as Hg3.
  { eexists _, _, allow. simpl. rewrite !lookup_insert_eq. split_and!; try done. simpl. congruence. }
  assert (Renewed n (lf_serial l) (lf_serial (cr_cert cached)) ∈ ft_history w3) as He3 by (simpl; by left).
  assert (∀ w', moves w3 w' → rely (Done (Certificate (cr_cert cached))) w' (renewed l)) as Hend.
  { intros w' Hm3. apply rely_done. intros w'' HR''. eapply (renewed_moves _ _ w3); [|by split; [|exists n]]. etrans; [exact Hm3|by apply R_moves]. }
  unfold vset. apply rely_call; [|intros w4 HR4; by apply Hend, R_moves]. intros w4 HR4. pose proof (R_moves _ _ HR4) as Hm4. cbn [fst snd].
  assert (G n w4 (set_keys (<[renewalKey relayRenewResultPrefix id (lf_serial l) := (VRenewal cached, ft_clock w4 + relayRenewResultTTL)]> (ft_keys w4)) w4)) as HG4.
  { apply (cache_G n n); [done|by apply (mv_history _ _ Hm4)|by eapply good_leaf_moves]. }
  split_and!; [done|apply Hend; etrans; [exact Hm4|apply HG4]..].
Qed.
Lemma rely_renew_checked id l key csr allow row w :
  pg_uuid id = Some id → colon ∉ bytes id → K w → row_known id row w → newRelaySANAllowlist lower (rl_dns row) (rl_ip row) = Some allow →
  shown l w → rely (renew_checked uuid_parse pg_uuid certTTL n (rnd n) id (lf_serial l) key csr allow) w (renewed l).
Proof using Hs.
  intros Hpg Hcolon HK Hrow Ha Hsh. unfold renew_checked.
  assert (∀ l' w', renewed l (Certificate l') w' → rely (Done (Certificate l')) w' (renewed l)) as Hend.
  { intros l' w' Hl. apply rely_done. intros w'' HR. by eapply renewed_moves; [apply R_moves|]. }
  apply rely_cached; [done|done| |intros l' w1 _; apply Hend]. intros w1 HR1.
  eapply rely_quiet; [apply quiet_acquire|apply acquire_release|]. intros [release|] w2 HR2 Hrel; [|refuse].
  specialize (Hrel _ eq_refl). eapply prely_bind; [apply _|].
  assert (R n w w2) as HR by (by etrans). pose proof (R_moves _ _ HR) as Hm.
  apply (prely_mono _ _ _ _ (renewed l)).
  { intros a w' Hl. apply rely_skip; [done|]. intros _ w'' HR''. apply rely_done. intros w3 HR3. eapply renewed_moves; [|exact Hl].
    apply R_moves. by etrans. }
  apply rely_cached; [done|by eapply K_R| |intros l' w3 _; apply Hend]. intros w3 HR3. assert (R n w w3) as HR' by (by etrans).
  eapply rely_sign_renewal; [done|done|by eapply K_R|by eapply row_known_moves; [apply R_moves|]|done|].
  by eapply shown_moves; [apply R_moves|].
Qed.
Lemma rely_RenewCert l body w :
  K w → shown l w → rely (RenewCert lower uuid_parse pg_uuid fingerprint certTTL n (rnd n) l body) w (renewed l).
Proof using Hs.
  intros HK Hsh. unfold RenewCert. destruct (canonicalRelayID _ _) as [id|] eqn:Eid; [|refuse]. apply canonical_Some in Eid as [_ Eid].
  pose proof (pg_agrees Hs _ Eid) as Hpg. apply rely_clock. intros w1 HR1. case_match; [refuse|]. destruct body as [csr|]; [|refuse].
  case_match; [refuse|]. unfold LoadRelayByID.
  apply rely_query; [|intros w2 _; refuse]. intros w2 HR2. destruct (find_relay _ _ _) as [[id' row]|e] eqn:Ef; [|destruct e; refuse].
  apply find_relay_Ok in Ef as [Epg Hrow]. assert (id' = id) as -> by congruence. case_match; [refuse|]. unfold RelayCertStatus.
  apply rely_query; [|intros w3 _; refuse]. intros w3 HR3.
  rewrite Hpg. assert (R n w w3) as HR by (etrans; [exact HR1|by etrans]).
  assert (row_known id row w3) as Hrow3 by (apply (row_known_moves id row w2); [by apply R_moves|by exists row]).
  repeat (case_match; simplify_eq; try refuse).
  all: eapply rely_renew_checked; [done|by apply (uuid_chars Hs)|by eapply K_R|done|done|by eapply shown_moves; [apply R_moves|]].
Qed.
Lemma rely_Interceptor l p w (Q : answer → fleet → Prop) :
  (∀ a w, no_cert a → Q a w) → (∀ w', R n w w' → rely p w' Q) → rely (RelayInterceptor l p) w Q.
Proof.
  intros HQ Hp. unfold RelayInterceptor. apply rely_clock. intros w1 HR1. case_match; [refuse|].
  apply rely_skip; [auto with rel|]. intros [[]|] w2 HR2; [|refuse]. apply rely_skip; [auto with rel|]. intros ready w3 HR3.
  case_match; [refuse|]. apply rely_skip; [auto with rel|]. intros [|] w4 HR4.
  - apply rely_guar; [guar_steps|answer_steps|done].
  - apply Hp. etrans; [exact HR1|]. etrans; [exact HR2|]. by etrans.
Qed.

(** *** Revocations *)

Definition dead (path : string) (w : fleet) : Prop :=
  ∃ id r, pg_uuid path = Some id ∧ ft_relays w !! id = Some r ∧ terminal (rl_status r) = true.
Lemma dead_moves path w w' : moves w w' → dead path w → dead path w'.
Proof.
  intros Hm (id & r & Hpg & Hr & Ht). destruct (mv_relays _ _ Hm _ _ Hr) as (r' & Hr' & _ & _ & Ht'). exists id, r'. auto.
Qed.
Definition killed (path : string) (a : answer) (w : fleet) : Prop :=
  match a with Http 204 _ => dead path w | Certificate _ => False | _ => True end.
Lemma rely_destructive action actor path body remote w :
  rely (destructive uuid_parse pg_uuid action actor path body remote) w (killed path).
Proof.
  unfold destructive, authorizeRelayAction. do 3 (case_match; try refuse). destruct body as [[reason confirm]|]; [|refuse].
  do 2 (case_match; try refuse). unfold RevokeRelayGuarded.
  apply rely_in_tx; [|intros w1 _; refuse]. intros now w1 HR1 _. destruct (find_relay _ _ _) as [[id r]|e] eqn:Ef.
  - destruct (destructive_guard _ _ _ _) as [e|] eqn:Eg; cbn [fst snd].
    + split_and!; [apply same_G|destruct e; refuse|refuse].
    + apply find_relay_Ok in Ef as [Epg Hr]. apply guard_terminal in Eg. split_and!; [by apply revoke_G| |refuse].
      apply rely_skip; [auto with rel|]. intros [] w2 HR2. apply rely_skip; [auto with rel|]. intros [] w3 HR3. apply rely_done. intros w4 HR4.
      eapply dead_moves; [apply R_moves; etrans; [exact HR2|by etrans]|]. exists id. eexists. split; [done|]. split; [simpl; by rewrite lookup_insert_eq|done].
  - cbn [fst snd]. split_and!; [apply same_G|destruct e; refuse|refuse].
Qed.
End knowing.

(** ** The invariant of a pool *)

(** What the answer of request [r], run as thread [i], comes with. *)
Definition promised (i : nat) (r : option call_of) (a : answer) (w : fleet) : Prop :=
  match a with Certificate l => good_leaf l w | _ => True end ∧
  match r with
  | Some (Admin_revoke _ path _ _) | Some (Admin_delete _ path _ _) => killed path a w
  | Some (Rpc_provision _) => provisioned i a w
  | Some (Rpc_renew l _) => renewed l a w
  | _ => True
  end.
Lemma rely_serve i r w (o : option call_of) :
  K i w → match r with Rpc_renew l _ => shown l w | _ => True end → o = None ∨ o = Some r →
  prely (R i) (G i) (serve i (rnd i) r) w (promised i o).
Proof using Hs.
  intros HK Hr Ho.
  assert (∀ (p : procF answer) Q, prely (R i) (G i) p w Q → (∀ a w', Q a w' → promised i (Some r) a w') → prely (R i) (G i) p w (promised i o)) as Hmono.
  { intros p Q Hp HQ. eapply prely_mono; [|exact Hp]. intros a w' Ha. destruct Ho as [->| ->]; [split; [by apply HQ in Ha as []|done]|by apply HQ]. }
  assert (∀ a w', no_cert a → match r with Admin_create _ _ _ | Admin_drain _ _ _ _ | Admin_resume _ _ _ _ | Rpc_heartbeat _ _ | Get_crl
     | Worker_evict | Worker_refresh | Worker_drain_flags => True | _ => False end → promised i (Some r) a w') as Hno.
  { intros a w' Ha Hx. split; [by destruct a|by destruct r]. }
  destruct r; cbn [serve_relay].
  - apply (Hmono _ (λ a _, no_cert a)); [by apply rely_Create|auto].
  - eapply Hmono; [apply rely_destructive|]. intros a w' Ha. split; [by destruct a|done].
  - eapply Hmono; [apply rely_destructive|]. intros a w' Ha. split; [by destruct a|done].
  - apply (Hmono _ (λ a _, no_cert a)); [|auto]. apply rely_guar; [apply guar_Drain|apply answers_Drain|done].
  - apply (Hmono _ (λ a _, no_cert a)); [|auto]. apply rely_guar; [apply guar_Resume|apply answers_Resume|done].
  - eapply Hmono; [by apply rely_Provision|]. intros a w' Ha. split; [destruct a; try done; apply Ha|done].
  - eapply Hmono.
    + apply rely_Interceptor with (Q := renewed l); [by intros []|]. intros w' HR. apply rely_RenewCert; [by eapply K_R|].
      by eapply shown_moves; [apply (R_moves i)|].
    + intros a w' Ha. split; [destruct a; try done; apply Ha|done].
  - apply (Hmono _ (λ a _, no_cert a)); [|auto]. apply rely_Interceptor; [done|]. intros w' _.
    apply rely_guar; [apply guar_Heartbeat|apply answers_Heartbeat|done].
  - apply (Hmono _ (λ a _, no_cert a)); [|auto]. apply rely_guar; [unfold RelayCRLHandler; guar_steps|unfold RelayCRLHandler; answer_steps|done].
  - apply (Hmono _ (λ a _, no_cert a)); [|auto]. apply rely_guar; [|answer_steps|done]. apply pguar_bind; [apply guar_runEviction|done].
  - apply (Hmono _ (λ a _, no_cert a)); [|auto]. apply rely_guar; [guar_steps|answer_steps|done].
  - apply (Hmono _ (λ a _, no_cert a)); [|auto]. apply rely_guar; [|answer_steps|done]. apply pguar_bind; [apply guar_Reconcile|done].
Qed.

(** [asked]: the requests that some threads run. *)
Record inv (asked : gmap nat call_of) (c : config) : Prop := {
  inv_J : J c.1;
  inv_unused : ∀ i, (length c.2 <= i)%nat → unused i c.1 ∧ asked !! i = None;
  inv_relied : relied R G (λ i, promised i (asked !! i)) c
}.
Lemma inv_empty now : inv ∅ (empty_fleet now).
Proof using Hs. split; [split; simpl; set_solver|intros i _; split; [split; set_solver|done]|]. by intros i p. Qed.
Lemma inv_answer asked c (i : nat) a : inv asked c → c.2 !! i = Some (Done a) → promised i (asked !! i) a c.1.
Proof. intros Hi Ha. apply (inv_relied _ _ Hi i _ Ha). reflexivity. Qed.
Lemma inv_shown asked c l : inv asked c → presents c.1 c.2 l → shown l c.1.
Proof using Hs.
  intros Hi [(j & Hj) Ht]. destruct (inv_answer _ _ _ _ Hi Hj) as ((ct & _ & _ & Hct & _) & _). exists ct. auto.
Qed.
Lemma inv_serves asked c r o :
  inv asked c → may_call c.1 c.2 r → o = None ∨ o = Some r →
  prely (R (length c.2)) (G (length c.2)) (serve (length c.2) (rnd (length c.2)) r) c.1 (promised (length c.2) o).
Proof using Hs.
  intros Hi Hm Ho. apply rely_serve; [|destruct r; try done; by eapply inv_shown|done]. split; [apply (inv_J _ _ Hi)|by apply (inv_unused _ _ Hi)].
Qed.
Lemma inv_move asked c c' : pool_any fenv fstart c c' → inv asked c →
  relied R G (λ i, promised i (asked !! i)) c' ∧ (length c.2 <= length c'.2)%nat ∧
  (c'.1 = c.1 ∨ fenv c.1 c'.1 ∨ ∃ i, (i < length c.2)%nat ∧ G i c.1 c'.1).
Proof using Hs.
  intros [l Hst] Hi. assert ((length c.2 <= length c'.2)%nat) as Hlen by (destruct Hst; simpl; rewrite ?length_insert, ?length_app; lia).
  destruct (relied_step fenv fstart R G env_R G_R (λ i, promised i (asked !! i)) l c c') as [Hrel' Hmv]; [|done|by apply inv_relied|done].
  intros p (r & -> & Hm). apply (inv_serves asked); [done|done|]. left. by apply (inv_unused _ _ Hi).
Qed.
Lemma relay_inv_step asked c c' : pool_any fenv fstart c c' → inv asked c → inv asked c'.
Proof using Hs.
  intros Hst Hi. destruct (inv_move _ _ _ Hst Hi) as (Hrel' & Hlen & Hmv). pose proof Hi as [HJ Hun Hrel].
  assert ((J c.1 → J c'.1) ∧ ∀ i, (length c.2 <= i)%nat → spared i c.1 c'.1) as [HJ' Hsp].
  { destruct Hmv as [->|[He|(j & Hj & HG)]].
    - split; [done|]. intros i _. by split.
    - split; [by apply (env_R 0 _ _ He)|]. intros i _. by apply (env_R i _ _ He).
    - split; [apply HG|]. intros i Hile. apply HG. lia. }
  split; [auto| |done]. intros i Hile. destruct (Hun i ltac:(lia)) as [[Hn Hst'] Ha]. destruct (Hsp i ltac:(lia)) as [H1 H2].
  split; [|done]. split; [auto|]. intros j id He. by eapply Hst', H2.
Qed.
Lemma relay_inv_steps asked c c' : steps c c' → inv asked c → inv asked c'.
Proof using Hs. induction 1; eauto using relay_inv_step. Qed.
Lemma inv_called asked c r : inv asked c → may_call c.1 c.2 r → inv (<[length c.2 := r]> asked) (called c r).
Proof using Hs.
  intros Hi Hm. pose proof Hi as [HJ Hun Hrel]. split; [done| |].
  - simpl. intros i. rewrite length_app. simpl. intros Hlen. destruct (Hun i ltac:(lia)). split; [done|]. by rewrite lookup_insert_ne by lia.
  - intros i p [[Hlt Hp]|[-> <-]]%lookup_snoc_Some; simpl.
    + rewrite lookup_insert_ne by lia. by apply Hrel.
    + rewrite lookup_insert_eq. by apply (inv_serves asked); [..|right].
Qed.
Lemma steps_grow c c' : steps c c' → (length c.2 <= length c'.2)%nat.
Proof.
  induction 1 as [|c1 c2 c3 [l Hst] _ IH]; [done|]. destruct Hst; simpl in *; rewrite ?length_insert, ?length_app in IH; lia.
Qed.
Lemma step_moves asked c c' : pool_any fenv fstart c c' → inv asked c → moves c.1 c'.1.
Proof using Hs.
  intros Hst Hi. destruct (inv_move _ _ _ Hst Hi) as (_ & _ & Hmv).
  destruct Hmv as [->|[He|(j & Hj & HG)]]; [reflexivity|by apply (env_R 0 _ _ He)|apply HG].
Qed.
Lemma steps_moves asked c c' : steps c c' → inv asked c → moves c.1 c'.1.
Proof using Hs.
  induction 1 as [|c1 c2 c3 H1 _ IH]; intros Hi; [reflexivity|]. etrans; [by eapply step_moves|]. by eapply IH, relay_inv_step.
Qed.

(** ** Theorems *)

Lemma listed_revoked w s c :
  ft_certs w !! s = Some c → is_Some (ct_revoked c) → ft_clock w < ct_not_after c →
  IsRevoked s (list_to_set (normalizeHexSerial <$> ListRevokedRelaySerials w)) = true.
Proof.
  intros Hc Hr Hlt. unfold IsRevoked. case_match; [done|]. apply bool_decide_eq_true, elem_of_list_to_set, list_elem_of_fmap. exists s. split; [done|].
  unfold ListRevokedRelaySerials. apply list_elem_of_bind. exists (s, c). split; [|by apply elem_of_map_to_list].
  unfold listed. rewrite bool_decide_true by done. rewrite (proj2 (Z.ltb_lt _ _) Hlt). by left.
Qed.

(** C21: once an administrator's revocation of a relay is answered with success,
    then in every interleaving of all requests the relay stays revoked or deleted,
    and each certificate that was or will be given out for it, by provisionings and
    renewals that overlapped the revocation too, is on record as revoked, and is
    refused by any set of revoked serials loaded from then on while it is valid. *)
Theorem revoked_relay_is_dead now actor path body remote c c1 c2 msg :
  steps (empty_fleet now) c → steps (called c (Admin_revoke actor path body remote)) c1 →
  c1.2 !! length c.2 = Some (Done (Http 204 msg)) → steps c1 c2 →
  ∃ id r, pg_uuid path = Some id ∧ ft_relays c2.1 !! id = Some r ∧ terminal (rl_status r) = true ∧
    ∀ i l, c2.2 !! i = Some (Done (Certificate l)) → lf_id l = id →
      ∃ ct, ft_certs c2.1 !! lf_serial l = Some ct ∧ is_Some (ct_revoked ct) ∧
        (ft_clock c2.1 < ct_not_after ct →
           IsRevoked (lf_serial l) (list_to_set (normalizeHexSerial <$> ListRevokedRelaySerials c2.1)) = true).
Proof using Hs.
  intros H0 H1 Ha H2. pose proof (inv_called _ _ (Admin_revoke actor path body remote) (relay_inv_steps _ _ _ H0 (inv_empty now)) I) as Hi.
  pose proof (relay_inv_steps _ _ _ H1 Hi) as Hi1. pose proof (relay_inv_steps _ _ _ H2 Hi1) as Hi2.
  destruct (inv_answer _ _ _ _ Hi1 Ha) as [_ Hk]. rewrite lookup_insert_eq in Hk.
  destruct (dead_moves _ _ _ (steps_moves _ _ _ H2 Hi1) Hk) as (id & r & Hpg & Hr & Ht). exists id, r. split_and!; [done..|].
  intros i l Hl <-. destruct (inv_answer _ _ _ _ Hi2 Hl) as [(ct & r' & allow & Hct & Hid & _) _]. exists ct.
  assert (is_Some (ct_revoked ct)) as Hrev by by eapply (J_dead _ (inv_J _ _ Hi2)).
  split_and!; [done..|]. by apply listed_revoked.
Qed.

(** C22: two provisionings that are both answered with a certificate are for
    different relays: whatever tokens they present and however they interleave, no
    relay is provisioned twice. *)
Theorem relay_provisioned_once now q1 q2 c c1 c2 l1 l2 :
  steps (empty_fleet now) c → steps (called c (Rpc_provision q1)) c1 → steps (called c1 (Rpc_provision q2)) c2 →
  c2.2 !! length c.2 = Some (Done (Certificate l1)) → c2.2 !! length c1.2 = Some (Done (Certificate l2)) →
  lf_id l1 ≠ lf_id l2.
Proof using Hs.
  intros H0 H1 H2 Ha1 Ha2 E. pose proof (inv_called _ _ (Rpc_provision q1) (relay_inv_steps _ _ _ H0 (inv_empty now)) I) as Hi.
  pose proof (inv_called _ _ (Rpc_provision q2) (relay_inv_steps _ _ _ H1 Hi) I) as Hi1. pose proof (relay_inv_steps _ _ _ H2 Hi1) as Hi2.
  assert (length c.2 < length c1.2)%nat as Hlen by (pose proof (steps_grow _ _ H1) as Hg; simpl in Hg; rewrite length_app in Hg; simpl in Hg; lia).
  destruct (inv_answer _ _ _ _ Hi2 Ha1) as [_ Hp1], (inv_answer _ _ _ _ Hi2 Ha2) as [_ Hp2].
  rewrite lookup_insert_ne, lookup_insert_eq in Hp1 by lia. rewrite lookup_insert_eq in Hp2.
  destruct Hp1 as (_ & j1 & Hb1), Hp2 as (_ & j2 & Hb2). pose proof (inv_J _ _ Hi2) as HJ.
  destruct (J_burned _ HJ _ _ _ Hb1) as ((n1 & Hs1) & _ & Hu), (J_burned _ HJ _ _ _ Hb2) as ((n2 & Hs2) & _).
  destruct (J_stored _ HJ _ _ _ Hs1) as [Ej1 Ei1], (J_stored _ HJ _ _ _ Hs2) as [Ej2 Ei2].
  assert (n1 = n2) as -> by (apply (fresh_ids Hs); congruence). assert (j1 = j2) as -> by congruence.
  pose proof (Hu _ _ Hb2). lia.
Qed.

(** C23: of the certificates that renewals of one certificate are answered with, at
    most one is unrevoked at any time, with lost answers, expired locks and a
    failing cache. *)
Theorem one_live_renewal now l csr1 csr2 c c1 c2 l1 l2 :
  steps (empty_fleet now) c → presents c.1 c.2 l → steps (called c (Rpc_renew l csr1)) c1 →
  presents c1.1 c1.2 l → steps (called c1 (Rpc_renew l csr2)) c2 →
  c2.2 !! length c.2 = Some (Done (Certificate l1)) → c2.2 !! length c1.2 = Some (Done (Certificate l2)) →
  ∃ ct1 ct2, ft_certs c2.1 !! lf_serial l1 = Some ct1 ∧ ft_certs c2.1 !! lf_serial l2 = Some ct2 ∧
    (lf_serial l1 = lf_serial l2 ∨ is_Some (ct_revoked ct1) ∨ is_Some (ct_revoked ct2)).
Proof using Hs.
  intros H0 Hp H1 Hp' H2 Ha1 Ha2. pose proof (inv_called _ _ (Rpc_renew l csr1) (relay_inv_steps _ _ _ H0 (inv_empty now)) Hp) as Hi.
  pose proof (inv_called _ _ (Rpc_renew l csr2) (relay_inv_steps _ _ _ H1 Hi) Hp') as Hi1. pose proof (relay_inv_steps _ _ _ H2 Hi1) as Hi2.
  assert (length c.2 < length c1.2)%nat as Hlen by (pose proof (steps_grow _ _ H1) as Hg; simpl in Hg; rewrite length_app in Hg; simpl in Hg; lia).
  destruct (inv_answer _ _ _ _ Hi2 Ha1) as [_ Hr1], (inv_answer _ _ _ _ Hi2 Ha2) as [_ Hr2].
  rewrite lookup_insert_ne, lookup_insert_eq in Hr1 by lia. rewrite lookup_insert_eq in Hr2.
  destruct Hr1 as ((ct1 & _ & _ & Hc1 & _) & m1 & He1), Hr2 as ((ct2 & _ & _ & Hc2 & _) & m2 & He2). exists ct1, ct2. split_and!; [done..|].
  destruct (ct_revoked ct1) eqn:E1; [right; left; by eexists|]. destruct (ct_revoked ct2) eqn:E2; [right; right; by eexists|]. left.
  by eapply (J_single _ (inv_J _ _ Hi2)).
Qed.

(** C24: each certificate given out, by a provisioning or a renewal, is in the table
    under its relay with its end, and names only what the lists of the relay's row
    allow, whatever the signing request asked for. *)
Theorem certificates_within_allowlist now c i l :
  steps (empty_fleet now) c → c.2 !! i = Some (Done (Certificate l)) →
  ∃ ct r allow, ft_certs c.1 !! lf_serial l = Some ct ∧ ct_relay ct = lf_id l ∧ lf_not_after l = numeric_date (ct_not_after ct) ∧
    ft_relays c.1 !! lf_id l = Some r ∧ newRelaySANAllowlist lower (rl_dns r) (rl_ip r) = Some allow ∧
    lf_dns l ⊆ al_dns allow ∧ lf_ips l ⊆ al_ips allow.
Proof using Hs.
  intros H0 Ha. apply (inv_answer _ _ _ _ (relay_inv_steps _ _ _ H0 (inv_empty now)) Ha).
Qed.
End safety.

(** ** Drains *)

Lemma elem_eligible id r w : (id, r) ∈ eligible_relays w ↔ ft_relays w !! id = Some r ∧ eligible r = true.
Proof. unfold eligible_relays. rewrite list_elem_of_filter, elem_of_map_to_list. simpl. by rewrite (comm and). Qed.
(** Beside an eligible relay that is not the only one there is another. *)
Lemma another_eligible id r w :
  ft_relays w !! id = Some r → eligible r = true → length (eligible_relays w) ≠ 1%nat →
  ∃ id' r', id' ≠ id ∧ ft_relays w !! id' = Some r' ∧ eligible r' = true.
Proof.
  intros Hr He Hlen. assert ((id, r) ∈ eligible_relays w) as Hin by by apply elem_eligible.
  assert (NoDup (eligible_relays w)) as Hnd by (apply NoDup_filter, NoDup_map_to_list).
  assert (∀ kv, kv ∈ eligible_relays w → kv.1 = id → kv = (id, r)) as Hid.
  { intros [i x] [Hx _]%elem_eligible Hi. simpl in *. congruence. }
  destruct (eligible_relays w) as [|[i1 r1] [|[i2 r2] l]] eqn:E; [set_solver|done|].
  assert ((i1, r1) ∈ eligible_relays w ∧ (i2, r2) ∈ eligible_relays w) as [[H1 H1']%elem_eligible [H2 H2']%elem_eligible]
    by (rewrite E; set_solver).
  destruct (decide (i1 = id)) as [Ei1|Hne]; [|by exists i1, r1]. exists i2, r2. split_and!; [|done|done]. intros Ei2.
  pose proof (Hid (i1, r1) ltac:(set_solver) Ei1) as E1. pose proof (Hid (i2, r2) ltac:(set_solver) Ei2) as E2.
  apply NoDup_cons in Hnd as [Hni _]. rewrite E1, E2 in Hni. set_solver.
Qed.

Section drains.
Context (uuid_parse pg_uuid : string → option uuid).

(** Requests to drain and to resume relays, in any number. *)
Definition draining (_ : fleet) (_ : list (procF answer)) (p : procF answer) : Prop :=
  ∃ actor path remote, (∃ body, p = Drain uuid_parse pg_uuid actor path body remote) ∨ (∃ body, p = Resume uuid_parse pg_uuid actor path body remote).
Definition some_eligible (w : fleet) : Prop := ∃ id r, ft_relays w !! id = Some r ∧ eligible r = true.
Abbreviation keeps := (λ w w', some_eligible w → some_eligible w').

Lemma keeps_rexec {A} (f : fleet → result rerror A * fleet) : (∀ w, some_eligible w → some_eligible (f w).2) → pguar keeps (rexec f).
Proof. intros Hf. apply pguar_bind; [by apply pguar_call|done]. Qed.
Lemma keeps_DrainRelay raw e : pguar keeps (DrainRelay pg_uuid raw e).
Proof.
  apply keeps_rexec. intros w Hw. destruct (pg_uuid raw); [|done]. destruct (ft_relays w !! raw) as [r|] eqn:Hr; [|done].
  do 4 (destruct (bool_decide _); [done|]). destruct (eligible r && (length (eligible_relays w) =? 1)%nat) eqn:Eb; [done|]. simpl.
  assert (∃ id' r', id' ≠ raw ∧ ft_relays w !! id' = Some r' ∧ eligible r' = true) as (id' & r' & Hne & Hr' & He').
  { destruct (eligible r) eqn:He; simpl in Eb; [eapply another_eligible; [done|done|by apply Nat.eqb_neq]|].
    destruct Hw as (i & x & Hx & Hex). exists i, x. split_and!; [|done|done]. intros ->. congruence. }
  exists id', r'. simpl. by rewrite lookup_insert_ne.
Qed.
Lemma keeps_ResumeRelay raw e : pguar keeps (ResumeRelay pg_uuid raw e).
Proof.
  apply keeps_rexec. intros w (i & x & Hx & Hex). destruct (find_relay _ _ _) as [[id r]|] eqn:E; [|by exists i, x].
  apply find_relay_Ok in E as [_ Hr]. do 2 (destruct (bool_decide (rl_status _ = _)); [by exists i, x|]). case_bool_decide as Ed; [by exists i, x|]. simpl.
  exists i, x. simpl. split; [|done]. rewrite lookup_insert_ne; [done|]. intros ->. assert (x = r) as -> by congruence. apply Ed.
  revert Hex. unfold eligible. by destruct (rl_drain r); rewrite ?andb_false_r.
Qed.
Lemma keeps_finish id b r : pguar keeps (finishDrainChange id b r).
Proof.
  unfold finishDrainChange, MarkDraining, ClearDraining. destruct r as [[|]|]; [|done..]. apply pguar_bind; [|done].
  apply pguar_bind; [destruct b; by apply pguar_call|]. intros _. by apply pguar_atom.
Qed.
Lemma keeps_draining w ps p : draining w ps p → pguar keeps p.
Proof.
  intros (actor & path & remote & [(body & ->)|(body & ->)]); unfold Drain, Resume, authorizeRelayAction;
    repeat (case_match; [try done|]); try done; repeat (case_match; try done).
  all: apply pguar_bind; [apply keeps_DrainRelay || apply keeps_ResumeRelay|]; intros r; apply keeps_finish.
Qed.

(** as long as some relay takes new connections, no interleaving of requests
    to drain and to resume relays leaves none that does; not even two drains of
    the last two relays at once. *)
Theorem drains_leave_one w c :
  rtc (pool_any eq draining) (w, []) c → some_eligible w → some_eligible c.1.
Proof.
  intros Hst Hw. assert (kept some_eligible c) as []; [|done].
  eapply (steps_keep eq draining (kept some_eligible)); [|exact Hst|by split].
  intros l c1 c2 Hs. apply (kept_step eq draining some_eligible l c1 c2); [by intros ? ? ->| |done].
  intros p Hp. eapply prg_of_guar; [|by eapply keeps_draining]. auto.
Qed.
End drains.

(** ** A provisioning token *)

Section token.
Context (lower : string → string) (uuid_parse pg_uuid : string → option uuid) (signed : string → option ProvisioningClaims) (certTTL : duration).

(** What [Provision] checks before it burns the token is all that the signer
    checks. *)
Lemma precheck_validates id csr allow :
  uuid_parse id = Some id → precheckRelayCSR lower id csr allow = None → validateRelayCSR uuid_parse id csr (al_dns allow) (al_ips allow) = true.
Proof.
  intros Hid. unfold precheckRelayCSR, validateRelayCSR. rewrite (bool_decide_true (uuid_parse id = Some id)) by done.
  destruct (cs_signed csr), (bool_decide (cs_uris csr = _)), (cs_p384 csr); simpl; try done.
  destruct (precheck_dns _ _ _) eqn:Ed; [done|]. destruct (forallb (allowsIP allow) _) eqn:Ei; [|done]. intros _. apply andb_true_iff. split; [|done].
  revert Ed. induction (cs_dns csr) as [|name names IH]; simpl; [done|]. destruct (canonicalDNSName lower name) as [x|]; [|done].
  case_bool_decide as E; [|done]. subst x. unfold allowsDNS. destruct (bool_decide (name ∈ al_dns allow)); [|done]. by simpl.
Qed.

End token.
