(* ===== verification/RelayRun.v ===== *)
(** * Relays: runs

    Concrete services, two relays, and the runs that show the theorems of
    [RelaySafety] at work; and two runs that the code's comments exclude. *)

From Stdlib Require Import ZArith Lia Ascii.
From stdpp Require Import pretty.
From S2P Require Import Prelude GoText Sql Conc Provider GoNet RelayPool Relay RelaySafety.
Open Scope Z_scope.
Set Default Proof Using "Type".

(** ** Services *)

Definition read_id (s : string) : option uuid := if contains_byte colon (bytes s) then None else Some s.
Definition draw (n : nat) : fdraws := MkFdraws ("relay" +:+ pretty n) ("jti" +:+ pretty n) (pretty n) ("lock" +:+ pretty n).
Definition noon : time := 63900000000 * Second.
Definition token_sign (c : ProvisioningClaims) : option string := Some ("token " +:+ pc_ID c).
Definition claims_of (jti id : string) : ProvisioningClaims :=
  MkProv jti id ControllerIssuer [provisioningAudience] noon (Some (noon + ProvisioningTokenTTL)) id.
Definition token_read (t : string) : option ProvisioningClaims :=
  if t ≟ "token jti0" then Some (claims_of "jti0" "relay0") else if t ≟ "token jti1" then Some (claims_of "jti1" "relay1") else None.
Definition week : duration := 7 * 24 * Hour.

Lemma fleet_services0 : fleet_services read_id read_id draw.
Proof.
  split; [done| | | |]; [|intros i j Hij; simpl in Hij..].
  - intros id. unfold read_id, contains_byte. by case_bool_decide.
  - by apply (inj (String.append _)), (inj pretty) in Hij.
  - by apply (inj (String.append _)), (inj pretty) in Hij.
  - by apply (inj pretty) in Hij.
Qed.

Abbreviation called0 := (called id read_id read_id token_sign token_read Some week Minute (5 * Minute) false draw).
Abbreviation fstart0 := (fstart id read_id read_id token_sign token_read Some week Minute (5 * Minute) false draw).
Abbreviation fsteps := (rtc (pool_any fenv fstart0)).
Abbreviation config := (fleet * list (procF answer))%type.
Abbreviation frun := (run_threads (W := fleet) (A := answer)).
(** Request [r], to its end. *)
Definition request (r : call_of) (c : config) : config := frun (repeat (length c.2) 60) (called0 c r).
Definition wait (d : duration) (c : config) : config :=
  (MkFleet (ft_relays c.1) (ft_certs c.1) (ft_keys c.1) (ft_audits c.1) (ft_revoked c.1) (ft_ready c.1) (ft_told c.1)
     (ft_clock c.1 + d) (ft_history c.1), c.2).

Definition boss : Actor := MkActor "boss" "boss@example.org" RoleSuperAdmin.
Definition from : string := "192.0.2.7:4711".
Definition create (name : string) : call_of := Admin_create boss (Some ("Relay " +:+ name, [name +:+ ".example.org"], ["192.0.2.1"])) from.
Definition csr_of (id key name : string) : CSR := MkCSR true [RelaySPIFFEID id] true key [name +:+ ".example.org"] [].
Definition provision (id token key name : string) : call_of :=
  Rpc_provision (MkProvision id [] [] (Some (csr_of id key name)) token "1.0" "host").

Definition c_start : config := empty_fleet noon.
Definition c_created : config := request (create "b") (request (create "a") c_start).
Definition first : call_of := provision "relay0" "token jti0" "key a" "a".
Definition second : call_of := provision "relay1" "token jti1" "key b" "b".
(** The second provisioning overlaps the first. *)
Definition c_half : config := frun (repeat 2%nat 7) (called0 c_created first).
Definition c_provisioned : config := frun (repeat 2%nat 40) (request second c_half).
Definition leaf_a (serial : string) : leaf := MkLeaf "relay0" serial (noon + week) "key a" ["a.example.org"] [].
Definition leaf_b : leaf := MkLeaf "relay1" "3" (noon + week) "key b" ["b.example.org"] [].

(** ** Two renewals *)

Definition c_ready : config := wait Minute (request Worker_refresh c_provisioned).
Definition renew : call_of := Rpc_renew (leaf_a "2") (Some (csr_of "relay0" "key a" "a")).
(** The first renewal has signed; its lock expires before it has recorded the
    certificate, and the relay tries again. *)
Definition c_signed : config := wait (31 * Second) (frun (repeat 5%nat 19) (called0 c_ready renew)).
Definition c_renewed : config := frun (repeat 5%nat 40) (request renew c_signed).
Definition revoke : call_of := Admin_revoke boss "relay0" (Some ("stolen", "Relay a")) from.
Definition c_revoked : config := request revoke c_renewed.
(** The relay tries to renew once more. *)
Definition c_again : config := request renew c_revoked.

Lemma call_steps c r : may_call c.1 c.2 r → fsteps c (called0 c r).
Proof. intros Hm. apply rtc_once. exists None. destruct c as [w ps]. apply step_start. by exists r. Qed.
Lemma request_steps c r : may_call c.1 c.2 r → fsteps c (request r c).
Proof. intros Hm. etrans; [by apply call_steps|apply run_threads_steps]. Qed.
Lemma wait_steps d c : 0 <= d → fsteps c (wait d c).
Proof. intros Hd. apply rtc_once. exists None. destruct c as [w ps]. apply step_env. split_and!; try done. simpl. lia. Qed.
Lemma presents_row (c : config) l (i : nat) ct :
  c.2 !! i = Some (Done (Certificate l)) → ft_certs c.1 !! lf_serial l = Some ct → ct_issued ct < ft_clock c.1 → presents c.1 c.2 l.
Proof. intros Hi Hc Hlt. split; [by exists i|]. intros ct' Hc'. by simplify_eq. Qed.

Lemma created_steps : fsteps c_start c_created.
Proof. transitivity (request (create "a") c_start); by apply request_steps. Qed.
Lemma half_steps : fsteps (called0 c_created first) c_half.
Proof. apply run_threads_steps. Qed.
Lemma provisioned_steps : fsteps (called0 c_half second) c_provisioned.
Proof. transitivity (request second c_half); apply run_threads_steps. Qed.
Lemma provisioned_answers :
  c_provisioned.2 !! length c_created.2 = Some (Done (Certificate (leaf_a "2"))) ∧ c_provisioned.2 !! length c_half.2 = Some (Done (Certificate leaf_b)).
Proof. by vm_compute. Qed.
Lemma start_provisioned : fsteps c_start c_provisioned.
Proof.
  transitivity c_created; [exact created_steps|]. transitivity (called0 c_created first); [by apply call_steps|].
  transitivity c_half; [exact half_steps|]. transitivity (called0 c_half second); [by apply call_steps|exact provisioned_steps].
Qed.
Lemma relay_provisioned_once_witness : lf_id (leaf_a "2") ≠ lf_id leaf_b.
Proof.
  exact (relay_provisioned_once id read_id read_id token_sign token_read Some week Minute (5 * Minute) false draw fleet_services0 noon
    _ _ c_created c_half c_provisioned (leaf_a "2") leaf_b created_steps half_steps provisioned_steps
    (proj1 provisioned_answers) (proj2 provisioned_answers)).
Defined.
Lemma certificates_within_allowlist_witness :
  ∃ ct r allow, ft_certs c_provisioned.1 !! "2" = Some ct ∧ ct_relay ct = "relay0" ∧ noon + week = numeric_date (ct_not_after ct) ∧
    ft_relays c_provisioned.1 !! "relay0" = Some r ∧ newRelaySANAllowlist id (rl_dns r) (rl_ip r) = Some allow ∧
    ["a.example.org"] ⊆ al_dns allow ∧ [] ⊆ al_ips allow.
Proof.
  exact (certificates_within_allowlist id read_id read_id token_sign token_read Some week Minute (5 * Minute) false draw fleet_services0 noon
    c_provisioned _ (leaf_a "2") start_provisioned (proj1 provisioned_answers)).
Defined.

Lemma ready_steps : fsteps c_provisioned c_ready.
Proof. transitivity (request Worker_refresh c_provisioned); [by apply request_steps|by apply wait_steps]. Qed.
Lemma start_ready : fsteps c_start c_ready.
Proof. transitivity c_provisioned; [exact start_provisioned|exact ready_steps]. Qed.
Definition row_2 : CertRow := MkCert "relay0" noon (noon + week) None None.
Lemma presents_ready : presents c_ready.1 c_ready.2 (leaf_a "2").
Proof. apply (presents_row c_ready (leaf_a "2") 2 row_2); by vm_compute. Qed.
Lemma signed_steps : fsteps (called0 c_ready renew) c_signed.
Proof. transitivity (frun (repeat 5%nat 19) (called0 c_ready renew)); [apply run_threads_steps|by apply wait_steps]. Qed.
Lemma presents_signed : presents c_signed.1 c_signed.2 (leaf_a "2").
Proof. apply (presents_row c_signed (leaf_a "2") 2 row_2); by vm_compute. Qed.
Lemma renewed_steps : fsteps (called0 c_signed renew) c_renewed.
Proof. transitivity (request renew c_signed); apply run_threads_steps. Qed.
Definition leaf_5 : leaf := MkLeaf "relay0" "5" (noon + Minute + week) "key a" ["a.example.org"] [].
Definition leaf_6 : leaf := MkLeaf "relay0" "6" (noon + Minute + 31 * Second + week) "key a" ["a.example.org"] [].
Lemma renewed_answers :
  c_renewed.2 !! length c_ready.2 = Some (Done (Certificate leaf_5)) ∧ c_renewed.2 !! length c_signed.2 = Some (Done (Certificate leaf_6)).
Proof. by vm_compute. Qed.
Lemma one_live_renewal_witness :
  ∃ ct1 ct2, ft_certs c_renewed.1 !! "5" = Some ct1 ∧ ft_certs c_renewed.1 !! "6" = Some ct2 ∧
    ("5" = "6" ∨ is_Some (ct_revoked ct1) ∨ is_Some (ct_revoked ct2)).
Proof.
  exact (one_live_renewal id read_id read_id token_sign token_read Some week Minute (5 * Minute) false draw fleet_services0 noon
    (leaf_a "2") _ _ c_ready c_signed c_renewed leaf_5 leaf_6 start_ready presents_ready signed_steps presents_signed renewed_steps
    (proj1 renewed_answers) (proj2 renewed_answers)).
Defined.
Lemma start_renewed : fsteps c_start c_renewed.
Proof.
  transitivity c_ready; [exact start_ready|]. transitivity (called0 c_ready renew); [apply call_steps; exact presents_ready|].
  transitivity c_signed; [exact signed_steps|]. transitivity (called0 c_signed renew); [apply call_steps; exact presents_signed|exact renewed_steps].
Qed.

(** ** A revocation *)

Lemma revoked_steps : fsteps (called0 c_renewed revoke) c_revoked.
Proof. apply run_threads_steps. Qed.
Lemma revoked_done : c_revoked.2 !! length c_renewed.2 = Some (Done (Http 204 "")).
Proof. by vm_compute. Qed.
Lemma presents_revoked : presents c_revoked.1 c_revoked.2 (leaf_a "2").
Proof.
  apply (presents_row c_revoked (leaf_a "2") 2 (revoke_cert (noon + Minute + 31 * Second) (Some "stolen") row_2)); by vm_compute.
Qed.
Lemma renew_again_steps : fsteps c_revoked c_again.
Proof. apply request_steps. exact presents_revoked. Qed.
Lemma revoked_relay_is_dead_witness :
  ∃ id r, read_id "relay0" = Some id ∧ ft_relays c_again.1 !! id = Some r ∧ terminal (rl_status r) = true ∧
    ∀ i l, c_again.2 !! i = Some (Done (Certificate l)) → lf_id l = id →
      ∃ ct, ft_certs c_again.1 !! lf_serial l = Some ct ∧ is_Some (ct_revoked ct) ∧
        (ft_clock c_again.1 < ct_not_after ct →
           IsRevoked (lf_serial l) (list_to_set (normalizeHexSerial <$> ListRevokedRelaySerials c_again.1)) = true).
Proof.
  exact (revoked_relay_is_dead id read_id read_id token_sign token_read Some week Minute (5 * Minute) false draw fleet_services0 noon
    boss "relay0" _ from c_renewed c_revoked c_again "" start_renewed revoked_steps revoked_done renew_again_steps).
Defined.

(** ** A refused provisioning *)

(** The signing request asks for a name that is not on the list. *)
Definition greedy : ProvisionRequest := MkProvision "relay0" [] [] (Some (csr_of "relay0" "key a" "b")) "token jti0" "1.0" "host".
Lemma greedy_alone :
  alone (Provision id read_id read_id token_read week 2 (draw 2) greedy) c_created.1 = (Status PermissionDenied "rejected", c_created.1).
Proof. by vm_compute. Qed.
Lemma token_live : live_key (provisioningJTIPrefix +:+ "jti0") c_created.1 = Some (VText "relay0").
Proof. by vm_compute. Qed.
Lemma greedy_token claims v :
  token_read (pq_token greedy) = Some claims → live_key (provisioningJTIPrefix +:+ pc_ID claims) c_created.1 = Some v → v = VText (pc_RelayID claims).
Proof.
  intros Hc. assert (claims = claims_of "jti0" "relay0") as -> by (apply (inj Some); rewrite <-Hc; by vm_compute).
  cbn [pc_ID claims_of]. rewrite token_live. intros Hv. by injection Hv.
Qed.

(** ** Two drains of the last two relays *)

Definition public_relay (name : string) : RelayRow :=
  MkRelay name "active" [] [] None None None None None (Some "192.0.2.1:9093") None None (Some "public") 3 100 None "high" None None noon None (Some noon).
Definition pair : fleet := MkFleet {["a" := public_relay "a"; "b" := public_relay "b"]} ∅ ∅ [] ∅ true [] noon [].
Definition drain (path : string) : procF answer := Drain read_id read_id boss path (Some "maintenance") from.
Definition c_drained : config := frun [0; 1; 1; 0; 0; 1; 0; 1; 0; 1; 0; 1; 0; 1]%nat (pair, [drain "a"; drain "b"]).
Lemma drained_answers : c_drained.2 !! 0%nat = Some (Done (Http 409 "last_eligible_relay")) ∧ c_drained.2 !! 1%nat = Some (Done (Http 204 "")).
Proof. by vm_compute. Qed.
Lemma drains_leave_one_witness : some_eligible c_drained.1.
Proof.
  refine (drains_leave_one read_id read_id pair c_drained _ _); [|exists "a", (public_relay "a"); by vm_compute].
  transitivity (pair, [drain "a"]); [|transitivity (pair, [drain "a"; drain "b"]); [|apply run_threads_steps]].
  - apply rtc_once. exists None. apply (step_start _ _ (drain "a") pair []). exists boss, "a", from. left. by eexists.
  - apply rtc_once. exists None. apply (step_start _ _ (drain "b") pair [drain "a"]). exists boss, "b", from. left. by eexists.
Defined.

(** ** Two runs *)

Definition beat (l : leaf) : call_of := Rpc_heartbeat l (MkHeartbeat (Some "192.0.2.1:40000") 9093 "1.0" "host" 3 100).
Definition c_beating : config := request (beat leaf_5) (wait Second c_renewed).

(** A refresh of the revoked serials has read the table when a revocation runs to
    its end, its own refresh included, and is answered with success; then the first
    refresh stores what it read, and the revoked relay's heartbeats are accepted. *)
Definition c_overtaken : config :=
  frun (repeat 8%nat 5) (request revoke (frun (repeat 8%nat 2) (called0 c_beating Worker_refresh))).
Example old_refresh_unrevokes :
  c_overtaken.2 !! 9%nat = Some (Done (Http 204 "")) ∧ IsRevoked "5" (ft_revoked c_overtaken.1) = false ∧
  (request (beat leaf_5) c_overtaken).2 !! 10%nat = Some (Done Accepted).
Proof. by vm_compute. Qed.

(** A relay beats all the time, and its writes to the database are throttled; one
    failed read of its liveness key is enough to evict it. *)
Definition c_throttled : config := request (beat leaf_5) (wait (100 * Second) c_beating).
Definition evicted_after (f : fault) : config :=
  frun (repeat 9%nat 40) (run_thread 9 f (frun (repeat 9%nat 3) (called0 c_throttled Worker_evict))).
Example failed_read_evicts :
  c_throttled.2 !! 8%nat = Some (Done Accepted) ∧
  rl_status <$> ft_relays (evicted_after NoFault).1 !! "relay0" = Some "active" ∧
  rl_status <$> ft_relays (evicted_after Refused).1 !! "relay0" = Some "inactive".
Proof. by vm_compute. Qed.
